(** * FreeRCT: the RCD resource loader of [sprite_store.cpp]

    A shallow embedding of the block handlers of [src/sprite_store.cpp]
    ([LoadSpriteFromFile], [ReadUtf8Text], [TextData::Load], the sprite-set
    handlers, [Animation::Load] and the dispatcher [SpriteManager::Load]) and
    the properties of the RCD container format that they enforce. *)

From Stdlib Require Import ZArith Lia.
From Stdlib.Strings Require Import Byte.
From stdpp Require Import base gmap strings list.

Local Open Scope Z_scope.

(** ** Bytes *)

Definition byte_val (b : byte) : Z := Z.of_N (Byte.to_N b).

Definition byte_of (z : Z) : byte :=
  match Byte.of_N (Z.to_N z) with Some b => b | None => x00 end.

(** ** Outcomes

    A C++ handler either runs to [return true] (or to its value), runs to
    [return false], or does not return: it would write outside one of its
    fixed-size arrays, it fails an assertion, or it throws an exception that
    nothing catches. *)

Inductive Res (A : Type) : Type :=
| Ok (a : A)
| Fail
| Fault.
Arguments Ok {A} a.
Arguments Fail {A}.
Arguments Fault {A}.

(** ** The file reader

    [RcdFileReader] has the fields the handlers use: the header of the current
    block ([name], [version], [size]) and the position in the file. *)

Record RcdFileReader := mkReader {
  rcd_data : list byte;   (* content of the file *)
  file_pos : nat;         (* bytes consumed so far *)
  rcd_name : string;      (* name of the current block *)
  rcd_version : Z;        (* version of the current block *)
  rcd_size : Z            (* payload length of the current block *)
}.

(** The state a handler works on: the reader and the object that it fills in
    place ([W]: the sprite storage for the [SpriteManager] handlers). *)

Record LoadState (W : Type) := mkState {
  rcd : RcdFileReader;
  world : W
}.
Arguments mkState {W} rcd world.
Arguments rcd {W} l.
Arguments world {W} l.

Definition M (W A : Type) : Type := LoadState W → Res A * LoadState W.

#[global] Instance M_ret {W} : MRet (M W) := λ A a s, (Ok a, s).

#[global] Instance M_bind {W} : MBind (M W) := λ A B f m s,
  match m s with
  | (Ok a, s') => f a s'
  | (Fail, s') => (Fail, s')
  | (Fault, s') => (Fault, s')
  end.

(** [return false] *)
Definition return_false {W A} : M W A := λ s, (Fail, s).

(** a write outside an array, a failed assertion, or an exception *)
Definition fault {W A} : M W A := λ s, (Fault, s).

Definition get_reader {W} : M W RcdFileReader := λ s, (Ok (rcd s), s).
Definition get_world {W} : M W W := λ s, (Ok (world s), s).
Definition modify_world {W} (f : W → W) : M W unit :=
  λ s, (Ok tt, mkState (rcd s) (f (world s))).

Definition advance {W} (n : nat) (s : LoadState W) : LoadState W :=
  let r := rcd s in
  mkState (mkReader (rcd_data r) (file_pos r + n)%nat (rcd_name r) (rcd_version r) (rcd_size r))
          (world s).

(** Bytes of the file that have not been read yet. *)
Definition remaining (r : RcdFileReader) : list byte := drop (file_pos r) (rcd_data r).

Section Reader.
Context {W : Type}.

(** Modelled from the spec: the scalar codec of [RcdFileReader]
    ([rcdfile.cpp] is not among the sources).  A read consumes a fixed
    number of bytes; a read past the end of the stream makes the whole
    operation fail, no partial value is returned.  Multi-byte integers are
    taken least significant byte first. *)
Definition GetUInt8 : M W Z := λ s,
  match rcd_data (rcd s) !! file_pos (rcd s) with
  | Some b => (Ok (byte_val b), advance 1 s)
  | None => (Fail, s)
  end.

Definition GetUInt16 : M W Z :=
  lo ← GetUInt8; hi ← GetUInt8; mret (Z.lor lo (Z.shiftl hi 8)).

Definition GetUInt32 : M W Z :=
  lo ← GetUInt16; hi ← GetUInt16; mret (Z.lor lo (Z.shiftl hi 16)).

Definition GetInt16 : M W Z :=
  v ← GetUInt16; mret (if decide (v < 32768) then v else v - 65536).

(** Modelled from the spec: [GetBlob(n)] reads exactly [n] bytes or fails. *)
Definition GetBlob (n : Z) : M W (list byte) := λ s,
  let k := Z.to_nat n in
  if decide (k ≤ length (remaining (rcd s)))%nat
  then (Ok (take k (remaining (rcd s))), advance k s)
  else (Fail, s).

(** Modelled from the spec: [SkipBytes(n)] discards exactly [n] bytes and
    leaves the stream at the byte after them; it fails on a short stream. *)
Definition SkipBytes (count : Z) : M W unit := λ s,
  let k := Z.to_nat count in
  if decide (k ≤ length (remaining (rcd s)))%nat
  then (Ok tt, advance k s)
  else (Fail, s).
End Reader.

(** ** Cross references (sprite_store.cpp:190 and :210) *)

Section CrossReferences.
Context {W ImageData TextData : Type}.

Definition LoadSpriteFromFile (sprites : gmap Z ImageData) : M W (option ImageData) :=
  val ← GetUInt32;
  if decide (val = 0) then mret None
  else match sprites !! val with
       | None => return_false
       | Some spr => mret (Some spr)
       end.

Definition LoadTextFromFile (texts : gmap Z TextData) : M W (option TextData) :=
  val ← GetUInt32;
  if decide (val = 0) then mret None
  else match texts !! val with
       | None => return_false
       | Some txt => mret (Some txt)
       end.
End CrossReferences.

(** [std::map::insert]: the pair is added unless the key is already present. *)
Definition map_insert_new {T} (k : Z) (v : T) (m : gmap Z T) : gmap Z T :=
  match m !! k with
  | Some _ => m
  | None => <[k := v]> m
  end.


(** ** Declarations of headers that are not among the sources

    The enumerators and array lengths that [sprite_store.cpp] takes from its
    headers ([tile.h], [path.h], [fence.h], [people.h], [language.h], ...), and
    [GetLanguageIndex] of [language.cpp].  An enumerator stands for its value
    in the integer variable the handlers keep it in; nothing else is assumed
    about the values. *)

Class Headers := {
  (* enum GroundType *)
  GTP_GRASS0 : Z; GTP_GRASS1 : Z; GTP_GRASS2 : Z; GTP_GRASS3 : Z;
  GTP_UNDERGROUND : Z; GTP_DESERT : Z; GTP_CURSOR_TEST : Z; GTP_CURSOR_EDGE_TEST : Z;
  GTP_COUNT : Z; GTP_INVALID : Z;
  (* enum PathType *)
  PAT_INVALID : Z; PAT_WOOD : Z; PAT_TILED : Z; PAT_ASPHALT : Z; PAT_CONCRETE : Z;
  (* enum FoundationType *)
  FDT_GROUND : Z; FDT_WOOD : Z; FDT_BRICK : Z; FDT_COUNT : Z; FDT_INVALID : Z;
  (* enum PersonType *)
  PERSON_ANY : Z; PERSON_GUEST : Z; PERSON_HANDYMAN : Z; PERSON_MECHANIC : Z;
  PERSON_GUARD : Z; PERSON_ENTERTAINER : Z; PERSON_INVALID : Z;
  (* enum AnimationType *)
  ANIM_BEGIN : Z; ANIM_LAST : Z; ANIM_INVALID : Z;
  (* array lengths *)
  NUM_SLOPE_SPRITES : nat;
  EDGE_BEGIN : nat; EDGE_COUNT : nat;
  PATH_COUNT : nat;
  FENCE_COUNT : nat; FENCE_TYPE_COUNT : Z; FENCE_TYPE_INVALID : Z;
  SSP_COUNT : nat;
  VOR_NUM_ORIENT : nat;
  LANGUAGE_COUNT : nat;
  (* int GetLanguageIndex(const char *lang_name) *)
  GetLanguageIndex : list byte → Z
}.

(** ** UTF-8 text (sprite_store.cpp:77) *)

Definition MAX_NUM_TEXT_STRINGS : Z := 512.

(** The continuation bytes of a multi-byte sequence: [value] is extended by six
    bits for each of them; [None] when a byte is not of the form 10xxxxxx. *)
Fixpoint decode_continuation (n : nat) (data : list byte) (value : Z) : option Z :=
  match n with
  | O => Some value
  | S n' =>
    match data with
    | [] => None
    | b :: rest =>
      let val := byte_val b in
      if decide (Z.land val 0xC0 = 0x80)
      then decode_continuation n' rest (Z.lor (Z.shiftl value 6) (Z.land val 0x3F))
      else None
    end
  end.

Definition decode_multibyte (size min_value first : Z) (rest : list byte) (length : Z) : Z * Z :=
  if decide (length < size) then (0, 0)
  else match decode_continuation (Z.to_nat (size - 1)) rest first with
       | None => (0, 0)
       | Some value =>
         if decide (value < min_value ∨ (0xD800 ≤ value ≤ 0xDFFF) ∨ value > 0x10FFFF)
         then (0, 0) else (size, value)
       end.

(** Modelled from the spec: [DecodeUtf8Char] ([string_func.cpp] is not among
    the sources).  It decodes the UTF-8 sequence at the start of [data], which
    holds [length] bytes, and gives the number of bytes of the sequence and
    its code point; the number of bytes is 0 when the sequence is malformed
    or incomplete. *)
Definition DecodeUtf8Char (data : list byte) (length : Z) : Z * Z :=
  if decide (length < 1) then (0, 0)
  else match data with
       | [] => (0, 0)
       | b :: rest =>
         let value := byte_val b in
         if decide (Z.land value 0x80 = 0) then (1, value)
         else if decide (Z.land value 0xE0 = 0xC0)
              then decode_multibyte 2 0x80 (Z.land value 0x1F) rest length
         else if decide (Z.land value 0xF0 = 0xE0)
              then decode_multibyte 3 0x800 (Z.land value 0x0F) rest length
         else if decide (Z.land value 0xF8 = 0xF0)
              then decode_multibyte 4 0x10000 (Z.land value 0x07) rest length
         else (0, 0)
       end.

(** The [for (;;)] loop of [ReadUtf8Text]. *)
Inductive Scan := ScanFalse | ScanBreak (real_size : Z) | ScanOutOfFuel.

Fixpoint utf8_scan (fuel : nat) (start : list byte) (real_size : Z) : Scan :=
  match fuel with
  | O => ScanOutOfFuel
  | S fuel' =>
    let '(sz, code_point) := DecodeUtf8Char start real_size in
    if decide (sz = 0 ∨ sz > real_size) then ScanFalse
    else
      let real_size' := real_size - sz in
      let start' := drop (Z.to_nat sz) start in
      if decide (code_point = 0) then ScanBreak real_size'
      else utf8_scan fuel' start' real_size'
  end.

(** [memcpy]-like write of [text] at [buffer + off]; outside the array it is
    undefined. *)
Definition write_blob {W} (buffer : list byte) (off : Z) (text : list byte) : M W (list byte) :=
  if decide (0 ≤ off ∧ off + Z.of_nat (length text) ≤ Z.of_nat (length buffer))
  then mret (take (Z.to_nat off) buffer ++ text ++ drop (Z.to_nat off + length text) buffer)
  else fault.

Section Utf8Text.
Context {W : Type}.

(** [rcd_file->GetBlob(buffer + off, n);] as a statement: the result of the
    call is not looked at.  When the stream holds the [n] bytes, they are in
    the buffer afterwards; when it does not, the call has failed as a whole
    and the buffer holds what it held. *)
Definition GetBlob_to (buffer : list byte) (off n : Z) : M W (list byte) := λ s,
  match GetBlob n s with
  | (Ok text, s') => write_blob buffer off text s'
  | (_, s') => (Ok buffer, s')
  end.

(** The result is the buffer and [*used_size] after the call. *)
Definition ReadUtf8Text (expected_length : Z) (buffer : list byte) (buf_length : Z)
    (used_size : Z) : M W (list byte * Z) :=
  if decide (buf_length < used_size + expected_length) then return_false
  else
    buffer' ← GetBlob_to buffer used_size expected_length;
    match utf8_scan (S (Z.to_nat expected_length)) (drop (Z.to_nat used_size) buffer')
                    expected_length with
    | ScanOutOfFuel => fault
    | ScanFalse => return_false
    | ScanBreak real_size =>
      if decide (real_size ≠ 0) then return_false
      else mret (buffer', used_size + expected_length)
    end.
End Utf8Text.

(** ** TEXT blocks (sprite_store.cpp:104) *)

Definition u32 (z : Z) : Z := z mod 2 ^ 32.

(** A pointer into the text buffer is the offset it points at; [None] is
    [nullptr]. *)
Record TextString := mkTextString {
  ts_name : option Z;
  ts_languages : list (option Z)
}.

Record TextData := mkTextData {
  td_strings : list TextString;
  string_count : Z;
  text_data : list byte
}.

(** The local variables of [TextData::Load]. *)
Record TextLocals := mkTextLocals {
  tl_buffer : list byte;         (* char buffer[64*1024] *)
  tl_used_size : Z;
  tl_length : Z;                 (* uint32 length *)
  tl_strings : list TextString;  (* TextString strings[MAX_NUM_TEXT_STRINGS] *)
  tl_used_strings : Z
}.

(** The bytes of a C string: those before the first NUL. *)
Fixpoint c_str (l : list byte) : list byte :=
  match l with
  | [] => []
  | b :: rest => if decide (byte_val b = 0) then [] else b :: c_str rest
  end.

Section TextBlock.
Context `{Headers} {W : Type}.

Definition assert_that (P : Prop) `{Decision P} : M W unit :=
  if decide P then mret tt else fault.

(** [strings[i].name = p] *)
Definition set_name (strings : list TextString) (i : Z) (p : Z) : M W (list TextString) :=
  match strings !! Z.to_nat i with
  | Some ts =>
    if decide (0 ≤ i) then mret (<[Z.to_nat i := mkTextString (Some p) (ts_languages ts)]> strings)
    else fault
  | None => fault
  end.

(** [strings[i].languages[lang_idx] = p] *)
Definition set_language (strings : list TextString) (i : Z) (lang_idx : Z) (p : Z)
    : M W (list TextString) :=
  match strings !! Z.to_nat i with
  | Some ts =>
    if decide (0 ≤ i ∧ 0 ≤ lang_idx < Z.of_nat (length (ts_languages ts)))
    then mret (<[Z.to_nat i :=
                 mkTextString (ts_name ts) (<[Z.to_nat lang_idx := Some p]> (ts_languages ts))]>
               strings)
    else fault
  | None => fault
  end.

(** The inner loop, [while (trs_length > 0)].  The code does not initialise
    [lang_buffer]; here it starts filled with zeros. *)
Fixpoint load_translations (fuel : nat) (trs_length : Z) (l : TextLocals) : M W TextLocals :=
  if decide (trs_length > 0) then
    match fuel with
    | O => fault
    | S fuel' =>
      if decide (tl_length l < 3) then return_false else
      tr_length ← GetUInt16;
      lang_length ← GetUInt8;
      let length1 := u32 (tl_length l - 3) in
      if decide (tr_length > trs_length) then return_false else
      if decide (lang_length + 2 + 1 >= tr_length) then return_false else
      let text_length := tr_length - (lang_length + 2 + 1) in
      let lang_buffer := replicate 1000 x00 in
      '(lang_buffer, used) ← ReadUtf8Text lang_length lang_buffer 1000 0;
      let length2 := u32 (length1 - lang_length) in
      let lang_idx := GetLanguageIndex (c_str lang_buffer) in
      '(buffer, used_size, strings) ←
        (if decide (lang_idx >= 0) then
           strings ← set_language (tl_strings l) (tl_used_strings l) lang_idx (tl_used_size l);
           '(buffer, used_size) ← ReadUtf8Text text_length (tl_buffer l) (64 * 1024) (tl_used_size l);
           mret (buffer, used_size, strings)
         else
           _ ← ReadUtf8Text text_length lang_buffer 1000 0;
           mret (tl_buffer l, tl_used_size l, tl_strings l));
      let length3 := u32 (length2 - text_length) in
      load_translations fuel' (trs_length - (3 + lang_length + text_length))
        (mkTextLocals buffer used_size length3 strings (tl_used_strings l))
    end
  else
    _ ← assert_that (trs_length = 0); mret l.

(** The outer loop, [while (length > 0)]. *)
Fixpoint load_strings (fuel : nat) (l : TextLocals) : M W TextLocals :=
  if decide (tl_length l > 0) then
    match fuel with
    | O => fault
    | S fuel' =>
      if decide (tl_used_strings l >= MAX_NUM_TEXT_STRINGS) then return_false else
      if decide (tl_length l < 3) then return_false else
      str_length ← GetUInt16;
      ident_length ← GetUInt8;
      if decide (str_length > tl_length l) then return_false else
      let length1 := u32 (tl_length l - 3) in
      if decide (ident_length + 2 + 1 >= str_length) then return_false else
      let trs_length := str_length - (ident_length + 2 + 1) in
      strings ← set_name (tl_strings l) (tl_used_strings l) (tl_used_size l);
      '(buffer, used_size) ← ReadUtf8Text ident_length (tl_buffer l) (64 * 1024) (tl_used_size l);
      let length2 := u32 (length1 - ident_length) in
      l' ← load_translations (Z.to_nat trs_length) trs_length
             (mkTextLocals buffer used_size length2 strings (tl_used_strings l));
      load_strings fuel'
        (mkTextLocals (tl_buffer l') (tl_used_size l') (tl_length l') (tl_strings l')
                      (tl_used_strings l' + 1))
    end
  else
    _ ← assert_that (tl_length l = 0); mret l.

(** A default-constructed [TextString]. *)
Definition empty_TextString : TextString :=
  mkTextString None (replicate LANGUAGE_COUNT None).

(** [TextData::Load]: the value is the loaded object.  The text data is the
    used part of the buffer, and the pointers of the strings keep their
    offsets in it.  The code does not initialise [buffer]; here it starts
    filled with zeros. *)
Definition TextData_Load : M W TextData :=
  r ← get_reader;
  let length := rcd_size r in
  if decide (rcd_version r ≠ 2) then return_false else
  l ← load_strings (Z.to_nat length)
        (mkTextLocals (replicate (64 * 1024) x00) 0 length
                      (replicate (Z.to_nat MAX_NUM_TEXT_STRINGS) empty_TextString) 0);
  mret (mkTextData (take (Z.to_nat (tl_used_strings l)) (tl_strings l))
                   (tl_used_strings l)
                   (take (Z.to_nat (tl_used_size l)) (tl_buffer l))).
End TextBlock.

(** ** The sprite storage (sprite_store.h is not among the sources; the fields
    are those that [sprite_store.cpp] reads and writes)

    An array of sprite pointers is a list of [option ImageData], [None] being
    [nullptr].  An array indexed by an enumerator is a finite map from the
    value of the enumerator; a missing key stands for the default-constructed
    element. *)

Inductive PathStatus := PAS_UNUSED | PAS_NORMAL_PATH | PAS_QUEUE_PATH.

Inductive StoreRef := this_store.

(** [SpriteManager::GetSpriteStore] (sprite_store.cpp:1602) *)
Definition GetSpriteStore (width : Z) : option StoreRef :=
  if decide (width = 64) then Some this_store else None.

(** Number of leading sprites of an array that are not [nullptr], at most [n]. *)
Fixpoint count_sprites {T} (n : nat) (l : list (option T)) : nat :=
  match n, l with
  | S n', Some _ :: rest => S (count_sprites n' rest)
  | _, _ => O
  end.

(** [for (i = first; i < first + count; i++) body(i)] *)
Fixpoint for_each {W} (first count : nat) (body : nat → M W unit) : M W unit :=
  match count with
  | O => mret tt
  | S count' => _ ← body first; for_each (S first) count' body
  end.

(** A cell of an array of pointers that [new T*[n]] has made: it has no
    value until a pointer is assigned to it ([None] is [nullptr]). *)
Inductive Cell (T : Type) : Type :=
| Unassigned
| Assigned (p : option T).
Arguments Unassigned {T}.
Arguments Assigned {T} p.

Section Storage.
Context `{Headers} {ImageData : Type}.

Local Abbreviation Sprites := (list (option ImageData)).

Record Path := mkPath {
  path_status : PathStatus;
  path_sprites_of : Sprites          (* ImageData *sprites[PATH_COUNT] *)
}.

Record PathDecoration := mkPathDecoration {
  litterbin : Sprites; overflow_bin : Sprites; demolished_bin : Sprites;
  lamp_post : Sprites; demolished_lamp : Sprites;
  bench : Sprites; demolished_bench : Sprites;
  flat_litter : Sprites; ramp_litter : list Sprites;
  flat_vomit : Sprites; ramp_vomit : list Sprites;
  flat_litter_count : nat; flat_vomit_count : nat;
  ramp_litter_count : list nat; ramp_vomit_count : list nat
}.

Record Platform := mkPlatform {
  plat_flat : Sprites; plat_ramp : Sprites;
  plat_right_ramp : Sprites; plat_left_ramp : Sprites
}.

Record Fence := mkFence {
  fence_type : Z;
  fence_width : Z;
  fence_sprites : Sprites
}.

Record AnimationFrame := mkAnimationFrame {
  duration : Z; dx : Z; dy : Z
}.

Record Animation := mkAnimation {
  anim_frame_count : Z;
  anim_person_type : Z;
  anim_anim_type : Z;
  anim_frames : list AnimationFrame
}.

Record AnimationSprites := mkAnimationSprites {
  ansp_width : Z;
  ansp_frame_count : Z;
  ansp_person_type : Z;
  ansp_anim_type : Z;
  ansp_sprites : Sprites
}.

(** The four views of a frame set are arrays that [new ImageData*[n]] makes. *)
Record FrameSet := mkFrameSet {
  fset_width : Z; width_x : Z; width_y : Z;
  fset_sprites : list (list (Cell ImageData))        (* sprites[4] *)
}.

Record TimedAnimation := mkTimedAnimation {
  tima_frames : Z;
  tima_durations : list Z;
  tima_views : list (option FrameSet)
}.

Record SpriteStorage := mkSpriteStorage {
  ss_size : Z;
  surface : gmap Z Sprites;          (* SurfaceData surface[GTP_COUNT] *)
  tile_select : Sprites;
  path_sprites : gmap Z Path;        (* Path path_sprites[PAT_COUNT] *)
  path_decoration : PathDecoration;
  tile_corners : list Sprites;       (* sprites[VOR_NUM_ORIENT][NUM_SLOPE_SPRITES] *)
  foundation : gmap Z Sprites;       (* Foundation foundation[FDT_COUNT] *)
  platform : Platform;
  support : Sprites;
  build_arrows : Sprites;
  fence : gmap Z Fence;              (* Fence *fence[FENCE_TYPE_COUNT] *)
  animations : list (Z * AnimationSprites);          (* multimap, by anim_type *)
  frame_sets : gmap (string * Z) FrameSet;           (* by ImageSetKey *)
  timed_animations : gmap (string * Z) TimedAnimation
}.

(** The default-constructed objects. *)
Definition no_sprites (n : nat) : Sprites := replicate n None.
Definition SurfaceData_new : Sprites := no_sprites NUM_SLOPE_SPRITES.
Definition Path_new : Path := mkPath PAS_UNUSED (no_sprites PATH_COUNT).
Definition Foundation_new : Sprites := no_sprites 6.
Definition Fence_new : Fence := mkFence FENCE_TYPE_INVALID 0 (no_sprites FENCE_COUNT).

Definition PathDecoration_new : PathDecoration :=
  let e := no_sprites EDGE_COUNT in
  let r := replicate EDGE_COUNT (no_sprites 4) in
  mkPathDecoration e e e e e e e (no_sprites 4) r (no_sprites 4) r
                   0 0 (replicate EDGE_COUNT 0%nat) (replicate EDGE_COUNT 0%nat).

Definition SpriteStorage_new (size : Z) : SpriteStorage :=
  mkSpriteStorage size ∅ SurfaceData_new ∅ PathDecoration_new
    (replicate VOR_NUM_ORIENT (no_sprites NUM_SLOPE_SPRITES)) ∅
    (mkPlatform (no_sprites 2) (no_sprites 4) (no_sprites 4) (no_sprites 4))
    (no_sprites SSP_COUNT) (no_sprites 4) ∅ [] ∅ ∅.

(** Assignments to the members of the storage. *)
Definition set_surface (f : gmap Z Sprites → gmap Z Sprites) (ss : SpriteStorage) :=
  mkSpriteStorage (ss_size ss) (f (surface ss)) (tile_select ss) (path_sprites ss)
    (path_decoration ss) (tile_corners ss) (foundation ss) (platform ss) (support ss)
    (build_arrows ss) (fence ss) (animations ss) (frame_sets ss) (timed_animations ss).
Definition set_tile_select (f : Sprites → Sprites) (ss : SpriteStorage) :=
  mkSpriteStorage (ss_size ss) (surface ss) (f (tile_select ss)) (path_sprites ss)
    (path_decoration ss) (tile_corners ss) (foundation ss) (platform ss) (support ss)
    (build_arrows ss) (fence ss) (animations ss) (frame_sets ss) (timed_animations ss).
Definition set_path_sprites (f : gmap Z Path → gmap Z Path) (ss : SpriteStorage) :=
  mkSpriteStorage (ss_size ss) (surface ss) (tile_select ss) (f (path_sprites ss))
    (path_decoration ss) (tile_corners ss) (foundation ss) (platform ss) (support ss)
    (build_arrows ss) (fence ss) (animations ss) (frame_sets ss) (timed_animations ss).
Definition set_path_decoration (f : PathDecoration → PathDecoration) (ss : SpriteStorage) :=
  mkSpriteStorage (ss_size ss) (surface ss) (tile_select ss) (path_sprites ss)
    (f (path_decoration ss)) (tile_corners ss) (foundation ss) (platform ss) (support ss)
    (build_arrows ss) (fence ss) (animations ss) (frame_sets ss) (timed_animations ss).
Definition set_tile_corners (f : list Sprites → list Sprites) (ss : SpriteStorage) :=
  mkSpriteStorage (ss_size ss) (surface ss) (tile_select ss) (path_sprites ss)
    (path_decoration ss) (f (tile_corners ss)) (foundation ss) (platform ss) (support ss)
    (build_arrows ss) (fence ss) (animations ss) (frame_sets ss) (timed_animations ss).
Definition set_foundation (f : gmap Z Sprites → gmap Z Sprites) (ss : SpriteStorage) :=
  mkSpriteStorage (ss_size ss) (surface ss) (tile_select ss) (path_sprites ss)
    (path_decoration ss) (tile_corners ss) (f (foundation ss)) (platform ss) (support ss)
    (build_arrows ss) (fence ss) (animations ss) (frame_sets ss) (timed_animations ss).
Definition set_platform (f : Platform → Platform) (ss : SpriteStorage) :=
  mkSpriteStorage (ss_size ss) (surface ss) (tile_select ss) (path_sprites ss)
    (path_decoration ss) (tile_corners ss) (foundation ss) (f (platform ss)) (support ss)
    (build_arrows ss) (fence ss) (animations ss) (frame_sets ss) (timed_animations ss).
Definition set_support (f : Sprites → Sprites) (ss : SpriteStorage) :=
  mkSpriteStorage (ss_size ss) (surface ss) (tile_select ss) (path_sprites ss)
    (path_decoration ss) (tile_corners ss) (foundation ss) (platform ss) (f (support ss))
    (build_arrows ss) (fence ss) (animations ss) (frame_sets ss) (timed_animations ss).
Definition set_build_arrows (f : Sprites → Sprites) (ss : SpriteStorage) :=
  mkSpriteStorage (ss_size ss) (surface ss) (tile_select ss) (path_sprites ss)
    (path_decoration ss) (tile_corners ss) (foundation ss) (platform ss) (support ss)
    (f (build_arrows ss)) (fence ss) (animations ss) (frame_sets ss) (timed_animations ss).
Definition set_fence (f : gmap Z Fence → gmap Z Fence) (ss : SpriteStorage) :=
  mkSpriteStorage (ss_size ss) (surface ss) (tile_select ss) (path_sprites ss)
    (path_decoration ss) (tile_corners ss) (foundation ss) (platform ss) (support ss)
    (build_arrows ss) (f (fence ss)) (animations ss) (frame_sets ss) (timed_animations ss).
Definition set_animations
    (f : list (Z * AnimationSprites) → list (Z * AnimationSprites)) (ss : SpriteStorage) :=
  mkSpriteStorage (ss_size ss) (surface ss) (tile_select ss) (path_sprites ss)
    (path_decoration ss) (tile_corners ss) (foundation ss) (platform ss) (support ss)
    (build_arrows ss) (fence ss) (f (animations ss)) (frame_sets ss) (timed_animations ss).
Definition set_frame_sets
    (f : gmap (string * Z) FrameSet → gmap (string * Z) FrameSet) (ss : SpriteStorage) :=
  mkSpriteStorage (ss_size ss) (surface ss) (tile_select ss) (path_sprites ss)
    (path_decoration ss) (tile_corners ss) (foundation ss) (platform ss) (support ss)
    (build_arrows ss) (fence ss) (animations ss) (f (frame_sets ss)) (timed_animations ss).
Definition set_timed_animations
    (f : gmap (string * Z) TimedAnimation → gmap (string * Z) TimedAnimation)
    (ss : SpriteStorage) :=
  mkSpriteStorage (ss_size ss) (surface ss) (tile_select ss) (path_sprites ss)
    (path_decoration ss) (tile_corners ss) (foundation ss) (platform ss) (support ss)
    (build_arrows ss) (fence ss) (animations ss) (frame_sets ss) (f (timed_animations ss)).

(** [m[k] = f (m[k])] on an array indexed by an enumerator. *)
Definition at_key {T} (dflt : T) (k : Z) (f : T → T) (m : gmap Z T) : gmap Z T :=
  <[k := f (default dflt (m !! k))]> m.

(** [rows[i][j] = v] *)
Definition set_cell {T} (i j : nat) (v : T) (rows : list (list T)) : list (list T) :=
  match rows !! i with
  | Some row => <[i := <[j := v]> row]> rows
  | None => rows
  end.
End Storage.

(** ** The sprite-set handlers of [SpriteManager] (sprite_store.cpp:246-724)

    These handlers fill the members of the sprite storage in place: a sprite
    pointer is stored as soon as its reference has been read. *)

Section SpriteSets.
Context `{Headers} {ImageData : Type}.

Local Abbreviation Sprites := (list (option ImageData)).
Local Abbreviation Store := (@SpriteStorage ImageData).

(** Assignments to the members of the path decoration. *)
Definition set_litterbin (f : Sprites → Sprites) (pd : @PathDecoration ImageData) :=
  mkPathDecoration (f (litterbin pd)) (overflow_bin pd) (demolished_bin pd) (lamp_post pd)
    (demolished_lamp pd) (bench pd) (demolished_bench pd) (flat_litter pd) (ramp_litter pd)
    (flat_vomit pd) (ramp_vomit pd) (flat_litter_count pd) (flat_vomit_count pd)
    (ramp_litter_count pd) (ramp_vomit_count pd).
Definition set_overflow_bin (f : Sprites → Sprites) (pd : @PathDecoration ImageData) :=
  mkPathDecoration (litterbin pd) (f (overflow_bin pd)) (demolished_bin pd) (lamp_post pd)
    (demolished_lamp pd) (bench pd) (demolished_bench pd) (flat_litter pd) (ramp_litter pd)
    (flat_vomit pd) (ramp_vomit pd) (flat_litter_count pd) (flat_vomit_count pd)
    (ramp_litter_count pd) (ramp_vomit_count pd).
Definition set_demolished_bin (f : Sprites → Sprites) (pd : @PathDecoration ImageData) :=
  mkPathDecoration (litterbin pd) (overflow_bin pd) (f (demolished_bin pd)) (lamp_post pd)
    (demolished_lamp pd) (bench pd) (demolished_bench pd) (flat_litter pd) (ramp_litter pd)
    (flat_vomit pd) (ramp_vomit pd) (flat_litter_count pd) (flat_vomit_count pd)
    (ramp_litter_count pd) (ramp_vomit_count pd).
Definition set_lamp_post (f : Sprites → Sprites) (pd : @PathDecoration ImageData) :=
  mkPathDecoration (litterbin pd) (overflow_bin pd) (demolished_bin pd) (f (lamp_post pd))
    (demolished_lamp pd) (bench pd) (demolished_bench pd) (flat_litter pd) (ramp_litter pd)
    (flat_vomit pd) (ramp_vomit pd) (flat_litter_count pd) (flat_vomit_count pd)
    (ramp_litter_count pd) (ramp_vomit_count pd).
Definition set_demolished_lamp (f : Sprites → Sprites) (pd : @PathDecoration ImageData) :=
  mkPathDecoration (litterbin pd) (overflow_bin pd) (demolished_bin pd) (lamp_post pd) (f
    (demolished_lamp pd)) (bench pd) (demolished_bench pd) (flat_litter pd) (ramp_litter pd)
    (flat_vomit pd) (ramp_vomit pd) (flat_litter_count pd) (flat_vomit_count pd)
    (ramp_litter_count pd) (ramp_vomit_count pd).
Definition set_bench (f : Sprites → Sprites) (pd : @PathDecoration ImageData) :=
  mkPathDecoration (litterbin pd) (overflow_bin pd) (demolished_bin pd) (lamp_post pd)
    (demolished_lamp pd) (f (bench pd)) (demolished_bench pd) (flat_litter pd) (ramp_litter pd)
    (flat_vomit pd) (ramp_vomit pd) (flat_litter_count pd) (flat_vomit_count pd)
    (ramp_litter_count pd) (ramp_vomit_count pd).
Definition set_demolished_bench (f : Sprites → Sprites) (pd : @PathDecoration ImageData) :=
  mkPathDecoration (litterbin pd) (overflow_bin pd) (demolished_bin pd) (lamp_post pd)
    (demolished_lamp pd) (bench pd) (f (demolished_bench pd)) (flat_litter pd) (ramp_litter pd)
    (flat_vomit pd) (ramp_vomit pd) (flat_litter_count pd) (flat_vomit_count pd)
    (ramp_litter_count pd) (ramp_vomit_count pd).
Definition set_flat_litter (f : Sprites → Sprites) (pd : @PathDecoration ImageData) :=
  mkPathDecoration (litterbin pd) (overflow_bin pd) (demolished_bin pd) (lamp_post pd)
    (demolished_lamp pd) (bench pd) (demolished_bench pd) (f (flat_litter pd)) (ramp_litter pd)
    (flat_vomit pd) (ramp_vomit pd) (flat_litter_count pd) (flat_vomit_count pd)
    (ramp_litter_count pd) (ramp_vomit_count pd).
Definition set_ramp_litter (f : list Sprites → list Sprites) (pd : @PathDecoration
ImageData) :=
  mkPathDecoration (litterbin pd) (overflow_bin pd) (demolished_bin pd) (lamp_post pd)
    (demolished_lamp pd) (bench pd) (demolished_bench pd) (flat_litter pd) (f (ramp_litter pd))
    (flat_vomit pd) (ramp_vomit pd) (flat_litter_count pd) (flat_vomit_count pd)
    (ramp_litter_count pd) (ramp_vomit_count pd).
Definition set_flat_vomit (f : Sprites → Sprites) (pd : @PathDecoration ImageData) :=
  mkPathDecoration (litterbin pd) (overflow_bin pd) (demolished_bin pd) (lamp_post pd)
    (demolished_lamp pd) (bench pd) (demolished_bench pd) (flat_litter pd) (ramp_litter pd) (f
    (flat_vomit pd)) (ramp_vomit pd) (flat_litter_count pd) (flat_vomit_count pd)
    (ramp_litter_count pd) (ramp_vomit_count pd).
Definition set_ramp_vomit (f : list Sprites → list Sprites) (pd : @PathDecoration ImageData)
:=
  mkPathDecoration (litterbin pd) (overflow_bin pd) (demolished_bin pd) (lamp_post pd)
    (demolished_lamp pd) (bench pd) (demolished_bench pd) (flat_litter pd) (ramp_litter pd)
    (flat_vomit pd) (f (ramp_vomit pd)) (flat_litter_count pd) (flat_vomit_count pd)
    (ramp_litter_count pd) (ramp_vomit_count pd).
Definition set_flat_litter_count (f : nat → nat) (pd : @PathDecoration ImageData) :=
  mkPathDecoration (litterbin pd) (overflow_bin pd) (demolished_bin pd) (lamp_post pd)
    (demolished_lamp pd) (bench pd) (demolished_bench pd) (flat_litter pd) (ramp_litter pd)
    (flat_vomit pd) (ramp_vomit pd) (f (flat_litter_count pd)) (flat_vomit_count pd)
    (ramp_litter_count pd) (ramp_vomit_count pd).
Definition set_flat_vomit_count (f : nat → nat) (pd : @PathDecoration ImageData) :=
  mkPathDecoration (litterbin pd) (overflow_bin pd) (demolished_bin pd) (lamp_post pd)
    (demolished_lamp pd) (bench pd) (demolished_bench pd) (flat_litter pd) (ramp_litter pd)
    (flat_vomit pd) (ramp_vomit pd) (flat_litter_count pd) (f (flat_vomit_count pd))
    (ramp_litter_count pd) (ramp_vomit_count pd).
Definition set_ramp_litter_count (f : list nat → list nat) (pd : @PathDecoration ImageData)
:=
  mkPathDecoration (litterbin pd) (overflow_bin pd) (demolished_bin pd) (lamp_post pd)
    (demolished_lamp pd) (bench pd) (demolished_bench pd) (flat_litter pd) (ramp_litter pd)
    (flat_vomit pd) (ramp_vomit pd) (flat_litter_count pd) (flat_vomit_count pd) (f
    (ramp_litter_count pd)) (ramp_vomit_count pd).
Definition set_ramp_vomit_count (f : list nat → list nat) (pd : @PathDecoration ImageData) :=
  mkPathDecoration (litterbin pd) (overflow_bin pd) (demolished_bin pd) (lamp_post pd)
    (demolished_lamp pd) (bench pd) (demolished_bench pd) (flat_litter pd) (ramp_litter pd)
    (flat_vomit pd) (ramp_vomit pd) (flat_litter_count pd) (flat_vomit_count pd)
    (ramp_litter_count pd) (f (ramp_vomit_count pd)).

(** [if (!LoadSpriteFromFile(rcd_file, sprites, &p)) return false;] where
    [put spr] is the assignment [p = spr] in the object that is being filled. *)
Definition load_sprite_to {W} (sprites : gmap Z ImageData)
    (put : option ImageData → W → W) : M W unit :=
  spr ← LoadSpriteFromFile sprites; modify_world (put spr).

(** [SpriteManager::LoadSURF] (sprite_store.cpp:246) *)
Definition LoadSURF (sprites : gmap Z ImageData) : M Store unit :=
  r ← get_reader;
  if decide (rcd_version r ≠ 6 ∨ rcd_size r ≠ 2 + 2 + 2 + 4 * Z.of_nat NUM_SLOPE_SPRITES)
  then return_false else
  gt ← GetUInt16;
  let type := GTP_INVALID in
  let type := if decide (gt = 16) then GTP_GRASS0 else type in
  let type := if decide (gt = 17) then GTP_GRASS1 else type in
  let type := if decide (gt = 18) then GTP_GRASS2 else type in
  let type := if decide (gt = 19) then GTP_GRASS3 else type in
  let type := if decide (gt = 20) then GTP_UNDERGROUND else type in
  let type := if decide (gt = 32) then GTP_DESERT else type in
  let type := if decide (gt = 48) then GTP_CURSOR_TEST else type in
  let type := if decide (gt = 49) then GTP_CURSOR_EDGE_TEST else type in
  if decide (type = GTP_INVALID) then return_false else
  width ← GetUInt16;
  _ ← GetUInt16;
  let ss := GetSpriteStore width in
  if decide (ss = None ∨ type >= GTP_COUNT) then return_false else
  for_each 0 NUM_SLOPE_SPRITES (λ sprnum,
    load_sprite_to sprites
      (λ spr, set_surface (at_key SurfaceData_new type (<[sprnum := spr]>)))).

(** [SpriteManager::LoadTSEL] (sprite_store.cpp:280) *)
Definition LoadTSEL (sprites : gmap Z ImageData) : M Store unit :=
  r ← get_reader;
  if decide (rcd_version r ≠ 2 ∨ rcd_size r ≠ 2 + 2 + 4 * Z.of_nat NUM_SLOPE_SPRITES)
  then return_false else
  width ← GetUInt16;
  _ ← GetUInt16;
  let ss := GetSpriteStore width in
  if decide (ss = None) then return_false else
  for_each 0 NUM_SLOPE_SPRITES (λ sprnum,
    load_sprite_to sprites (λ spr, set_tile_select (<[sprnum := spr]>))).

(** The [switch] of [LoadPATH]; [None] is its [default]. *)
Definition path_type_of_code (code : Z) : option Z :=
  match code with
  | 4 => Some PAT_WOOD
  | 8 => Some PAT_TILED
  | 12 => Some PAT_ASPHALT
  | 16 => Some PAT_CONCRETE
  | _ => None
  end.

(** [SpriteManager::LoadPATH] (sprite_store.cpp:433) *)
Definition LoadPATH (sprites : gmap Z ImageData) : M Store unit :=
  r ← get_reader;
  if decide (rcd_version r ≠ 3 ∨ rcd_size r ≠ 2 + 2 + 2 + 4 * Z.of_nat PATH_COUNT)
  then return_false else
  type ← GetUInt16;
  match path_type_of_code (Z.land type 0x7FFF) with
  | None => return_false
  | Some pt =>
    width ← GetUInt16;
    _ ← GetUInt16;
    let ss := GetSpriteStore width in
    if decide (ss = None) then return_false else
    _ ← for_each 0 PATH_COUNT (λ sprnum,
          load_sprite_to sprites
            (λ spr, set_path_sprites
               (at_key Path_new pt
                  (λ path, mkPath (path_status path) (<[sprnum := spr]> (path_sprites_of path))))));
    modify_world
      (set_path_sprites
         (at_key Path_new pt
            (λ path, mkPath (if decide (Z.land type 0x8000 ≠ 0)
                             then PAS_QUEUE_PATH else PAS_NORMAL_PATH)
                            (path_sprites_of path))))
  end.

(** [SpriteManager::LoadPDEC] (sprite_store.cpp:498) *)
Definition LoadPDEC (sprites : gmap Z ImageData) : M Store unit :=
  r ← get_reader;
  if decide (rcd_version r ≠ 1 ∨ rcd_size r ≠ 2 + 7*4*4 + 2*(1+4)*4*4) then return_false else
  width ← GetUInt16;
  let ss := GetSpriteStore width in
  if decide (ss = None) then return_false else
  let edges := for_each EDGE_BEGIN (EDGE_COUNT - EDGE_BEGIN) in
  let pdec f := load_sprite_to sprites (λ spr, set_path_decoration (f spr)) in
  _ ← edges (λ edge, pdec (λ spr, set_litterbin (<[edge := spr]>)));
  _ ← edges (λ edge, pdec (λ spr, set_overflow_bin (<[edge := spr]>)));
  _ ← edges (λ edge, pdec (λ spr, set_demolished_bin (<[edge := spr]>)));
  _ ← edges (λ edge, pdec (λ spr, set_lamp_post (<[edge := spr]>)));
  _ ← edges (λ edge, pdec (λ spr, set_demolished_lamp (<[edge := spr]>)));
  _ ← edges (λ edge, pdec (λ spr, set_bench (<[edge := spr]>)));
  _ ← edges (λ edge, pdec (λ spr, set_demolished_bench (<[edge := spr]>)));
  _ ← for_each 0 4 (λ tp, pdec (λ spr, set_flat_litter (<[tp := spr]>)));
  _ ← edges (λ edge, for_each 0 4 (λ tp, pdec (λ spr, set_ramp_litter (set_cell edge tp spr))));
  _ ← for_each 0 4 (λ tp, pdec (λ spr, set_flat_vomit (<[tp := spr]>)));
  _ ← edges (λ edge, for_each 0 4 (λ tp, pdec (λ spr, set_ramp_vomit (set_cell edge tp spr))));
  (* Data loaded, setup the counts. *)
  _ ← modify_world (set_path_decoration
         (λ pd, set_flat_litter_count (λ _, count_sprites 4 (flat_litter pd)) pd));
  _ ← edges (λ edge, modify_world (set_path_decoration
         (λ pd, set_ramp_litter_count
                  (<[edge := count_sprites 4 (default [] (ramp_litter pd !! edge))]>) pd)));
  _ ← modify_world (set_path_decoration
         (λ pd, set_flat_vomit_count (λ _, count_sprites 4 (flat_vomit pd)) pd));
  edges (λ edge, modify_world (set_path_decoration
         (λ pd, set_ramp_vomit_count
                  (<[edge := count_sprites 4 (default [] (ramp_vomit pd !! edge))]>) pd))).

(** [SpriteManager::LoadTCOR] (sprite_store.cpp:581) *)
Definition LoadTCOR (sprites : gmap Z ImageData) : M Store unit :=
  r ← get_reader;
  if decide (rcd_version r ≠ 2
             ∨ rcd_size r ≠ 2 + 2 + 4 * Z.of_nat VOR_NUM_ORIENT * Z.of_nat NUM_SLOPE_SPRITES)
  then return_false else
  width ← GetUInt16;
  _ ← GetUInt16;
  let ss := GetSpriteStore width in
  if decide (ss = None) then return_false else
  for_each 0 VOR_NUM_ORIENT (λ v,
    for_each 0 NUM_SLOPE_SPRITES (λ sprnum,
      load_sprite_to sprites (λ spr, set_tile_corners (set_cell v sprnum spr)))).

(** [SpriteManager::LoadFUND] (sprite_store.cpp:610) *)
Definition LoadFUND (sprites : gmap Z ImageData) : M Store unit :=
  r ← get_reader;
  if decide (rcd_version r ≠ 1 ∨ rcd_size r ≠ 2 + 2 + 2 + 4 * 6) then return_false else
  tp ← GetUInt16;
  let type := FDT_INVALID in
  let type := if decide (tp = 16) then FDT_GROUND else type in
  let type := if decide (tp = 32) then FDT_WOOD else type in
  let type := if decide (tp = 48) then FDT_BRICK else type in
  if decide (type = FDT_INVALID) then return_false else
  width ← GetUInt16;
  _ ← GetUInt16;
  let ss := GetSpriteStore width in
  if decide (ss = None ∨ type >= FDT_COUNT) then return_false else
  for_each 0 6 (λ sprnum,
    load_sprite_to sprites
      (λ spr, set_foundation (at_key Foundation_new type (<[sprnum := spr]>)))).

(** [SpriteManager::LoadPLAT] (sprite_store.cpp:645) *)
Definition LoadPLAT (sprites : gmap Z ImageData) : M Store unit :=
  r ← get_reader;
  if decide (rcd_version r ≠ 2 ∨ rcd_size r ≠ 2 + 2 + 2 + 2 * 4 + 12 * 4) then return_false else
  width ← GetUInt16;
  _ ← GetUInt16;
  type ← GetUInt16;
  if decide (type ≠ 16) then return_false else
  let ss := GetSpriteStore width in
  if decide (ss = None) then return_false else
  let plat f := load_sprite_to sprites (λ spr, set_platform (f spr)) in
  _ ← plat (λ spr p, mkPlatform (<[0%nat := spr]> (plat_flat p)) (plat_ramp p)
                                (plat_right_ramp p) (plat_left_ramp p));
  _ ← plat (λ spr p, mkPlatform (<[1%nat := spr]> (plat_flat p)) (plat_ramp p)
                                (plat_right_ramp p) (plat_left_ramp p));
  _ ← for_each 0 4 (λ sprnum,
        plat (λ spr p, mkPlatform (plat_flat p) (<[sprnum := spr]> (plat_ramp p))
                                  (plat_right_ramp p) (plat_left_ramp p)));
  _ ← for_each 0 4 (λ sprnum,
        plat (λ spr p, mkPlatform (plat_flat p) (plat_ramp p)
                                  (<[sprnum := spr]> (plat_right_ramp p)) (plat_left_ramp p)));
  for_each 0 4 (λ sprnum,
        plat (λ spr p, mkPlatform (plat_flat p) (plat_ramp p)
                                  (plat_right_ramp p) (<[sprnum := spr]> (plat_left_ramp p)))).

(** [SpriteManager::LoadSUPP] (sprite_store.cpp:682) *)
Definition LoadSUPP (sprites : gmap Z ImageData) : M Store unit :=
  r ← get_reader;
  if decide (rcd_version r ≠ 1 ∨ rcd_size r ≠ 2 + 2 + 2 + Z.of_nat SSP_COUNT * 4)
  then return_false else
  type ← GetUInt16;
  if decide (type ≠ 16) then return_false else
  width ← GetUInt16;
  _ ← GetUInt16;
  let ss := GetSpriteStore width in
  if decide (ss = None) then return_false else
  for_each 0 SSP_COUNT (λ sprnum,
    load_sprite_to sprites (λ spr, set_support (<[sprnum := spr]>))).

(** [SpriteManager::LoadBDIR] (sprite_store.cpp:711) *)
Definition LoadBDIR (sprites : gmap Z ImageData) : M Store unit :=
  r ← get_reader;
  if decide (rcd_version r ≠ 1 ∨ rcd_size r ≠ 2 + 4 * 4) then return_false else
  width ← GetUInt16;
  let ss := GetSpriteStore width in
  if decide (ss = None) then return_false else
  for_each 0 4 (λ sprnum,
    load_sprite_to sprites (λ spr, set_build_arrows (<[sprnum := spr]>))).
End SpriteSets.

(** ** Blocks that are loaded into an object of their own *)

(** Conversion to [int]. *)
Definition i32 (z : Z) : Z := (z + 2 ^ 31) mod 2 ^ 32 - 2 ^ 31.

Section Blocks.
Context `{Headers} {ImageData : Type}.

Local Abbreviation Sprites := (list (option ImageData)).

(** [Fence::Load] (sprite_store.cpp:407) *)
Definition Fence_Load (sprites : gmap Z ImageData) : M (@Fence ImageData) unit :=
  r ← get_reader;
  if decide (rcd_version r ≠ 2 ∨ rcd_size r ≠ 2 + 2 + 4 * Z.of_nat FENCE_COUNT)
  then return_false else
  width ← GetUInt16;
  _ ← modify_world (λ f, mkFence (fence_type f) width (fence_sprites f));
  type ← GetUInt16;
  _ ← modify_world (λ f, mkFence type (fence_width f) (fence_sprites f));
  if decide (type >= FENCE_TYPE_COUNT) then return_false else
  for_each 0 FENCE_COUNT (λ sprnum,
    load_sprite_to sprites
      (λ spr f, mkFence (fence_type f) (fence_width f) (<[sprnum := spr]> (fence_sprites f)))).

(** [Animation::Animation] *)
Definition Animation_new : Animation := mkAnimation 0 PERSON_INVALID ANIM_INVALID [].

(** [DecodePersonType] (sprite_store.cpp:740) *)
Definition DecodePersonType (pt : Z) : Z :=
  match pt with
  | 0 => PERSON_ANY
  | 8 | 16 => PERSON_GUEST
  | 17 => PERSON_HANDYMAN
  | 18 => PERSON_MECHANIC
  | 19 => PERSON_GUARD
  | 20 => PERSON_ENTERTAINER
  | _ => PERSON_INVALID
  end.

(** Assignment to the members of [frames[i]]. *)
Definition set_frame (i : nat) (f : AnimationFrame → AnimationFrame) (a : Animation) : Animation :=
  mkAnimation (anim_frame_count a) (anim_person_type a) (anim_anim_type a)
    (match anim_frames a !! i with
     | Some fr => <[i := f fr]> (anim_frames a)
     | None => anim_frames a
     end).

(** [Animation::Load] (sprite_store.cpp:759) *)
Definition Animation_Load : M Animation unit :=
  r ← get_reader;
  let BASE_LENGTH := 1 + 2 + 2 in
  let length := rcd_size r in
  if decide (rcd_version r ≠ 4 ∨ length < BASE_LENGTH) then return_false else
  pt ← GetUInt8;
  let person_type := DecodePersonType pt in
  _ ← modify_world (λ a, mkAnimation (anim_frame_count a) person_type (anim_anim_type a)
                                     (anim_frames a));
  if decide (person_type = PERSON_INVALID) then return_false else
  at_ ← GetUInt16;
  if decide (at_ < ANIM_BEGIN ∨ at_ > ANIM_LAST) then return_false else
  _ ← modify_world (λ a, mkAnimation (anim_frame_count a) (anim_person_type a) at_
                                     (anim_frames a));
  frame_count ← GetUInt16;
  _ ← modify_world (λ a, mkAnimation frame_count (anim_person_type a) (anim_anim_type a)
                                     (anim_frames a));
  if decide (length ≠ BASE_LENGTH + frame_count * 6) then return_false else
  _ ← modify_world (λ a, mkAnimation (anim_frame_count a) (anim_person_type a) (anim_anim_type a)
                                     (replicate (Z.to_nat frame_count) (mkAnimationFrame 0 0 0)));
  if decide (frame_count = 0) then return_false else
  for_each 0 (Z.to_nat frame_count) (λ i,
    duration' ← GetUInt16;
    _ ← modify_world (set_frame i (λ fr, mkAnimationFrame duration' (dx fr) (dy fr)));
    if decide (duration' = 0 ∨ duration' >= 5000) then return_false else
    dx' ← GetInt16;
    _ ← modify_world (set_frame i (λ fr, mkAnimationFrame (duration fr) dx' (dy fr)));
    if decide (dx' < -100 ∨ dx' > 100) then return_false else
    dy' ← GetInt16;
    _ ← modify_world (set_frame i (λ fr, mkAnimationFrame (duration fr) (dx fr) dy'));
    if decide (dy' < -100 ∨ dy' > 100) then return_false else
    mret tt).

(** [AnimationSprites::AnimationSprites] *)
Definition AnimationSprites_new : @AnimationSprites ImageData :=
  mkAnimationSprites 0 0 PERSON_INVALID ANIM_INVALID [].

(** [AnimationSprites::Load] (sprite_store.cpp:808) *)
Definition AnimationSprites_Load (sprites : gmap Z ImageData)
    : M (@AnimationSprites ImageData) unit :=
  r ← get_reader;
  let BASE_LENGTH := 2 + 1 + 2 + 2 in
  let length := rcd_size r in
  if decide (rcd_version r ≠ 3 ∨ length < BASE_LENGTH) then return_false else
  width ← GetUInt16;
  _ ← modify_world (λ a, mkAnimationSprites width (ansp_frame_count a) (ansp_person_type a)
                                            (ansp_anim_type a) (ansp_sprites a));
  pt ← GetUInt8;
  let person_type := DecodePersonType pt in
  _ ← modify_world (λ a, mkAnimationSprites (ansp_width a) (ansp_frame_count a) person_type
                                            (ansp_anim_type a) (ansp_sprites a));
  if decide (person_type = PERSON_INVALID) then return_false else
  at_ ← GetUInt16;
  if decide (at_ < ANIM_BEGIN ∨ at_ > ANIM_LAST) then return_false else
  _ ← modify_world (λ a, mkAnimationSprites (ansp_width a) (ansp_frame_count a)
                                            (ansp_person_type a) at_ (ansp_sprites a));
  frame_count ← GetUInt16;
  _ ← modify_world (λ a, mkAnimationSprites (ansp_width a) frame_count (ansp_person_type a)
                                            (ansp_anim_type a) (ansp_sprites a));
  if decide (length ≠ BASE_LENGTH + frame_count * 4) then return_false else
  _ ← modify_world (λ a, mkAnimationSprites (ansp_width a) (ansp_frame_count a)
                                            (ansp_person_type a) (ansp_anim_type a)
                                            (replicate (Z.to_nat frame_count) None));
  if decide (frame_count = 0) then return_false else
  for_each 0 (Z.to_nat frame_count) (λ i,
    load_sprite_to sprites
      (λ spr a, mkAnimationSprites (ansp_width a) (ansp_frame_count a) (ansp_person_type a)
                                   (ansp_anim_type a) (<[i := spr]> (ansp_sprites a)))).

(** [FrameSet::FrameSet] *)
Definition FrameSet_new : @FrameSet ImageData := mkFrameSet 0 0 0 (replicate 4 []).

(** [FrameSet::Load] (sprite_store.cpp:322).  For a width other than 64 the
    sprites are read and the cells of the views are left as [new] made
    them. *)
Definition FrameSet_Load (sprites : gmap Z ImageData) : M (@FrameSet ImageData) unit :=
  r ← get_reader;
  if decide (rcd_version r ≠ 1 ∨ rcd_size r < 4) then return_false else
  width ← GetUInt16;
  wx ← GetUInt8;
  wy ← GetUInt8;
  _ ← modify_world (λ fs, mkFrameSet width wx wy (fset_sprites fs));
  if decide (i32 (rcd_size r) ≠ 4 + 16 * wx * wy) then return_false else
  for_each 0 4 (λ i,
    _ ← modify_world (λ fs, mkFrameSet (fset_width fs) (width_x fs) (width_y fs)
                              (<[i := replicate (Z.to_nat (wx * wy)) Unassigned]>
                                 (fset_sprites fs)));
    for_each 0 (Z.to_nat wx) (λ x,
      for_each 0 (Z.to_nat wy) (λ y,
        view ← LoadSpriteFromFile sprites;
        if decide (width ≠ 64) then mret tt else
        modify_world (λ fs, mkFrameSet (fset_width fs) (width_x fs) (width_y fs)
                              (set_cell i (x * Z.to_nat wy + y) (Assigned view)
                                        (fset_sprites fs)))))).

(** [TimedAnimation::TimedAnimation] *)
Definition TimedAnimation_new : @TimedAnimation ImageData := mkTimedAnimation 0 [] [].

(** [TimedAnimation::Load] (sprite_store.cpp:386); [frame_sets] are the frame
    sets of [_sprite_manager], where [GetFrameSet] looks the views up.  The
    frame count is an [int]: for a negative one [new int[frames]] throws
    [std::bad_array_new_length], and the handler does not return. *)
Definition TimedAnimation_Load (filename : string)
    (frame_sets : gmap (string * Z) (@FrameSet ImageData)) : M (@TimedAnimation ImageData) unit :=
  r ← get_reader;
  if decide (rcd_version r ≠ 1 ∨ rcd_size r < 4) then return_false else
  v ← GetUInt32;
  let frames := i32 v in
  _ ← modify_world (λ ta, mkTimedAnimation frames (tima_durations ta) (tima_views ta));
  if decide (i32 (rcd_size r) ≠ i32 (4 + 8 * frames)) then return_false else
  if decide (frames < 0) then fault else
  _ ← modify_world (λ ta, mkTimedAnimation (tima_frames ta)
                            (replicate (Z.to_nat frames) 0) (replicate (Z.to_nat frames) None));
  _ ← for_each 0 (Z.to_nat frames) (λ f,
        d ← GetUInt32;
        modify_world (λ ta, mkTimedAnimation (tima_frames ta)
                              (<[f := i32 d]> (tima_durations ta)) (tima_views ta)));
  for_each 0 (Z.to_nat frames) (λ f,
        id ← GetUInt32;
        modify_world (λ ta, mkTimedAnimation (tima_frames ta) (tima_durations ta)
                              (<[f := frame_sets !! (filename, id)]> (tima_views ta)))).
End Blocks.

(** ** The dispatcher (sprite_store.cpp:1351) *)

(** Modelled from the spec: [RcdFileReader::ReadBlockHeader] ([rcdfile.cpp] is
    not among the sources).  It reads one (tag, version, length) triple: four
    bytes of name and two 32 bit numbers; it gives [false] ([None]) when the
    stream has no further header. *)
Definition ReadBlockHeader (r : RcdFileReader) : option RcdFileReader :=
  match remaining r with
  | n0 :: n1 :: n2 :: n3 :: v0 :: v1 :: v2 :: v3 :: s0 :: s1 :: s2 :: s3 :: _ =>
    let le32 b0 b1 b2 b3 :=
      Z.lor (Z.lor (byte_val b0) (Z.shiftl (byte_val b1) 8))
            (Z.shiftl (Z.lor (byte_val b2) (Z.shiftl (byte_val b3) 8)) 16) in
    Some (mkReader (rcd_data r) (file_pos r + 12)%nat
                   (String.string_of_list_byte [n0; n1; n2; n3])
                   (le32 v0 v1 v2 v3) (le32 s0 s1 s2 s3))
  | _ => None
  end.

(** Modelled from the spec: [RcdFileReader::CheckFileHeader(name, version)]:
    the file starts with the magic tag and the version of the format. *)
Definition CheckFileHeader (hdr_name : string) (hdr_version : Z) (r : RcdFileReader)
    : option RcdFileReader :=
  match remaining r with
  | n0 :: n1 :: n2 :: n3 :: v0 :: v1 :: v2 :: v3 :: _ =>
    if decide (String.string_of_list_byte [n0; n1; n2; n3] = hdr_name
               ∧ Z.lor (Z.lor (byte_val v0) (Z.shiftl (byte_val v1) 8))
                       (Z.shiftl (Z.lor (byte_val v2) (Z.shiftl (byte_val v3) 8)) 16)
                 = hdr_version)
    then Some (mkReader (rcd_data r) (file_pos r + 8)%nat (rcd_name r) (rcd_version r)
                        (rcd_size r))
    else None
  | _ => None
  end.

Section Dispatcher.
Context `{Headers} {ImageData TrackPiece Ext : Type}.

Local Abbreviation Store := (@SpriteStorage ImageData).

(** The handlers that are not among the sources, and the handlers of
    [GuiSprites], are parameters.  They get the reader and the tables of the
    file, and give their result and the number of bytes they consumed.

    - [LoadImage]: the image, or [nullptr];
    - [TrackPiece_Load]: [TrackPiece::Load];
    - [external tag]: the handler of the block [tag] with what follows its
      success ([AddRideType], ...), on the state [Ext] of [_gui_sprites],
      [_rides_manager], [_scenery], [_language] and the other registries. *)
Variable LoadImage : RcdFileReader → option ImageData * nat.
Variable TrackPiece_Load : RcdFileReader → gmap Z ImageData → option TrackPiece * nat.
Variable external : string → RcdFileReader → gmap Z ImageData → gmap Z TextData →
                    gmap Z TrackPiece → Ext → bool * nat * Ext.

Inductive RcdBlock :=
| FenceBlock (f : @Fence ImageData)
| AnimationBlock (a : Animation)
| AnimationSpritesBlock (a : @AnimationSprites ImageData)
| TextBlock (t : TextData).

Record SpriteManager := mkSpriteManager {
  store : Store;
  blocks : list RcdBlock;
  sm_animations : list (Z * Animation)      (* multimap, by anim_type *)
}.

(** [SpriteManager::SpriteManager] *)
Definition SpriteManager_new : SpriteManager :=
  mkSpriteManager (SpriteStorage_new 64) [] [].

(** The variables of [SpriteManager::Load] and the objects it works on. *)
Record LoopState := mkLoopState {
  ls_rcd : RcdFileReader;
  ls_sprites : gmap Z ImageData;         (* Sprites loaded from this file. *)
  ls_texts : gmap Z TextData;            (* Texts loaded from this file. *)
  ls_track_pieces : gmap Z TrackPiece;   (* Track pieces loaded from this file. *)
  ls_manager : SpriteManager;            (* *this *)
  ls_ext : Ext;
  ls_stderr : list (string * Z)          (* unknown blocks reported: name, version *)
}.

Definition with_rcd (r : RcdFileReader) (s : LoopState) : LoopState :=
  mkLoopState r (ls_sprites s) (ls_texts s) (ls_track_pieces s) (ls_manager s) (ls_ext s)
              (ls_stderr s).
Definition with_sprites (m : gmap Z ImageData) (s : LoopState) : LoopState :=
  mkLoopState (ls_rcd s) m (ls_texts s) (ls_track_pieces s) (ls_manager s) (ls_ext s)
              (ls_stderr s).
Definition with_texts (m : gmap Z TextData) (s : LoopState) : LoopState :=
  mkLoopState (ls_rcd s) (ls_sprites s) m (ls_track_pieces s) (ls_manager s) (ls_ext s)
              (ls_stderr s).
Definition with_track_pieces (m : gmap Z TrackPiece) (s : LoopState) : LoopState :=
  mkLoopState (ls_rcd s) (ls_sprites s) (ls_texts s) m (ls_manager s) (ls_ext s)
              (ls_stderr s).
Definition with_manager (f : SpriteManager → SpriteManager) (s : LoopState) : LoopState :=
  mkLoopState (ls_rcd s) (ls_sprites s) (ls_texts s) (ls_track_pieces s) (f (ls_manager s))
              (ls_ext s) (ls_stderr s).
Definition with_ext (e : Ext) (s : LoopState) : LoopState :=
  mkLoopState (ls_rcd s) (ls_sprites s) (ls_texts s) (ls_track_pieces s) (ls_manager s) e
              (ls_stderr s).
Definition with_stderr (l : list (string * Z)) (s : LoopState) : LoopState :=
  mkLoopState (ls_rcd s) (ls_sprites s) (ls_texts s) (ls_track_pieces s) (ls_manager s)
              (ls_ext s) l.
Definition with_store (f : Store → Store) (m : SpriteManager) : SpriteManager :=
  mkSpriteManager (f (store m)) (blocks m) (sm_animations m).

(** The reader after [n] more bytes. *)
Definition consumed (n : nat) (s : LoopState) : LoopState :=
  let r := ls_rcd s in
  with_rcd (mkReader (rcd_data r) (file_pos r + n)%nat (rcd_name r) (rcd_version r)
                     (rcd_size r)) s.

(** What one round of the loop comes to: [continue], [return] of a message
    ([None] is [nullptr]), a failed assertion, or an exception that leaves
    [Load]. *)
Inductive Step :=
| Continue (s : LoopState)
| Return (msg : option string) (s : LoopState)
| Abort (s : LoopState)
| Throw (s : LoopState).

(** [SpriteManager::AddBlock] (sprite_store.cpp:1623) *)
Definition AddBlock (block : RcdBlock) (m : SpriteManager) : SpriteManager :=
  mkSpriteManager (store m) (blocks m ++ [block]) (sm_animations m).

(** [SpriteManager::AddAnimation] (sprite_store.cpp:1644) *)
Definition AddAnimation (anim : Animation) (m : SpriteManager) : SpriteManager :=
  mkSpriteManager (store m) (blocks m) (sm_animations m ++ [(anim_anim_type anim, anim)]).

(** [SpriteStorage::RemoveAnimations] (sprite_store.cpp:1293) *)
Definition RemoveAnimations (anim_type pers_type : Z) (ss : Store) : Store :=
  set_animations
    (filter (λ e, ¬ (ansp_anim_type e.2 = anim_type ∧ ansp_person_type e.2 = pers_type)))
    ss.

(** [SpriteStorage::AddAnimationSprites] (sprite_store.cpp:1313); [None] when
    its assertion fails. *)
Definition AddAnimationSprites (an_spr : @AnimationSprites ImageData) (ss : Store)
    : option Store :=
  if decide (ansp_width an_spr = ss_size ss)
  then Some (set_animations (λ l, l ++ [(ansp_anim_type an_spr, an_spr)]) ss)
  else None.

(** [SpriteStorage::AddFence] (sprite_store.cpp:1324); [None] when one of its
    assertions fails. *)
Definition AddFence (fnc : @Fence ImageData) (ss : Store) : option Store :=
  if decide (fence_width fnc = ss_size ss ∧ fence_type fnc < FENCE_TYPE_COUNT)
  then Some (set_fence (<[fence_type fnc := fnc]>) ss)
  else None.

(** A handler of [SpriteManager] that fills the storage in place. *)
Definition in_store (h : M Store unit) (msg : string) (s : LoopState) : Step :=
  let '(res, st) := h (mkState (ls_rcd s) (store (ls_manager s))) in
  let s' := with_manager (with_store (λ _, world st)) (with_rcd (rcd st) s) in
  match res with
  | Ok _ => Continue s'
  | Fail => Return (Some msg) s'
  | Fault => Abort s'
  end.

(** A block that is loaded into a new object [obj]; [k] is what follows when
    the load succeeded.  The object of a failed load is dropped. *)
Definition load_object {O} (h : M O unit) (obj : O) (msg : string) (s : LoopState)
    (k : O → LoopState → Step) : Step :=
  let '(res, st) := h (mkState (ls_rcd s) obj) in
  let s' := with_rcd (rcd st) s in
  match res with
  | Ok _ => k (world st) s'
  | Fail => Return (Some msg) s'
  | Fault => Abort s'
  end.

Definition external_block (tag : string) (msg : string) (s : LoopState) : Step :=
  let '(ok, n, e) :=
    external tag (ls_rcd s) (ls_sprites s) (ls_texts s) (ls_track_pieces s) (ls_ext s) in
  let s' := with_ext e (consumed n s) in
  if ok then Continue s' else Return (Some msg) s'.

(** [if (!rcd_file.SkipBytes(rcd_file.size)) return msg; continue;] *)
Definition skip_block (msg : string) (s : LoopState) : Step :=
  let '(res, st) := SkipBytes (rcd_size (ls_rcd s)) (mkState (ls_rcd s) tt) in
  match res with
  | Ok _ => Continue (with_rcd (rcd st) s)
  | _ => Return (Some msg) (with_rcd (rcd st) s)
  end.

Local Open Scope string_scope.

(** The body of the loop after [ReadBlockHeader]. *)
Definition Load_block (filename : string) (blk_num : Z) (s : LoopState) : Step :=
  let name := rcd_name (ls_rcd s) in
  (* Skip meta blocks. *)
  if decide (name = "INFO") then skip_block "Invalid INFO block." s
  else if decide (name = "8PXL" ∨ name = "32PX") then
    let '(imd, n) := LoadImage (ls_rcd s) in
    let s' := consumed n s in
    match imd with
    | None => Return (Some "Image data loading failed") s'
    | Some imd => Continue (with_sprites (map_insert_new blk_num imd (ls_sprites s')) s')
    end
  else if decide (name = "SURF") then
    in_store (LoadSURF (ls_sprites s)) "Surface block loading failed." s
  else if decide (name = "TSEL") then
    in_store (LoadTSEL (ls_sprites s)) "Tile-selection block loading failed." s
  else if decide (name = "PATH") then
    in_store (LoadPATH (ls_sprites s)) "Path-sprites block loading failed." s
  else if decide (name = "PDEC") then
    in_store (LoadPDEC (ls_sprites s)) "Path decoration block loading failed." s
  else if decide (name = "TCOR") then
    in_store (LoadTCOR (ls_sprites s)) "Tile-corners block loading failed." s
  else if decide (name = "FENC") then
    load_object (Fence_Load (ls_sprites s)) Fence_new "Fence block loading failed." s
      (λ block s',
         match AddFence block (store (ls_manager s')) with
         | None => Abort s'
         | Some ss =>
           Continue (with_manager (λ m, AddBlock (FenceBlock block) (with_store (λ _, ss) m)) s')
         end)
  else if decide (name = "FUND") then
    in_store (LoadFUND (ls_sprites s)) "Foundation block loading failed." s
  else if decide (name = "PLAT") then
    in_store (LoadPLAT (ls_sprites s)) "Platform block loading failed." s
  else if decide (name = "SUPP") then
    in_store (LoadSUPP (ls_sprites s)) "Support block loading failed." s
  else if decide (name = "BDIR") then
    in_store (LoadBDIR (ls_sprites s)) "Build arrows block loading failed." s
  else if decide (name = "GCHK") then
    external_block "GCHK" "Loading Checkable GUI sprites failed." s
  else if decide (name = "GBOR") then
    external_block "GBOR" "Loading Border GUI sprites failed." s
  else if decide (name = "GSLI") then
    external_block "GSLI" "Loading Slider bar GUI sprites failed." s
  else if decide (name = "GSCL") then
    external_block "GSCL" "Loading Scrollbar GUI sprites failed." s
  else if decide (name = "GSLP") then
    external_block "GSLP" "Loading slope selection GUI sprites failed." s
  else if decide (name = "MENU") then
    external_block "MENU" "Loading main menu sprites failed." s
  else if decide (name = "ANIM") then
    load_object Animation_Load Animation_new "Animation failed to load." s
      (λ anim s',
         if decide (anim_person_type anim = PERSON_INVALID ∨ anim_anim_type anim = ANIM_INVALID)
         then Return (Some "Unknown animation.") s'
         else
           Continue (with_manager
             (λ m, AddBlock (AnimationBlock anim)
                     (with_store (RemoveAnimations (anim_anim_type anim) (anim_person_type anim))
                        (AddAnimation anim m))) s'))
  else if decide (name = "ANSP") then
    load_object (AnimationSprites_Load (ls_sprites s)) AnimationSprites_new
      "Animation sprites failed to load." s
      (λ an_spr s',
         if decide (ansp_person_type an_spr = PERSON_INVALID
                    ∨ ansp_anim_type an_spr = ANIM_INVALID)
         then Return (Some "Unknown animation.") s'
         else
           match AddAnimationSprites an_spr (store (ls_manager s')) with
           | None => Abort s'
           | Some ss =>
             Continue (with_manager
               (λ m, AddBlock (AnimationSpritesBlock an_spr) (with_store (λ _, ss) m)) s')
           end)
  else if decide (name = "PRSG") then
    external_block "PRSG" "Graphics Person type data failed to load." s
  else if decide (name = "TEXT") then
    let '(res, st) := TextData_Load (mkState (ls_rcd s) tt) in
    let s' := with_rcd (rcd st) s in
    match res with
    | Ok txt =>
      Continue (with_manager (AddBlock (TextBlock txt))
                  (with_texts (map_insert_new blk_num txt (ls_texts s')) s'))
    | Fail => Return (Some "Text block failed to load.") s'
    | Fault => Abort s'
    end
  else if decide (name = "SHOP") then
    external_block "SHOP" "Shop type failed to load." s
  else if decide (name = "FSET") then
    load_object (FrameSet_Load (ls_sprites s)) FrameSet_new "Frame set failed to load." s
      (λ fset s',
         Continue (with_manager
           (with_store (set_frame_sets (<[(filename, blk_num) := fset]>))) s'))
  else if decide (name = "TIMA") then
    let '(res, st) :=
      TimedAnimation_Load filename (frame_sets (store (ls_manager s)))
        (mkState (ls_rcd s) TimedAnimation_new) in
    let s' := with_rcd (rcd st) s in
    match res with
    | Ok _ =>
      Continue (with_manager
        (with_store (set_timed_animations (<[(filename, blk_num) := world st]>))) s')
    | Fail => Return (Some "Timed animation failed to load.") s'
    | Fault => Throw s'     (* std::bad_array_new_length *)
    end
  else if decide (name = "SCNY") then
    external_block "SCNY" "Scenery type failed to load." s
  else if decide (name = "RIEE") then
    external_block "RIEE" "Entrance/Exit failed to load." s
  else if decide (name = "FGTR") then
    external_block "FGTR" "Gentle/Thrill ride type failed to load." s
  else if decide (name = "TRCK") then
    let '(tp, n) := TrackPiece_Load (ls_rcd s) (ls_sprites s) in
    let s' := consumed n s in
    match tp with
    | None => Return (Some "Track piece failed to load.") s'
    | Some tp =>
      Continue (with_track_pieces (map_insert_new blk_num tp (ls_track_pieces s')) s')
    end
  else if decide (name = "RCST") then
    external_block "RCST" "Coaster type failed to load." s
  else if decide (name = "CSPL") then
    external_block "CSPL" "Coaster platform failed to load." s
  else if decide (name = "CARS") then
    match external_block "GetNewCarType" "No room to store a car type." s with
    | Continue s' => external_block "CARS" "Car type failed to load." s'
    | r => r
    end
  else
    (* Unknown block in the RCD file. Skip the block. *)
    skip_block "Error skipping unknown block."
      (with_stderr (ls_stderr s ++ [(name, rcd_version (ls_rcd s))]) s).

(** How a run of [Load] ends: it returns, it stops at an assertion, or an
    exception leaves it. *)
Inductive Outcome :=
| Returned (msg : option string) (s : LoopState)
| Aborted (s : LoopState)
| Thrown (s : LoopState).

(** The loop over the blocks; [None] when the fuel does not suffice. *)
Fixpoint Load_loop (fuel : nat) (filename : string) (blk_num : Z) (s : LoopState)
    : option Outcome :=
  match fuel with
  | O => None
  | S fuel' =>
    match ReadBlockHeader (ls_rcd s) with
    | None => Some (Returned None s)      (* End reached. *)
    | Some r =>
      match Load_block filename blk_num (with_rcd r s) with
      | Continue s' => Load_loop fuel' filename (u32 (blk_num + 1)) s'
      | Return msg s' => Some (Returned msg s')
      | Abort s' => Some (Aborted s')
      | Throw s' => Some (Thrown s')
      end
    end
  end.

(** [SpriteManager::Load]: [file] is the content of the file [filename]; the
    manager, the other registries and the error stream are those of the
    program. *)
Definition Load (filename : string) (file : list byte) (m : SpriteManager) (e : Ext)
    (err : list (string * Z)) : option Outcome :=
  let rcd_file := mkReader file 0 "" 0 0 in
  let s := mkLoopState rcd_file ∅ ∅ ∅ m e err in
  match CheckFileHeader "RCDF" 2 rcd_file with
  | None => Some (Returned (Some "Bad header") s)
  | Some r => Load_loop (S (length file)) filename 1 (with_rcd r s)
  end.
End Dispatcher.

(** ** Timed animations (sprite_store.cpp:357 and :369)

    The arithmetic is that of [int]; where C++ leaves an overflow undefined,
    the value wraps around as it does on the machine. *)

Section TimedAnimations.
Context {ImageData : Type}.

(** The loop of [GetTotalDuration], from the frame [i] on; [None] is a read
    outside [durations]. *)
Fixpoint add_durations (n i : nat) (durations : list Z) (total : Z) : option Z :=
  match n with
  | O => Some total
  | S n' =>
    match durations !! i with
    | None => None
    | Some d => add_durations n' (S i) durations (i32 (total + d))
    end
  end.

(** [TimedAnimation::GetTotalDuration] *)
Definition GetTotalDuration (ta : @TimedAnimation ImageData) : option Z :=
  add_durations (Z.to_nat (tima_frames ta)) 0 (tima_durations ta) 0.

(** The loop of [GetFrame], from the frame [i] on; [None] is [NOT_REACHED()]
    or a read outside [durations]. *)
Fixpoint find_frame (n i : nat) (durations : list Z) (time : Z) : option Z :=
  match n with
  | O => None
  | S n' =>
    match durations !! i with
    | None => None
    | Some d =>
      let time := i32 (time - d) in
      if decide (time ≤ 0) then Some (Z.of_nat i)
      else find_frame n' (S i) durations time
    end
  end.

(** [TimedAnimation::GetFrame]; [%] is the remainder of the truncating
    division. *)
Definition GetFrame (time : Z) (loop_around : bool) (ta : @TimedAnimation ImageData)
    : option Z :=
  match GetTotalDuration ta with
  | None => None
  | Some total_length =>
    if decide (total_length ≤ 0 ∨ (loop_around = false ∧ total_length > time))
    then Some (-1)
    else find_frame (Z.to_nat (tima_frames ta)) 0 (tima_durations ta)
                    (Z.rem time total_length)
  end.
End TimedAnimations.

(** ** Lookups of the sprite manager (sprite_store.cpp:232 and :1634-1858) *)

Section Lookups.
Context `{Headers} {ImageData : Type}.

(** [SurfaceData::HasAllSprites] (sprite_store.cpp:232) *)
Fixpoint HasAllSprites (surface : list (option ImageData)) : bool :=
  match surface with
  | [] => true
  | None :: _ => false
  | Some _ :: rest => HasAllSprites rest
  end.

(** [SpriteManager::GetSprites] (sprite_store.cpp:1634) *)
Definition GetSprites (size : Z) (m : @SpriteManager ImageData) : option SpriteStorage :=
  if decide (size ≠ 64) then None else Some (store m).

(** [SpriteManager::GetFence] (sprite_store.cpp:1822); [None] when its
    assertion fails, [Some None] is [nullptr]. *)
Definition GetFence (fence_type : Z) (m : @SpriteManager ImageData) : option (option Fence) :=
  if decide (fence_type < FENCE_TYPE_COUNT) then Some (fence (store m) !! fence_type)
  else None.

(** [SpriteManager::GetFrameSet] (sprite_store.cpp:1833) *)
Definition GetFrameSet (key : string * Z) (m : @SpriteManager ImageData) : option FrameSet :=
  frame_sets (store m) !! key.

(** [SpriteManager::GetTimedAnimation] (sprite_store.cpp:1844) *)
Definition GetTimedAnimation (key : string * Z) (m : @SpriteManager ImageData)
    : option TimedAnimation :=
  timed_animations (store m) !! key.

(** [SpriteManager::GetPathStatus] (sprite_store.cpp:1855) *)
Definition GetPathStatus (path_type : Z) (m : @SpriteManager ImageData) : PathStatus :=
  path_status (default Path_new (path_sprites (store m) !! path_type)).
End Lookups.

(** ** The animations of the sprite manager (sprite_store.cpp:1807)

    The multimap of the animations is kept as the list of its pairs in the
    order of their insertion.  A [std::multimap] holds its pairs by key, and
    the pairs of one key in the order of their insertion; [find] is taken to
    give the first pair of the key, as the implementations of the standard
    library do. *)

(** The place of a new pair: behind the pairs whose key is not above its key. *)
Fixpoint mm_insert {V} (e : Z * V) (l : list (Z * V)) : list (Z * V) :=
  match l with
  | [] => [e]
  | x :: rest => if decide (e.1 < x.1) then e :: x :: rest else x :: mm_insert e rest
  end.

(** The pairs in the order of the multimap. *)
Definition mm_elements {V} (l : list (Z * V)) : list (Z * V) :=
  foldl (λ acc e, mm_insert e acc) [] l.

(** The pairs from [find(key)] to [end()]. *)
Fixpoint mm_find {V} (key : Z) (l : list (Z * V)) : list (Z * V) :=
  match l with
  | [] => []
  | x :: rest => if decide (x.1 = key) then x :: rest else mm_find key rest
  end.

(** The loop of [GetAnimation]. *)
Fixpoint GetAnimation_loop (anim_type per_type : Z) (l : list (Z * Animation))
    : option Animation :=
  match l with
  | [] => None
  | (_, anim) :: rest =>
    if decide (anim_anim_type anim ≠ anim_type) then None
    else if decide (anim_person_type anim = per_type) then Some anim
    else GetAnimation_loop anim_type per_type rest
  end.

(** [SpriteManager::GetAnimation] *)
Definition GetAnimation {ImageData} (anim_type per_type : Z) (m : @SpriteManager ImageData)
    : option Animation :=
  GetAnimation_loop anim_type per_type (mm_find anim_type (mm_elements (sm_animations m))).

(** ** The sprites of the GUI (sprite_store.cpp:835-1277)

    [GuiSprites] has the members that the handlers below read and write;
    [LoadGSLP], which needs the text storage of the language module, is not
    among them.  The declarations are in [gui_sprites.h] and [sprite_data.h],
    which are not among the sources: the lengths of the sprite arrays of the
    widgets are parameters, and so are the members [width] and [height] of
    [ImageData], which are [uint16], as their use with the [uint16 max_width]
    in [std::max] shows.  The numbers of the widgets are taken to be wide
    enough for the values that the handlers assign to them. *)

Class GuiHeaders := {
  WBS_COUNT : nat;   (* sprites of a border *)
  WCS_COUNT : nat;   (* sprites of a checkable widget *)
  WSS_COUNT : nat;   (* sprites of a slider *)
  WLS_COUNT : nat    (* sprites of a scrollbar *)
}.

Section Gui.
Context `{GuiHeaders} {ImageData : Type}.
Variable img_width img_height : ImageData → Z.

Local Abbreviation Sprites := (list (option ImageData)).

Record BorderSpriteData := mkBorderSpriteData {
  border_top : Z; border_left : Z; border_right : Z; border_bottom : Z;
  min_width : Z; min_height : Z; hor_stepsize : Z; vert_stepsize : Z;
  border_normal : Sprites;      (* ImageData *normal[WBS_COUNT] *)
  border_pressed : Sprites      (* ImageData *pressed[WBS_COUNT] *)
}.

Record CheckableWidgetSpriteData := mkCheckableWidgetSpriteData {
  check_width : Z; check_height : Z;
  check_sprites : Sprites       (* ImageData *sprites[WCS_COUNT] *)
}.

Record SliderSpriteData := mkSliderSpriteData {
  min_bar_length : Z; slider_stepsize : Z; slider_height : Z;
  slider_normal : Sprites;      (* ImageData *normal[WSS_COUNT] *)
  slider_shaded : Sprites       (* ImageData *shaded[WSS_COUNT] *)
}.

Record ScrollbarSpriteData := mkScrollbarSpriteData {
  min_length_all : Z; min_length_slider : Z; stepsize_bar : Z; stepsize_slider : Z;
  scroll_height : Z;
  scroll_normal : Sprites;      (* ImageData *normal[WLS_COUNT] *)
  scroll_shaded : Sprites       (* ImageData *shaded[WLS_COUNT] *)
}.

Record GuiSprites := mkGuiSprites {
  titlebar : BorderSpriteData;
  button : BorderSpriteData;
  left_tabbar : BorderSpriteData;
  tab_tabbar : BorderSpriteData;
  right_tabbar : BorderSpriteData;
  tabbar_panel : BorderSpriteData;
  panel : BorderSpriteData;
  checkbox : CheckableWidgetSpriteData;
  radio_button : CheckableWidgetSpriteData;
  hor_slider : SliderSpriteData;
  vert_slider : SliderSpriteData;
  hor_scroll : ScrollbarSpriteData;
  vert_scroll : ScrollbarSpriteData;
  close_sprite : option ImageData;
  mainmenu_splash_duration : Z;
  mainmenu_logo : option ImageData;
  mainmenu_splash : option ImageData;
  mainmenu_new : option ImageData;
  mainmenu_load : option ImageData;
  mainmenu_settings : option ImageData;
  mainmenu_quit : option ImageData
}.

(** [BorderSpriteData::Clear] (sprite_store.cpp:835) *)
Definition BorderSpriteData_Clear (b : BorderSpriteData) : BorderSpriteData :=
  mkBorderSpriteData 0 0 0 0 0 0 0 0 (replicate WBS_COUNT None) (replicate WBS_COUNT None).

(** [BorderSpriteData::IsLoaded] (sprite_store.cpp:857) *)
Definition BorderSpriteData_IsLoaded (b : BorderSpriteData) : bool :=
  bool_decide (min_width b ≠ 0) && bool_decide (min_height b ≠ 0).

(** [CheckableWidgetSpriteData::Clear] (sprite_store.cpp:910) *)
Definition CheckableWidgetSpriteData_Clear (c : CheckableWidgetSpriteData)
    : CheckableWidgetSpriteData :=
  mkCheckableWidgetSpriteData 0 0 (replicate WCS_COUNT None).

(** [CheckableWidgetSpriteData::IsLoaded] (sprite_store.cpp:924) *)
Definition CheckableWidgetSpriteData_IsLoaded (c : CheckableWidgetSpriteData) : bool :=
  bool_decide (check_width c ≠ 0) && bool_decide (check_height c ≠ 0).

(** [SliderSpriteData::Clear] (sprite_store.cpp:966) *)
Definition SliderSpriteData_Clear (d : SliderSpriteData) : SliderSpriteData :=
  mkSliderSpriteData 0 0 0 (replicate WSS_COUNT None) (replicate WSS_COUNT None).

(** [SliderSpriteData::IsLoaded] (sprite_store.cpp:982) *)
Definition SliderSpriteData_IsLoaded (d : SliderSpriteData) : bool :=
  bool_decide (min_bar_length d ≠ 0) && bool_decide (slider_height d ≠ 0).

(** [ScrollbarSpriteData::Clear] (sprite_store.cpp:1030) *)
Definition ScrollbarSpriteData_Clear (d : ScrollbarSpriteData) : ScrollbarSpriteData :=
  mkScrollbarSpriteData 0 0 0 0 0 (replicate WLS_COUNT None) (replicate WLS_COUNT None).

(** [ScrollbarSpriteData::IsLoaded] (sprite_store.cpp:1048) *)
Definition ScrollbarSpriteData_IsLoaded (d : ScrollbarSpriteData) : bool :=
  bool_decide (min_length_all d ≠ 0) && bool_decide (scroll_height d ≠ 0).

(** The members of [GuiSprites] that a pointer [sprdata] of a handler can
    point at. *)
Inductive BorderMember :=
| Titlebar | Button | LeftTabbar | TabTabbar | RightTabbar | TabbarPanel | Panel.
Inductive CheckableMember := Checkbox | RadioButton.
Inductive SliderMember := HorSlider | VertSlider.
Inductive ScrollbarMember := HorScroll | VertScroll.

#[global] Instance BorderMember_eq_dec : EqDecision BorderMember.
Proof. solve_decision. Defined.
#[global] Instance CheckableMember_eq_dec : EqDecision CheckableMember.
Proof. solve_decision. Defined.
#[global] Instance SliderMember_eq_dec : EqDecision SliderMember.
Proof. solve_decision. Defined.
#[global] Instance ScrollbarMember_eq_dec : EqDecision ScrollbarMember.
Proof. solve_decision. Defined.

Definition get_border (w : BorderMember) (g : GuiSprites) : BorderSpriteData :=
  match w with
  | Titlebar => titlebar g | Button => button g | LeftTabbar => left_tabbar g
  | TabTabbar => tab_tabbar g | RightTabbar => right_tabbar g
  | TabbarPanel => tabbar_panel g | Panel => panel g
  end.
Definition get_checkable (w : CheckableMember) (g : GuiSprites) : CheckableWidgetSpriteData :=
  match w with Checkbox => checkbox g | RadioButton => radio_button g end.
Definition get_slider (w : SliderMember) (g : GuiSprites) : SliderSpriteData :=
  match w with HorSlider => hor_slider g | VertSlider => vert_slider g end.
Definition get_scrollbar (w : ScrollbarMember) (g : GuiSprites) : ScrollbarSpriteData :=
  match w with HorScroll => hor_scroll g | VertScroll => vert_scroll g end.

(** The assignments through the pointer [sprdata]: the member [w] becomes
    [f] of what it was. *)
Definition at_border (w : BorderMember) (f : BorderSpriteData → BorderSpriteData)
    (g : GuiSprites) : GuiSprites :=
  let b x := if decide (x = w) then f (get_border x g) else get_border x g in
  mkGuiSprites (b Titlebar) (b Button) (b LeftTabbar) (b TabTabbar) (b RightTabbar)
    (b TabbarPanel) (b Panel) (checkbox g) (radio_button g) (hor_slider g) (vert_slider g)
    (hor_scroll g) (vert_scroll g) (close_sprite g) (mainmenu_splash_duration g)
    (mainmenu_logo g) (mainmenu_splash g) (mainmenu_new g) (mainmenu_load g)
    (mainmenu_settings g) (mainmenu_quit g).
Definition at_checkable (w : CheckableMember)
    (f : CheckableWidgetSpriteData → CheckableWidgetSpriteData) (g : GuiSprites) : GuiSprites :=
  let c x := if decide (x = w) then f (get_checkable x g) else get_checkable x g in
  mkGuiSprites (titlebar g) (button g) (left_tabbar g) (tab_tabbar g) (right_tabbar g)
    (tabbar_panel g) (panel g) (c Checkbox) (c RadioButton) (hor_slider g) (vert_slider g)
    (hor_scroll g) (vert_scroll g) (close_sprite g) (mainmenu_splash_duration g)
    (mainmenu_logo g) (mainmenu_splash g) (mainmenu_new g) (mainmenu_load g)
    (mainmenu_settings g) (mainmenu_quit g).
Definition at_slider (w : SliderMember) (f : SliderSpriteData → SliderSpriteData)
    (g : GuiSprites) : GuiSprites :=
  let d x := if decide (x = w) then f (get_slider x g) else get_slider x g in
  mkGuiSprites (titlebar g) (button g) (left_tabbar g) (tab_tabbar g) (right_tabbar g)
    (tabbar_panel g) (panel g) (checkbox g) (radio_button g) (d HorSlider) (d VertSlider)
    (hor_scroll g) (vert_scroll g) (close_sprite g) (mainmenu_splash_duration g)
    (mainmenu_logo g) (mainmenu_splash g) (mainmenu_new g) (mainmenu_load g)
    (mainmenu_settings g) (mainmenu_quit g).
Definition at_scrollbar (w : ScrollbarMember) (f : ScrollbarSpriteData → ScrollbarSpriteData)
    (g : GuiSprites) : GuiSprites :=
  let d x := if decide (x = w) then f (get_scrollbar x g) else get_scrollbar x g in
  mkGuiSprites (titlebar g) (button g) (left_tabbar g) (tab_tabbar g) (right_tabbar g)
    (tabbar_panel g) (panel g) (checkbox g) (radio_button g) (hor_slider g) (vert_slider g)
    (d HorScroll) (d VertScroll) (close_sprite g) (mainmenu_splash_duration g)
    (mainmenu_logo g) (mainmenu_splash g) (mainmenu_new g) (mainmenu_load g)
    (mainmenu_settings g) (mainmenu_quit g).

(** Assignments to the members of a border. *)
Definition set_border_normal (f : Sprites → Sprites) (b : BorderSpriteData) :=
  mkBorderSpriteData (border_top b) (border_left b) (border_right b) (border_bottom b)
    (min_width b) (min_height b) (hor_stepsize b) (vert_stepsize b)
    (f (border_normal b)) (border_pressed b).
Definition set_border_pressed (f : Sprites → Sprites) (b : BorderSpriteData) :=
  mkBorderSpriteData (border_top b) (border_left b) (border_right b) (border_bottom b)
    (min_width b) (min_height b) (hor_stepsize b) (vert_stepsize b)
    (border_normal b) (f (border_pressed b)).

(** The [switch] of [LoadGBOR]: the member and [pressed]; [None] is its
    [default]. *)
Definition border_of_type (tp : Z) : option (BorderMember * bool) :=
  match tp with
  | 1 => Some (LeftTabbar, false)
  | 2 => Some (TabTabbar, true)
  | 3 => Some (TabTabbar, false)
  | 4 => Some (RightTabbar, false)
  | 5 => Some (TabbarPanel, false)
  | 6 => Some (Titlebar, false)
  | 7 => Some (Button, false)
  | 8 => Some (Button, true)
  | 9 => Some (Panel, false)
  | _ => None
  end.

(** [GuiSprites::LoadGBOR] (sprite_store.cpp:868) *)
Definition LoadGBOR (sprites : gmap Z ImageData) : M GuiSprites unit :=
  r ← get_reader;
  if decide (rcd_version r ≠ 2 ∨ rcd_size r ≠ 2 + 8 * 1 + Z.of_nat WBS_COUNT * 4)
  then return_false else
  tp ← GetUInt16;
  match border_of_type tp with
  | None => return_false
  | Some (sprdata, pressed) =>
    v ← GetUInt8;
    _ ← modify_world (at_border sprdata (λ b,
          mkBorderSpriteData v (border_left b) (border_right b) (border_bottom b)
            (min_width b) (min_height b) (hor_stepsize b) (vert_stepsize b)
            (border_normal b) (border_pressed b)));
    v ← GetUInt8;
    _ ← modify_world (at_border sprdata (λ b,
          mkBorderSpriteData (border_top b) v (border_right b) (border_bottom b)
            (min_width b) (min_height b) (hor_stepsize b) (vert_stepsize b)
            (border_normal b) (border_pressed b)));
    v ← GetUInt8;
    _ ← modify_world (at_border sprdata (λ b,
          mkBorderSpriteData (border_top b) (border_left b) v (border_bottom b)
            (min_width b) (min_height b) (hor_stepsize b) (vert_stepsize b)
            (border_normal b) (border_pressed b)));
    v ← GetUInt8;
    _ ← modify_world (at_border sprdata (λ b,
          mkBorderSpriteData (border_top b) (border_left b) (border_right b) v
            (min_width b) (min_height b) (hor_stepsize b) (vert_stepsize b)
            (border_normal b) (border_pressed b)));
    v ← GetUInt8;
    _ ← modify_world (at_border sprdata (λ b,
          mkBorderSpriteData (border_top b) (border_left b) (border_right b) (border_bottom b)
            v (min_height b) (hor_stepsize b) (vert_stepsize b)
            (border_normal b) (border_pressed b)));
    v ← GetUInt8;
    _ ← modify_world (at_border sprdata (λ b,
          mkBorderSpriteData (border_top b) (border_left b) (border_right b) (border_bottom b)
            (min_width b) v (hor_stepsize b) (vert_stepsize b)
            (border_normal b) (border_pressed b)));
    v ← GetUInt8;
    _ ← modify_world (at_border sprdata (λ b,
          mkBorderSpriteData (border_top b) (border_left b) (border_right b) (border_bottom b)
            (min_width b) (min_height b) v (vert_stepsize b)
            (border_normal b) (border_pressed b)));
    v ← GetUInt8;
    _ ← modify_world (at_border sprdata (λ b,
          mkBorderSpriteData (border_top b) (border_left b) (border_right b) (border_bottom b)
            (min_width b) (min_height b) (hor_stepsize b) v
            (border_normal b) (border_pressed b)));
    for_each 0 WBS_COUNT (λ sprnum,
      if pressed
      then load_sprite_to sprites
             (λ spr, at_border sprdata (set_border_pressed (<[sprnum := spr]>)))
      else load_sprite_to sprites
             (λ spr, at_border sprdata (set_border_normal (<[sprnum := spr]>))))
  end.

(** The [switch] of [LoadGCHK]. *)
Definition checkable_of_type (tp : Z) : option CheckableMember :=
  match tp with
  | 96 => Some Checkbox
  | 112 => Some RadioButton
  | _ => None
  end.

(** [GuiSprites::LoadGCHK] (sprite_store.cpp:936) *)
Definition LoadGCHK (sprites : gmap Z ImageData) : M GuiSprites unit :=
  r ← get_reader;
  if decide (rcd_version r ≠ 1 ∨ rcd_size r ≠ 2 + Z.of_nat WCS_COUNT * 4)
  then return_false else
  tp ← GetUInt16;
  match checkable_of_type tp with
  | None => return_false
  | Some sprdata =>
    _ ← modify_world (at_checkable sprdata (λ c,
          mkCheckableWidgetSpriteData 0 0 (check_sprites c)));
    for_each 0 WCS_COUNT (λ sprnum,
      spr ← LoadSpriteFromFile sprites;
      _ ← modify_world (at_checkable sprdata (λ c,
            mkCheckableWidgetSpriteData (check_width c) (check_height c)
              (<[sprnum := spr]> (check_sprites c))));
      match spr with
      | Some img =>
        modify_world (at_checkable sprdata (λ c,
          mkCheckableWidgetSpriteData (Z.max (check_width c) (img_width img))
            (Z.max (check_height c) (img_height img)) (check_sprites c)))
      | None => mret tt
      end)
  end.

(** The [switch] of [LoadGSLI]: the member and [shaded]. *)
Definition slider_of_type (tp : Z) : option (SliderMember * bool) :=
  match tp with
  | 128 => Some (HorSlider, false)
  | 129 => Some (HorSlider, true)
  | 144 => Some (VertSlider, false)
  | 145 => Some (VertSlider, true)
  | _ => None
  end.

(** [GuiSprites::LoadGSLI] (sprite_store.cpp:994) *)
Definition LoadGSLI (sprites : gmap Z ImageData) : M GuiSprites unit :=
  r ← get_reader;
  if decide (rcd_version r ≠ 1 ∨ rcd_size r ≠ 3 * 1 + 2 + Z.of_nat WSS_COUNT * 4)
  then return_false else
  min_length ← GetUInt8;
  stepsize ← GetUInt8;
  height ← GetUInt8;
  tp ← GetUInt16;
  match slider_of_type tp with
  | None => return_false
  | Some (sprdata, shaded) =>
    _ ← modify_world (at_slider sprdata (λ d,
          mkSliderSpriteData min_length stepsize height (slider_normal d) (slider_shaded d)));
    for_each 0 WSS_COUNT (λ sprnum,
      if shaded
      then load_sprite_to sprites
             (λ spr, at_slider sprdata (λ d,
                mkSliderSpriteData (min_bar_length d) (slider_stepsize d) (slider_height d)
                  (slider_normal d) (<[sprnum := spr]> (slider_shaded d))))
      else load_sprite_to sprites
             (λ spr, at_slider sprdata (λ d,
                mkSliderSpriteData (min_bar_length d) (slider_stepsize d) (slider_height d)
                  (<[sprnum := spr]> (slider_normal d)) (slider_shaded d))))
  end.

(** The [switch] of [LoadGSCL]: the member, [shaded] and [vertical]. *)
Definition scrollbar_of_type (tp : Z) : option (ScrollbarMember * bool * bool) :=
  match tp with
  | 160 => Some (HorScroll, false, false)
  | 161 => Some (HorScroll, true, false)
  | 176 => Some (VertScroll, false, true)
  | 177 => Some (VertScroll, true, true)
  | _ => None
  end.

(** The loop of [LoadGSCL]; its value is [max_width] and [max_height]. *)
Fixpoint load_scrollbar_sprites (sprites : gmap Z ImageData) (sprdata : ScrollbarMember)
    (shaded : bool) (first count : nat) (max_width max_height : Z)
    : M GuiSprites (Z * Z) :=
  match count with
  | O => mret (max_width, max_height)
  | S count' =>
    spr ← LoadSpriteFromFile sprites;
    _ ← modify_world (at_scrollbar sprdata (λ d,
          if shaded
          then mkScrollbarSpriteData (min_length_all d) (min_length_slider d) (stepsize_bar d)
                 (stepsize_slider d) (scroll_height d) (scroll_normal d)
                 (<[first := spr]> (scroll_shaded d))
          else mkScrollbarSpriteData (min_length_all d) (min_length_slider d) (stepsize_bar d)
                 (stepsize_slider d) (scroll_height d) (<[first := spr]> (scroll_normal d))
                 (scroll_shaded d)));
    match spr with
    | Some img =>
      load_scrollbar_sprites sprites sprdata shaded (S first) count'
        (Z.max max_width (img_width img)) (Z.max max_height (img_height img))
    | None =>
      load_scrollbar_sprites sprites sprdata shaded (S first) count' max_width max_height
    end
  end.

(** [GuiSprites::LoadGSCL] (sprite_store.cpp:1061) *)
Definition LoadGSCL (sprites : gmap Z ImageData) : M GuiSprites unit :=
  r ← get_reader;
  if decide (rcd_version r ≠ 1 ∨ rcd_size r ≠ 4 * 1 + 2 + Z.of_nat WLS_COUNT * 4)
  then return_false else
  min_length_bar ← GetUInt8;
  stepsize_back ← GetUInt8;
  min_slider ← GetUInt8;
  stepsize_slider' ← GetUInt8;
  tp ← GetUInt16;
  match scrollbar_of_type tp with
  | None => return_false
  | Some (sprdata, shaded, vertical) =>
    _ ← modify_world (at_scrollbar sprdata (λ d,
          mkScrollbarSpriteData min_length_bar min_slider stepsize_back stepsize_slider'
            (scroll_height d) (scroll_normal d) (scroll_shaded d)));
    '(max_width, max_height) ← load_scrollbar_sprites sprites sprdata shaded 0 WLS_COUNT 0 0;
    modify_world (at_scrollbar sprdata (λ d,
      mkScrollbarSpriteData (min_length_all d) (min_length_slider d) (stepsize_bar d)
        (stepsize_slider d) (if vertical then max_width else max_height)
        (scroll_normal d) (scroll_shaded d)))
  end.

(** Assignments to the members of the main menu. *)
Definition set_mainmenu (duration : Z → Z)
    (logo splash new load settings quit : option ImageData → option ImageData)
    (g : GuiSprites) : GuiSprites :=
  mkGuiSprites (titlebar g) (button g) (left_tabbar g) (tab_tabbar g) (right_tabbar g)
    (tabbar_panel g) (panel g) (checkbox g) (radio_button g) (hor_slider g) (vert_slider g)
    (hor_scroll g) (vert_scroll g) (close_sprite g) (duration (mainmenu_splash_duration g))
    (logo (mainmenu_logo g)) (splash (mainmenu_splash g)) (new (mainmenu_new g))
    (load (mainmenu_load g)) (settings (mainmenu_settings g)) (quit (mainmenu_quit g)).

(** [GuiSprites::LoadMENU] (sprite_store.cpp:1194) *)
Definition LoadMENU (sprites : gmap Z ImageData) : M GuiSprites unit :=
  r ← get_reader;
  if decide (rcd_version r ≠ 1 ∨ rcd_size r ≠ 40 - 12) then return_false else
  duration ← GetUInt32;
  _ ← modify_world (set_mainmenu (λ _, duration) id id id id id id);
  _ ← load_sprite_to sprites (λ spr, set_mainmenu id (λ _, spr) id id id id id);
  _ ← load_sprite_to sprites (λ spr, set_mainmenu id id (λ _, spr) id id id id);
  _ ← load_sprite_to sprites (λ spr, set_mainmenu id id id (λ _, spr) id id id);
  _ ← load_sprite_to sprites (λ spr, set_mainmenu id id id id (λ _, spr) id id);
  _ ← load_sprite_to sprites (λ spr, set_mainmenu id id id id id (λ _, spr) id);
  load_sprite_to sprites (λ spr, set_mainmenu id id id id id id (λ _, spr)).

(** [GuiSprites::Clear] (sprite_store.cpp:1216), on the members above *)
Definition GuiSprites_Clear (g : GuiSprites) : GuiSprites :=
  mkGuiSprites (BorderSpriteData_Clear (titlebar g)) (BorderSpriteData_Clear (button g))
    (BorderSpriteData_Clear (left_tabbar g)) (BorderSpriteData_Clear (tab_tabbar g))
    (BorderSpriteData_Clear (right_tabbar g)) (BorderSpriteData_Clear (tabbar_panel g))
    (BorderSpriteData_Clear (panel g)) (CheckableWidgetSpriteData_Clear (checkbox g))
    (CheckableWidgetSpriteData_Clear (radio_button g)) (SliderSpriteData_Clear (hor_slider g))
    (SliderSpriteData_Clear (vert_slider g)) (ScrollbarSpriteData_Clear (hor_scroll g))
    (ScrollbarSpriteData_Clear (vert_scroll g)) None (mainmenu_splash_duration g)
    (mainmenu_logo g) (mainmenu_splash g) (mainmenu_new g) (mainmenu_load g)
    (mainmenu_settings g) (mainmenu_quit g).

(** [GuiSprites::HasSufficientGraphics] (sprite_store.cpp:1269) *)
Definition HasSufficientGraphics (g : GuiSprites) : bool :=
  BorderSpriteData_IsLoaded (titlebar g) && BorderSpriteData_IsLoaded (button g)
  && BorderSpriteData_IsLoaded (left_tabbar g) && BorderSpriteData_IsLoaded (tab_tabbar g)
  && BorderSpriteData_IsLoaded (right_tabbar g) && BorderSpriteData_IsLoaded (tabbar_panel g)
  && BorderSpriteData_IsLoaded (panel g) && CheckableWidgetSpriteData_IsLoaded (checkbox g)
  && CheckableWidgetSpriteData_IsLoaded (radio_button g)
  && ScrollbarSpriteData_IsLoaded (hor_scroll g)
  && ScrollbarSpriteData_IsLoaded (vert_scroll g)
  && bool_decide (is_Some (close_sprite g)).
End Gui.

(** ** Files and header values for the examples *)

Definition le16 (z : Z) : list byte := [byte_of (z mod 256); byte_of (z / 256 mod 256)].
Definition le32 (z : Z) : list byte := le16 (z mod 65536) ++ le16 (z / 65536 mod 65536).

(** The characters of a string and a terminating NUL. *)
Definition asciiz (s : string) : list byte := String.list_byte_of_string s ++ [x00].

(** A block: name, version, length and payload. *)
Definition rcd_block (tag : string) (ver : Z) (payload : list byte) : list byte :=
  String.list_byte_of_string tag ++ le32 ver ++ le32 (Z.of_nat (length payload)) ++ payload.

(** The header of a file. *)
Definition rcd_header : list byte := String.list_byte_of_string "RCDF" ++ le32 2.

(** A reader that is at the payload of a block. *)
Definition reader_at_payload (tag : string) (ver : Z) (payload : list byte) : RcdFileReader :=
  mkReader payload 0 tag ver (Z.of_nat (length payload)).

(** Two languages are known in the examples. *)
Definition example_language_index (lang_name : list byte) : Z :=
  if decide (String.string_of_list_byte lang_name = "en_GB"%string) then 0
  else if decide (String.string_of_list_byte lang_name = "nl_NL"%string) then 1
  else -1.

Definition example_headers : Headers := {|
  GTP_GRASS0 := 0; GTP_GRASS1 := 1; GTP_GRASS2 := 2; GTP_GRASS3 := 3;
  GTP_UNDERGROUND := 4; GTP_DESERT := 5; GTP_CURSOR_TEST := 6; GTP_CURSOR_EDGE_TEST := 7;
  GTP_COUNT := 8; GTP_INVALID := 0xFF;
  PAT_INVALID := 0; PAT_WOOD := 1; PAT_TILED := 2; PAT_ASPHALT := 3; PAT_CONCRETE := 4;
  FDT_GROUND := 0; FDT_WOOD := 1; FDT_BRICK := 2; FDT_COUNT := 3; FDT_INVALID := 0xFF;
  PERSON_ANY := 0; PERSON_GUEST := 1; PERSON_HANDYMAN := 2; PERSON_MECHANIC := 3;
  PERSON_GUARD := 4; PERSON_ENTERTAINER := 5; PERSON_INVALID := 0xFF;
  ANIM_BEGIN := 1; ANIM_LAST := 40; ANIM_INVALID := 0;
  NUM_SLOPE_SPRITES := 23;
  EDGE_BEGIN := 0; EDGE_COUNT := 4;
  PATH_COUNT := 3;
  FENCE_COUNT := 2; FENCE_TYPE_COUNT := 4; FENCE_TYPE_INVALID := 0xFF;
  SSP_COUNT := 2;
  VOR_NUM_ORIENT := 4;
  LANGUAGE_COUNT := 2;
  GetLanguageIndex := example_language_index
|}.

(** One string, "NAME", with the text "Hello" in the language "en_GB". *)
Definition example_text_payload : list byte :=
  let translation := asciiz "en_GB" ++ asciiz "Hello" in
  let record := asciiz "NAME" ++ le16 (3 + Z.of_nat (length translation))
                  ++ [byte_of 6] ++ translation in
  le16 (3 + Z.of_nat (length record)) ++ [byte_of 5] ++ record.

(** The same block with the length of the translation one too small. *)
Definition example_text_payload_short : list byte :=
  let translation := asciiz "en_GB" ++ asciiz "Hello" in
  let record := asciiz "NAME" ++ le16 (3 + Z.of_nat (length translation) - 1)
                  ++ [byte_of 6] ++ translation in
  le16 (3 + Z.of_nat (length record)) ++ [byte_of 5] ++ record.

(** A block of 17 bytes with one string, whose only translation is in a
    language that the example does not know, cut off before the three bytes
    of the text of the translation. *)
Definition example_text_payload_cut : list byte :=
  let record := asciiz "NAME" ++ le16 (3 + 3 + 3) ++ [byte_of 3] ++ asciiz "xx" in
  le16 (3 + 5 + 9) ++ [byte_of 5] ++ record.

(** The handlers that are parameters of the dispatcher, for the examples:
    an image block gives an image that is named by the place of its payload
    in the file, and the other blocks fail. *)
Definition example_LoadImage (r : RcdFileReader) : option nat * nat :=
  (Some (file_pos r), Z.to_nat (rcd_size r)).
Definition example_TrackPiece_Load (r : RcdFileReader) (sprites : gmap Z nat)
    : option unit * nat := (None, 0%nat).
Definition example_external (tag : string) (r : RcdFileReader) (sprites : gmap Z nat)
    (texts : gmap Z TextData) (track_pieces : gmap Z unit) (e : unit) : bool * nat * unit :=
  (false, 0%nat, e).

(** A file with an image (block 1) and a SURF block for grass that refers to
    the image and then to a block 2 that is no image. *)
Definition example_image_file : list byte :=
  rcd_header ++ rcd_block "8PXL" 2 [byte_of 7; byte_of 7].
Definition example_surf_payload : list byte :=
  le16 16 ++ le16 64 ++ le16 64 ++ le32 1 ++ le32 2 ++ mjoin (replicate 21 (le32 0)).
Definition example_bad_surf_file : list byte :=
  example_image_file ++ rcd_block "SURF" 6 example_surf_payload.

(** A file with a block of a kind that is not known and an image after it. *)
Definition example_unknown_file : list byte :=
  rcd_header ++ rcd_block "XYZW" 1 [byte_of 1; byte_of 2; byte_of 3]
             ++ rcd_block "8PXL" 2 [byte_of 7; byte_of 7].

(** The dispatcher with these handlers. *)
Definition example_state (r : RcdFileReader) : @LoopState nat unit unit :=
  mkLoopState r ∅ ∅ ∅ (@SpriteManager_new example_headers nat) tt [].
Definition example_Load_loop :=
  @Load_loop example_headers nat unit unit
             example_LoadImage example_TrackPiece_Load example_external.
Definition example_Load (file : list byte) : option (@Outcome nat unit unit) :=
  @Load example_headers nat unit unit example_LoadImage example_TrackPiece_Load
        example_external "example.rcd" file (@SpriteManager_new example_headers nat) tt [].

(** A file with a SURF block whose ground type is 99. *)
Definition example_surf_99_file : list byte :=
  rcd_header ++ rcd_block "SURF" 6 (le16 99 ++ le16 64 ++ le16 64 ++ mjoin (replicate 23 (le32 0))).

(** The payload of a PATH block: a queue path of wood, no sprites. *)
Definition example_path_payload : list byte :=
  le16 (0x8000 + 4) ++ le16 64 ++ le16 64 ++ mjoin (replicate 3 (le32 0)).

(** The payload of an ANIM block with no frame. *)
Definition example_anim_payload : list byte := [byte_of 0] ++ le16 1 ++ le16 0.

(** ** What the properties are stated with *)

(** The names of the blocks that [SpriteManager::Load] knows. *)
Definition recognized_tags : list string :=
  ["INFO"; "8PXL"; "32PX"; "SURF"; "TSEL"; "PATH"; "PDEC"; "TCOR"; "FENC"; "FUND"; "PLAT";
   "SUPP"; "BDIR"; "GCHK"; "GBOR"; "GSLI"; "GSCL"; "GSLP"; "MENU"; "ANIM"; "ANSP"; "PRSG";
   "TEXT"; "SHOP"; "FSET"; "TIMA"; "SCNY"; "RIEE"; "FGTR"; "TRCK"; "RCST"; "CSPL"; "CARS"]%string.

(** The blocks that are loaded into an object of their own (or, as INFO,
    skipped), which is added to the registries when the load has succeeded. *)
Definition detached_tags : list string :=
  ["INFO"; "8PXL"; "32PX"; "FENC"; "ANIM"; "ANSP"; "TEXT"; "FSET"; "TIMA"; "TRCK"]%string.

(** The blocks whose handler fills the sprite storage in place. *)
Definition in_place_tags : list string :=
  ["SURF"; "TSEL"; "PATH"; "PDEC"; "TCOR"; "FUND"; "PLAT"; "SUPP"; "BDIR"]%string.

(** A text: well-formed UTF-8 encodings of code points other than 0, and a
    terminating NUL after them. *)
Inductive utf8_text : list byte → Prop :=
| utf8_text_nul : utf8_text [x00]
| utf8_text_char (c text : list byte) (code_point : Z) :
    DecodeUtf8Char c (Z.of_nat (length c)) = (Z.of_nat (length c), code_point) →
    code_point ≠ 0 →
    utf8_text text →
    utf8_text (c ++ text).


(** The 16 bit number at offset [off] of [l]. *)
Definition peek16 (l : list byte) (off : nat) : option Z :=
  match drop off l with
  | b0 :: b1 :: _ => Some (Z.lor (byte_val b0) (Z.shiftl (byte_val b1) 8))
  | _ => None
  end.

(** The same, taken as a signed number. *)
Definition peek16s (l : list byte) (off : nat) : option Z :=
  (λ v, if decide (v < 32768) then v else v - 65536) <$> peek16 l off.

(** The byte at offset [off] of [l]. *)
Definition peek8 (l : list byte) (off : nat) : option Z := byte_val <$> l !! off.

(** The frame [i] of the payload [l] of an ANIM block: after the five bytes
    of person type, animation type and frame count, six bytes for each frame. *)
Definition frame_at (l : list byte) (i : nat) : option AnimationFrame :=
  match peek16 l (5 + 6 * i), peek16s l (5 + 6 * i + 2), peek16s l (5 + 6 * i + 4) with
  | Some d, Some x, Some y => Some (mkAnimationFrame d x y)
  | _, _, _ => None
  end.

Definition frame_in_limits (fr : AnimationFrame) : Prop :=
  0 < duration fr < 5000 ∧ -100 ≤ dx fr ≤ 100 ∧ -100 ≤ dy fr ≤ 100.

(** An ANIM block of [size] bytes [l] with a person type code that is known,
    at least one frame, and all frames within the limits. *)
Definition anim_block_in_limits (size : Z) (l : list byte) : Prop :=
  ∃ pt frame_count,
    peek8 l 0 = Some pt ∧ In pt [0; 8; 16; 17; 18; 19; 20]
    ∧ peek16 l 3 = Some frame_count ∧ 1 ≤ frame_count
    ∧ size = 5 + frame_count * 6
    ∧ ∀ i, (i < Z.to_nat frame_count)%nat →
           ∃ fr, frame_at l i = Some fr ∧ frame_in_limits fr.

(** The stream after a [GetBlob(n)] whose result is not looked at: [n] bytes
    further when it holds them, where it was when it does not. *)
Definition after_blob (n : Z) (bytes : list byte) : list byte :=
  if decide (Z.to_nat n ≤ length bytes)%nat then drop (Z.to_nat n) bytes else bytes.

(** The text field that [ReadUtf8Text] looks at: the next [n] bytes of the
    stream when it holds them, and what the buffer holds at [used] when it
    does not; and the state of the reader afterwards. *)
Definition text_seen {W} (n : Z) (buffer : list byte) (used : Z) (s : LoadState W)
    : list byte :=
  if decide (Z.to_nat n ≤ length (remaining (rcd s)))%nat
  then take (Z.to_nat n) (remaining (rcd s))
  else take (Z.to_nat n) (drop (Z.to_nat used) buffer).

Definition after_text {W} (n : Z) (s : LoadState W) : LoadState W :=
  if decide (Z.to_nat n ≤ length (remaining (rcd s)))%nat then advance (Z.to_nat n) s else s.

Section TextLayout.
Context `{Headers}.

(** The layout of the payload of a TEXT block, in the words of its
    description.  A language sub-record is a 16 bit total length, an 8 bit
    length of the language name, the language name and the text; its total
    length counts the three bytes of its own header.
    [translations_layout total stored bytes rest]: [bytes] is a sequence of
    sub-records followed by [rest], the total lengths of the sub-records add
    up to [total], and the texts of the languages that [GetLanguageIndex]
    knows take [stored] bytes together.  The lengths are the declared ones: a
    name or a text that the stream ends in is passed as [after_blob] has it,
    and the language of a name that is not in the stream is not decided
    here. *)
Inductive translations_layout : Z → Z → list byte → list byte → Prop :=
| translations_done rest : translations_layout 0 0 rest rest
| translations_record b0 b1 lang_length bytes rest total stored (known : bool) :
    let tr_length := Z.lor (byte_val b0) (Z.shiftl (byte_val b1) 8) in
    let name_length := byte_val lang_length in
    byte_val lang_length + 3 < tr_length →
    ((Z.to_nat name_length ≤ length bytes)%nat →
     known = bool_decide (GetLanguageIndex (c_str (take (Z.to_nat name_length) bytes)) >= 0)) →
    translations_layout total stored
      (after_blob (tr_length - 3 - name_length) (after_blob name_length bytes)) rest →
    translations_layout (tr_length + total)
      ((if known then tr_length - 3 - name_length else 0) + stored)
      (b0 :: b1 :: lang_length :: bytes) rest.

(** A string record is a 16 bit total length, an 8 bit length of the name, the
    name, and language sub-records that fill the rest of the total length.
    [strings_layout count total stored bytes rest]: [bytes] is [count] string
    records followed by [rest], their total lengths add up to [total], and
    their names and the texts of the known languages take [stored] bytes
    together. *)
Inductive strings_layout : nat → Z → Z → list byte → list byte → Prop :=
| strings_done rest : strings_layout 0 0 0 rest rest
| strings_record b0 b1 ident_length bytes bytes' rest count total stored_tr stored :
    let str_length := Z.lor (byte_val b0) (Z.shiftl (byte_val b1) 8) in
    byte_val ident_length + 3 < str_length →
    translations_layout (str_length - 3 - byte_val ident_length) stored_tr
                        (after_blob (byte_val ident_length) bytes) bytes' →
    strings_layout count total stored bytes' rest →
    strings_layout (S count) (str_length + total) (byte_val ident_length + stored_tr + stored)
                   (b0 :: b1 :: ident_length :: bytes) rest.
End TextLayout.

(** [wp F m s Q]: when [m] succeeds from [s], [Q] holds of its value and
    its final state; [m] goes wrong only if [F]. *)
Definition wp {W A} (F : Prop) (m : M W A) (s : LoadState W)
    (Q : A → LoadState W → Prop) : Prop :=
  match m s with
  | (Ok a, s') => Q a s'
  | (Fail, _) => True
  | (Fault, _) => F
  end.

(** [later s s']: the reader of [s'] is the reader of [s] at the same or a
    later place of the same file.  [advances m]: a step of [m] that succeeds
    leaves the reader later. *)
Definition later {W} (s s' : LoadState W) : Prop :=
  rcd_data (rcd s') = rcd_data (rcd s) ∧ (file_pos (rcd s) ≤ file_pos (rcd s'))%nat.

Definition advances {W A} (m : M W A) : Prop :=
  ∀ s, wp True m s (λ _ s', later s s').

Section TextInvariant.
Context `{Headers}.

(** The invariant of the loops of [TextData::Load]. *)
Definition locals_ok (l : TextLocals) : Prop :=
  length (tl_buffer l) = Z.to_nat (64 * 1024)
  ∧ 0 ≤ tl_used_size l ≤ 64 * 1024
  ∧ length (tl_strings l) = Z.to_nat MAX_NUM_TEXT_STRINGS
  ∧ 0 ≤ tl_used_strings l
  ∧ Forall (λ ts, length (ts_languages ts) = LANGUAGE_COUNT) (tl_strings l)
  ∧ 0 ≤ tl_length l < 2 ^ 32.

End TextInvariant.

Section Runs.
Context `{Headers} {ImageData TrackPiece Ext : Type}.
Variable LoadImage : RcdFileReader → option ImageData * nat.
Variable TrackPiece_Load : RcdFileReader → gmap Z ImageData → option TrackPiece * nat.
Variable external : string → RcdFileReader → gmap Z ImageData → gmap Z TextData →
                    gmap Z TrackPiece → Ext → bool * nat * Ext.

(** [blocks_loaded filename blk_num s blk_num' s']: from the state [s], where
    the next block has the number [blk_num], the loop loads the blocks up to
    the block [blk_num'], each of them with success, and is then in [s']. *)
Inductive blocks_loaded (filename : string)
    : Z → @LoopState ImageData TrackPiece Ext → Z → @LoopState ImageData TrackPiece Ext → Prop :=
| loaded_none blk_num s : blocks_loaded filename blk_num s blk_num s
| loaded_next blk_num s r s1 blk_num' s' :
    ReadBlockHeader (ls_rcd s) = Some r →
    Load_block LoadImage TrackPiece_Load external filename blk_num (with_rcd r s) = Continue s1 →
    blocks_loaded filename (u32 (blk_num + 1)) s1 blk_num' s' →
    blocks_loaded filename blk_num s blk_num' s'.

(** The reader of [ls'] is the reader of [ls] at the same or a later place. *)
Definition ls_later (ls ls' : @LoopState ImageData TrackPiece Ext) : Prop :=
  rcd_data (ls_rcd ls') = rcd_data (ls_rcd ls)
  ∧ (file_pos (ls_rcd ls) ≤ file_pos (ls_rcd ls'))%nat.

(** The claim that a block that fails leaves the sprite manager as it was. *)
Definition failing_block_publishes_nothing : Prop :=
  ∀ filename blk_num (s : @LoopState ImageData TrackPiece Ext) msg s',
    Load_block LoadImage TrackPiece_Load external filename blk_num s = Return (Some msg) s' →
    ls_manager s' = ls_manager s.
End Runs.

(** ** What the further properties are stated with *)

(** [took n s s']: between [s] and [s'] exactly [n] bytes of the file were
    read.  [reads n m]: a run of [m] that succeeds reads exactly [n] bytes. *)
Definition took {W W'} (n : nat) (s : LoadState W) (s' : LoadState W') : Prop :=
  ∃ payload, remaining (rcd s) = payload ++ remaining (rcd s') ∧ length payload = n.

Definition reads {W A} (n : nat) (m : M W A) : Prop :=
  ∀ s, wp True m s (λ _ s', took n s s').

(** The 32 bit number at offset [off] of [l]. *)
Definition peek32 (l : list byte) (off : nat) : option Z :=
  match drop off l with
  | b0 :: b1 :: b2 :: b3 :: _ =>
    Some (Z.lor (Z.lor (byte_val b0) (Z.shiftl (byte_val b1) 8))
                (Z.shiftl (Z.lor (byte_val b2) (Z.shiftl (byte_val b3) 8)) 16))
  | _ => None
  end.

(** [reads_block h]: when the handler [h] succeeds on a block, it has read
    the payload of the block, which has the declared size, and nothing else. *)
Definition reads_block {W A} (h : M W A) : Prop :=
  ∀ s a s', 0 ≤ rcd_size (rcd s) < 2 ^ 32 → h s = (Ok a, s') →
    ∃ payload, remaining (rcd s) = payload ++ remaining (rcd s')
               ∧ Z.of_nat (length payload) = rcd_size (rcd s).

(** Payloads for the examples: a TSEL block without sprites, an FSET block
    of one by one tile without sprites, and a TIMA block of one frame. *)
Definition example_tsel_payload : list byte :=
  le16 64 ++ le16 64 ++ mjoin (replicate 23 (le32 0)).
Definition example_fset_payload : list byte :=
  le16 64 ++ [byte_of 1; byte_of 1] ++ mjoin (replicate 4 (le32 0)).
Definition example_tima_payload : list byte := le32 1 ++ le32 500 ++ le32 1.

(** The blocks whose handler is in [sprite_store.cpp] and reads its block
    whole: the meta block, the sprite sets, and the objects of the sprite
    manager. *)
Definition own_tags : list string :=
  ["INFO"; "SURF"; "TSEL"; "PATH"; "PDEC"; "TCOR"; "FUND"; "PLAT"; "SUPP"; "BDIR";
   "FENC"; "ANIM"; "ANSP"; "TEXT"; "FSET"]%string.

(** What a reference to a sprite stands for: [Some None] is [nullptr], for the
    reference 0; [None] when no sprite has the number. *)
Definition resolve {T} (table : gmap Z T) (id : Z) : option (option T) :=
  if decide (id = 0) then Some None
  else match table !! id with
       | Some x => Some (Some x)
       | None => None
       end.

(** [refs_loaded table l off n arr]: the [n] slots of the array [arr] hold what
    the [n] references at the offset [off] of the bytes [l] stand for. *)
Definition refs_loaded {T} (table : gmap Z T) (l : list byte) (off n : nat)
    (arr : list (option T)) : Prop :=
  ∀ i, (i < n)%nat →
    ∃ id spr, peek32 l (off + 4 * i) = Some id ∧ resolve table id = Some spr
              ∧ arr !! i = Some spr.

(** The sum of the first [n] numbers of [l]. *)
Definition sum_to (n : nat) (l : list Z) : Z := foldr Z.add 0 (take n l).

(** An animation of three frames, of 100, 200 and 300 ms. *)
Definition example_timed_animation : @TimedAnimation nat :=
  mkTimedAnimation 3 [100; 200; 300] [None; None; None].

(** The payload of a FENC block of the type 1 for the tile width [width],
    without sprites. *)
Definition example_fence_payload (width : Z) : list byte :=
  le16 width ++ le16 1 ++ mjoin (replicate 2 (le32 0)).

(** A SURF block for grass whose sprites are all the image 1. *)
Definition example_full_surf_payload : list byte :=
  le16 16 ++ le16 64 ++ le16 64 ++ mjoin (replicate 23 (le32 1)).

(** The payload of a BDIR block whose four arrows are the images 1 to 4. *)
Definition example_bdir_payload : list byte :=
  le16 64 ++ le32 1 ++ le32 2 ++ le32 3 ++ le32 4.

(** The payload of an ANSP block for guests, of the animation 1, with the
    frames [ids]. *)
Definition example_ansp_payload (ids : list Z) : list byte :=
  le16 64 ++ [byte_of 16] ++ le16 1 ++ le16 (Z.of_nat (length ids)) ++ mjoin (le32 <$> ids).

(** [runs m s Q]: [m] succeeds from [s], and [Q] holds of its value and its
    final state. *)
Definition runs {W A} (m : M W A) (s : LoadState W) (Q : A → LoadState W → Prop) : Prop :=
  ∃ a s', m s = (Ok a, s') ∧ Q a s'.

(** The keys of the pairs do not go down. *)
Fixpoint keys_sorted {V} (l : list (Z * V)) : Prop :=
  match l with
  | [] => True
  | x :: rest => Forall (λ y, x.1 ≤ y.1) rest ∧ keys_sorted rest
  end.

(** The animations are kept under their animation type, as [AddAnimation]
    inserts them. *)
Definition keyed_by_type (l : list (Z * Animation)) : Prop :=
  Forall (λ e, e.1 = anim_anim_type e.2) l.

(** The first animation in [l] of the animation type and the person type. *)
Definition first_animation (anim_type per_type : Z) (l : list (Z * Animation))
    : option Animation :=
  snd <$> head (filter (λ e, anim_anim_type e.2 = anim_type ∧ anim_person_type e.2 = per_type) l).

(** Two walking animations of guests and one of handymen. *)
Definition example_animations : list (Z * Animation) :=
  [(2, mkAnimation 1 1 2 [mkAnimationFrame 100 1 0]);
   (1, mkAnimation 1 2 1 [mkAnimationFrame 200 1 0]);
   (1, mkAnimation 1 1 1 [mkAnimationFrame 300 1 0]);
   (1, mkAnimation 1 1 1 [mkAnimationFrame 400 1 0])].

(** The payload of an ANIM block of guests walking (animation 1), one frame. *)
Definition example_walk_payload : list byte :=
  [byte_of 16] ++ le16 1 ++ le16 1 ++ le16 100 ++ le16 1 ++ le16 0.

(** Lengths of the sprite arrays of the widgets for the examples. *)
Definition example_gui_headers : GuiHeaders :=
  {| WBS_COUNT := 9; WCS_COUNT := 6; WSS_COUNT := 3; WLS_COUNT := 4 |}.

(** [arrays_have_length g]: the sprite arrays of the widgets of [g] have the
    lengths of their declarations. *)
Definition arrays_have_length `{GuiHeaders} {ImageData} (g : @GuiSprites ImageData) : Prop :=
  (∀ w, length (border_normal (get_border w g)) = WBS_COUNT
        ∧ length (border_pressed (get_border w g)) = WBS_COUNT)
  ∧ (∀ w, length (check_sprites (get_checkable w g)) = WCS_COUNT)
  ∧ (∀ w, length (slider_normal (get_slider w g)) = WSS_COUNT
          ∧ length (slider_shaded (get_slider w g)) = WSS_COUNT)
  ∧ (∀ w, length (scroll_normal (get_scrollbar w g)) = WLS_COUNT
          ∧ length (scroll_shaded (get_scrollbar w g)) = WLS_COUNT).

(** A GBOR block of the pressed button, with the sprite 1 and eight times no
    sprite. *)
Definition example_gbor_payload : list byte :=
  le16 8 ++ [byte_of 1; byte_of 2; byte_of 3; byte_of 4; byte_of 10; byte_of 12;
             byte_of 1; byte_of 1]
  ++ le32 1 ++ mjoin (replicate 8 (le32 0)).

(** The largest of the numbers [f] of the sprites of [l], 0 when it has none. *)
Definition max_of {T} (f : T → Z) (l : list (option T)) : Z :=
  foldr (λ o m, match o with Some x => Z.max (f x) m | None => m end) 0 l.

(** The array of a scrollbar that a block fills, and an assignment to it. *)
Definition scroll_array {ImageData} (shaded : bool) (d : @ScrollbarSpriteData ImageData)
    : list (option ImageData) :=
  if shaded then scroll_shaded d else scroll_normal d.
Definition set_scroll_array {ImageData} (shaded : bool)
    (f : list (option ImageData) → list (option ImageData))
    (d : @ScrollbarSpriteData ImageData) : ScrollbarSpriteData :=
  if shaded
  then mkScrollbarSpriteData (min_length_all d) (min_length_slider d) (stepsize_bar d)
         (stepsize_slider d) (scroll_height d) (scroll_normal d) (f (scroll_shaded d))
  else mkScrollbarSpriteData (min_length_all d) (min_length_slider d) (stepsize_bar d)
         (stepsize_slider d) (scroll_height d) (f (scroll_normal d)) (scroll_shaded d).

(** [ref_at table l off spr]: [spr] is what the reference at the offset [off]
    of the bytes [l] stands for. *)
Definition ref_at {T} (table : gmap Z T) (l : list byte) (off : nat) (spr : option T) : Prop :=
  ∃ id, peek32 l off = Some id ∧ resolve table id = Some spr.

(** [keeps P m]: whatever the outcome of [m], the object that it works on
    satisfies [P] afterwards when it did before. *)
Definition keeps {W A} (P : W → Prop) (m : M W A) : Prop :=
  ∀ s, P (world s) → P (world (m s).2).

(** The sprites of the GUI before a file is loaded, for the examples. *)
Definition example_gui_sprites : @GuiSprites nat :=
  let b := mkBorderSpriteData 0 0 0 0 0 0 0 0 [] [] in
  let c := mkCheckableWidgetSpriteData 0 0 [] in
  let d := mkSliderSpriteData 0 0 0 [] [] in
  let e := mkScrollbarSpriteData 0 0 0 0 0 [] [] in
  @GuiSprites_Clear example_gui_headers nat
    (mkGuiSprites b b b b b b b c c d d e e None 0 None None None None None None).

(** A GCHK block of a checkbox with the sprites 1 and 2 and four times no
    sprite, a GSLI block of a shaded vertical slider, a GSCL block of a
    vertical scrollbar with the sprites 1 and 2, and a MENU block. *)
Definition example_gchk_payload : list byte :=
  le16 96 ++ le32 1 ++ le32 2 ++ mjoin (replicate 4 (le32 0)).
Definition example_gsli_payload : list byte :=
  [byte_of 20; byte_of 2; byte_of 8] ++ le16 145 ++ le32 1 ++ le32 0 ++ le32 2.
Definition example_gscl_payload : list byte :=
  [byte_of 30; byte_of 1; byte_of 5; byte_of 1] ++ le16 176
  ++ le32 1 ++ le32 2 ++ le32 0 ++ le32 0.
Definition example_menu_payload : list byte :=
  le32 3000 ++ le32 1 ++ le32 2 ++ mjoin (replicate 4 (le32 0)).

(** Two sprites, the numbers 1 and 2 of their file; in the examples a sprite
    is its width, and its height is twice its width. *)
Definition example_sprites : gmap Z nat := {[1 := 7%nat; 2 := 9%nat]}.
Definition example_width (img : nat) : Z := Z.of_nat img.
Definition example_height (img : nat) : Z := 2 * Z.of_nat img.

(** [leading_sprites c l]: [c] is the number of sprites at the start of the
    array [l], of its first four slots: the slots below [c] hold a sprite,
    and the slot [c] holds none when [c] is below 4. *)
Definition leading_sprites {T} (c : nat) (l : list (option T)) : Prop :=
  (c ≤ 4)%nat
  ∧ (∀ j, (j < c)%nat → ∃ img, l !! j = Some (Some img))
  ∧ ((c < 4)%nat → ∀ img, l !! c ≠ Some (Some img)).

(** A PDEC block with two sprites of litter on flat paths, and with one
    sprite of vomit on the ramps of the edge 1. *)
Definition example_pdec_payload : list byte :=
  le16 64 ++ mjoin (replicate 28 (le32 0))
  ++ le32 1 ++ le32 2 ++ le32 0 ++ le32 1 ++ mjoin (replicate 16 (le32 0))
  ++ mjoin (replicate 4 (le32 0))
  ++ mjoin (replicate 4 (le32 0)) ++ le32 2 ++ mjoin (replicate 11 (le32 0)).

(** [cells_loaded table l off n arr]: the first [n] cells of the array [arr]
    have been assigned what the [n] references at the offset [off] of the
    bytes [l] stand for. *)
Definition cells_loaded {T} (table : gmap Z T) (l : list byte) (off n : nat)
    (arr : list (Cell T)) : Prop :=
  ∀ i, (i < n)%nat →
    ∃ id spr, peek32 l (off + 4 * i) = Some id ∧ resolve table id = Some spr
              ∧ arr !! i = Some (Assigned spr).

(** An FSET block of two by one tiles, with the sprites 1 and 2 in its first
    view. *)
Definition example_views_payload : list byte :=
  le16 64 ++ [byte_of 2; byte_of 1] ++ le32 1 ++ le32 2 ++ mjoin (replicate 6 (le32 0)).

(** The same block for tiles of 32 pixels. *)
Definition example_views_payload_32 : list byte :=
  le16 32 ++ [byte_of 2; byte_of 1] ++ le32 1 ++ le32 2 ++ mjoin (replicate 6 (le32 0)).

(** A PLAT block of wood with the sprite 1 as the second flat sprite and the
    sprite 2 as the first sprite of the ramps to the left. *)
Definition example_plat_payload : list byte :=
  le16 64 ++ le16 64 ++ le16 16 ++ le32 0 ++ le32 1 ++ mjoin (replicate 8 (le32 0))
  ++ le32 2 ++ mjoin (replicate 3 (le32 0)).

(** [text_in buffer used p]: the pointer [buffer + p] points at a text that
    lies within the first [used] bytes of [buffer].  [text_at data p] is this
    for all of [data]. *)
Definition text_in (buffer : list byte) (used : Z) (p : Z) : Prop :=
  0 ≤ p
  ∧ ∃ text, utf8_text text ∧ p + Z.of_nat (length text) ≤ used
            ∧ take (length text) (drop (Z.to_nat p) buffer) = text.

Definition text_at (data : list byte) (p : Z) : Prop :=
  text_in data (Z.of_nat (length data)) p.

(** The pointers of a string are [nullptr] or point at texts. *)
Definition pointers_ok (buffer : list byte) (used : Z) (ts : TextString) : Prop :=
  (∀ p, ts_name ts = Some p → text_in buffer used p)
  ∧ (∀ p, Some p ∈ ts_languages ts → text_in buffer used p).

(** What the loops of [TextData::Load] keep: the strings up to [named] have a
    name, and all pointers are good. *)
Definition texts_ok (named : Z) (l : TextLocals) : Prop :=
  0 ≤ tl_used_size l ≤ Z.of_nat (length (tl_buffer l))
  ∧ Z.of_nat (length (tl_buffer l)) = 64 * 1024
  ∧ Forall (pointers_ok (tl_buffer l) (tl_used_size l)) (tl_strings l)
  ∧ ∀ (i : nat) ts, Z.of_nat i < named → tl_strings l !! i = Some ts → is_Some (ts_name ts).

(** The handler that the dispatcher calls for a block that fills the sprite
    storage in place. *)
Definition in_place_handler `{Headers} {ImageData : Type} (tag : string)
    (sprites : gmap Z ImageData) : M (@SpriteStorage ImageData) unit :=
  if decide (tag = "SURF"%string) then LoadSURF sprites
  else if decide (tag = "TSEL"%string) then LoadTSEL sprites
  else if decide (tag = "PATH"%string) then LoadPATH sprites
  else if decide (tag = "PDEC"%string) then LoadPDEC sprites
  else if decide (tag = "TCOR"%string) then LoadTCOR sprites
  else if decide (tag = "FUND"%string) then LoadFUND sprites
  else if decide (tag = "PLAT"%string) then LoadPLAT sprites
  else if decide (tag = "SUPP"%string) then LoadSUPP sprites
  else LoadBDIR sprites.

(** The sprite storage without the sprite set that the handler of the block
    [tag] fills: that member is put to a fixed value, the others are those
    of [ss]. *)
Definition other_members `{Headers} {ImageData : Type} (tag : string)
    (ss : @SpriteStorage ImageData) : @SpriteStorage ImageData :=
  if decide (tag = "SURF"%string) then set_surface (λ _, ∅) ss
  else if decide (tag = "TSEL"%string) then set_tile_select (λ _, []) ss
  else if decide (tag = "PATH"%string) then set_path_sprites (λ _, ∅) ss
  else if decide (tag = "PDEC"%string) then set_path_decoration (λ _, PathDecoration_new) ss
  else if decide (tag = "TCOR"%string) then set_tile_corners (λ _, []) ss
  else if decide (tag = "FUND"%string) then set_foundation (λ _, ∅) ss
  else if decide (tag = "PLAT"%string) then set_platform (λ _, mkPlatform [] [] [] []) ss
  else if decide (tag = "SUPP"%string) then set_support (λ _, []) ss
  else if decide (tag = "BDIR"%string) then set_build_arrows (λ _, []) ss
  else ss.

(** The sprite sets that are arrays of objects, of [ss] and [ss'], differ in
    one object at most: the surface of one ground type, the path of one path
    type, the foundation of one foundation type. *)
Definition one_object_differs {ImageData : Type} (ss ss' : @SpriteStorage ImageData) : Prop :=
  ∃ key, ∀ k, k ≠ key →
    surface ss' !! k = surface ss !! k
    ∧ path_sprites ss' !! k = path_sprites ss !! k
    ∧ foundation ss' !! k = foundation ss !! k.

(** * Properties *)

(** ** The monad and the reader *)

Lemma byte_val_range b : 0 ≤ byte_val b < 256.
Proof.
  unfold byte_val. pose proof (Byte.to_N_bounded b) as Hb. lia.
Qed.

Section MonadFacts.
Context {W : Type}.
Implicit Types s : LoadState W.

Lemma bind_Ok_inv {A B} (m : M W A) (f : A → M W B) s b s' :
  (m ≫= f) s = (Ok b, s') → ∃ a s1, m s = (Ok a, s1) ∧ f a s1 = (Ok b, s').
Proof.
  unfold mbind, M_bind. destruct (m s) as [[a| |] s1]; intros Hm; [eauto | discriminate..].
Qed.

Lemma bind_Ok {A B} (m : M W A) (f : A → M W B) s a s1 :
  m s = (Ok a, s1) → (m ≫= f) s = f a s1.
Proof. unfold mbind, M_bind. now intros ->. Qed.

Lemma bind_Fail {A B} (m : M W A) (f : A → M W B) s s1 :
  m s = (Fail, s1) → (m ≫= f) s = (Fail, s1).
Proof. unfold mbind, M_bind. now intros ->. Qed.

Lemma bind_Fault_inv {A B} (m : M W A) (f : A → M W B) s s' :
  (m ≫= f) s = (Fault, s') →
  m s = (Fault, s') ∨ ∃ a s1, m s = (Ok a, s1) ∧ f a s1 = (Fault, s').
Proof.
  unfold mbind, M_bind. destruct (m s) as [[a| |] s1]; intros Hm.
  - right. now exists a, s1.
  - discriminate.
  - left. now injection Hm as ->.
Qed.

Lemma remaining_advance n s :
  remaining (rcd (advance n s)) = drop n (remaining (rcd s)).
Proof. unfold remaining, advance. simpl. now rewrite drop_drop. Qed.

Lemma world_advance n s : world (advance n s) = world s.
Proof. reflexivity. Qed.

Lemma advance_advance n m s : advance m (advance n s) = advance (n + m) s.
Proof. unfold advance. simpl. now rewrite Nat.add_assoc. Qed.

Lemma GetUInt8_Ok s v s' :
  GetUInt8 s = (Ok v, s') →
  ∃ b rest, remaining (rcd s) = b :: rest ∧ v = byte_val b ∧ s' = advance 1 s.
Proof.
  unfold GetUInt8. destruct (rcd_data (rcd s) !! file_pos (rcd s)) as [b|] eqn:E; [|discriminate].
  intros [= <- <-]. exists b, (drop (S (file_pos (rcd s))) (rcd_data (rcd s))).
  split; [|done]. unfold remaining. now apply drop_S.
Qed.

Lemma GetUInt8_cons s b rest :
  remaining (rcd s) = b :: rest → GetUInt8 s = (Ok (byte_val b), advance 1 s).
Proof.
  unfold GetUInt8, remaining. intros E.
  assert (rcd_data (rcd s) !! file_pos (rcd s) = Some b) as ->; [|done].
  rewrite <- (Nat.add_0_r (file_pos (rcd s))), <- lookup_drop, E. done.
Qed.

Lemma GetUInt8_nil s : remaining (rcd s) = [] → GetUInt8 s = (Fail, s).
Proof.
  unfold GetUInt8, remaining. intros E.
  assert (rcd_data (rcd s) !! file_pos (rcd s) = None) as ->; [|done].
  rewrite <- (Nat.add_0_r (file_pos (rcd s))), <- lookup_drop, E. done.
Qed.

Lemma GetUInt16_Ok s v s' :
  GetUInt16 s = (Ok v, s') →
  ∃ b0 b1 rest, remaining (rcd s) = b0 :: b1 :: rest
    ∧ v = Z.lor (byte_val b0) (Z.shiftl (byte_val b1) 8) ∧ s' = advance 2 s.
Proof.
  unfold GetUInt16. intros Hm.
  apply bind_Ok_inv in Hm as (lo & s1 & E1 & Hm).
  apply bind_Ok_inv in Hm as (hi & s2 & E2 & Hm).
  apply GetUInt8_Ok in E1 as (b0 & r0 & R0 & -> & ->).
  apply GetUInt8_Ok in E2 as (b1 & r1 & R1 & -> & ->).
  rewrite remaining_advance, R0 in R1. simpl in R1. rewrite drop_0 in R1. subst r0.
  injection Hm as <- <-. exists b0, b1, r1. rewrite advance_advance. done.
Qed.

Lemma GetUInt16_cons s b0 b1 rest :
  remaining (rcd s) = b0 :: b1 :: rest →
  GetUInt16 s = (Ok (Z.lor (byte_val b0) (Z.shiftl (byte_val b1) 8)), advance 2 s).
Proof.
  intros E. unfold GetUInt16.
  rewrite (bind_Ok _ _ _ _ _ (GetUInt8_cons _ _ _ E)).
  assert (remaining (rcd (advance 1 s)) = b1 :: rest) as E1.
  { rewrite remaining_advance, E. done. }
  rewrite (bind_Ok _ _ _ _ _ (GetUInt8_cons _ _ _ E1)).
  rewrite advance_advance. done.
Qed.

Lemma GetUInt32_Ok s v s' :
  GetUInt32 s = (Ok v, s') →
  ∃ b0 b1 b2 b3 rest, remaining (rcd s) = b0 :: b1 :: b2 :: b3 :: rest
    ∧ v = Z.lor (Z.lor (byte_val b0) (Z.shiftl (byte_val b1) 8))
                (Z.shiftl (Z.lor (byte_val b2) (Z.shiftl (byte_val b3) 8)) 16)
    ∧ s' = advance 4 s.
Proof.
  unfold GetUInt32. intros Hm.
  apply bind_Ok_inv in Hm as (lo & s1 & E1 & Hm).
  apply bind_Ok_inv in Hm as (hi & s2 & E2 & Hm).
  apply GetUInt16_Ok in E1 as (b0 & b1 & r0 & R0 & -> & ->).
  apply GetUInt16_Ok in E2 as (b2 & b3 & r1 & R1 & -> & ->).
  rewrite remaining_advance, R0 in R1. simpl in R1. rewrite drop_0 in R1. subst r0.
  injection Hm as <- <-. exists b0, b1, b2, b3, r1. rewrite advance_advance. done.
Qed.

Lemma GetUInt32_cons s b0 b1 b2 b3 rest :
  remaining (rcd s) = b0 :: b1 :: b2 :: b3 :: rest →
  GetUInt32 s = (Ok (Z.lor (Z.lor (byte_val b0) (Z.shiftl (byte_val b1) 8))
                           (Z.shiftl (Z.lor (byte_val b2) (Z.shiftl (byte_val b3) 8)) 16)),
                 advance 4 s).
Proof.
  intros E. unfold GetUInt32.
  rewrite (bind_Ok _ _ _ _ _ (GetUInt16_cons _ _ _ _ E)).
  assert (remaining (rcd (advance 2 s)) = b2 :: b3 :: rest) as E1.
  { rewrite remaining_advance, E. done. }
  rewrite (bind_Ok _ _ _ _ _ (GetUInt16_cons _ _ _ _ E1)).
  rewrite advance_advance. done.
Qed.

Lemma GetBlob_Ok n s text s' :
  GetBlob n s = (Ok text, s') →
  text = take (Z.to_nat n) (remaining (rcd s))
  ∧ length text = Z.to_nat n
  ∧ s' = advance (Z.to_nat n) s.
Proof.
  unfold GetBlob. case_decide; [|discriminate]. intros [= <- <-].
  split_and!; [done | | done]. rewrite length_take. lia.
Qed.

Lemma SkipBytes_Ok n s u s' :
  SkipBytes n s = (Ok u, s') →
  (Z.to_nat n ≤ length (remaining (rcd s)))%nat ∧ s' = advance (Z.to_nat n) s.
Proof. unfold SkipBytes. case_decide; [|discriminate]. now intros [= <- <-]. Qed.
End MonadFacts.

Lemma u16_range b0 b1 : 0 ≤ Z.lor (byte_val b0) (Z.shiftl (byte_val b1) 8) < 65536.
Proof.
  pose proof (byte_val_range b0). pose proof (byte_val_range b1).
  assert (Z.lor (byte_val b0) (Z.shiftl (byte_val b1) 8) = byte_val b0 + 256 * byte_val b1) as ->.
  { rewrite Z.shiftl_mul_pow2 by lia. rewrite <- Z.add_nocarry_lor.
    - change (2 ^ 8) with 256. lia.
    - apply Z.bits_inj'. intros n Hn. rewrite Z.land_spec, Z.bits_0.
      destruct (decide (n < 8)).
      + rewrite Z.mul_pow2_bits_low by lia. apply andb_false_r.
      + rewrite (Z.bits_above_log2 (byte_val b0) n); [done | lia |].
        destruct (decide (byte_val b0 = 0)) as [->|]; [simpl; lia|].
        apply Z.log2_lt_pow2; [lia|]. assert (2 ^ 8 ≤ 2 ^ n); [|lia].
        apply Z.pow_le_mono_r; lia. }
  lia.
Qed.

(** ** C1: cross references *)

Section CrossReferenceFacts.
Context {W ImageData TextData : Type}.
Implicit Types s : LoadState W.

Lemma LoadSpriteFromFile_eq (sprites : gmap Z ImageData) s val s' :
  GetUInt32 s = (Ok val, s') →
  LoadSpriteFromFile sprites s =
    if decide (val = 0) then (Ok None, s')
    else match sprites !! val with
         | None => (Fail, s')
         | Some spr => (Ok (Some spr), s')
         end.
Proof.
  intros E. unfold LoadSpriteFromFile. rewrite (bind_Ok _ _ _ _ _ E).
  case_decide; [done|]. now destruct (sprites !! val).
Qed.

Lemma LoadTextFromFile_eq (texts : gmap Z TextData) s val s' :
  GetUInt32 s = (Ok val, s') →
  LoadTextFromFile texts s =
    if decide (val = 0) then (Ok None, s')
    else match texts !! val with
         | None => (Fail, s')
         | Some txt => (Ok (Some txt), s')
         end.
Proof.
  intros E. unfold LoadTextFromFile. rewrite (bind_Ok _ _ _ _ _ E).
  case_decide; [done|]. now destruct (texts !! val).
Qed.

Lemma map_insert_new_lookup {T} (k : Z) (v : T) (m : gmap Z T) :
  m !! k = None → map_insert_new k v m !! k = Some v.
Proof. intros E. unfold map_insert_new. rewrite E. apply lookup_insert_eq. Qed.

Lemma map_insert_new_keeps {T} (k j : Z) (v x : T) (m : gmap Z T) :
  m !! j = Some x → map_insert_new k v m !! j = Some x.
Proof.
  intros E. unfold map_insert_new. destruct (m !! k) eqn:Ek; [done|].
  rewrite lookup_insert_ne; [done|]. intros ->. congruence.
Qed.

(** C1. A cross reference is a 32 bit number [val].  When it is 0 the read
    succeeds with the null reference, whatever the table holds; when it is not
    0 and the table has an object for it (put there by [insert] when an
    earlier block with that number was loaded), the read succeeds with exactly
    that object; when it is not 0 and the table has nothing for it, the read
    fails.  This holds for sprites ([LoadSpriteFromFile]) and for texts
    ([LoadTextFromFile]). *)
Theorem cross_reference_resolution
    (sprites : gmap Z ImageData) (texts : gmap Z TextData) s val s' :
  GetUInt32 s = (Ok val, s') →
  (val = 0 →
     LoadSpriteFromFile sprites s = (Ok None, s')
     ∧ LoadTextFromFile texts s = (Ok None, s'))
  ∧ (val ≠ 0 →
     (∀ spr, sprites !! val = Some spr →
             LoadSpriteFromFile sprites s = (Ok (Some spr), s'))
     ∧ (∀ txt, texts !! val = Some txt →
             LoadTextFromFile texts s = (Ok (Some txt), s'))
     ∧ (∀ imd, sprites !! val = None →
             LoadSpriteFromFile (map_insert_new val imd sprites) s = (Ok (Some imd), s'))
     ∧ (∀ txt, texts !! val = None →
             LoadTextFromFile (map_insert_new val txt texts) s = (Ok (Some txt), s'))
     ∧ (sprites !! val = None → LoadSpriteFromFile sprites s = (Fail, s'))
     ∧ (texts !! val = None → LoadTextFromFile texts s = (Fail, s'))).
Proof.
  intros E. split.
  - intros ->. rewrite (LoadSpriteFromFile_eq _ _ _ _ E), (LoadTextFromFile_eq _ _ _ _ E).
    done.
  - intros Hval. split_and!.
    + intros spr Hs. rewrite (LoadSpriteFromFile_eq _ _ _ _ E), Hs.
      now rewrite decide_False.
    + intros txt Ht. rewrite (LoadTextFromFile_eq _ _ _ _ E), Ht.
      now rewrite decide_False.
    + intros imd Hs. rewrite (LoadSpriteFromFile_eq _ _ _ _ E).
      rewrite (map_insert_new_lookup _ _ _ Hs). now rewrite decide_False.
    + intros txt Ht. rewrite (LoadTextFromFile_eq _ _ _ _ E).
      rewrite (map_insert_new_lookup _ _ _ Ht). now rewrite decide_False.
    + intros Hs. rewrite (LoadSpriteFromFile_eq _ _ _ _ E), Hs.
      now rewrite decide_False.
    + intros Ht. rewrite (LoadTextFromFile_eq _ _ _ _ E), Ht.
      now rewrite decide_False.
Qed.
End CrossReferenceFacts.

Lemma cross_reference_resolution_witness :
  let s := mkState (mkReader (le32 1) 0 "" 0 0) tt in
  let sprites : gmap Z nat := {[ 1 := 7%nat ]} in
  let texts : gmap Z nat := ∅ in
  LoadSpriteFromFile sprites s = (Ok (Some 7%nat), advance 4 s)
  ∧ LoadTextFromFile texts s = (Fail, advance 4 s).
Proof.
  intros s sprites texts.
  assert (GetUInt32 s = (Ok 1, advance 4 s)) as E by (vm_compute; reflexivity).
  destruct (cross_reference_resolution sprites texts s 1 (advance 4 s) E) as [_ Hnz].
  destruct Hnz as (Hspr & _ & _ & _ & _ & Htxt); [lia|].
  split.
  - apply Hspr. vm_compute. reflexivity.
  - apply Htxt. vm_compute. reflexivity.
Defined.

(** ** C3: text fields *)

Lemma byte_val_0 b : byte_val b = 0 → b = x00.
Proof.
  unfold byte_val. intros Hb.
  assert (Byte.to_N b = 0%N) as E by lia.
  pose proof (Byte.of_to_N b) as Hof. rewrite E in Hof. now injection Hof.
Qed.

Lemma decode_continuation_Some n : ∀ rest value x,
  decode_continuation n rest value = Some x →
  (n ≤ length rest)%nat
  ∧ Forall (λ b, byte_val b ≠ 0) (take n rest)
  ∧ ∀ rest', take n rest' = take n rest → decode_continuation n rest' value = Some x.
Proof.
  induction n as [|n IH]; intros rest value x; simpl.
  - intros [= <-]. split_and!; [lia | constructor | done].
  - destruct rest as [|b rest]; [discriminate|].
    case_decide as Hb; [|discriminate]. intros Hd.
    destruct (IH _ _ _ Hd) as (Hlen & Hnz & Hloc). split_and!.
    + simpl. lia.
    + constructor; [|done]. intros E. rewrite E in Hb. discriminate.
    + intros [|b' rest']; simpl; [discriminate|]. intros [= -> Ht].
      rewrite decide_True by done. now apply Hloc.
Qed.

Lemma decode_multibyte_Some size min_value first rest n sz cp :
  1 ≤ size → 0 < min_value →
  decode_multibyte size min_value first rest n = (sz, cp) → sz ≠ 0 →
  sz = size ∧ size ≤ n ∧ cp ≠ 0
  ∧ (Z.to_nat (size - 1) ≤ length rest)%nat
  ∧ Forall (λ b, byte_val b ≠ 0) (take (Z.to_nat (size - 1)) rest)
  ∧ ∀ rest' n', take (Z.to_nat (size - 1)) rest' = take (Z.to_nat (size - 1)) rest →
      size ≤ n' → decode_multibyte size min_value first rest' n' = (size, cp).
Proof.
  intros Hsize Hmin. unfold decode_multibyte.
  case_decide as Hn; [intros [= <- <-] ?; congruence|].
  destruct (decode_continuation _ rest first) as [value|] eqn:Hc; [|intros [= <- <-]; done].
  case_decide as Hv; [intros [= <- <-] ?; congruence|].
  intros [= <- <-] _.
  destruct (decode_continuation_Some _ _ _ _ Hc) as (Hlen & Hnz & Hloc).
  split_and!; [done | lia | lia | done | done |].
  intros rest' n' Ht Hn'. rewrite decide_False by lia. rewrite (Hloc _ Ht).
  now rewrite decide_False.
Qed.

Lemma decode_multibyte_0 size min_value first rest n sz cp :
  1 ≤ size →
  decode_multibyte size min_value first rest n = (sz, cp) → sz = 0 → cp = 0.
Proof.
  intros Hsize. unfold decode_multibyte. repeat case_match; intros [= <- <-]; lia.
Qed.

(** What a successful decoding depends on. *)
Lemma DecodeUtf8Char_Some data n sz cp :
  DecodeUtf8Char data n = (sz, cp) → sz ≠ 0 →
  1 ≤ sz ≤ n ∧ (Z.to_nat sz ≤ length data)%nat
  ∧ (cp = 0 → sz = 1 ∧ ∃ rest, data = x00 :: rest)
  ∧ (cp ≠ 0 → Forall (λ b, byte_val b ≠ 0) (take (Z.to_nat sz) data))
  ∧ ∀ data' n', take (Z.to_nat sz) data' = take (Z.to_nat sz) data → sz ≤ n' →
      DecodeUtf8Char data' n' = (sz, cp).
Proof.
  unfold DecodeUtf8Char. case_decide as Hn; [intros [= <- <-] ?; congruence|].
  destruct data as [|b rest]; [intros [= <- <-] ?; congruence|].
  assert (∀ size min_value first,
     2 ≤ size → 0 < min_value → byte_val b ≠ 0 →
     (∀ data' n', take (Z.to_nat size) data' = take (Z.to_nat size) (b :: rest) → size ≤ n' →
        DecodeUtf8Char data' n' = decode_multibyte size min_value first (tail data') n') →
     decode_multibyte size min_value first rest n = (sz, cp) → sz ≠ 0 →
     1 ≤ sz ≤ n ∧ (Z.to_nat sz ≤ length (b :: rest))%nat
     ∧ (cp = 0 → sz = 1 ∧ ∃ rest0, b :: rest = x00 :: rest0)
     ∧ (cp ≠ 0 → Forall (λ b, byte_val b ≠ 0) (take (Z.to_nat sz) (b :: rest)))
     ∧ ∀ data' n', take (Z.to_nat sz) data' = take (Z.to_nat sz) (b :: rest) → sz ≤ n' →
        DecodeUtf8Char data' n' = (sz, cp)) as Hmulti.
  { intros size min_value first Hsize Hmin Hb Hsame Hd Hsz.
    destruct (decode_multibyte_Some size min_value first rest n sz cp ltac:(lia) Hmin Hd Hsz)
      as (-> & Hle & Hcp & Hlen & Hnz & Hloc).
    replace (Z.to_nat size) with (S (Z.to_nat (size - 1))) in * by lia.
    split; [lia|]. split; [simpl; lia|]. split; [intros ?; congruence|]. split.
    - intros _. simpl. now constructor.
    - intros data' n' Ht Hn'. rewrite (Hsame _ _ Ht Hn').
      destruct data' as [|b' rest']; [discriminate|]. simpl in Ht. injection Ht as -> Ht.
      simpl. now apply Hloc. }
  assert (∀ data' (k : nat), take (S k) data' = take (S k) (b :: rest) →
            ∃ rest', data' = b :: rest') as Hhead.
  { intros [|b' rest'] k; simpl; [discriminate|]. intros [= -> _]. eauto. }
  case_decide as H1.
  { intros [= <- <-] _. split; [lia|]. split; [simpl; lia|]. split; [|split].
    - intros Hb. split; [done|]. exists rest. f_equal. now apply byte_val_0.
    - intros Hb. simpl. constructor; [done | constructor].
    - intros data' n' Ht Hn'. destruct (Hhead data' 0%nat Ht) as [rest' ->].
      rewrite decide_False by lia. now rewrite decide_True. }
  assert (byte_val b ≠ 0) as Hb.
  { intros E. rewrite E in H1. done. }
  case_decide as H2.
  { apply Hmulti; [lia | lia | done |].
    intros data' n' Ht Hn'. destruct (Hhead data' 1%nat Ht) as [rest' ->].
    unfold DecodeUtf8Char. simpl tail. rewrite decide_False by lia. rewrite decide_False by done. now rewrite decide_True. }
  case_decide as H3.
  { apply Hmulti; [lia | lia | done |].
    intros data' n' Ht Hn'. destruct (Hhead data' 2%nat Ht) as [rest' ->].
    unfold DecodeUtf8Char. simpl tail. rewrite decide_False by lia. rewrite decide_False by done.
    rewrite decide_False by done. now rewrite decide_True. }
  case_decide as H4.
  { apply Hmulti; [lia | lia | done |].
    intros data' n' Ht Hn'. destruct (Hhead data' 3%nat Ht) as [rest' ->].
    unfold DecodeUtf8Char. simpl tail. rewrite decide_False by lia. rewrite decide_False by done.
    rewrite decide_False by done. rewrite decide_False by done. now rewrite decide_True. }
  intros [= <- <-] ?. congruence.
Qed.

Lemma DecodeUtf8Char_0 data n sz cp :
  DecodeUtf8Char data n = (sz, cp) → sz = 0 → cp = 0.
Proof.
  unfold DecodeUtf8Char. repeat case_match; try (intros [= <- <-]; lia);
    apply decode_multibyte_0; lia.
Qed.

Lemma utf8_char_length c cp :
  DecodeUtf8Char c (Z.of_nat (length c)) = (Z.of_nat (length c), cp) → cp ≠ 0 →
  (1 ≤ length c)%nat.
Proof.
  intros Hd Hcp. destruct c; [|simpl; lia].
  apply DecodeUtf8Char_0 in Hd; done.
Qed.

(** A character decodes the same when more bytes follow it. *)
Lemma DecodeUtf8Char_prefix c cp rest n :
  DecodeUtf8Char c (Z.of_nat (length c)) = (Z.of_nat (length c), cp) → cp ≠ 0 →
  Z.of_nat (length c) ≤ n →
  DecodeUtf8Char (c ++ rest) n = (Z.of_nat (length c), cp).
Proof.
  intros Hd Hcp Hn. pose proof (utf8_char_length _ _ Hd Hcp) as Hlen.
  destruct (DecodeUtf8Char_Some _ _ _ _ Hd ltac:(lia)) as (_ & _ & _ & _ & Hloc).
  apply Hloc; [|done]. rewrite Nat2Z.id. rewrite take_app_length. now rewrite take_ge.
Qed.

Lemma utf8_text_last text :
  utf8_text text → ∃ body, text = body ++ [x00] ∧ Forall (λ b, byte_val b ≠ 0) body.
Proof.
  induction 1 as [|c text cp Hd Hcp Ht (body & -> & Hbody)].
  - exists []. split; [done | constructor].
  - exists (c ++ body). split; [now rewrite app_assoc|].
    apply Forall_app. split; [|done].
    pose proof (utf8_char_length _ _ Hd Hcp) as Hlen.
    destruct (DecodeUtf8Char_Some _ _ _ _ Hd ltac:(lia)) as (_ & _ & _ & Hnz & _).
    specialize (Hnz Hcp). rewrite Nat2Z.id in Hnz. now rewrite take_ge in Hnz.
Qed.

(** The loop of [ReadUtf8Text] on [text], whatever follows it in the buffer:
    it ends at the NUL with no byte left exactly when [text] is a text, and
    its fuel suffices. *)
Lemma utf8_scan_text fuel : ∀ text junk,
  (length text < fuel)%nat →
  (utf8_scan fuel (text ++ junk) (Z.of_nat (length text)) = ScanBreak 0 ↔ utf8_text text)
  ∧ utf8_scan fuel (text ++ junk) (Z.of_nat (length text)) ≠ ScanOutOfFuel.
Proof.
  induction fuel as [|fuel IH]; intros text junk Hfuel; [lia|].
  simpl. destruct (DecodeUtf8Char (text ++ junk) (Z.of_nat (length text))) as [sz cp] eqn:Hd.
  case_decide as Hsz.
  - split; [|done]. split; [done|]. intros Ht. exfalso.
    inversion Ht as [E|c t cp' Hc Hcp' Ht' E]; subst text.
    + vm_compute in Hd. injection Hd as <- <-. simpl in Hsz. lia.
    + pose proof (utf8_char_length _ _ Hc Hcp') as Hlen.
      rewrite <- app_assoc in Hd.
      rewrite (DecodeUtf8Char_prefix c cp' (t ++ junk)) in Hd; [|done..|].
      * injection Hd as <- <-. rewrite length_app in Hsz. lia.
      * rewrite length_app. lia.
  - assert (sz ≠ 0 ∧ sz ≤ Z.of_nat (length text)) as [Hsz0 Hszn] by lia. clear Hsz.
    destruct (DecodeUtf8Char_Some _ _ _ _ Hd Hsz0) as (Hsz1 & _ & Hnul & Hnz & Hloc).
    assert (text = take (Z.to_nat sz) text ++ drop (Z.to_nat sz) text) as Hsplit
      by now rewrite take_drop.
    assert (take (Z.to_nat sz) (text ++ junk) = take (Z.to_nat sz) text) as Htake.
    { rewrite take_app_le by lia. done. }
    case_decide as Hcp.
    + subst cp. destruct (Hnul eq_refl) as (-> & rest & Hrest).
      destruct text as [|b text']; [simpl in Hszn; lia|].
      simpl in Hrest. injection Hrest as -> _.
      split; [|done]. split.
      * intros [= E]. destruct text'; [constructor | simpl in E; lia].
      * intros Ht. inversion Ht as [E|c t cp' Hc Hcp' Ht' E].
        { reflexivity. }
        exfalso. pose proof (utf8_char_length _ _ Hc Hcp') as Hlen.
        destruct c as [|b c']; [simpl in Hlen; lia|]. simpl in E. injection E as -> _.
        destruct (DecodeUtf8Char_Some _ _ _ _ Hc ltac:(lia)) as (_ & _ & _ & Hnz' & _).
        specialize (Hnz' Hcp'). rewrite Nat2Z.id in Hnz'. simpl in Hnz'.
        apply Forall_cons in Hnz' as [Hx _]. now apply Hx.
    + assert (drop (Z.to_nat sz) (text ++ junk) = drop (Z.to_nat sz) text ++ junk) as ->.
      { rewrite drop_app_le by lia. done. }
      assert (Z.of_nat (length text) - sz = Z.of_nat (length (drop (Z.to_nat sz) text))) as ->.
      { rewrite length_drop. lia. }
      destruct (IH (drop (Z.to_nat sz) text) junk) as [Hiff Hfuel'].
      { rewrite length_drop. lia. }
      split; [|done]. rewrite Hiff. split.
      * intros Ht. rewrite Hsplit. apply (utf8_text_char _ _ cp); [|done..].
        rewrite length_take, Nat.min_l by lia. rewrite Z2Nat.id by lia.
        apply Hloc; [|lia]. rewrite take_take, Nat.min_id. done.
      * intros Ht. inversion Ht as [E|c t cp' Hc Hcp' Ht' E]; subst text.
        { vm_compute in Hd. injection Hd as <- <-. done. }
        pose proof (utf8_char_length _ _ Hc Hcp') as Hlen.
        rewrite <- app_assoc in Hd.
        rewrite (DecodeUtf8Char_prefix c cp' (t ++ junk)) in Hd; [|done..|].
        -- injection Hd as <- <-. rewrite Nat2Z.id. rewrite drop_app_length. done.
        -- rewrite length_app. lia.
Qed.

Lemma utf8_text_dec text : utf8_text text ∨ ¬ utf8_text text.
Proof.
  destruct (utf8_scan_text (S (length text)) text [] ltac:(lia)) as [Hiff _].
  destruct (utf8_scan (S (length text)) (text ++ []) (Z.of_nat (length text))) as [|r|].
  - right. intros Ht. apply Hiff in Ht. done.
  - destruct (decide (r = 0)) as [->|Hr]; [left; now apply Hiff|].
    right. intros Ht. apply Hiff in Ht. congruence.
  - right. intros Ht. apply Hiff in Ht. done.
Qed.

(** The C string at the start of a buffer that starts with a text. *)
Lemma c_str_text text junk : utf8_text text → c_str (text ++ junk) = c_str text.
Proof.
  intros Ht. apply utf8_text_last in Ht as (body & -> & Hbody).
  induction Hbody as [|b body Hb Hbody IH]; [reflexivity|].
  cbn [app c_str]. rewrite !decide_False by done. f_equal. exact IH.
Qed.

Section ReadUtf8TextFacts.
Context {W : Type}.
Implicit Types s : LoadState W.

Lemma GetBlob_remaining n s text s' :
  0 ≤ n → GetBlob n s = (Ok text, s') →
  remaining (rcd s) = text ++ remaining (rcd s') ∧ Z.of_nat (length text) = n
  ∧ s' = advance (Z.to_nat n) s.
Proof.
  intros Hn Hb. apply GetBlob_Ok in Hb as (-> & Hlen & ->).
  rewrite remaining_advance, take_drop. split_and!; [done | lia | done].
Qed.

Lemma write_blob_Ok (buffer : list byte) off text s :
  0 ≤ off → off + Z.of_nat (length text) ≤ Z.of_nat (length buffer) →
  write_blob buffer off text s =
    (Ok (take (Z.to_nat off) buffer ++ text ++ drop (Z.to_nat off + length text) buffer), s).
Proof. intros H0 H1. unfold write_blob. now rewrite decide_True. Qed.

(** The buffer with the bytes that it holds at [off] written at [off]. *)
Lemma write_same (buffer : list byte) (off n : nat) :
  take off buffer ++ take n (drop off buffer) ++ drop (off + n) buffer = buffer.
Proof. rewrite <- drop_drop, take_drop. apply take_drop. Qed.

Lemma GetBlob_to_eq n (buffer : list byte) used s :
  0 ≤ used → 0 ≤ n → used + n ≤ Z.of_nat (length buffer) →
  GetBlob_to buffer used n s
  = (Ok (take (Z.to_nat used) buffer ++ text_seen n buffer used s
           ++ drop (Z.to_nat used + Z.to_nat n) buffer), after_text n s)
  ∧ length (text_seen n buffer used s) = Z.to_nat n.
Proof.
  intros Hused Hn Hroom. unfold GetBlob_to, GetBlob, text_seen, after_text.
  case_decide as Hlen.
  - assert (length (take (Z.to_nat n) (remaining (rcd s))) = Z.to_nat n) as Hl
      by (rewrite length_take; lia).
    split; [|done]. rewrite write_blob_Ok by lia. now rewrite Hl.
  - split; [|rewrite length_take, length_drop; lia]. now rewrite write_same.
Qed.

Lemma remaining_after_text n s :
  remaining (rcd (after_text n s)) = after_blob n (remaining (rcd s)).
Proof.
  unfold after_text, after_blob. case_decide; [|done]. apply remaining_advance.
Qed.

(** [ReadUtf8Text] when the buffer has room. *)
Lemma ReadUtf8Text_eq n (buffer : list byte) buf_length used s :
  buf_length = Z.of_nat (length buffer) → 0 ≤ used → 0 ≤ n →
  used + n ≤ buf_length →
  let text := text_seen n buffer used s in
  let buffer' :=
    take (Z.to_nat used) buffer ++ text ++ drop (Z.to_nat used + length text) buffer in
  (utf8_text text
   → ReadUtf8Text n buffer buf_length used s = (Ok (buffer', used + n), after_text n s))
  ∧ (¬ utf8_text text → ReadUtf8Text n buffer buf_length used s = (Fail, after_text n s)).
Proof.
  intros Hbuf Hused Hn Hroom text buffer'.
  destruct (GetBlob_to_eq n buffer used s Hused Hn ltac:(lia)) as [Hb Hlen].
  fold text in Hb, Hlen.
  unfold ReadUtf8Text. rewrite decide_False by lia. rewrite (bind_Ok _ _ _ _ _ Hb).
  subst buffer'. set (s1 := after_text n s) in *. clearbody s1 text.
  assert (n = Z.of_nat (length text)) as -> by lia. rewrite !Nat2Z.id.
  assert (drop (Z.to_nat used)
            (take (Z.to_nat used) buffer ++ text ++ drop (Z.to_nat used + length text) buffer)
          = text ++ drop (Z.to_nat used + length text) buffer) as ->.
  { rewrite drop_app_length'; [done|]. rewrite length_take. lia. }
  destruct (utf8_scan_text (S (length text)) text
              (drop (Z.to_nat used + length text) buffer) ltac:(lia)) as [Hiff Hfuel].
  destruct (utf8_scan _ _ _) as [|real_size|] eqn:Hscan; [| |done].
  - split; [|done]. intros Ht. apply Hiff in Ht. discriminate.
  - case_decide as Hr.
    + split; [|done]. intros Ht. apply Hiff in Ht. congruence.
    + split; [done|]. intros Ht. exfalso. apply Ht, Hiff. f_equal. lia.
Qed.


End ReadUtf8TextFacts.



(** A stream that ends before the text: line 80 does not look at the result
    of [GetBlob], so the loop goes over what the buffer holds.  Here the
    buffer holds the name of a language from the read before, and the read of
    a text of the same length succeeds though the stream has no byte left. *)
Lemma ReadUtf8Text_on_ended_stream :
  let s := mkState (mkReader (asciiz "xx") 0 "" 0 0) tt in
  ∃ lang_buffer s1,
    ReadUtf8Text 3 (replicate 8 x00) 8 0 s = (Ok (lang_buffer, 3), s1)
    ∧ remaining (rcd s1) = []
    ∧ ReadUtf8Text 3 lang_buffer 8 0 s1 = (Ok (lang_buffer, 3), s1).
Proof.
  intros s. exists (asciiz "xx" ++ replicate 5 x00), (advance 3 s).
  split_and!; vm_compute; reflexivity.
Qed.

(** ** C2 and C7: TEXT blocks *)

Section WpRules.
Context {W : Type} (F : Prop).
Implicit Types s : LoadState W.

Lemma wp_bind {A B} (m : M W A) (f : A → M W B) s Q :
  wp F m s (λ a s1, wp F (f a) s1 Q) → wp F (m ≫= f) s Q.
Proof. unfold wp, mbind, M_bind. now destruct (m s) as [[a| |] s1]. Qed.

Lemma wp_ret {A} (a : A) s (Q : A → LoadState W → Prop) : Q a s → wp F (mret a) s Q.
Proof. done. Qed.

Lemma wp_return_false {A} s (Q : A → LoadState W → Prop) : wp F return_false s Q.
Proof. done. Qed.

Lemma wp_conseq {A} (m : M W A) s (Q Q' : A → LoadState W → Prop) :
  wp F m s Q → (∀ a s', Q a s' → Q' a s') → wp F m s Q'.
Proof. unfold wp. destruct (m s) as [[a| |] s1]; auto. Qed.

Lemma wp_Ok {A} (m : M W A) s Q a s' : wp F m s Q → m s = (Ok a, s') → Q a s'.
Proof. unfold wp. intros Hwp E. now rewrite E in Hwp. Qed.

Lemma wp_get_reader s (Q : RcdFileReader → LoadState W → Prop) :
  Q (rcd s) s → wp F get_reader s Q.
Proof. done. Qed.

Lemma wp_GetUInt8 s (Q : Z → LoadState W → Prop) :
  (∀ b rest s', remaining (rcd s) = b :: rest → remaining (rcd s') = rest →
                world s' = world s → Q (byte_val b) s') →
  wp F GetUInt8 s Q.
Proof.
  intros HQ. unfold wp. destruct (remaining (rcd s)) as [|b rest] eqn:E.
  - now rewrite (GetUInt8_nil _ E).
  - rewrite (GetUInt8_cons _ _ _ E). apply (HQ b rest); [done | | done].
    rewrite remaining_advance, E. done.
Qed.

Lemma wp_GetUInt16 s (Q : Z → LoadState W → Prop) :
  (∀ b0 b1 rest s', remaining (rcd s) = b0 :: b1 :: rest → remaining (rcd s') = rest →
                    world s' = world s →
                    Q (Z.lor (byte_val b0) (Z.shiftl (byte_val b1) 8)) s') →
  wp F GetUInt16 s Q.
Proof.
  intros HQ. unfold GetUInt16.
  apply wp_bind, wp_GetUInt8. intros b0 r0 s0 E0 R0 W0.
  apply wp_bind, wp_GetUInt8. intros b1 r1 s1 E1 R1 W1.
  apply wp_ret. apply (HQ b0 b1 r1); [|done|congruence]. rewrite E0. congruence.
Qed.

Lemma wp_assert_that (P : Prop) `{Decision P} s (Q : unit → LoadState W → Prop) :
  P → Q tt s → wp F (assert_that P) s Q.
Proof. intros HP HQ. unfold assert_that. now rewrite decide_True. Qed.

Lemma wp_ReadUtf8Text n (buffer : list byte) buf_length used s
    (Q : list byte * Z → LoadState W → Prop) :
  buf_length = Z.of_nat (length buffer) → 0 ≤ used → 0 ≤ n →
  (∀ text s',
      remaining (rcd s') = after_blob n (remaining (rcd s))
      ∧ ((Z.to_nat n ≤ length (remaining (rcd s)))%nat
         → text = take (Z.to_nat n) (remaining (rcd s))) →
      Z.of_nat (length text) = n → utf8_text text → used + n ≤ buf_length →
      Q (take (Z.to_nat used) buffer ++ text
           ++ drop (Z.to_nat used + length text) buffer, used + n) s') →
  wp F (ReadUtf8Text n buffer buf_length used) s Q.
Proof.
  intros Hbuf Hused Hn HQ. unfold wp.
  destruct (decide (buf_length < used + n)) as [Hroom|Hroom].
  { unfold ReadUtf8Text. now rewrite decide_True. }
  destruct (ReadUtf8Text_eq n buffer buf_length used s Hbuf Hused Hn ltac:(lia))
    as [Hgood Hbad].
  destruct (GetBlob_to_eq n buffer used s Hused Hn ltac:(lia)) as [_ Hlen].
  destruct (utf8_text_dec (text_seen n buffer used s)) as [Ht|Ht].
  - rewrite (Hgood Ht). apply HQ; [|lia | done | lia]. split.
    + apply remaining_after_text.
    + intros Hthere. unfold text_seen. now rewrite decide_True.
  - now rewrite (Hbad Ht).
Qed.
End WpRules.

Section TextBlockFacts.
Context `{Headers} {W : Type} (F : Prop).
Implicit Types s : LoadState W.

Lemma wp_set_name (strings : list TextString) i p s (Q : list TextString → LoadState W → Prop) :
  0 ≤ i < Z.of_nat (length strings) →
  (∀ ts, strings !! Z.to_nat i = Some ts →
         Q (<[Z.to_nat i := mkTextString (Some p) (ts_languages ts)]> strings) s) →
  wp F (set_name strings i p) s Q.
Proof.
  intros Hi HQ. unfold set_name.
  destruct (strings !! Z.to_nat i) as [ts|] eqn:E.
  - rewrite decide_True by lia. now apply HQ.
  - apply lookup_ge_None in E. lia.
Qed.

Lemma wp_set_language (strings : list TextString) i lang_idx p s
    (Q : list TextString → LoadState W → Prop) :
  0 ≤ i < Z.of_nat (length strings) → 0 ≤ lang_idx →
  (F ∨ ∀ ts, ts ∈ strings → lang_idx < Z.of_nat (length (ts_languages ts))) →
  (∀ ts, strings !! Z.to_nat i = Some ts →
         Q (<[Z.to_nat i := mkTextString (ts_name ts)
                               (<[Z.to_nat lang_idx := Some p]> (ts_languages ts))]> strings) s) →
  wp F (set_language strings i lang_idx p) s Q.
Proof.
  intros Hi Hidx Hsafe HQ. unfold set_language.
  destruct (strings !! Z.to_nat i) as [ts|] eqn:E.
  - case_decide as Hd; [now apply HQ|]. destruct Hsafe as [HF|Hsafe]; [exact HF|].
    exfalso. apply Hd. split; [lia|]. split; [done|]. apply Hsafe.
    eapply list_elem_of_lookup_2. exact E.
  - apply lookup_ge_None in E. lia.
Qed.

Lemma Forall_languages_insert (strings : list TextString) i ts' :
  Forall (λ ts, length (ts_languages ts) = LANGUAGE_COUNT) strings →
  length (ts_languages ts') = LANGUAGE_COUNT →
  Forall (λ ts, length (ts_languages ts) = LANGUAGE_COUNT) (<[i := ts']> strings).
Proof. intros Hall Hts. now apply Forall_insert. Qed.

Lemma length_write (buffer text : list byte) used :
  0 ≤ used → used + Z.of_nat (length text) ≤ Z.of_nat (length buffer) →
  length (take (Z.to_nat used) buffer ++ text ++ drop (Z.to_nat used + length text) buffer)
  = length buffer.
Proof. intros. rewrite !length_app, length_take, length_drop. lia. Qed.

Lemma u32_id z : 0 ≤ z < 2 ^ 32 → u32 z = z.
Proof. intros. unfold u32. now apply Z.mod_small. Qed.

Lemma wp_load_translations fuel : ∀ trs l s,
  (F ∨ ∀ lang_name, GetLanguageIndex lang_name < Z.of_nat LANGUAGE_COUNT) →
  locals_ok l → tl_used_strings l < MAX_NUM_TEXT_STRINGS →
  0 ≤ trs ≤ tl_length l → (Z.to_nat trs ≤ fuel)%nat →
  wp F (load_translations fuel trs l) s (λ l' s',
    locals_ok l'
    ∧ tl_used_strings l' = tl_used_strings l
    ∧ tl_length l' = tl_length l - trs
    ∧ translations_layout trs (tl_used_size l' - tl_used_size l)
                          (remaining (rcd s)) (remaining (rcd s'))).
Proof.
  assert (∀ trs l s, locals_ok l → 0 ≤ trs → ¬ trs > 0 →
            wp F (_ ← assert_that (trs = 0); mret l) s (λ l' s',
              locals_ok l'
              ∧ tl_used_strings l' = tl_used_strings l
              ∧ tl_length l' = tl_length l - trs
              ∧ translations_layout trs (tl_used_size l' - tl_used_size l)
                                    (remaining (rcd s)) (remaining (rcd s')))) as Hend.
  { intros trs l s Hl Htrs Hpos. apply wp_bind, wp_assert_that; [lia|]. apply wp_ret.
    replace trs with 0 by lia. rewrite Z.sub_0_r, Z.sub_diag.
    split_and!; try done. constructor. }
  induction fuel as [|fuel IH]; intros trs l s Hsafe Hl Hused Htrs Hfuel.
  - cbn [load_translations]. case_decide; [lia|]. apply Hend; [done | lia | done].
  - cbn [load_translations]. case_decide as Hpos; [|apply Hend; [done | lia | done]].
    destruct Hl as (Hbuf & Hsize & Hstr & Hus & Hlangs & Hlen).
    case_decide as Hl3; [apply wp_return_false|].
    apply wp_bind, wp_GetUInt16. intros b0 b1 r0 s0 E0 R0 _.
    apply wp_bind, wp_GetUInt8. intros b2 r1 s1 E1 R1 _.
    pose proof (u16_range b0 b1) as Htr. pose proof (byte_val_range b2) as Hlang.
    set (tr_length := Z.lor (byte_val b0) (Z.shiftl (byte_val b1) 8)) in *.
    case_decide as Htl; [apply wp_return_false|].
    case_decide as Hll; [apply wp_return_false|].
    apply wp_bind, wp_ReadUtf8Text; [now rewrite length_replicate | lia | lia |].
    intros lang s2 [E2 P2] Hlang_len Hlang_text _. cbn beta iota.
    rewrite R1 in E2, P2.
    assert (c_str (take (Z.to_nat 0) (replicate 1000 x00) ++ lang
                   ++ drop (Z.to_nat 0 + length lang) (replicate 1000 x00))
            = c_str lang) as Hname by (rewrite Z2Nat.inj_0, take_0, app_nil_l; now apply c_str_text).
    rewrite (u32_id (tl_length l - 3)) by lia.
    rewrite (u32_id (tl_length l - 3 - byte_val b2)) by lia.
    rewrite (u32_id (tl_length l - 3 - byte_val b2 - _)) by lia.
    apply wp_bind.
    assert (tl_used_strings l < Z.of_nat (length (tl_strings l))) as Hidx
      by (rewrite Hstr; unfold MAX_NUM_TEXT_STRINGS in *; lia).
    rewrite Hname.
    assert (∀ (known : bool) stored s3 s',
              known = bool_decide (GetLanguageIndex (c_str lang) >= 0) →
              remaining (rcd s3)
              = after_blob (tr_length - (byte_val b2 + 2 + 1)) (remaining (rcd s2)) →
              translations_layout (trs - (3 + byte_val b2 + (tr_length - (byte_val b2 + 2 + 1))))
                                  stored (remaining (rcd s3)) (remaining (rcd s')) →
              translations_layout trs
                ((if known then tr_length - (byte_val b2 + 2 + 1) else 0) + stored)
                (remaining (rcd s)) (remaining (rcd s'))) as Hrecord.
    { intros known stored s3 s' Hknown E3 Hlay.
      rewrite E0. rewrite R0 in E1. rewrite E1.
      replace trs with (tr_length + (trs - (3 + byte_val b2 + (tr_length - (byte_val b2 + 2 + 1)))))
        by lia.
      replace (tr_length - (byte_val b2 + 2 + 1)) with (tr_length - 3 - byte_val b2) in * by lia.
      apply (translations_record b0 b1 b2 r1 _ _ stored known); [fold tr_length; lia | |].
      - intros Hthere. rewrite Hknown, (P2 Hthere). done.
      - fold tr_length. rewrite <- E2, <- E3. done. }
    case_decide as Hli.
    + apply wp_bind, wp_set_language; [lia | lia | |].
      { destruct Hsafe as [HF|Hsafe]; [now left|]. right. intros ts Hts.
        rewrite Forall_forall in Hlangs. rewrite (Hlangs ts Hts). apply Hsafe. }
      intros ts Ets.
      apply wp_bind, wp_ReadUtf8Text; [rewrite Hbuf; lia | lia | lia |].
      intros text s3 [E3 _] Htext_len _ Hroom. cbn beta iota. apply wp_ret. cbn beta iota.
      eapply wp_conseq.
      { apply IH; [done | | done | simpl; lia | lia].
        split_and!; simpl; try lia.
        - rewrite length_write; [done | lia | lia].
        - now rewrite length_insert.
        - apply Forall_languages_insert; [done|]. simpl. rewrite length_insert.
          rewrite Forall_forall in Hlangs. apply Hlangs.
          eapply list_elem_of_lookup_2. exact Ets. }
      simpl. intros l' s' (Hl' & Hus' & Hlen' & Hlay). split_and!; [done | done | lia |].
      replace (tl_used_size l' - tl_used_size l)
        with ((if true then tr_length - (byte_val b2 + 2 + 1) else 0)
              + (tl_used_size l' - (tl_used_size l + (tr_length - (byte_val b2 + 2 + 1)))))
        by lia.
      apply (Hrecord true _ s3 s'); [|done|done].
      symmetry. now apply bool_decide_eq_true.
    + apply wp_bind, wp_ReadUtf8Text.
      { rewrite length_write; [now rewrite length_replicate | lia | rewrite length_replicate; lia]. }
      { lia. } { lia. }
      intros text s3 [E3 _] Htext_len _ Hroom. cbn beta iota. apply wp_ret. cbn beta iota.
      eapply wp_conseq.
      { apply IH; [done | | done | simpl; lia | lia].
        split_and!; simpl; try lia; done. }
      simpl. intros l' s' (Hl' & Hus' & Hlen' & Hlay). split_and!; [done | done | lia |].
      replace (tl_used_size l' - tl_used_size l)
        with ((if false then tr_length - (byte_val b2 + 2 + 1) else 0)
              + (tl_used_size l' - tl_used_size l)) by lia.
      apply (Hrecord false _ s3 s'); [|done|done].
      symmetry. now apply bool_decide_eq_false.
Qed.

Lemma wp_load_strings fuel : ∀ l s,
  (F ∨ ∀ lang_name, GetLanguageIndex lang_name < Z.of_nat LANGUAGE_COUNT) →
  locals_ok l → tl_used_strings l ≤ MAX_NUM_TEXT_STRINGS →
  (Z.to_nat (tl_length l) ≤ fuel)%nat →
  wp F (load_strings fuel l) s (λ l' s',
    locals_ok l'
    ∧ tl_used_strings l' ≤ MAX_NUM_TEXT_STRINGS
    ∧ ∃ count, tl_used_strings l' = tl_used_strings l + Z.of_nat count
        ∧ strings_layout count (tl_length l) (tl_used_size l' - tl_used_size l)
                         (remaining (rcd s)) (remaining (rcd s'))).
Proof.
  assert (∀ l s, locals_ok l → tl_used_strings l ≤ MAX_NUM_TEXT_STRINGS →
            ¬ tl_length l > 0 →
            wp F (_ ← assert_that (tl_length l = 0); mret l) s (λ l' s',
              locals_ok l'
              ∧ tl_used_strings l' ≤ MAX_NUM_TEXT_STRINGS
              ∧ ∃ count, tl_used_strings l' = tl_used_strings l + Z.of_nat count
                  ∧ strings_layout count (tl_length l) (tl_used_size l' - tl_used_size l)
                                   (remaining (rcd s)) (remaining (rcd s')))) as Hend.
  { intros l s Hl Hused Hpos. pose proof Hl as (_ & _ & _ & _ & _ & Hlen).
    apply wp_bind, wp_assert_that; [lia|]. apply wp_ret.
    split_and!; [done | done |]. exists 0%nat. split; [lia|].
    replace (tl_length l) with 0 by lia. rewrite Z.sub_diag. constructor. }
  induction fuel as [|fuel IH]; intros l s Hsafe Hl Hused Hfuel.
  - cbn [load_strings]. case_decide; [lia|]. now apply Hend.
  - cbn [load_strings]. case_decide as Hpos; [|now apply Hend].
    pose proof Hl as (Hbuf & Hsize & Hstr & Hus & Hlangs & Hlen).
    case_decide as Hmax; [apply wp_return_false|].
    case_decide as Hl3; [apply wp_return_false|].
    apply wp_bind, wp_GetUInt16. intros b0 b1 r0 s0 E0 R0 _.
    apply wp_bind, wp_GetUInt8. intros b2 r1 s1 E1 R1 _.
    pose proof (u16_range b0 b1) as Hsl. pose proof (byte_val_range b2) as Hident.
    set (str_length := Z.lor (byte_val b0) (Z.shiftl (byte_val b1) 8)) in *.
    case_decide as Hfit; [apply wp_return_false|].
    case_decide as Hroom; [apply wp_return_false|].
    assert (tl_used_strings l < Z.of_nat (length (tl_strings l))) as Hidx
      by (rewrite Hstr; unfold MAX_NUM_TEXT_STRINGS in *; lia).
    apply wp_bind, wp_set_name; [lia|]. intros ts Ets.
    apply wp_bind, wp_ReadUtf8Text; [rewrite Hbuf; lia | lia | lia |].
    intros ident s2 [E2 _] Hident_len _ Hbuf_room. cbn beta iota.
    rewrite (u32_id (tl_length l - 3)) by lia.
    rewrite (u32_id (tl_length l - 3 - byte_val b2)) by lia.
    apply wp_bind. eapply wp_conseq.
    { apply wp_load_translations; [done | | simpl; lia | simpl; lia | lia].
      split_and!; simpl; try lia.
      - rewrite length_write; [done | lia | lia].
      - now rewrite length_insert.
      - apply Forall_languages_insert; [done|]. simpl.
        rewrite Forall_forall in Hlangs. apply Hlangs.
        eapply list_elem_of_lookup_2. exact Ets. }
    simpl. intros l1 s3 (Hl1 & Hus1 & Hlen1 & Hlay1).
    eapply wp_conseq.
    { apply IH; [done | | simpl; lia | simpl; lia].
      destruct Hl1 as (? & ? & ? & ? & ? & ?). split_and!; simpl; try done; lia. }
    simpl. intros l' s' (Hl' & Hus' & count & Hcount & Hlay).
    split_and!; [done | done |]. exists (S count). split; [lia|].
    rewrite E0. rewrite R0 in E1. rewrite E1. rewrite R1 in E2.
    replace (tl_length l) with (str_length + (tl_length l - str_length)) by lia.
    replace (tl_used_size l' - tl_used_size l)
      with (byte_val b2 + (tl_used_size l1 - (tl_used_size l + byte_val b2))
            + (tl_used_size l' - tl_used_size l1)) by lia.
    apply (strings_record b0 b1 b2 r1 (remaining (rcd s3))); [fold str_length; lia | |].
    + fold str_length. replace (str_length - 3 - byte_val b2)
        with (str_length - (byte_val b2 + 2 + 1)) by lia. rewrite <- E2. done.
    + rewrite Hlen1 in Hlay.
      replace (tl_length l - str_length)
        with (tl_length l - 3 - byte_val b2 - (str_length - (byte_val b2 + 2 + 1))) by lia.
      done.
Qed.

Lemma wp_TextData_Load s :
  (F ∨ ∀ lang_name, GetLanguageIndex lang_name < Z.of_nat LANGUAGE_COUNT) →
  0 ≤ rcd_size (rcd s) < 2 ^ 32 →
  wp F TextData_Load s (λ td s',
    ∃ count stored, string_count td = Z.of_nat count
      ∧ Z.of_nat count ≤ MAX_NUM_TEXT_STRINGS
      ∧ length (td_strings td) = count
      ∧ Z.of_nat (length (text_data td)) = stored
      ∧ stored ≤ 64 * 1024
      ∧ strings_layout count (rcd_size (rcd s)) stored
                       (remaining (rcd s)) (remaining (rcd s'))).
Proof.
  intros Hsafe Hsize. unfold TextData_Load.
  apply wp_bind, wp_get_reader. case_decide as Hver; [apply wp_return_false|].
  apply wp_bind. eapply wp_conseq.
  { apply wp_load_strings; [done | | cbn [tl_used_strings]; unfold MAX_NUM_TEXT_STRINGS; lia
                           | cbn [tl_length]; lia].
    unfold locals_ok. cbn [tl_buffer tl_used_size tl_length tl_strings tl_used_strings].
    split_and!; try lia.
    - now rewrite length_replicate.
    - now rewrite length_replicate.
    - apply Forall_replicate. unfold empty_TextString. cbn [ts_languages].
      now rewrite length_replicate. }
  cbn beta. cbn [tl_buffer tl_used_size tl_length tl_strings tl_used_strings].
  intros l s' (Hl & Hus & count & Hcount & Hlay). apply wp_ret.
  cbn [string_count td_strings text_data].
  destruct Hl as (Hbuf & Husz & Hstr & ? & ? & ?).
  rewrite Z.sub_0_r in Hlay.
  exists count, (tl_used_size l). split_and!; [lia | lia | | | lia | done].
  - rewrite length_take, Hstr. unfold MAX_NUM_TEXT_STRINGS in *. lia.
  - rewrite length_take. lia.
Qed.
End TextBlockFacts.

Section TextLayoutFacts.
Context `{Headers}.

Lemma after_blob_there n bytes :
  (Z.to_nat n ≤ length bytes)%nat → after_blob n bytes = drop (Z.to_nat n) bytes.
Proof. intros Hn. unfold after_blob. now rewrite decide_True. Qed.

(** What a layout says about the bytes, when the stream holds them all. *)
Lemma translations_layout_bytes total stored bytes rest :
  translations_layout total stored bytes rest →
  0 ≤ total ∧ 0 ≤ stored ≤ total
  ∧ (total ≤ Z.of_nat (length bytes) →
     ∃ records, bytes = records ++ rest ∧ Z.of_nat (length records) = total).
Proof.
  induction 1 as [rest|b0 b1 lang bytes rest total stored known tr nl Hlt Hknown Hlay
                       (Htot & Hst & Hwhole)].
  - split_and!; [done..|]. intros _. now exists [].
  - pose proof (byte_val_range lang). subst tr nl.
    set (tr := Z.lor (byte_val b0) (Z.shiftl (byte_val b1) 8)) in *.
    split_and!; [lia | destruct known; lia | destruct known; lia |].
    cbn [length]. intros Hlen.
    rewrite (after_blob_there (byte_val lang)) in Hwhole by lia.
    rewrite after_blob_there in Hwhole by (rewrite length_drop; lia).
    rewrite drop_drop in Hwhole.
    destruct Hwhole as (recs & Hrecs & Hrecs_len); [rewrite length_drop; lia|].
    exists (b0 :: b1 :: lang
              :: take (Z.to_nat (byte_val lang) + Z.to_nat (tr - 3 - byte_val lang)) bytes
                 ++ recs). split.
    + cbn [app]. rewrite <- app_assoc, <- Hrecs. now rewrite take_drop.
    + cbn [length]. rewrite length_app, length_take. lia.
Qed.

Lemma strings_layout_bytes count total stored bytes rest :
  strings_layout count total stored bytes rest →
  0 ≤ total ∧ 0 ≤ stored ≤ total
  ∧ (total ≤ Z.of_nat (length bytes) →
     ∃ records, bytes = records ++ rest ∧ Z.of_nat (length records) = total).
Proof.
  induction 1 as [rest|b0 b1 il bytes bytes' rest count total stored_tr stored sl Hlt Htr Hlay
                       (Htot & Hst & Hwhole)].
  - split_and!; [done..|]. intros _. now exists [].
  - pose proof (byte_val_range il). subst sl.
    set (sl := Z.lor (byte_val b0) (Z.shiftl (byte_val b1) 8)) in *.
    apply translations_layout_bytes in Htr as (Htr0 & Htr_st & Htr_whole).
    split_and!; [lia | lia | lia |].
    cbn [length]. intros Hlen.
    rewrite (after_blob_there (byte_val il)) in Htr_whole by lia.
    destruct Htr_whole as (trs & Htrs & Htrs_len); [rewrite length_drop; lia|].
    assert (length bytes = (Z.to_nat (byte_val il) + (length trs + length bytes'))%nat) as Hb.
    { rewrite <- (take_drop (Z.to_nat (byte_val il)) bytes) at 1.
      rewrite Htrs, !length_app, length_take. lia. }
    destruct Hwhole as (recs & Hrecs & Hrecs_len); [lia|].
    exists (b0 :: b1 :: il :: take (Z.to_nat (byte_val il)) bytes ++ trs ++ recs). split.
    + cbn [app]. rewrite <- !app_assoc, <- Hrecs, <- Htrs. now rewrite take_drop.
    + cbn [length]. rewrite !length_app, length_take. lia.
Qed.

(** The bytes have one layout. *)
Lemma translations_layout_unique total stored1 bytes rest1 :
  translations_layout total stored1 bytes rest1 →
  ∀ stored2 rest2, translations_layout total stored2 bytes rest2 →
    rest1 = rest2 ∧ (total ≤ Z.of_nat (length bytes) → stored1 = stored2).
Proof.
  induction 1 as [rest|b0 b1 lang bytes rest total stored known tr nl Hlt Hknown Hlay IH];
    intros stored2 rest2 H2.
  - inversion H2 as [|b0' b1' lang' bytes' rest' total' stored' known' tr' nl' Hlt' Hknown'
                      Hlay']; [done|].
    apply translations_layout_bytes in Hlay' as [Hpos _].
    pose proof (byte_val_range lang'). subst tr'. lia.
  - pose proof (translations_layout_bytes _ _ _ _ Hlay) as (Hpos & _ & _).
    pose proof (byte_val_range lang).
    inversion H2 as [|b0' b1' lang' bytes' rest' total' stored' known' tr' nl' Hlt' Hknown'
                      Hlay']; [subst tr; lia|].
    subst. subst tr' nl'. fold tr nl in Hlay', Hknown'.
    replace total' with total in * by (subst tr; lia).
    destruct (IH _ _ Hlay') as [-> Hstored]. split; [done|].
    cbn [length]. intros Hlen.
    assert (known = known') as <-.
    { rewrite Hknown, Hknown'; [done | subst tr nl; lia..]. }
    f_equal. apply Hstored.
    unfold nl, tr in *. rewrite (after_blob_there (byte_val lang)) by lia.
    rewrite after_blob_there by (rewrite length_drop; lia).
    rewrite !length_drop. lia.
Qed.

Lemma strings_layout_unique count1 total stored1 bytes rest1 :
  strings_layout count1 total stored1 bytes rest1 →
  ∀ count2 stored2 rest2, strings_layout count2 total stored2 bytes rest2 →
    count1 = count2 ∧ rest1 = rest2 ∧ (total ≤ Z.of_nat (length bytes) → stored1 = stored2).
Proof.
  induction 1 as [rest|b0 b1 il bytes bytes' rest count total stored_tr stored sl Hlt Htr Hlay
                       IH];
    intros count2 stored2 rest2 H2.
  - inversion H2 as [|b0' b1' il' bytes2 bytes2' rest' count' total' stored_tr' stored' sl' Hlt'
                      Htr' Hlay']; [done|].
    apply strings_layout_bytes in Hlay' as [Hpos _].
    pose proof (byte_val_range il'). subst sl'. lia.
  - pose proof (strings_layout_bytes _ _ _ _ _ Hlay) as (Hpos & _ & _).
    pose proof (byte_val_range il).
    inversion H2 as [|b0' b1' il' bytes2 bytes2' rest' count' total' stored_tr' stored' sl' Hlt'
                      Htr' Hlay']; [subst sl; lia|].
    subst. subst sl'. fold sl in Htr', Hlay'.
    replace total' with total in * by (subst sl; lia).
    destruct (translations_layout_unique _ _ _ _ Htr _ _ Htr') as [<- Hstored_tr].
    destruct (IH _ _ _ Hlay') as (-> & -> & Hstored). split_and!; [done | done |].
    cbn [length]. intros Hlen.
    pose proof (translations_layout_bytes _ _ _ _ Htr) as (_ & _ & Hwhole).
    unfold sl in *. rewrite (after_blob_there (byte_val il)) in Hwhole, Hstored_tr by lia.
    rewrite length_drop in Hwhole, Hstored_tr.
    destruct Hwhole as (trs & Htrs & Htrs_len); [lia|].
    assert (length bytes = (Z.to_nat (byte_val il) + (length trs + length bytes'))%nat) as Hb.
    { rewrite <- (take_drop (Z.to_nat (byte_val il)) bytes) at 1.
      rewrite Htrs, !length_app, length_take. lia. }
    rewrite Hstored_tr, Hstored by lia. done.
Qed.
End TextLayoutFacts.

(** C2. When [TextData::Load] succeeds, the payload of the block is a sequence
    of string records whose declared lengths add up to the declared size of
    the block exactly, and in each record the declared lengths of the language
    sub-records add up to the declared length of the record less its header
    and name exactly ([strings_layout]); the records are as many as the strings
    of the loaded object, and the reader is where the layout ends.  There is
    no other way to take the bytes as records that add up to the size.  A
    block that the file holds whole has been consumed exactly: the reader has
    passed the declared size.  So a block whose lengths do not add up (one
    length off by one) is not loaded. *)
Theorem TextData_Load_exact_accounting `{Headers} {W : Type} (s : LoadState W) td s' :
  0 ≤ rcd_size (rcd s) < 2 ^ 32 →
  TextData_Load s = (Ok td, s') →
  (∃ count stored,
     strings_layout count (rcd_size (rcd s)) stored (remaining (rcd s)) (remaining (rcd s'))
     ∧ string_count td = Z.of_nat count)
  ∧ (∀ count stored rest,
       strings_layout count (rcd_size (rcd s)) stored (remaining (rcd s)) rest →
       string_count td = Z.of_nat count ∧ rest = remaining (rcd s'))
  ∧ (rcd_size (rcd s) ≤ Z.of_nat (length (remaining (rcd s))) →
     ∃ payload,
       remaining (rcd s) = payload ++ remaining (rcd s')
       ∧ Z.of_nat (length payload) = rcd_size (rcd s)).
Proof.
  intros Hsize Hok.
  pose proof (wp_TextData_Load True s (or_introl I) Hsize) as Hwp.
  apply (wp_Ok _ _ _ _ _ _ Hwp) in Hok as (count & stored & Hcount & _ & _ & _ & _ & Hlay).
  split_and!.
  - now exists count, stored.
  - intros count' stored' rest Hlay'.
    destruct (strings_layout_unique _ _ _ _ _ Hlay' _ _ _ Hlay) as (-> & -> & _). done.
  - intros Hwhole.
    destruct (strings_layout_bytes _ _ _ _ _ Hlay) as (_ & _ & Hbytes). now apply Hbytes.
Qed.

Lemma TextData_Load_exact_accounting_witness :
  let s := mkState (reader_at_payload "TEXT" 2 example_text_payload) tt in
  let short := mkState (reader_at_payload "TEXT" 2 example_text_payload_short) tt in
  (∃ count stored, @strings_layout example_headers count 23 stored example_text_payload [])
  ∧ (@TextData_Load example_headers unit short).1 = Fail.
Proof.
  intros s short. split; [|vm_compute; reflexivity].
  assert (∃ td s', @TextData_Load example_headers unit s = (Ok td, s')
                   ∧ remaining (rcd s') = []) as (td & s' & E & Hrest)
    by (vm_compute; eauto).
  destruct (@TextData_Load_exact_accounting example_headers unit s td s')
    as [(count & stored & Hlay & _) _].
  - vm_compute. split; [discriminate | reflexivity].
  - exact E.
  - exists count, stored. rewrite Hrest in Hlay. exact Hlay.
Defined.

(** A TEXT block that the file ends in.  The text of its last translation is
    not in the file; [ReadUtf8Text] goes over what the language buffer holds,
    which is the name of the language, and the block loads though the file
    has 14 of its 17 bytes. *)
Lemma cut_TEXT_block_loads :
  let s := mkState (mkReader example_text_payload_cut 0 "TEXT" 2 17) tt in
  length example_text_payload_cut = 14%nat
  ∧ ∃ td s', @TextData_Load example_headers unit s = (Ok td, s')
             ∧ string_count td = 1 ∧ remaining (rcd s') = [].
Proof. intros s. split; [reflexivity|]. vm_compute. eexists _, _. split_and!; reflexivity. Qed.



(** ** C9, C4 and C8: the sprite-set handlers *)

Section HandlerRules.
Context {W : Type} (F : Prop).
Implicit Types s : LoadState W.

Lemma wp_modify_world (f : W → W) s (Q : unit → LoadState W → Prop) :
  Q tt (mkState (rcd s) (f (world s))) → wp F (modify_world f) s Q.
Proof. done. Qed.

Lemma wp_post_const {A} (m : M W A) s (P : Prop) :
  P → wp F m s (λ _ _, True) → wp F m s (λ _ _, P).
Proof. intros HP Hm. eapply wp_conseq; [exact Hm | done]. Qed.

Lemma wp_bind_true {A B} (m : M W A) (f : A → M W B) s :
  wp F m s (λ _ _, True) → (∀ a s1, wp F (f a) s1 (λ _ _, True)) →
  wp F (m ≫= f) s (λ _ _, True).
Proof. intros Hm Hf. apply wp_bind. eapply wp_conseq; [exact Hm|]. intros a s1 _. apply Hf. Qed.

Lemma wp_for_each first count (body : nat → M W unit) (I : nat → LoadState W → Prop) :
  ∀ s, I first s →
  (∀ i s1, (first ≤ i < first + count)%nat → I i s1 →
           wp F (body i) s1 (λ _ s2, I (S i) s2)) →
  wp F (for_each first count body) s (λ _ s', I (first + count)%nat s').
Proof.
  revert first. induction count as [|count IH]; intros first s Hfirst Hbody.
  - simpl. apply wp_ret. now rewrite Nat.add_0_r.
  - simpl. apply wp_bind. eapply wp_conseq; [apply (Hbody first); [lia | done]|].
    intros u s1 H1. simpl. replace (first + S count)%nat with (S first + count)%nat by lia.
    apply IH; [done|]. intros i s2 Hi. apply Hbody. lia.
Qed.

Lemma wp_for_each_true first count (body : nat → M W unit) s :
  (∀ i s1, wp F (body i) s1 (λ _ _, True)) →
  wp F (for_each first count body) s (λ _ _, True).
Proof.
  intros Hbody. eapply wp_conseq.
  - apply (wp_for_each first count body (λ _ _, True)); [done|]. intros i s1 _ _. apply Hbody.
  - done.
Qed.

Lemma wp_GetUInt8_true s : wp F GetUInt8 s (λ _ _, True).
Proof. now apply wp_GetUInt8. Qed.

Lemma wp_GetUInt16_true s : wp F GetUInt16 s (λ _ _, True).
Proof. now apply wp_GetUInt16. Qed.

Lemma wp_GetUInt32_true s : wp F GetUInt32 s (λ _ _, True).
Proof.
  unfold GetUInt32. apply wp_bind_true; [apply wp_GetUInt16_true|]. intros lo s1.
  apply wp_bind_true; [apply wp_GetUInt16_true|]. intros hi s2. now apply wp_ret.
Qed.

Lemma wp_LoadSpriteFromFile_true {ImageData} (sprites : gmap Z ImageData) s :
  wp F (LoadSpriteFromFile sprites) s (λ _ _, True).
Proof.
  unfold LoadSpriteFromFile. apply wp_bind_true; [apply wp_GetUInt32_true|].
  intros val s1. case_decide; [now apply wp_ret|].
  destruct (sprites !! val); [now apply wp_ret | apply wp_return_false].
Qed.

Lemma wp_load_sprite_to_true {ImageData} (sprites : gmap Z ImageData)
    (put : option ImageData → W → W) s :
  wp F (load_sprite_to sprites put) s (λ _ _, True).
Proof.
  unfold load_sprite_to. apply wp_bind_true; [apply wp_LoadSpriteFromFile_true|].
  intros spr s1. now apply wp_modify_world.
Qed.

(** Reading at an offset of the bytes [l] that were left at the start. *)
Lemma wp_GetUInt8_at (l : list byte) off s (Q : Z → LoadState W → Prop) :
  remaining (rcd s) = drop off l →
  (∀ v s', peek8 l off = Some v → remaining (rcd s') = drop (off + 1) l →
           world s' = world s → 0 ≤ v < 256 → Q v s') →
  wp F GetUInt8 s Q.
Proof.
  intros Hrem HQ. apply wp_GetUInt8. intros b rest s' E R Hw.
  rewrite Hrem in E. apply HQ; [| |done|apply byte_val_range].
  - unfold peek8. rewrite <- (Nat.add_0_r off), <- lookup_drop, E. done.
  - rewrite R. rewrite <- drop_drop, E. done.
Qed.

Lemma wp_GetUInt16_at (l : list byte) off s (Q : Z → LoadState W → Prop) :
  remaining (rcd s) = drop off l →
  (∀ v s', peek16 l off = Some v → remaining (rcd s') = drop (off + 2) l →
           world s' = world s → 0 ≤ v < 65536 → Q v s') →
  wp F GetUInt16 s Q.
Proof.
  intros Hrem HQ. apply wp_GetUInt16. intros b0 b1 rest s' E R Hw.
  rewrite Hrem in E. apply HQ; [| |done|apply u16_range].
  - unfold peek16. now rewrite E.
  - rewrite R. rewrite <- drop_drop, E. done.
Qed.

Lemma wp_GetInt16_at (l : list byte) off s (Q : Z → LoadState W → Prop) :
  remaining (rcd s) = drop off l →
  (∀ v s', peek16s l off = Some v → remaining (rcd s') = drop (off + 2) l →
           world s' = world s → Q v s') →
  wp F GetInt16 s Q.
Proof.
  intros Hrem HQ. unfold GetInt16. apply wp_bind, (wp_GetUInt16_at l off); [done|].
  intros v s' Hv R Hw _. apply wp_ret. apply HQ; [|done..].
  unfold peek16s. now rewrite Hv.
Qed.
End HandlerRules.

(** Goals [wp F m s (λ _ _, True)]: [m] is built from the primitives. *)
Ltac wp_true :=
  repeat first
    [ apply wp_return_false
    | apply wp_load_sprite_to_true
    | apply wp_LoadSpriteFromFile_true
    | apply wp_GetUInt32_true
    | apply wp_GetUInt16_true
    | apply wp_GetUInt8_true
    | apply wp_modify_world; exact I
    | apply wp_ret; exact I
    | apply wp_for_each_true; intros
    | apply wp_bind_true; [|intros]
    | case_decide ].

Section SpriteSetFacts.
Context `{Headers} {ImageData : Type}.
Implicit Types s : LoadState (@SpriteStorage ImageData).
Implicit Types sprites : gmap Z ImageData.

Lemma GetSpriteStore_None width : GetSpriteStore width = None ↔ width ≠ 64.
Proof. unfold GetSpriteStore. case_decide; split; intros; done. Qed.

Lemma sprite_store_width width (P : Prop) :
  ¬ (GetSpriteStore width = None ∨ P) → width = 64.
Proof.
  intros Hn. destruct (decide (width = 64)) as [|Hw]; [done|].
  exfalso. apply Hn. left. now apply GetSpriteStore_None.
Qed.

Lemma sprite_store_width' width : GetSpriteStore width ≠ None → width = 64.
Proof.
  intros Hn. destruct (decide (width = 64)) as [|Hw]; [done|].
  exfalso. apply Hn. now apply GetSpriteStore_None.
Qed.

(** Each handler succeeds only with the width 64 at its place in the block. *)
Lemma wp_LoadSURF_width sprites s :
  wp False (LoadSURF sprites) s (λ _ _, peek16 (remaining (rcd s)) 2 = Some 64).
Proof.
  unfold LoadSURF. apply wp_bind, wp_get_reader. case_decide; [apply wp_return_false|].
  apply wp_bind, (wp_GetUInt16_at _ (remaining (rcd s)) 0%nat); [done|]. intros gt s1 _ R1 _ _.
  cbv zeta. match goal with |- context [decide (?t = GTP_INVALID)] => generalize t end.
  intros type. case_decide; [apply wp_return_false|].
  apply wp_bind, (wp_GetUInt16_at _ (remaining (rcd s)) 2%nat); [done|].
  intros width s2 Hw R2 _ _.
  apply wp_bind. eapply wp_conseq; [apply wp_GetUInt16_true|]. intros _ s3 _.
  case_decide as Hss; [apply wp_return_false|].
  apply sprite_store_width in Hss as ->. apply wp_post_const; [done|]. wp_true.
Qed.

Lemma wp_LoadTSEL_width sprites s :
  wp False (LoadTSEL sprites) s (λ _ _, peek16 (remaining (rcd s)) 0 = Some 64).
Proof.
  unfold LoadTSEL. apply wp_bind, wp_get_reader. case_decide; [apply wp_return_false|].
  apply wp_bind, (wp_GetUInt16_at _ (remaining (rcd s)) 0%nat); [done|].
  intros width s1 Hw R1 _ _.
  apply wp_bind. eapply wp_conseq; [apply wp_GetUInt16_true|]. intros _ s2 _.
  cbv zeta. case_decide as Hss; [apply wp_return_false|].
  apply sprite_store_width' in Hss as ->. apply wp_post_const; [done|]. wp_true.
Qed.

Lemma wp_LoadPATH_width sprites s :
  wp False (LoadPATH sprites) s (λ _ _, peek16 (remaining (rcd s)) 2 = Some 64).
Proof.
  unfold LoadPATH. apply wp_bind, wp_get_reader. case_decide; [apply wp_return_false|].
  apply wp_bind, (wp_GetUInt16_at _ (remaining (rcd s)) 0%nat); [done|].
  intros type s1 _ R1 _ _.
  destruct (path_type_of_code _) as [pt|]; [|apply wp_return_false].
  apply wp_bind, (wp_GetUInt16_at _ (remaining (rcd s)) 2%nat); [done|].
  intros width s2 Hw R2 _ _.
  apply wp_bind. eapply wp_conseq; [apply wp_GetUInt16_true|]. intros _ s3 _.
  cbv zeta. case_decide as Hss; [apply wp_return_false|].
  apply sprite_store_width' in Hss as ->. apply wp_post_const; [done|]. wp_true.
Qed.

Lemma wp_LoadPDEC_width sprites s :
  wp False (LoadPDEC sprites) s (λ _ _, peek16 (remaining (rcd s)) 0 = Some 64).
Proof.
  unfold LoadPDEC. apply wp_bind, wp_get_reader. case_decide; [apply wp_return_false|].
  apply wp_bind, (wp_GetUInt16_at _ (remaining (rcd s)) 0%nat); [done|].
  intros width s1 Hw R1 _ _.
  cbv zeta. case_decide as Hss; [apply wp_return_false|].
  apply sprite_store_width' in Hss as ->. apply wp_post_const; [done|]. wp_true.
Qed.

Lemma wp_LoadTCOR_width sprites s :
  wp False (LoadTCOR sprites) s (λ _ _, peek16 (remaining (rcd s)) 0 = Some 64).
Proof.
  unfold LoadTCOR. apply wp_bind, wp_get_reader. case_decide; [apply wp_return_false|].
  apply wp_bind, (wp_GetUInt16_at _ (remaining (rcd s)) 0%nat); [done|].
  intros width s1 Hw R1 _ _.
  apply wp_bind. eapply wp_conseq; [apply wp_GetUInt16_true|]. intros _ s2 _.
  cbv zeta. case_decide as Hss; [apply wp_return_false|].
  apply sprite_store_width' in Hss as ->. apply wp_post_const; [done|]. wp_true.
Qed.

Lemma wp_LoadFUND_width sprites s :
  wp False (LoadFUND sprites) s (λ _ _, peek16 (remaining (rcd s)) 2 = Some 64).
Proof.
  unfold LoadFUND. apply wp_bind, wp_get_reader. case_decide; [apply wp_return_false|].
  apply wp_bind, (wp_GetUInt16_at _ (remaining (rcd s)) 0%nat); [done|]. intros tp s1 _ R1 _ _.
  cbv zeta. match goal with |- context [decide (?t = FDT_INVALID)] => generalize t end.
  intros type. case_decide; [apply wp_return_false|].
  apply wp_bind, (wp_GetUInt16_at _ (remaining (rcd s)) 2%nat); [done|].
  intros width s2 Hw R2 _ _.
  apply wp_bind. eapply wp_conseq; [apply wp_GetUInt16_true|]. intros _ s3 _.
  case_decide as Hss; [apply wp_return_false|].
  apply sprite_store_width in Hss as ->. apply wp_post_const; [done|]. wp_true.
Qed.

Lemma wp_LoadPLAT_width sprites s :
  wp False (LoadPLAT sprites) s (λ _ _, peek16 (remaining (rcd s)) 0 = Some 64).
Proof.
  unfold LoadPLAT. apply wp_bind, wp_get_reader. case_decide; [apply wp_return_false|].
  apply wp_bind, (wp_GetUInt16_at _ (remaining (rcd s)) 0%nat); [done|].
  intros width s1 Hw R1 _ _.
  apply wp_bind. eapply wp_conseq; [apply wp_GetUInt16_true|]. intros _ s2 _.
  apply wp_bind. eapply wp_conseq; [apply wp_GetUInt16_true|]. intros type s3 _.
  case_decide; [apply wp_return_false|].
  cbv zeta. case_decide as Hss; [apply wp_return_false|].
  apply sprite_store_width' in Hss as ->. apply wp_post_const; [done|]. wp_true.
Qed.

Lemma wp_LoadSUPP_width sprites s :
  wp False (LoadSUPP sprites) s (λ _ _, peek16 (remaining (rcd s)) 2 = Some 64).
Proof.
  unfold LoadSUPP. apply wp_bind, wp_get_reader. case_decide; [apply wp_return_false|].
  apply wp_bind, (wp_GetUInt16_at _ (remaining (rcd s)) 0%nat); [done|].
  intros type s1 _ R1 _ _.
  case_decide; [apply wp_return_false|].
  apply wp_bind, (wp_GetUInt16_at _ (remaining (rcd s)) 2%nat); [done|].
  intros width s2 Hw R2 _ _.
  apply wp_bind. eapply wp_conseq; [apply wp_GetUInt16_true|]. intros _ s3 _.
  cbv zeta. case_decide as Hss; [apply wp_return_false|].
  apply sprite_store_width' in Hss as ->. apply wp_post_const; [done|]. wp_true.
Qed.

Lemma wp_LoadBDIR_width sprites s :
  wp False (LoadBDIR sprites) s (λ _ _, peek16 (remaining (rcd s)) 0 = Some 64).
Proof.
  unfold LoadBDIR. apply wp_bind, wp_get_reader. case_decide; [apply wp_return_false|].
  apply wp_bind, (wp_GetUInt16_at _ (remaining (rcd s)) 0%nat); [done|].
  intros width s1 Hw R1 _ _.
  cbv zeta. case_decide as Hss; [apply wp_return_false|].
  apply sprite_store_width' in Hss as ->. apply wp_post_const; [done|]. wp_true.
Qed.

(** A handler for which [wp False] gives the width 64 fails on another
    width. *)
Lemma fails_on_other_width {A W'} (m : M W' A) (s : LoadState W') l off width :
  wp False m s (λ _ _, peek16 l off = Some 64) →
  peek16 l off = Some width → width ≠ 64 → (m s).1 = Fail.
Proof.
  unfold wp. destruct (m s) as [[a| |] s1]; simpl; [|done..].
  intros E1 E2 Hw. congruence.
Qed.

(** C9. The sprite storage exists for the tile width 64 only
    ([GetSpriteStore]); each of the handlers SURF, TSEL, PATH, PDEC, TCOR, FUND,
    PLAT, SUPP and BDIR fails when the tile width declared in its block (at
    offset 0 or 2 of the payload) is another one. *)
Theorem sprite_sets_need_width_64 sprites s width :
  width ≠ 64 →
  GetSpriteStore width = None
  ∧ (peek16 (remaining (rcd s)) 2 = Some width → (LoadSURF sprites s).1 = Fail)
  ∧ (peek16 (remaining (rcd s)) 0 = Some width → (LoadTSEL sprites s).1 = Fail)
  ∧ (peek16 (remaining (rcd s)) 2 = Some width → (LoadPATH sprites s).1 = Fail)
  ∧ (peek16 (remaining (rcd s)) 0 = Some width → (LoadPDEC sprites s).1 = Fail)
  ∧ (peek16 (remaining (rcd s)) 0 = Some width → (LoadTCOR sprites s).1 = Fail)
  ∧ (peek16 (remaining (rcd s)) 2 = Some width → (LoadFUND sprites s).1 = Fail)
  ∧ (peek16 (remaining (rcd s)) 0 = Some width → (LoadPLAT sprites s).1 = Fail)
  ∧ (peek16 (remaining (rcd s)) 2 = Some width → (LoadSUPP sprites s).1 = Fail)
  ∧ (peek16 (remaining (rcd s)) 0 = Some width → (LoadBDIR sprites s).1 = Fail).
Proof.
  intros Hw. split; [now apply GetSpriteStore_None|].
  split_and!; intros Hp.
  - exact (fails_on_other_width _ _ _ _ _ (wp_LoadSURF_width sprites s) Hp Hw).
  - exact (fails_on_other_width _ _ _ _ _ (wp_LoadTSEL_width sprites s) Hp Hw).
  - exact (fails_on_other_width _ _ _ _ _ (wp_LoadPATH_width sprites s) Hp Hw).
  - exact (fails_on_other_width _ _ _ _ _ (wp_LoadPDEC_width sprites s) Hp Hw).
  - exact (fails_on_other_width _ _ _ _ _ (wp_LoadTCOR_width sprites s) Hp Hw).
  - exact (fails_on_other_width _ _ _ _ _ (wp_LoadFUND_width sprites s) Hp Hw).
  - exact (fails_on_other_width _ _ _ _ _ (wp_LoadPLAT_width sprites s) Hp Hw).
  - exact (fails_on_other_width _ _ _ _ _ (wp_LoadSUPP_width sprites s) Hp Hw).
  - exact (fails_on_other_width _ _ _ _ _ (wp_LoadBDIR_width sprites s) Hp Hw).
Qed.

(** What [LoadSURF] requires of its block. *)
Lemma wp_LoadSURF_ground_type sprites s :
  wp False (LoadSURF sprites) s (λ _ _,
    rcd_version (rcd s) = 6
    ∧ rcd_size (rcd s) = 2 + 2 + 2 + 4 * Z.of_nat NUM_SLOPE_SPRITES
    ∧ ∃ gt, peek16 (remaining (rcd s)) 0 = Some gt
            ∧ In gt [16; 17; 18; 19; 20; 32; 48; 49]).
Proof.
  unfold LoadSURF. apply wp_bind, wp_get_reader. case_decide as Hhdr; [apply wp_return_false|].
  apply wp_bind, (wp_GetUInt16_at _ (remaining (rcd s)) 0%nat); [done|]. intros gt s1 Hgt R1 _ _.
  cbv zeta.
  match goal with |- context [decide (?t = GTP_INVALID)] => set (type := t) end.
  assert (In gt [16; 17; 18; 19; 20; 32; 48; 49] ∨ type = GTP_INVALID) as Htype.
  { subst type. simpl. repeat case_decide; auto 10. }
  clearbody type.
  case_decide as Hinv; [apply wp_return_false|].
  destruct Htype as [Hin|]; [|done].
  apply wp_post_const; [|wp_true].
  split_and!; [| |now exists gt].
  - destruct (decide (rcd_version (rcd s) = 6)); [done|]. exfalso. apply Hhdr. now left.
  - destruct (decide (rcd_size (rcd s) = 2 + 2 + 2 + 4 * Z.of_nat NUM_SLOPE_SPRITES));
      [done|]. exfalso. apply Hhdr. now right.
Qed.

Lemma path_type_of_code_Some code pt :
  path_type_of_code code = Some pt ↔
    (code = 4 ∧ pt = PAT_WOOD) ∨ (code = 8 ∧ pt = PAT_TILED)
    ∨ (code = 12 ∧ pt = PAT_ASPHALT) ∨ (code = 16 ∧ pt = PAT_CONCRETE).
Proof.
  split.
  - unfold path_type_of_code.
    destruct code as [|p|p]; try discriminate.
    repeat (destruct p as [p|p|]; try discriminate); intros [= <-]; auto 10.
  - intros [[-> ->]|[[-> ->]|[[-> ->]|[-> ->]]]]; reflexivity.
Qed.

(** What [LoadPATH] requires of its block, and the status it sets. *)
Lemma wp_LoadPATH_status sprites s :
  wp False (LoadPATH sprites) s (λ _ s',
    rcd_version (rcd s) = 3
    ∧ rcd_size (rcd s) = 2 + 2 + 2 + 4 * Z.of_nat PATH_COUNT
    ∧ ∃ type pt path,
        peek16 (remaining (rcd s)) 0 = Some type
        ∧ path_type_of_code (Z.land type 0x7FFF) = Some pt
        ∧ path_sprites (world s') !! pt = Some path
        ∧ path_status path = if decide (Z.land type 0x8000 ≠ 0)
                             then PAS_QUEUE_PATH else PAS_NORMAL_PATH).
Proof.
  unfold LoadPATH. apply wp_bind, wp_get_reader. case_decide as Hhdr; [apply wp_return_false|].
  apply wp_bind, (wp_GetUInt16_at _ (remaining (rcd s)) 0%nat); [done|].
  intros type s1 Htype R1 _ _.
  destruct (path_type_of_code _) as [pt|] eqn:Hpt; [|apply wp_return_false].
  apply wp_bind. eapply wp_conseq; [apply wp_GetUInt16_true|]. intros width s2 _.
  apply wp_bind. eapply wp_conseq; [apply wp_GetUInt16_true|]. intros _ s3 _.
  cbv zeta. case_decide as Hss; [apply wp_return_false|].
  apply wp_bind. eapply wp_conseq; [wp_true|]. intros _ s4 _.
  apply wp_modify_world. cbn [world].
  split_and!.
  - destruct (decide (rcd_version (rcd s) = 3)); [done|]. exfalso. apply Hhdr. now left.
  - destruct (decide (rcd_size (rcd s) = 2 + 2 + 2 + 4 * Z.of_nat PATH_COUNT));
      [done|]. exfalso. apply Hhdr. now right.
  - eexists type, pt, _. split_and!; [done | done | |].
    + unfold set_path_sprites, at_key. cbn [path_sprites]. apply lookup_insert_eq.
    + reflexivity.
Qed.

(** C8. When [LoadPATH] succeeds, the version of the block is 3, its size is
    the exact size, the low 15 bits of its type code are 4, 8, 12 or 16, for
    the path types wood, tiled, asphalt and concrete; and the path of that
    type in the storage has then the status of a queue path when bit 0x8000 of
    the type code is set, and of a normal path when it is not. *)
Theorem LoadPATH_type_and_status sprites s u s' :
  LoadPATH sprites s = (Ok u, s') →
  rcd_version (rcd s) = 3
  ∧ rcd_size (rcd s) = 2 + 2 + 2 + 4 * Z.of_nat PATH_COUNT
  ∧ ∃ type pt path,
      peek16 (remaining (rcd s)) 0 = Some type
      ∧ ((Z.land type 0x7FFF = 4 ∧ pt = PAT_WOOD)
         ∨ (Z.land type 0x7FFF = 8 ∧ pt = PAT_TILED)
         ∨ (Z.land type 0x7FFF = 12 ∧ pt = PAT_ASPHALT)
         ∨ (Z.land type 0x7FFF = 16 ∧ pt = PAT_CONCRETE))
      ∧ path_sprites (world s') !! pt = Some path
      ∧ (Z.land type 0x8000 ≠ 0 → path_status path = PAS_QUEUE_PATH)
      ∧ (Z.land type 0x8000 = 0 → path_status path = PAS_NORMAL_PATH).
Proof.
  intros Hok.
  apply (wp_Ok _ _ _ _ _ _ (wp_LoadPATH_status sprites s)) in Hok
    as (Hver & Hsize & type & pt & path & Htype & Hpt & Hpath & Hstatus).
  split_and!; [done | done |]. exists type, pt, path.
  split_and!; [done | now apply path_type_of_code_Some | done | |].
  - intros Hbit. now rewrite decide_True in Hstatus.
  - intros Hbit. rewrite decide_False in Hstatus; [done|]. intros Hn. now apply Hn.
Qed.
End SpriteSetFacts.

(** ** C10: animations *)

Section AnimationFacts.
Context `{Headers}.
Implicit Types s : LoadState Animation.

Lemma DecodePersonType_valid pt :
  DecodePersonType pt ≠ PERSON_INVALID → In pt [0; 8; 16; 17; 18; 19; 20].
Proof.
  unfold DecodePersonType. intros Hpt. simpl.
  destruct pt as [|p|p]; [auto | | done].
  repeat (destruct p as [p|p|]; try done); auto 10.
Qed.

Lemma set_frame_length i f (a : Animation) :
  length (anim_frames (set_frame i f a)) = length (anim_frames a).
Proof.
  unfold set_frame. cbn [anim_frames]. destruct (anim_frames a !! i); [|done].
  apply length_insert.
Qed.

Lemma set_frame_lookup i f (a : Animation) fr :
  anim_frames a !! i = Some fr → anim_frames (set_frame i f a) !! i = Some (f fr).
Proof.
  intros E. unfold set_frame. cbn [anim_frames]. rewrite E.
  apply list_lookup_insert_eq. now apply lookup_lt_Some in E.
Qed.

Lemma set_frame_lookup_ne i j f (a : Animation) :
  i ≠ j → anim_frames (set_frame i f a) !! j = anim_frames a !! j.
Proof.
  intros Hij. unfold set_frame. cbn [anim_frames]. destruct (anim_frames a !! i); [|done].
  now apply list_lookup_insert_ne.
Qed.

(** The loop over the frames. *)
Lemma wp_Animation_frames (l : list byte) (n : nat) s :
  remaining (rcd s) = drop 5 l →
  length (anim_frames (world s)) = n →
  wp False
    (for_each 0 n (λ i,
       duration' ← GetUInt16;
       _ ← modify_world (set_frame i (λ fr, mkAnimationFrame duration' (dx fr) (dy fr)));
       if decide (duration' = 0 ∨ duration' >= 5000) then return_false else
       dx' ← GetInt16;
       _ ← modify_world (set_frame i (λ fr, mkAnimationFrame (duration fr) dx' (dy fr)));
       if decide (dx' < -100 ∨ dx' > 100) then return_false else
       dy' ← GetInt16;
       _ ← modify_world (set_frame i (λ fr, mkAnimationFrame (duration fr) (dx fr) dy'));
       if decide (dy' < -100 ∨ dy' > 100) then return_false else
       mret tt)) s
    (λ _ s', length (anim_frames (world s')) = n
       ∧ ∀ i, (i < n)%nat →
           ∃ fr, frame_at l i = Some fr ∧ frame_in_limits fr
                 ∧ anim_frames (world s') !! i = Some fr).
Proof.
  intros Hrem Hlen.
  eapply wp_conseq.
  - apply (wp_for_each False 0 n _
      (λ i st, remaining (rcd st) = drop (5 + 6 * i) l
               ∧ length (anim_frames (world st)) = n
               ∧ ∀ j, (j < i)%nat →
                   ∃ fr, frame_at l j = Some fr ∧ frame_in_limits fr
                         ∧ anim_frames (world st) !! j = Some fr)).
    + cbv beta. split_and!; [now rewrite Nat.mul_0_r, Nat.add_0_r | done |].
      intros j Hj. exfalso. lia.
    + intros i s1 Hi (R1 & L1 & Hdone).
      destruct (lookup_lt_is_Some_2 (anim_frames (world s1)) i ltac:(lia)) as [fr0 Efr0].
      apply wp_bind, (wp_GetUInt16_at _ l (5 + 6 * i)); [done|].
      intros d s2 Hd R2 W2 Hd_range.
      apply wp_bind, wp_modify_world. case_decide as Hdur; [apply wp_return_false|].
      apply wp_bind, (wp_GetInt16_at _ l (5 + 6 * i + 2)); [done|].
      intros x s3 Hx R3 W3.
      apply wp_bind, wp_modify_world. case_decide as Hdx; [apply wp_return_false|].
      apply wp_bind, (wp_GetInt16_at _ l (5 + 6 * i + 2 + 2)); [done|].
      intros y s4 Hy R4 W4.
      apply wp_bind, wp_modify_world. case_decide as Hdy; [apply wp_return_false|].
      apply wp_ret. cbn [rcd world] in *. rewrite W4, W3, W2.
      split_and!.
      * rewrite R4. f_equal. lia.
      * now rewrite !set_frame_length.
      * intros j Hj. destruct (decide (j = i)) as [->|Hne].
        -- exists (mkAnimationFrame d x y). split_and!.
           ++ unfold frame_at. rewrite Hd, Hx.
              replace (5 + 6 * i + 4)%nat with (5 + 6 * i + 2 + 2)%nat by lia.
              now rewrite Hy.
           ++ unfold frame_in_limits. cbn [duration dx dy]. lia.
           ++ erewrite set_frame_lookup; last first.
              { erewrite set_frame_lookup; last first.
                { erewrite set_frame_lookup; last first. { exact Efr0. }
                  reflexivity. }
                reflexivity. }
              reflexivity.
        -- destruct (Hdone j ltac:(lia)) as (fr & Hfr & Hlim & Hlook).
           exists fr. split_and!; [done | done |].
           rewrite !set_frame_lookup_ne by done. done.
  - intros u s' (_ & Hlen' & Hall). simpl in Hall. split; [exact Hlen' | exact Hall].
Qed.

Lemma wp_Animation_Load s :
  wp False Animation_Load s (λ _ s',
    rcd_version (rcd s) = 4
    ∧ anim_block_in_limits (rcd_size (rcd s)) (remaining (rcd s))
    ∧ ∀ i fr, anim_frames (world s') !! i = Some fr →
              frame_at (remaining (rcd s)) i = Some fr ∧ frame_in_limits fr).
Proof.
  unfold Animation_Load. apply wp_bind, wp_get_reader. cbv zeta.
  case_decide as Hhdr; [apply wp_return_false|].
  apply wp_bind, (wp_GetUInt8_at _ (remaining (rcd s)) 0%nat); [done|].
  intros pt s1 Hpt R1 W1 _.
  apply wp_bind, wp_modify_world. case_decide as Hperson; [apply wp_return_false|].
  apply wp_bind, (wp_GetUInt16_at _ (remaining (rcd s)) 1%nat); [done|].
  intros at_ s2 _ R2 W2 _. case_decide; [apply wp_return_false|].
  apply wp_bind, wp_modify_world.
  apply wp_bind, (wp_GetUInt16_at _ (remaining (rcd s)) 3%nat); [done|].
  intros frame_count s3 Hfc R3 W3 Hfc_range.
  apply wp_bind, wp_modify_world. case_decide as Hsize; [apply wp_return_false|].
  apply wp_bind, wp_modify_world. case_decide as Hzero; [apply wp_return_false|].
  eapply wp_conseq.
  - apply (wp_Animation_frames (remaining (rcd s)) (Z.to_nat frame_count)); [done|].
    cbn [world anim_frames]. apply length_replicate.
  - intros u s' [Hlen Hframes]. cbv beta in Hframes. split_and!.
    + destruct (decide (rcd_version (rcd s) = 4)); [done|]. exfalso. apply Hhdr. now left.
    + exists pt, frame_count. split_and!; [done | | done | lia | | ].
      * now apply DecodePersonType_valid.
      * lia.
      * intros i Hi. destruct (Hframes i Hi) as (fr & Hfr & Hlim & _). now exists fr.
    + intros i fr Hlook. pose proof (lookup_lt_Some _ _ _ Hlook) as Hi.
      rewrite Hlen in Hi. destruct (Hframes i Hi) as (fr' & Hfr' & Hlim & Hlook').
      assert (fr' = fr) as -> by congruence. done.
Qed.

(** C10. When [Animation::Load] succeeds, the version of the block is 4, its
    person type code is one of 0, 8, 16, 17, 18, 19 and 20, it has at least one
    frame, its size is that of its frames, and every frame has a duration
    above 0 and below 5000 and offsets from -100 to 100; the frames of the
    loaded animation are those frames.  A block that is not within these
    limits fails to load, in particular one with no frame. *)
Theorem Animation_Load_limits s :
  (∀ u s', Animation_Load s = (Ok u, s') →
     rcd_version (rcd s) = 4
     ∧ anim_block_in_limits (rcd_size (rcd s)) (remaining (rcd s))
     ∧ ∀ i fr, anim_frames (world s') !! i = Some fr →
               frame_at (remaining (rcd s)) i = Some fr ∧ frame_in_limits fr)
  ∧ (¬ anim_block_in_limits (rcd_size (rcd s)) (remaining (rcd s)) →
     (Animation_Load s).1 = Fail)
  ∧ (peek16 (remaining (rcd s)) 3 = Some 0 → (Animation_Load s).1 = Fail).
Proof.
  pose proof (wp_Animation_Load s) as Hwp.
  assert (¬ anim_block_in_limits (rcd_size (rcd s)) (remaining (rcd s)) →
          (Animation_Load s).1 = Fail) as Hfail.
  { intros Hn. unfold wp in Hwp. destruct (Animation_Load s) as [[u| |] s']; simpl.
    - exfalso. now apply Hn.
    - done.
    - done. }
  split_and!.
  - intros u s' Hok. exact (wp_Ok _ _ _ _ _ _ Hwp Hok).
  - exact Hfail.
  - intros Hzero. apply Hfail. intros (pt & fc & _ & _ & Hfc & Hpos & _).
    rewrite Hzero in Hfc. injection Hfc as <-. lia.
Qed.
End AnimationFacts.

(** ** C4, C6 and C5: the dispatcher *)

Section DispatcherFacts.
Context `{Headers} {ImageData TrackPiece Ext : Type}.
Variable LoadImage : RcdFileReader → option ImageData * nat.
Variable TrackPiece_Load : RcdFileReader → gmap Z ImageData → option TrackPiece * nat.
Variable external : string → RcdFileReader → gmap Z ImageData → gmap Z TextData →
                    gmap Z TrackPiece → Ext → bool * nat * Ext.
Implicit Types ls : @LoopState ImageData TrackPiece Ext.

Local Abbreviation Load_block' := (Load_block LoadImage TrackPiece_Load external).
Local Abbreviation Load_loop' := (Load_loop LoadImage TrackPiece_Load external).

Local Open Scope string_scope.

(** The branch of the dispatcher for a name. *)
Lemma Load_block_SURF filename blk_num ls :
  rcd_name (ls_rcd ls) = "SURF" →
  Load_block' filename blk_num ls
  = in_store (LoadSURF (ls_sprites ls)) "Surface block loading failed." ls.
Proof. intros E. unfold Load_block. rewrite E. reflexivity. Qed.

Lemma Load_block_unknown filename blk_num ls :
  rcd_name (ls_rcd ls) ∉ recognized_tags →
  Load_block' filename blk_num ls
  = skip_block "Error skipping unknown block."
      (with_stderr (ls_stderr ls ++ [(rcd_name (ls_rcd ls), rcd_version (ls_rcd ls))]) ls).
Proof.
  intros Hn. unfold recognized_tags in Hn. rewrite !not_elem_of_cons in Hn.
  destruct_and!. unfold Load_block.
  repeat (rewrite decide_False; [|try done; intros [?|?]; done]). reflexivity.
Qed.

Lemma skip_block_cases msg ls :
  ((Z.to_nat (rcd_size (ls_rcd ls)) ≤ length (remaining (ls_rcd ls)))%nat
   ∧ skip_block msg ls
     = Continue (with_rcd (mkReader (rcd_data (ls_rcd ls))
                                    (file_pos (ls_rcd ls) + Z.to_nat (rcd_size (ls_rcd ls)))
                                    (rcd_name (ls_rcd ls)) (rcd_version (ls_rcd ls))
                                    (rcd_size (ls_rcd ls))) ls))
  ∨ (¬ (Z.to_nat (rcd_size (ls_rcd ls)) ≤ length (remaining (ls_rcd ls)))%nat
     ∧ skip_block msg ls = Return (Some msg) ls).
Proof.
  unfold skip_block, SkipBytes. cbn [rcd world]. case_decide as Hlen.
  - left. split; [done|]. reflexivity.
  - right. split; [done|]. destruct ls. reflexivity.
Qed.

(** C4. When [LoadSURF] succeeds, the version of the block is 6, its size is
    the exact size, and its ground type code is one of 16, 17, 18, 19, 20, 32,
    48 and 49.  With another code (99, say) [LoadSURF] fails, and the load of
    the file ends there with the message of the SURF block. *)
Theorem LoadSURF_ground_types filename blk_num fuel ls
    (sprites : gmap Z ImageData) (s : LoadState (@SpriteStorage ImageData)) :
  (∀ u s', LoadSURF sprites s = (Ok u, s') →
     rcd_version (rcd s) = 6
     ∧ rcd_size (rcd s) = 2 + 2 + 2 + 4 * Z.of_nat NUM_SLOPE_SPRITES
     ∧ ∃ gt, peek16 (remaining (rcd s)) 0 = Some gt
             ∧ In gt [16; 17; 18; 19; 20; 32; 48; 49]%Z)
  ∧ (∀ gt, peek16 (remaining (rcd s)) 0 = Some gt →
           ¬ In gt [16; 17; 18; 19; 20; 32; 48; 49]%Z →
           (LoadSURF sprites s).1 = Fail)
  ∧ (∀ r gt, ReadBlockHeader (ls_rcd ls) = Some r → rcd_name r = "SURF" →
             peek16 (remaining r) 0 = Some gt →
             ¬ In gt [16; 17; 18; 19; 20; 32; 48; 49]%Z →
             ∃ ls', Load_loop' (S fuel) filename blk_num ls
                    = Some (Returned (Some "Surface block loading failed.") ls')).
Proof.
  assert (∀ sprites (s : LoadState (@SpriteStorage ImageData)) gt,
            peek16 (remaining (rcd s)) 0 = Some gt →
            ¬ In gt [16; 17; 18; 19; 20; 32; 48; 49]%Z →
            (LoadSURF sprites s).1 = Fail) as Hfail.
  { intros sprites0 s0 gt Hgt Hn. pose proof (wp_LoadSURF_ground_type sprites0 s0) as Hwp.
    unfold wp in Hwp. destruct (LoadSURF sprites0 s0) as [[u| |] s']; simpl; [|done..].
    destruct Hwp as (_ & _ & gt' & Hgt' & Hin). congruence. }
  split_and!.
  - intros u s' Hok. exact (wp_Ok _ _ _ _ _ _ (wp_LoadSURF_ground_type sprites s) Hok).
  - apply Hfail.
  - intros r gt Hr Hname Hgt Hn. cbn [Load_loop]. rewrite Hr.
    rewrite Load_block_SURF by done. unfold in_store.
    specialize (Hfail (ls_sprites (with_rcd r ls))
                  (mkState (ls_rcd (with_rcd r ls)) (store (ls_manager (with_rcd r ls)))) gt
                  Hgt Hn).
    destruct (LoadSURF _ _) as [[u| |] st]; simpl in Hfail; [done | | done].
    eauto.
Qed.

(** C6. A block whose name the dispatcher does not know: when its payload is
    in the file, the dispatcher reports name and version of the block, skips
    exactly the declared length, and goes on with the header that follows;
    the tables of the file and the registries are as before.  Such a block
    ends the load only when the file ends before its payload does. *)
Theorem unknown_block_is_skipped filename blk_num fuel ls r :
  ReadBlockHeader (ls_rcd ls) = Some r →
  rcd_name r ∉ recognized_tags →
  let ls' :=
    mkLoopState (mkReader (rcd_data r) (file_pos r + Z.to_nat (rcd_size r))
                          (rcd_name r) (rcd_version r) (rcd_size r))
                (ls_sprites ls) (ls_texts ls) (ls_track_pieces ls) (ls_manager ls) (ls_ext ls)
                (ls_stderr ls ++ [(rcd_name r, rcd_version r)]) in
  ((Z.to_nat (rcd_size r) ≤ length (remaining r))%nat →
     Load_block' filename blk_num (with_rcd r ls) = Continue ls'
     ∧ remaining (ls_rcd ls') = drop (Z.to_nat (rcd_size r)) (remaining r)
     ∧ Load_loop' (S fuel) filename blk_num ls
       = Load_loop' fuel filename (u32 (blk_num + 1)) ls')
  ∧ (¬ (Z.to_nat (rcd_size r) ≤ length (remaining r))%nat →
     ∃ ls'', Load_loop' (S fuel) filename blk_num ls
             = Some (Returned (Some "Error skipping unknown block.") ls'')).
Proof.
  intros Hr Hname ls'.
  pose proof (Load_block_unknown filename blk_num (with_rcd r ls) Hname) as Hblock.
  destruct (skip_block_cases "Error skipping unknown block."
              (with_stderr (ls_stderr (with_rcd r ls)
                            ++ [(rcd_name (ls_rcd (with_rcd r ls)),
                                 rcd_version (ls_rcd (with_rcd r ls)))]) (with_rcd r ls)))
    as [[Hlen Hskip]|[Hlen Hskip]]; rewrite Hskip in Hblock; cbn in Hlen.
  - split; [|done]. intros _. split_and!.
    + exact Hblock.
    + unfold ls', remaining. cbn. now rewrite drop_drop.
    + cbn [Load_loop]. rewrite Hr, Hblock. reflexivity.
  - split; [done|]. intros _. eexists. cbn [Load_loop]. rewrite Hr, Hblock. reflexivity.
Qed.

(** The registries after a step: [same_registries ls ls'] when the sprite
    manager and the other registries of [ls'] are those of [ls]. *)
Lemma load_object_Return {O} (h : M O unit) (obj : O) msg ls k m ls' :
  load_object h obj msg ls k = Return m ls' →
  (∃ r, ls' = with_rcd r ls)
  ∨ (∃ o r, k o (with_rcd r ls) = Return m ls').
Proof.
  unfold load_object. destruct (h _) as [[u| |] st]; [|intros [= <- <-]|discriminate].
  - intros Hk. right. eauto.
  - left. eauto.
Qed.

Lemma detached_block_Return filename blk_num ls m ls' :
  rcd_name (ls_rcd ls) ∈ detached_tags ∨ rcd_name (ls_rcd ls) ∉ recognized_tags →
  Load_block' filename blk_num ls = Return m ls' →
  ls_manager ls' = ls_manager ls ∧ ls_ext ls' = ls_ext ls.
Proof.
  intros [Hin|Hout].
  - unfold detached_tags in Hin. rewrite !elem_of_cons in Hin.
    destruct Hin as [E|[E|[E|[E|[E|[E|[E|[E|[E|[E|E]]]]]]]]]];
      [..|now apply elem_of_nil in E]; unfold Load_block; rewrite E;
      repeat (rewrite decide_False by (first [discriminate | intros [?|?]; discriminate]));
      rewrite decide_True by (first [reflexivity | left; reflexivity | right; reflexivity]).
    + (* INFO *)
      destruct (skip_block_cases "Invalid INFO block." ls) as [[_ ->]|[_ ->]];
        [discriminate | now intros [= <- <-]].
    + (* 8PXL *)
      destruct (LoadImage _) as [[imd|] n]; [discriminate | now intros [= <- <-]].
    + (* 32PX *)
      destruct (LoadImage _) as [[imd|] n]; [discriminate | now intros [= <- <-]].
    + (* FENC *)
      intros Hl. apply load_object_Return in Hl as [[r ->]|(o & r & Hk)]; [done|].
      destruct (AddFence _ _); discriminate.
    + (* ANIM *)
      intros Hl. apply load_object_Return in Hl as [[r ->]|(o & r & Hk)]; [done|].
      case_decide; [now injection Hk as <- <- | discriminate].
    + (* ANSP *)
      intros Hl. apply load_object_Return in Hl as [[r ->]|(o & r & Hk)]; [done|].
      case_decide; [now injection Hk as <- <-|].
      destruct (AddAnimationSprites _ _); discriminate.
    + (* TEXT *)
      destruct (TextData_Load _) as [[txt| |] st]; [discriminate | | discriminate].
      now intros [= <- <-].
    + (* FSET *)
      intros Hl. apply load_object_Return in Hl as [[r ->]|(o & r & Hk)]; [done|].
      discriminate.
    + (* TIMA *)
      destruct (TimedAnimation_Load _ _ _) as [[u| |] st]; [discriminate | | discriminate].
      now intros [= <- <-].
    + (* TRCK *)
      destruct (TrackPiece_Load _ _) as [[tp|] n]; [discriminate | now intros [= <- <-]].
  - rewrite Load_block_unknown by done.
    destruct (skip_block_cases "Error skipping unknown block."
                (with_stderr (ls_stderr ls ++ [(rcd_name (ls_rcd ls), rcd_version (ls_rcd ls))])
                             ls)) as [[_ ->]|[_ ->]];
      [discriminate | now intros [= <- <-]].
Qed.

Lemma in_place_block_Return filename blk_num ls m ls' :
  rcd_name (ls_rcd ls) ∈ in_place_tags →
  Load_block' filename blk_num ls = Return m ls' →
  blocks (ls_manager ls') = blocks (ls_manager ls)
  ∧ sm_animations (ls_manager ls') = sm_animations (ls_manager ls)
  ∧ ls_ext ls' = ls_ext ls.
Proof.
  intros Hin. unfold in_place_tags in Hin. rewrite !elem_of_cons in Hin.
  destruct Hin as [E|[E|[E|[E|[E|[E|[E|[E|[E|E]]]]]]]]];
    [..|now apply elem_of_nil in E]; unfold Load_block; rewrite E;
    repeat (rewrite decide_False by (first [discriminate | intros [?|?]; discriminate]));
    rewrite decide_True by reflexivity;
    unfold in_store;
    match goal with |- context [let '(_, _) := ?x in _] => destruct x as [[u| |] st] end;
    try discriminate; now intros [= <- <-].
Qed.

End DispatcherFacts.

(** ** The loop of [Load] ends *)

Section Advances.
Context {W : Type}.
Implicit Types s : LoadState W.

Lemma later_refl s : later s s.
Proof. split; [done | lia]. Qed.

Lemma later_trans s1 s2 s3 : later s1 s2 → later s2 s3 → later s1 s3.
Proof. intros [D1 P1] [D2 P2]. split; [congruence | lia]. Qed.

Lemma later_advance n s : later s (advance n s).
Proof. split; [done | simpl; lia]. Qed.

Lemma advances_ret {A} (a : A) : advances (mret a : M W A).
Proof. intros s. apply later_refl. Qed.

Lemma advances_return_false {A} : advances (return_false : M W A).
Proof. intros s. exact I. Qed.

Lemma advances_fault {A} : advances (fault : M W A).
Proof. intros s. exact I. Qed.

Lemma advances_bind {A B} (m : M W A) (f : A → M W B) :
  advances m → (∀ a, advances (f a)) → advances (m ≫= f).
Proof.
  intros Hm Hf s. apply wp_bind. eapply wp_conseq; [apply Hm|].
  intros a s1 H1. eapply wp_conseq; [apply Hf|].
  intros b s2 H2. cbv beta in *. eapply later_trans; eassumption.
Qed.

Lemma advances_get_reader : advances (get_reader : M W RcdFileReader).
Proof. intros s. apply later_refl. Qed.

Lemma advances_modify_world (f : W → W) : advances (modify_world f).
Proof. intros s. split; [done | simpl; lia]. Qed.

Lemma advances_GetUInt8 : advances (GetUInt8 : M W Z).
Proof.
  intros s. unfold wp, GetUInt8. destruct (_ !! _); [apply later_advance | exact I].
Qed.

Lemma advances_GetUInt16 : advances (GetUInt16 : M W Z).
Proof.
  unfold GetUInt16. apply advances_bind; [apply advances_GetUInt8|]. intros lo.
  apply advances_bind; [apply advances_GetUInt8|]. intros hi. apply advances_ret.
Qed.

Lemma advances_GetUInt32 : advances (GetUInt32 : M W Z).
Proof.
  unfold GetUInt32. apply advances_bind; [apply advances_GetUInt16|]. intros lo.
  apply advances_bind; [apply advances_GetUInt16|]. intros hi. apply advances_ret.
Qed.

Lemma advances_GetInt16 : advances (GetInt16 : M W Z).
Proof.
  unfold GetInt16. apply advances_bind; [apply advances_GetUInt16|]. intros v.
  apply advances_ret.
Qed.

Lemma advances_GetBlob n : advances (GetBlob n : M W (list byte)).
Proof. intros s. unfold wp, GetBlob. case_decide; [apply later_advance | exact I]. Qed.

Lemma advances_write_blob buffer off text : advances (write_blob buffer off text : M W _).
Proof. unfold write_blob. case_decide; [apply advances_ret | apply advances_fault]. Qed.

Lemma advances_GetBlob_to buffer off n : advances (GetBlob_to buffer off n : M W _).
Proof.
  intros s. unfold wp, GetBlob_to.
  pose proof (advances_GetBlob n s) as Hblob. unfold wp in Hblob.
  destruct (GetBlob n s) as [[text| |] s1] eqn:E.
  - pose proof (advances_write_blob buffer off text s1) as Hwrite. unfold wp in Hwrite.
    destruct (write_blob buffer off text s1) as [[b| |] s2]; [|done..].
    eapply later_trans; eassumption.
  - unfold GetBlob in E. case_decide; [discriminate|]. injection E as <-. apply later_refl.
  - unfold GetBlob in E. case_decide; discriminate.
Qed.

Lemma advances_for_each (body : nat → M W unit) count : ∀ first,
  (∀ i, advances (body i)) → advances (for_each first count body).
Proof.
  induction count as [|count IH]; intros first Hbody; simpl.
  - apply advances_ret.
  - apply advances_bind; [apply Hbody|]. intros _. now apply IH.
Qed.

Lemma advances_LoadSpriteFromFile {ImageData} (sprites : gmap Z ImageData) :
  advances (LoadSpriteFromFile sprites : M W _).
Proof.
  unfold LoadSpriteFromFile. apply advances_bind; [apply advances_GetUInt32|]. intros val.
  case_decide; [apply advances_ret|].
  destruct (sprites !! val); [apply advances_ret | apply advances_return_false].
Qed.

Lemma advances_load_sprite_to {ImageData} (sprites : gmap Z ImageData) put :
  advances (load_sprite_to sprites put : M W _).
Proof.
  unfold load_sprite_to. apply advances_bind; [apply advances_LoadSpriteFromFile|].
  intros spr. apply advances_modify_world.
Qed.

Lemma advances_ReadUtf8Text n buffer buf_length used :
  advances (ReadUtf8Text n buffer buf_length used : M W _).
Proof.
  unfold ReadUtf8Text. case_decide; [apply advances_return_false|].
  apply advances_bind; [apply advances_GetBlob_to|]. intros buffer'.
  destruct (utf8_scan _ _ _);
    [apply advances_return_false | | apply advances_fault].
  case_decide; [apply advances_return_false | apply advances_ret].
Qed.
End Advances.

(** Goals [advances m], for [m] built from the steps above. *)
Ltac advances :=
  repeat first
    [ apply advances_ret
    | apply advances_return_false
    | apply advances_fault
    | apply advances_get_reader
    | apply advances_modify_world
    | apply advances_GetUInt8
    | apply advances_GetUInt16
    | apply advances_GetUInt32
    | apply advances_GetInt16
    | apply advances_load_sprite_to
    | apply advances_LoadSpriteFromFile
    | apply advances_ReadUtf8Text
    | apply advances_for_each; intros ?
    | apply advances_bind; [|intros ?]
    | match goal with
      | |- advances (let '(_, _) := ?x in _) => destruct x
      | |- advances (match ?x with _ => _ end) => destruct x
      end
    | progress cbv zeta ].

Section HandlersAdvance.
Context `{Headers} {ImageData : Type}.
Implicit Types sprites : gmap Z ImageData.

Lemma advances_LoadSURF sprites : advances (LoadSURF sprites).
Proof. unfold LoadSURF. advances. Qed.
Lemma advances_LoadTSEL sprites : advances (LoadTSEL sprites).
Proof. unfold LoadTSEL. advances. Qed.
Lemma advances_LoadPATH sprites : advances (LoadPATH sprites).
Proof. unfold LoadPATH. advances. Qed.
Lemma advances_LoadPDEC sprites : advances (LoadPDEC sprites).
Proof. unfold LoadPDEC. advances. Qed.
Lemma advances_LoadTCOR sprites : advances (LoadTCOR sprites).
Proof. unfold LoadTCOR. advances. Qed.
Lemma advances_LoadFUND sprites : advances (LoadFUND sprites).
Proof. unfold LoadFUND. advances. Qed.
Lemma advances_LoadPLAT sprites : advances (LoadPLAT sprites).
Proof. unfold LoadPLAT. advances. Qed.
Lemma advances_LoadSUPP sprites : advances (LoadSUPP sprites).
Proof. unfold LoadSUPP. advances. Qed.
Lemma advances_LoadBDIR sprites : advances (LoadBDIR sprites).
Proof. unfold LoadBDIR. advances. Qed.
Lemma advances_Fence_Load sprites : advances (Fence_Load sprites).
Proof. unfold Fence_Load. advances. Qed.
Lemma advances_Animation_Load : advances Animation_Load.
Proof. unfold Animation_Load. advances. Qed.
Lemma advances_AnimationSprites_Load sprites : advances (AnimationSprites_Load sprites).
Proof. unfold AnimationSprites_Load. advances. Qed.
Lemma advances_FrameSet_Load sprites : advances (FrameSet_Load sprites).
Proof. unfold FrameSet_Load. advances. Qed.
Lemma advances_TimedAnimation_Load (filename : string)
    (frame_sets : gmap (string * Z) (@FrameSet ImageData)) :
  advances (TimedAnimation_Load filename frame_sets).
Proof. unfold TimedAnimation_Load. advances. Qed.

Lemma advances_load_translations {W} fuel : ∀ trs l,
  advances (load_translations fuel trs l : M W _).
Proof.
  induction fuel as [|fuel IH]; intros trs l; cbn [load_translations].
  - unfold assert_that. advances.
  - unfold assert_that, set_language. advances; apply IH.
Qed.

Lemma advances_load_strings {W} fuel : ∀ l, advances (load_strings fuel l : M W _).
Proof.
  induction fuel as [|fuel IH]; intros l; cbn [load_strings].
  - unfold assert_that. advances.
  - unfold assert_that, set_name. advances; first [apply advances_load_translations | apply IH].
Qed.

Lemma advances_TextData_Load {W} : advances (TextData_Load : M W _).
Proof. unfold TextData_Load. advances; apply advances_load_strings. Qed.
End HandlersAdvance.

Section LoadEnds.
Context `{Headers} {ImageData TrackPiece Ext : Type}.
Variable LoadImage : RcdFileReader → option ImageData * nat.
Variable TrackPiece_Load : RcdFileReader → gmap Z ImageData → option TrackPiece * nat.
Variable external : string → RcdFileReader → gmap Z ImageData → gmap Z TextData →
                    gmap Z TrackPiece → Ext → bool * nat * Ext.
Implicit Types ls : @LoopState ImageData TrackPiece Ext.

Local Abbreviation Load_block' := (Load_block LoadImage TrackPiece_Load external).
Local Abbreviation Load_loop' := (Load_loop LoadImage TrackPiece_Load external).

Lemma ls_later_refl ls : ls_later ls ls.
Proof. split; [done | lia]. Qed.

Lemma ls_later_trans ls1 ls2 ls3 : ls_later ls1 ls2 → ls_later ls2 ls3 → ls_later ls1 ls3.
Proof. intros [D1 P1] [D2 P2]. split; [congruence | lia]. Qed.

Lemma consumed_later n ls : ls_later ls (consumed n ls).
Proof. split; [done | simpl; lia]. Qed.

Lemma in_store_later (h : M (@SpriteStorage ImageData) unit) msg ls ls' :
  advances h → in_store h msg ls = Continue ls' → ls_later ls ls'.
Proof.
  intros Hh. unfold in_store. specialize (Hh (mkState (ls_rcd ls) (store (ls_manager ls)))).
  unfold wp in Hh. destruct (h _) as [[u| |] st]; [|discriminate..].
  intros [= <-]. exact Hh.
Qed.

Lemma load_object_later {O} (h : M O unit) (obj : O) msg ls k ls' :
  advances h →
  (∀ o ls1 ls2, k o ls1 = Continue ls2 → ls_later ls1 ls2) →
  load_object h obj msg ls k = Continue ls' → ls_later ls ls'.
Proof.
  intros Hh Hk. unfold load_object. specialize (Hh (mkState (ls_rcd ls) obj)).
  unfold wp in Hh. destruct (h _) as [[u| |] st]; [|discriminate..].
  intros Hc. apply Hk in Hc. eapply ls_later_trans; [|exact Hc]. exact Hh.
Qed.

Lemma external_block_later tag msg ls ls' :
  external_block external tag msg ls = Continue ls' → ls_later ls ls'.
Proof.
  unfold external_block. destruct (external _ _ _ _ _ _) as [[ok n] e].
  destruct ok; [|discriminate]. intros [= <-]. apply consumed_later.
Qed.

Lemma skip_block_later msg ls ls' : skip_block msg ls = Continue ls' → ls_later ls ls'.
Proof.
  unfold skip_block, SkipBytes. cbn [rcd]. case_decide; [|discriminate].
  intros [= <-]. split; [done | simpl; lia].
Qed.

Lemma Load_block_later filename blk_num ls ls' :
  Load_block' filename blk_num ls = Continue ls' → ls_later ls ls'.
Proof.
  unfold Load_block.
  repeat (case_decide;
    [first
      [ apply skip_block_later
      | apply external_block_later
      | apply in_store_later;
        first [ apply advances_LoadSURF | apply advances_LoadTSEL | apply advances_LoadPATH
              | apply advances_LoadPDEC | apply advances_LoadTCOR | apply advances_LoadFUND
              | apply advances_LoadPLAT | apply advances_LoadSUPP | apply advances_LoadBDIR ]
      | idtac ] |]).
  all: try apply skip_block_later.
  - (* 8PXL, 32PX *)
    destruct (LoadImage _) as [[imd|] n]; [|discriminate]. intros [= <-]. apply consumed_later.
  - (* FENC *)
    apply load_object_later; [apply advances_Fence_Load|]. intros o ls1 ls2.
    destruct (AddFence _ _); [|discriminate]. intros [= <-]. split; [done | cbn; lia].
  - (* ANIM *)
    apply load_object_later; [apply advances_Animation_Load|]. intros o ls1 ls2.
    case_decide; [discriminate|]. intros [= <-]. split; [done | cbn; lia].
  - (* ANSP *)
    apply load_object_later; [apply advances_AnimationSprites_Load|]. intros o ls1 ls2.
    case_decide; [discriminate|].
    destruct (AddAnimationSprites _ _); [|discriminate]. intros [= <-]. split; [done | cbn; lia].
  - (* TEXT *)
    pose proof (@advances_TextData_Load _ unit (mkState (ls_rcd ls) tt)) as Ht.
    unfold wp in Ht. destruct (TextData_Load _) as [[txt| |] st]; [|discriminate..].
    intros [= <-]. exact Ht.
  - (* FSET *)
    apply load_object_later; [apply advances_FrameSet_Load|]. intros o ls1 ls2.
    intros [= <-]. split; [done | cbn; lia].
  - (* TIMA *)
    pose proof (advances_TimedAnimation_Load filename (frame_sets (store (ls_manager ls)))
                  (mkState (ls_rcd ls) TimedAnimation_new)) as Ht.
    unfold wp in Ht. destruct (TimedAnimation_Load _ _ _) as [[u| |] st]; [|discriminate..].
    intros [= <-]. exact Ht.
  - (* TRCK *)
    destruct (TrackPiece_Load _ _) as [[tp|] n]; [|discriminate]. intros [= <-].
    apply consumed_later.
  - (* CARS *)
    destruct (external_block external "GetNewCarType" _ ls) as [ls1| | |] eqn:E1;
      [|discriminate..].
    intros E2. apply external_block_later in E1, E2. eapply ls_later_trans; eassumption.
Qed.

Lemma ReadBlockHeader_Some r r' :
  ReadBlockHeader r = Some r' →
  rcd_data r' = rcd_data r ∧ file_pos r' = (file_pos r + 12)%nat
  ∧ (12 ≤ length (remaining r))%nat.
Proof.
  unfold ReadBlockHeader.
  destruct (remaining r) as [|? [|? [|? [|? [|? [|? [|? [|? [|? [|? [|? [|? ?]]]]]]]]]]]];
    try discriminate.
  intros [= <-]. split_and!; [done | done | simpl; lia].
Qed.

(** The loop ends: with more fuel than bytes are left it gives an outcome. *)
Lemma Load_loop_ends filename fuel : ∀ blk_num ls,
  (length (remaining (ls_rcd ls)) < fuel)%nat →
  ∃ outcome, Load_loop' fuel filename blk_num ls = Some outcome.
Proof.
  induction fuel as [|fuel IH]; intros blk_num ls Hfuel; [lia|].
  cbn [Load_loop]. destruct (ReadBlockHeader (ls_rcd ls)) as [r|] eqn:Hr; [|eauto].
  apply ReadBlockHeader_Some in Hr as (Hdata & Hpos & Hlen).
  destruct (Load_block' filename blk_num (with_rcd r ls)) as [ls1|m ls1|ls1|ls1] eqn:Hblock;
    [|eauto..].
  apply IH. apply Load_block_later in Hblock as [D1 P1]. cbn [ls_rcd with_rcd] in *.
  unfold remaining in *. rewrite length_drop in *. rewrite D1, Hdata. lia.
Qed.

(** X1. [SpriteManager::Load] comes to an end on every file: each round of its
    loop reads the twelve bytes of a block header, and no handler moves the
    reader back, so that the loop has fewer rounds than the file has bytes. *)
Theorem Load_ends filename file m e err :
  ∃ outcome, Load LoadImage TrackPiece_Load external filename file m e err = Some outcome.
Proof.
  unfold Load. destruct (CheckFileHeader _ _ _) as [r|] eqn:Hr; [|eauto].
  apply Load_loop_ends. cbn [ls_rcd with_rcd].
  unfold CheckFileHeader in Hr.
  destruct (remaining _) as [|? [|? [|? [|? [|? [|? [|? [|? ?]]]]]]]]; try discriminate.
  case_decide; [|discriminate]. injection Hr as <-.
  unfold remaining. rewrite length_drop. simpl. lia.
Qed.
End LoadEnds.

(** ** The properties at the examples *)

Lemma LoadSURF_ground_types_witness :
  ∃ ls', example_Load example_surf_99_file
         = Some (Returned (Some "Surface block loading failed."%string) ls').
Proof.
  set (ls := example_state (mkReader example_surf_99_file 8 "" 0 0)).
  assert (∃ r, ReadBlockHeader (ls_rcd ls) = Some r ∧ rcd_name r = "SURF"%string
               ∧ peek16 (remaining r) 0 = Some 99) as (r & Hr & Hname & Hgt)
    by (vm_compute; eauto).
  destruct (@LoadSURF_ground_types example_headers nat unit unit
              example_LoadImage example_TrackPiece_Load example_external
              "example.rcd"%string 1 (length example_surf_99_file) ls ∅
              (mkState r (@SpriteStorage_new example_headers nat 64))) as (_ & _ & Hload).
  destruct (Hload r 99 Hr Hname Hgt) as [ls' Hls'].
  - simpl. lia.
  - exists ls'. exact Hls'.
Defined.

Lemma unknown_block_is_skipped_witness :
  ∃ r ls',
    ReadBlockHeader (mkReader example_unknown_file 8 "" 0 0) = Some r
    ∧ example_Load_loop 3 "example.rcd"%string 1
        (example_state (mkReader example_unknown_file 8 "" 0 0))
      = example_Load_loop 2 "example.rcd"%string 2 ls'
    ∧ ls_stderr ls' = [("XYZW"%string, 1)]
    ∧ remaining (ls_rcd ls') = rcd_block "8PXL" 2 [byte_of 7; byte_of 7].
Proof.
  set (ls := example_state (mkReader example_unknown_file 8 "" 0 0)).
  assert (∃ r, ReadBlockHeader (ls_rcd ls) = Some r ∧ rcd_name r = "XYZW"%string
               ∧ rcd_version r = 1 ∧ rcd_size r = 3
               ∧ remaining r = [byte_of 1; byte_of 2; byte_of 3]
                                 ++ rcd_block "8PXL" 2 [byte_of 7; byte_of 7])
    as (r & Hr & Hname & Hver & Hsize & Hrem) by (vm_compute; eauto 10).
  destruct (@unknown_block_is_skipped example_headers nat unit unit
              example_LoadImage example_TrackPiece_Load example_external
              "example.rcd"%string 1 2 ls r Hr) as [Hskip _].
  - rewrite Hname. apply (bool_decide_unpack _). vm_compute. exact I.
  - destruct Hskip as (_ & Hrest & Hloop).
    + rewrite Hsize, Hrem. simpl. lia.
    + eexists r, _. split_and!; [exact Hr | exact Hloop | |].
      * cbn [ls_stderr]. rewrite Hname, Hver. reflexivity.
      * rewrite Hrest, Hsize, Hrem. reflexivity.
Defined.

(** C5 as it is stated does not hold: the SURF block of the example fails at
    its second sprite, and the storage has its first sprite. *)
Lemma failing_SURF_block_is_published :
  (∃ ls1 ls2,
     example_Load example_image_file = Some (Returned None ls1)
     ∧ example_Load example_bad_surf_file
       = Some (Returned (Some "Surface block loading failed."%string) ls2)
     ∧ surface (store (ls_manager ls1)) !! 0 = None
     ∧ surface (store (ls_manager ls2)) !! 0 = Some (Some 20%nat :: replicate 22 None))
  ∧ ¬ @failing_block_publishes_nothing example_headers nat unit unit
        example_LoadImage example_TrackPiece_Load example_external.
Proof.
  split.
  - vm_compute. eexists _, _. split_and!; reflexivity.
  - intros Hclaim.
    set (sprites := ({[ 1 := 20%nat ]} : gmap Z nat)).
    set (ls := @mkLoopState nat unit unit
                 (reader_at_payload "SURF" 6 example_surf_payload) sprites ∅ ∅
                 (@SpriteManager_new example_headers nat) tt []).
    assert (∃ ls', @Load_block example_headers nat unit unit example_LoadImage
                     example_TrackPiece_Load example_external "example.rcd" 2 ls
                   = Return (Some "Surface block loading failed."%string) ls'
                   ∧ surface (store (ls_manager ls')) !! 0
                     = Some (Some 20%nat :: replicate 22 None))
      as (ls' & Hblock & Hsurface) by (vm_compute; eauto).
    apply Hclaim in Hblock. rewrite Hblock in Hsurface. vm_compute in Hsurface.
    discriminate.
Qed.

Lemma LoadPATH_type_and_status_witness :
  let s := mkState (reader_at_payload "PATH" 3 example_path_payload)
                   (@SpriteStorage_new example_headers nat 64) in
  ∃ s' path, @LoadPATH example_headers nat ∅ s = (Ok tt, s')
             ∧ path_sprites (world s') !! 1 = Some path
             ∧ path_status path = PAS_QUEUE_PATH.
Proof.
  intros s.
  assert (∃ s', @LoadPATH example_headers nat ∅ s = (Ok tt, s')) as [s' Hok]
    by (vm_compute; eauto).
  destruct (@LoadPATH_type_and_status example_headers nat ∅ s tt s' Hok)
    as (_ & _ & type & pt & path & Htype & Hpt & Hpath & Hqueue & _).
  assert (type = 0x8004) as -> by (vm_compute in Htype; congruence).
  assert (pt = 1) as ->.
  { destruct Hpt as [[_ ->]|[[Hc _]|[[Hc _]|[Hc _]]]];
      [reflexivity | vm_compute in Hc; discriminate..]. }
  exists s', path. split_and!; [exact Hok | exact Hpath |].
  apply Hqueue. vm_compute. discriminate.
Defined.

Lemma sprite_sets_need_width_64_witness :
  let s := mkState (reader_at_payload "TSEL" 2 (le16 32 ++ le16 32 ++ mjoin (replicate 23 (le32 0))))
                   (@SpriteStorage_new example_headers nat 64) in
  GetSpriteStore 32 = None ∧ (@LoadTSEL example_headers nat ∅ s).1 = Fail.
Proof.
  intros s.
  destruct (@sprite_sets_need_width_64 example_headers nat ∅ s 32 ltac:(lia))
    as (Hstore & _ & Htsel & _).
  split; [exact Hstore|]. apply Htsel. reflexivity.
Defined.

Lemma Animation_Load_limits_witness :
  let s := mkState (reader_at_payload "ANIM" 4 example_anim_payload)
                   (@Animation_new example_headers) in
  (@Animation_Load example_headers s).1 = Fail.
Proof.
  intros s. destruct (@Animation_Load_limits example_headers s) as (_ & _ & Hzero).
  apply Hzero. reflexivity.
Defined.

(** * Further properties of the loader *)

(** ** Bytes that a handler reads *)

Section Reads.
Context {W : Type}.
Implicit Types s : LoadState W.

Lemma took_refl s : took 0 s s.
Proof. now exists []. Qed.

Lemma took_trans {W1 W2 W3} n k (s1 : LoadState W1) (s2 : LoadState W2) (s3 : LoadState W3) :
  took n s1 s2 → took k s2 s3 → took (n + k) s1 s3.
Proof.
  intros (p1 & E1 & L1) (p2 & E2 & L2). exists (p1 ++ p2).
  rewrite E1, E2, <- app_assoc, length_app. split; [done | lia].
Qed.

Lemma reads_eq {A} n k (m : M W A) : reads n m → n = k → reads k m.
Proof. now intros Hm <-. Qed.

Lemma reads_ret {A} (a : A) : reads 0 (mret a : M W A).
Proof. intros s. apply took_refl. Qed.

Lemma reads_return_false {A} n : reads n (return_false : M W A).
Proof. intros s. exact I. Qed.

Lemma reads_bind {A B} n k (m : M W A) (f : A → M W B) :
  reads n m → (∀ a, reads k (f a)) → reads (n + k) (m ≫= f).
Proof.
  intros Hm Hf s. apply wp_bind. eapply wp_conseq; [apply Hm|].
  intros a s1 H1. eapply wp_conseq; [apply Hf|].
  intros b s2 H2. cbv beta in *. eapply took_trans; eassumption.
Qed.

Lemma reads_get_reader : reads 0 (get_reader : M W RcdFileReader).
Proof. intros s. apply took_refl. Qed.

Lemma reads_modify_world (f : W → W) : reads 0 (modify_world f).
Proof. intros s. now exists []. Qed.

Lemma reads_GetUInt8 : reads 1 (GetUInt8 : M W Z).
Proof.
  intros s. apply wp_GetUInt8. intros b rest s' E R _. exists [b]. now rewrite E, R.
Qed.

Lemma reads_GetUInt16 : reads 2 (GetUInt16 : M W Z).
Proof.
  intros s. apply wp_GetUInt16. intros b0 b1 rest s' E R _. exists [b0; b1]. now rewrite E, R.
Qed.

Lemma reads_GetUInt32 : reads 4 (GetUInt32 : M W Z).
Proof.
  unfold GetUInt32. apply (reads_bind 2 2); [apply reads_GetUInt16|]. intros lo.
  apply (reads_bind 2 0); [apply reads_GetUInt16|]. intros hi. apply reads_ret.
Qed.

Lemma reads_GetInt16 : reads 2 (GetInt16 : M W Z).
Proof.
  unfold GetInt16. apply (reads_bind 2 0); [apply reads_GetUInt16|]. intros v. apply reads_ret.
Qed.

Lemma reads_for_each k (body : nat → M W unit) count : ∀ first,
  (∀ i, reads k (body i)) → reads (count * k) (for_each first count body).
Proof.
  induction count as [|count IH]; intros first Hbody.
  - apply reads_ret.
  - cbn [for_each]. apply (reads_eq (k + count * k)); [|simpl; lia].
    apply reads_bind; [apply Hbody|]. intros u. now apply IH.
Qed.

Lemma reads_LoadSpriteFromFile {ImageData} (sprites : gmap Z ImageData) :
  reads 4 (LoadSpriteFromFile sprites : M W _).
Proof.
  unfold LoadSpriteFromFile. apply (reads_bind 4 0); [apply reads_GetUInt32|]. intros val.
  case_decide; [apply reads_ret|].
  destruct (sprites !! val); [apply reads_ret | apply reads_return_false].
Qed.

Lemma reads_load_sprite_to {ImageData} (sprites : gmap Z ImageData) put :
  reads 4 (load_sprite_to sprites put : M W _).
Proof.
  unfold load_sprite_to. apply (reads_bind 4 0); [apply reads_LoadSpriteFromFile|].
  intros spr. apply reads_modify_world.
Qed.

(** The bytes read by [m], then those read by what follows. *)
Lemma wp_reads_bind {A B} n (m : M W A) (f : A → M W B) s (Q : B → LoadState W → Prop) :
  reads n m →
  (∀ a s1, took n s s1 → wp True (f a) s1 Q) →
  wp True (m ≫= f) s Q.
Proof.
  intros Hm Hf. apply wp_bind. eapply wp_conseq; [apply Hm|]. intros a s1 H1. now apply Hf.
Qed.

Lemma wp_reads {A} n (m : M W A) s (Q : A → LoadState W → Prop) :
  reads n m → (∀ a s1, took n s s1 → Q a s1) → wp True m s Q.
Proof. intros Hm HQ. eapply wp_conseq; [apply Hm|]. done. Qed.
End Reads.

(** Goals [reads ?n m]: the bytes add up along [m]. *)
Ltac reads :=
  repeat first
    [ apply reads_ret
    | apply reads_return_false
    | apply reads_get_reader
    | apply reads_modify_world
    | apply reads_GetUInt8
    | apply reads_GetUInt16
    | apply reads_GetUInt32
    | apply reads_GetInt16
    | apply reads_load_sprite_to
    | apply reads_LoadSpriteFromFile
    | apply reads_for_each; intros ?
    | apply reads_bind; [|intros ?]
    | match goal with
      | |- reads _ (if decide _ then _ else _) => case_decide
      | |- reads _ (match ?x with _ => _ end) => destruct x
      end
    | progress cbv zeta ].

Lemma took_eq {W W'} n k (s : LoadState W) (s' : LoadState W') :
  took n s s' → n = k → took k s s'.
Proof. now intros Ht <-. Qed.

(** A handler that reads [n] bytes after the test of its header, where [n] is
    the size that the test requires. *)
Ltac reads_size :=
  eapply wp_reads; [reads|];
  let T := fresh "T" in
  intros ? ? T; eapply took_eq; [exact T | lia].

Section SpriteSetsRead.
Context `{Headers} {ImageData : Type}.
Implicit Types s : LoadState (@SpriteStorage ImageData).
Implicit Types sprites : gmap Z ImageData.

Lemma wp_LoadSURF_size sprites s :
  wp True (LoadSURF sprites) s (λ _ s', took (Z.to_nat (rcd_size (rcd s))) s s').
Proof.
  unfold LoadSURF. apply wp_bind, wp_get_reader. case_decide; [apply wp_return_false|].
  reads_size.
Qed.

Lemma wp_LoadTSEL_size sprites s :
  wp True (LoadTSEL sprites) s (λ _ s', took (Z.to_nat (rcd_size (rcd s))) s s').
Proof.
  unfold LoadTSEL. apply wp_bind, wp_get_reader. case_decide; [apply wp_return_false|].
  reads_size.
Qed.

Lemma wp_LoadPATH_size sprites s :
  wp True (LoadPATH sprites) s (λ _ s', took (Z.to_nat (rcd_size (rcd s))) s s').
Proof.
  unfold LoadPATH. apply wp_bind, wp_get_reader. case_decide; [apply wp_return_false|].
  reads_size.
Qed.

Lemma wp_LoadPDEC_size sprites s :
  (EDGE_COUNT - EDGE_BEGIN = 4)%nat →
  wp True (LoadPDEC sprites) s (λ _ s', took (Z.to_nat (rcd_size (rcd s))) s s').
Proof.
  intros Hedges. unfold LoadPDEC. rewrite Hedges. apply wp_bind, wp_get_reader. case_decide; [apply wp_return_false|].
  reads_size.
Qed.

Lemma wp_LoadTCOR_size sprites s :
  wp True (LoadTCOR sprites) s (λ _ s', took (Z.to_nat (rcd_size (rcd s))) s s').
Proof.
  unfold LoadTCOR. apply wp_bind, wp_get_reader. case_decide; [apply wp_return_false|].
  reads_size.
Qed.

Lemma wp_LoadFUND_size sprites s :
  wp True (LoadFUND sprites) s (λ _ s', took (Z.to_nat (rcd_size (rcd s))) s s').
Proof.
  unfold LoadFUND. apply wp_bind, wp_get_reader. case_decide; [apply wp_return_false|].
  reads_size.
Qed.

Lemma wp_LoadPLAT_size sprites s :
  wp True (LoadPLAT sprites) s (λ _ s', took (Z.to_nat (rcd_size (rcd s))) s s').
Proof.
  unfold LoadPLAT. apply wp_bind, wp_get_reader. case_decide; [apply wp_return_false|].
  reads_size.
Qed.

Lemma wp_LoadSUPP_size sprites s :
  wp True (LoadSUPP sprites) s (λ _ s', took (Z.to_nat (rcd_size (rcd s))) s s').
Proof.
  unfold LoadSUPP. apply wp_bind, wp_get_reader. case_decide; [apply wp_return_false|].
  reads_size.
Qed.

Lemma wp_LoadBDIR_size sprites s :
  wp True (LoadBDIR sprites) s (λ _ s', took (Z.to_nat (rcd_size (rcd s))) s s').
Proof.
  unfold LoadBDIR. apply wp_bind, wp_get_reader. case_decide; [apply wp_return_false|].
  reads_size.
Qed.
End SpriteSetsRead.

Section ObjectsRead.
Context `{Headers} {ImageData : Type}.
Implicit Types sprites : gmap Z ImageData.

Lemma wp_Fence_Load_size sprites s :
  wp True (Fence_Load sprites) s (λ _ s', took (Z.to_nat (rcd_size (rcd s))) s s').
Proof.
  unfold Fence_Load. apply wp_bind, wp_get_reader. case_decide; [apply wp_return_false|].
  reads_size.
Qed.

Lemma wp_Animation_Load_size s :
  wp True Animation_Load s (λ _ s', took (Z.to_nat (rcd_size (rcd s))) s s').
Proof.
  unfold Animation_Load. apply wp_bind, wp_get_reader. cbv zeta.
  case_decide; [apply wp_return_false|].
  eapply wp_reads_bind; [apply reads_GetUInt8|]. intros pt s1 T1.
  apply wp_bind, wp_modify_world.
  case_decide; [apply wp_return_false|].
  eapply wp_reads_bind; [apply reads_GetUInt16|]. intros at_ s2 T2.
  case_decide; [apply wp_return_false|].
  apply wp_bind, wp_modify_world.
  eapply wp_reads_bind; [apply reads_GetUInt16|]. intros frame_count s3 T3.
  apply wp_bind, wp_modify_world.
  case_decide; [apply wp_return_false|].
  apply wp_bind, wp_modify_world.
  case_decide; [apply wp_return_false|].
  eapply wp_reads; [reads|].
  intros u s4 T4.
  eapply took_eq.
  - eapply took_trans; [|exact T4]. eapply took_trans; [|exact T3].
    eapply took_trans; [exact T1|]. exact T2.
  - lia.
Qed.

Lemma wp_AnimationSprites_Load_size sprites s :
  wp True (AnimationSprites_Load sprites) s (λ _ s', took (Z.to_nat (rcd_size (rcd s))) s s').
Proof.
  unfold AnimationSprites_Load. apply wp_bind, wp_get_reader. cbv zeta.
  case_decide; [apply wp_return_false|].
  eapply wp_reads_bind; [apply reads_GetUInt16|]. intros width s0 T0.
  apply wp_bind, wp_modify_world.
  eapply wp_reads_bind; [apply reads_GetUInt8|]. intros pt s1 T1.
  apply wp_bind, wp_modify_world.
  case_decide; [apply wp_return_false|].
  eapply wp_reads_bind; [apply reads_GetUInt16|]. intros at_ s2 T2.
  case_decide; [apply wp_return_false|].
  apply wp_bind, wp_modify_world.
  eapply wp_reads_bind; [apply reads_GetUInt16|]. intros frame_count s3 T3.
  apply wp_bind, wp_modify_world.
  case_decide; [apply wp_return_false|].
  apply wp_bind, wp_modify_world.
  case_decide; [apply wp_return_false|].
  eapply wp_reads; [reads|].
  intros u s4 T4.
  eapply took_eq.
  - eapply took_trans; [|exact T4]. eapply took_trans; [|exact T3].
    eapply took_trans; [|exact T2]. eapply took_trans; [exact T0|]. exact T1.
  - lia.
Qed.

Lemma i32_id z : - 2 ^ 31 ≤ z < 2 ^ 31 → i32 z = z.
Proof. intros. unfold i32. rewrite Z.mod_small; lia. Qed.

Lemma i32_eq_small z v : 0 ≤ z < 2 ^ 32 → 0 ≤ v < 2 ^ 31 → i32 z = v → z = v.
Proof.
  unfold i32. intros Hz Hv E.
  destruct (decide (z < 2 ^ 31)) as [Hlt|Hge].
  - rewrite Z.mod_small in E; lia.
  - replace (z + 2 ^ 31) with (z - 2 ^ 31 + 1 * 2 ^ 32) in E by lia.
    rewrite Z.mod_add in E by lia. rewrite Z.mod_small in E; lia.
Qed.

Lemma wp_GetUInt8_took {W} s (Q : Z → LoadState W → Prop) :
  (∀ v s', 0 ≤ v < 256 → took 1 s s' → world s' = world s → Q v s') →
  wp True GetUInt8 s Q.
Proof.
  intros HQ. apply wp_GetUInt8. intros b rest s' E R Hw.
  apply HQ; [apply byte_val_range | | done]. exists [b]. now rewrite E, R.
Qed.

Lemma wp_FrameSet_Load_size sprites s :
  0 ≤ rcd_size (rcd s) < 2 ^ 32 →
  wp True (FrameSet_Load sprites) s (λ _ s', took (Z.to_nat (rcd_size (rcd s))) s s').
Proof.
  intros Hsize. unfold FrameSet_Load. apply wp_bind, wp_get_reader.
  case_decide; [apply wp_return_false|].
  eapply wp_reads_bind; [apply reads_GetUInt16|]. intros width s0 T0.
  apply wp_bind, wp_GetUInt8_took. intros wx s1 Hwx T1 _.
  apply wp_bind, wp_GetUInt8_took. intros wy s2 Hwy T2 _.
  apply wp_bind, wp_modify_world.
  case_decide as Hsz; [apply wp_return_false|].
  assert (rcd_size (rcd s) = 4 + 16 * wx * wy) as Hsz'.
  { apply i32_eq_small; [done | nia |]. destruct (decide (i32 (rcd_size (rcd s)) = 4 + 16 * wx * wy)); done. }
  eapply wp_reads; [reads|].
  intros u s4 T4.
  eapply took_eq.
  - eapply took_trans; [|exact T4]. eapply took_trans; [|exact T2].
    eapply took_trans; [exact T0|]. exact T1.
  - rewrite Hsz'. apply Nat2Z.inj. rewrite Z2Nat.id by nia.
    repeat (rewrite Nat2Z.inj_add || rewrite Nat2Z.inj_mul). rewrite !Z2Nat.id by lia. lia.
Qed.

Lemma lor_shiftl_add a b n :
  0 ≤ n → 0 ≤ a < 2 ^ n → 0 ≤ b → Z.lor a (Z.shiftl b n) = a + b * 2 ^ n.
Proof.
  intros Hn Ha Hb. rewrite Z.shiftl_mul_pow2 by lia. rewrite <- Z.add_nocarry_lor; [done|].
  apply Z.bits_inj'. intros i Hi. rewrite Z.land_spec, Z.bits_0.
  destruct (decide (i < n)).
  - rewrite Z.mul_pow2_bits_low by lia. apply andb_false_r.
  - destruct (decide (a = 0)) as [->|]; [now rewrite Z.bits_0|].
    rewrite (Z.bits_above_log2 a i); [done | lia |].
    apply Z.log2_lt_pow2; [lia|]. assert (2 ^ n ≤ 2 ^ i); [|lia].
    apply Z.pow_le_mono_r; lia.
Qed.

Lemma u32_range b0 b1 b2 b3 :
  0 ≤ Z.lor (Z.lor (byte_val b0) (Z.shiftl (byte_val b1) 8))
            (Z.shiftl (Z.lor (byte_val b2) (Z.shiftl (byte_val b3) 8)) 16) < 2 ^ 32.
Proof.
  pose proof (u16_range b0 b1). pose proof (u16_range b2 b3).
  rewrite (lor_shiftl_add _ _ 16); [| lia | change (2 ^ 16) with 65536; lia | lia].
  change (2 ^ 16) with 65536. change (2 ^ 32) with 4294967296. lia.
Qed.

Lemma wp_GetUInt32_at {W} (F : Prop) (l : list byte) off s (Q : Z → LoadState W → Prop) :
  remaining (rcd s) = drop off l →
  (∀ v s', peek32 l off = Some v → remaining (rcd s') = drop (off + 4) l →
           took 4 s s' → world s' = world s → 0 ≤ v < 2 ^ 32 → Q v s') →
  wp F GetUInt32 s Q.
Proof.
  intros Hrem HQ. unfold GetUInt32.
  apply wp_bind, wp_GetUInt16. intros b0 b1 r0 s0 E0 R0 W0.
  apply wp_bind, wp_GetUInt16. intros b2 b3 r1 s1 E1 R1 W1.
  apply wp_ret. rewrite R0 in E1. rewrite E1 in E0. apply HQ.
  - unfold peek32. now rewrite <- Hrem, E0.
  - rewrite <- drop_drop, <- Hrem, E0. done.
  - exists [b0; b1; b2; b3]. now rewrite E0, R1.
  - congruence.
  - apply u32_range.
Qed.

Lemma wp_TimedAnimation_Load_size (filename : string)
    (frame_sets : gmap (string * Z) (@FrameSet ImageData)) s :
  0 ≤ rcd_size (rcd s) < 2 ^ 32 →
  wp True (TimedAnimation_Load filename frame_sets) s (λ _ s',
    ∀ frames, peek32 (remaining (rcd s)) 0 = Some frames → frames < 2 ^ 28 →
              rcd_size (rcd s) = 4 + 8 * frames
              ∧ took (Z.to_nat (rcd_size (rcd s))) s s').
Proof.
  intros Hsize. unfold TimedAnimation_Load. apply wp_bind, wp_get_reader.
  case_decide; [apply wp_return_false|].
  apply wp_bind, (wp_GetUInt32_at _ (remaining (rcd s)) 0); [done|].
  intros v s1 Hv _ T1 _ Hrange. cbv zeta.
  apply wp_bind, wp_modify_world.
  case_decide as Hsz; [apply wp_return_false|].
  case_decide as Hneg; [exact I|].
  apply wp_bind, wp_modify_world.
  eapply wp_reads; [reads|]. intros u s2 T2 frames Hframes Hsmall.
  assert (frames = v) as -> by congruence.
  rewrite (i32_id v) in * by lia.
  assert (rcd_size (rcd s) = 4 + 8 * v) as Hsz'.
  { apply i32_eq_small; [done | lia |].
    rewrite (i32_id (4 + 8 * v)) in Hsz by lia.
    destruct (decide (i32 (rcd_size (rcd s)) = 4 + 8 * v)); done. }
  split; [done|]. eapply took_eq.
  - eapply took_trans; [exact T1|]. exact T2.
  - lia.
Qed.
End ObjectsRead.

Lemma reads_block_intro {W A} (h : M W A) :
  (∀ s, 0 ≤ rcd_size (rcd s) < 2 ^ 32 →
        wp True h s (λ _ s', took (Z.to_nat (rcd_size (rcd s))) s s')) →
  reads_block h.
Proof.
  intros Hwp s a s' Hsize E. specialize (Hwp s Hsize). unfold wp in Hwp. rewrite E in Hwp.
  destruct Hwp as (payload & Hp & Hl). exists payload. split; [done | lia].
Qed.

Section BlocksAreReadWhole.
Context `{Headers} {ImageData : Type}.
Implicit Types sprites : gmap Z ImageData.

(** X2. A sprite-set handler that succeeds has read exactly the bytes of its
    block: the payload of the declared size.  For PDEC this needs the four
    edges of a tile, which its size check has as a number. *)
Theorem sprite_set_handlers_read_their_block sprites :
  reads_block (LoadSURF sprites)
  ∧ reads_block (LoadTSEL sprites)
  ∧ reads_block (LoadPATH sprites)
  ∧ ((EDGE_COUNT - EDGE_BEGIN = 4)%nat → reads_block (LoadPDEC sprites))
  ∧ reads_block (LoadTCOR sprites)
  ∧ reads_block (LoadFUND sprites)
  ∧ reads_block (LoadPLAT sprites)
  ∧ reads_block (LoadSUPP sprites)
  ∧ reads_block (LoadBDIR sprites).
Proof.
  split_and!; try intros Hedges; apply reads_block_intro; intros s _.
  - apply wp_LoadSURF_size.
  - apply wp_LoadTSEL_size.
  - apply wp_LoadPATH_size.
  - now apply wp_LoadPDEC_size.
  - apply wp_LoadTCOR_size.
  - apply wp_LoadFUND_size.
  - apply wp_LoadPLAT_size.
  - apply wp_LoadSUPP_size.
  - apply wp_LoadBDIR_size.
Qed.

(** X3. The blocks that are loaded into an object of their own: [Fence::Load],
    [Animation::Load], [AnimationSprites::Load] and [FrameSet::Load] succeed
    only when they have read exactly the payload of the declared size; so does
    [TimedAnimation::Load] for a number of frames below 2^28, and its block
    then has 4 + 8 * frames bytes. *)
Theorem object_loaders_read_their_block sprites (filename : string)
    (frame_sets : gmap (string * Z) (@FrameSet ImageData)) :
  reads_block (Fence_Load sprites)
  ∧ reads_block Animation_Load
  ∧ reads_block (AnimationSprites_Load sprites)
  ∧ reads_block (FrameSet_Load sprites)
  ∧ ∀ s u s' frames,
      0 ≤ rcd_size (rcd s) < 2 ^ 32 →
      TimedAnimation_Load filename frame_sets s = (Ok u, s') →
      peek32 (remaining (rcd s)) 0 = Some frames → frames < 2 ^ 28 →
      rcd_size (rcd s) = 4 + 8 * frames
      ∧ ∃ payload, remaining (rcd s) = payload ++ remaining (rcd s')
                   ∧ Z.of_nat (length payload) = rcd_size (rcd s).
Proof.
  split_and!.
  - apply reads_block_intro. intros s _. apply wp_Fence_Load_size.
  - apply reads_block_intro. intros s _. apply wp_Animation_Load_size.
  - apply reads_block_intro. intros s _. apply wp_AnimationSprites_Load_size.
  - apply reads_block_intro. intros s Hsize. now apply wp_FrameSet_Load_size.
  - intros s u s' frames Hsize E Hframes Hsmall.
    pose proof (wp_TimedAnimation_Load_size filename frame_sets s Hsize) as Hwp.
    unfold wp in Hwp. rewrite E in Hwp.
    destruct (Hwp frames Hframes Hsmall) as (Hsz & payload & Hp & Hl).
    split; [done|]. exists payload. split; [done | lia].
Qed.
End BlocksAreReadWhole.

Lemma sprite_set_handlers_read_their_block_witness :
  let s := mkState (reader_at_payload "TSEL" 2 example_tsel_payload)
                   (@SpriteStorage_new example_headers nat 64) in
  ∃ payload, remaining (rcd s) = payload ++ []
             ∧ Z.of_nat (length payload) = 96.
Proof.
  intros s.
  assert (∃ u s', @LoadTSEL example_headers nat ∅ s = (Ok u, s') ∧ remaining (rcd s') = [])
    as (u & s' & E & Hrest) by (vm_compute; eauto).
  destruct (@sprite_set_handlers_read_their_block example_headers nat ∅) as (_ & Htsel & _).
  destruct (Htsel s u s') as (payload & Hp & Hl).
  - vm_compute. split; [discriminate | reflexivity].
  - exact E.
  - exists payload. rewrite Hrest in Hp. split; [exact Hp | exact Hl].
Defined.

Lemma object_loaders_read_their_block_witness :
  let s := mkState (reader_at_payload "FSET" 1 example_fset_payload)
                   (@FrameSet_new nat) in
  let t := mkState (reader_at_payload "TIMA" 1 example_tima_payload)
                   (@TimedAnimation_new nat) in
  (∃ payload, remaining (rcd s) = payload ++ [] ∧ Z.of_nat (length payload) = 20)
  ∧ rcd_size (rcd t) = 4 + 8 * 1.
Proof.
  intros s t.
  destruct (@object_loaders_read_their_block example_headers nat ∅ "example.rcd" ∅)
    as (_ & _ & _ & Hfset & Htima).
  split.
  - assert (∃ u s', @FrameSet_Load nat ∅ s = (Ok u, s') ∧ remaining (rcd s') = [])
      as (u & s' & E & Hrest) by (vm_compute; eauto).
    destruct (Hfset s u s') as (payload & Hp & Hl).
    + vm_compute. split; [discriminate | reflexivity].
    + exact E.
    + exists payload. rewrite Hrest in Hp. split; [exact Hp | exact Hl].
  - assert (∃ u t', @TimedAnimation_Load nat "example.rcd" ∅ t = (Ok u, t'))
      as (u & t' & E) by (vm_compute; eauto).
    destruct (Htima t u t' 1) as [Hsz _].
    + vm_compute. split; [discriminate | reflexivity].
    + exact E.
    + vm_compute. reflexivity.
    + reflexivity.
    + exact Hsz.
Defined.

(** ** The dispatcher leaves the reader at the next block *)

Section BlockFraming.
Context `{Headers} {ImageData TrackPiece Ext : Type}.
Variable LoadImage : RcdFileReader → option ImageData * nat.
Variable TrackPiece_Load : RcdFileReader → gmap Z ImageData → option TrackPiece * nat.
Variable external : string → RcdFileReader → gmap Z ImageData → gmap Z TextData →
                    gmap Z TrackPiece → Ext → bool * nat * Ext.
Implicit Types ls : @LoopState ImageData TrackPiece Ext.

Local Abbreviation Load_block' := (Load_block LoadImage TrackPiece_Load external).
Local Abbreviation Load_loop' := (Load_loop LoadImage TrackPiece_Load external).

Lemma in_store_reads (h : M (@SpriteStorage ImageData) unit) msg ls ls' :
  reads_block h → 0 ≤ rcd_size (ls_rcd ls) < 2 ^ 32 →
  in_store h msg ls = Continue ls' →
  ∃ payload, remaining (ls_rcd ls) = payload ++ remaining (ls_rcd ls')
             ∧ Z.of_nat (length payload) = rcd_size (ls_rcd ls).
Proof.
  intros Hh Hsize. unfold in_store.
  destruct (h _) as [[u| |] st] eqn:E; [|discriminate..].
  intros [= <-]. exact (Hh (mkState (ls_rcd ls) _) _ _ Hsize E).
Qed.

Lemma load_object_reads {O} (h : M O unit) (obj : O) msg ls k ls' :
  reads_block h → 0 ≤ rcd_size (ls_rcd ls) < 2 ^ 32 →
  (∀ o ls1 ls2, k o ls1 = Continue ls2 → ls_rcd ls2 = ls_rcd ls1) →
  load_object h obj msg ls k = Continue ls' →
  ∃ payload, remaining (ls_rcd ls) = payload ++ remaining (ls_rcd ls')
             ∧ Z.of_nat (length payload) = rcd_size (ls_rcd ls).
Proof.
  intros Hh Hsize Hk. unfold load_object.
  destruct (h _) as [[u| |] st] eqn:E; [|discriminate..].
  intros Hc. apply Hk in Hc. rewrite Hc. exact (Hh (mkState (ls_rcd ls) _) _ _ Hsize E).
Qed.

Lemma skip_block_reads msg ls ls' :
  0 ≤ rcd_size (ls_rcd ls) →
  skip_block msg ls = Continue ls' →
  ∃ payload, remaining (ls_rcd ls) = payload ++ remaining (ls_rcd ls')
             ∧ Z.of_nat (length payload) = rcd_size (ls_rcd ls).
Proof.
  intros Hsize. unfold skip_block, SkipBytes. cbn [rcd]. case_decide as Hlen; [|discriminate].
  intros [= <-]. exists (take (Z.to_nat (rcd_size (ls_rcd ls))) (remaining (ls_rcd ls))).
  split.
  - cbn [ls_rcd with_rcd].
    change (remaining (ls_rcd ls)
            = take (Z.to_nat (rcd_size (ls_rcd ls))) (remaining (ls_rcd ls))
              ++ remaining (rcd (advance (Z.to_nat (rcd_size (ls_rcd ls)))
                                         (mkState (ls_rcd ls) tt)))).
    rewrite remaining_advance. cbn [rcd]. now rewrite take_drop.
  - rewrite length_take. lia.
Qed.

(** X4. A block whose handler is in this file, or whose name is not known:
    when the dispatcher goes on to the next block, the reader has passed
    exactly the payload of the declared size, so that it stands at the header
    that follows.  For a PDEC block this takes that the edges are four, as
    the size that [LoadPDEC] asks for has them.  For a TEXT block it takes
    that the file holds the payload: [ReadUtf8Text] does not look at the
    result of [GetBlob], and a TEXT block that the file ends in can load. *)
Theorem loaded_block_is_read_whole filename blk_num ls ls' :
  0 ≤ rcd_size (ls_rcd ls) < 2 ^ 32 →
  rcd_name (ls_rcd ls) ∈ own_tags ∨ rcd_name (ls_rcd ls) ∉ recognized_tags →
  (rcd_name (ls_rcd ls) = "PDEC"%string → (EDGE_COUNT - EDGE_BEGIN = 4)%nat) →
  (rcd_name (ls_rcd ls) = "TEXT"%string →
   rcd_size (ls_rcd ls) ≤ Z.of_nat (length (remaining (ls_rcd ls)))) →
  Load_block' filename blk_num ls = Continue ls' →
  ∃ payload, remaining (ls_rcd ls) = payload ++ remaining (ls_rcd ls')
             ∧ Z.of_nat (length payload) = rcd_size (ls_rcd ls).
Proof.
  intros Hsize [Hin|Hout] Hedges Hwhole.
  - unfold own_tags in Hin. rewrite !elem_of_cons in Hin.
    destruct Hin as [E|[E|[E|[E|[E|[E|[E|[E|[E|[E|[E|[E|[E|[E|[E|E]]]]]]]]]]]]]]];
      [..|now apply elem_of_nil in E]; unfold Load_block; rewrite E;
      repeat (rewrite decide_False by (first [discriminate | intros [?|?]; discriminate]));
      rewrite decide_True by reflexivity.
    + apply skip_block_reads. lia.
    + apply in_store_reads; [|done]. apply reads_block_intro. intros. apply wp_LoadSURF_size.
    + apply in_store_reads; [|done]. apply reads_block_intro. intros. apply wp_LoadTSEL_size.
    + apply in_store_reads; [|done]. apply reads_block_intro. intros. apply wp_LoadPATH_size.
    + apply in_store_reads; [|done]. apply reads_block_intro. intros.
      apply wp_LoadPDEC_size. now apply Hedges.
    + apply in_store_reads; [|done]. apply reads_block_intro. intros. apply wp_LoadTCOR_size.
    + apply in_store_reads; [|done]. apply reads_block_intro. intros. apply wp_LoadFUND_size.
    + apply in_store_reads; [|done]. apply reads_block_intro. intros. apply wp_LoadPLAT_size.
    + apply in_store_reads; [|done]. apply reads_block_intro. intros. apply wp_LoadSUPP_size.
    + apply in_store_reads; [|done]. apply reads_block_intro. intros. apply wp_LoadBDIR_size.
    + apply load_object_reads; [|done|].
      { apply reads_block_intro. intros. apply wp_Fence_Load_size. }
      intros o ls1 ls2.
      destruct (AddFence _ _); [|discriminate]. now intros [= <-].
    + apply load_object_reads; [|done|].
      { apply reads_block_intro. intros. apply wp_Animation_Load_size. }
      intros o ls1 ls2.
      case_decide; [discriminate|]. now intros [= <-].
    + apply load_object_reads; [|done|].
      { apply reads_block_intro. intros. apply wp_AnimationSprites_Load_size. }
      intros o ls1 ls2.
      case_decide; [discriminate|].
      destruct (AddAnimationSprites _ _); [|discriminate]. now intros [= <-].
    + pose proof (wp_TextData_Load True (mkState (ls_rcd ls) tt) (or_introl I) Hsize) as Hwp.
      unfold wp in Hwp. destruct (TextData_Load _) as [[txt| |] st]; [|discriminate..].
      intros [= <-]. destruct Hwp as (count & stored & _ & _ & _ & _ & _ & Hlay).
      destruct (strings_layout_bytes _ _ _ _ _ Hlay) as (_ & _ & Hbytes).
      apply Hbytes. now apply Hwhole.
    + apply load_object_reads; [|done|].
      { apply reads_block_intro. intros. now apply wp_FrameSet_Load_size. }
      intros o ls1 ls2. now intros [= <-].
  - rewrite Load_block_unknown by done. intros Hskip.
    apply skip_block_reads in Hskip; [|cbn; lia]. exact Hskip.
Qed.
End BlockFraming.

Lemma loaded_block_is_read_whole_witness :
  let ls := example_state (reader_at_payload "TSEL" 2 example_tsel_payload) in
  ∃ payload, remaining (ls_rcd ls) = payload ++ [] ∧ Z.of_nat (length payload) = 96.
Proof.
  intros ls.
  assert (∃ ls', @Load_block example_headers nat unit unit example_LoadImage
                   example_TrackPiece_Load example_external "example.rcd" 2 ls = Continue ls'
                 ∧ remaining (ls_rcd ls') = [])
    as (ls' & E & Hrest) by (vm_compute; eauto).
  destruct (@loaded_block_is_read_whole example_headers nat unit unit example_LoadImage
              example_TrackPiece_Load example_external "example.rcd" 2 ls ls')
    as (payload & Hp & Hl).
  - vm_compute. split; [discriminate | reflexivity].
  - left. unfold own_tags. rewrite !elem_of_cons. auto 20.
  - reflexivity.
  - discriminate.
  - exact E.
  - exists payload. rewrite Hrest in Hp. split; [exact Hp | exact Hl].
Defined.

(** ** What the handlers store *)

Section LoadsReferences.
Context {W : Type} (F : Prop).
Implicit Types s : LoadState W.

Lemma wp_LoadSpriteFromFile_at {ImageData} (sprites : gmap Z ImageData) (l : list byte) off s
    (Q : option ImageData → LoadState W → Prop) :
  remaining (rcd s) = drop off l →
  (∀ id spr s', peek32 l off = Some id → resolve sprites id = Some spr →
                remaining (rcd s') = drop (off + 4) l → world s' = world s → Q spr s') →
  wp F (LoadSpriteFromFile sprites) s Q.
Proof.
  intros Hrem HQ. unfold LoadSpriteFromFile.
  apply wp_bind, (wp_GetUInt32_at _ l off); [done|]. intros val s1 Hval R1 _ W1 _.
  case_decide as Hz.
  - apply wp_ret. apply (HQ val); [done | | done | done]. unfold resolve. now rewrite decide_True.
  - destruct (sprites !! val) as [spr|] eqn:E; [|apply wp_return_false].
    apply wp_ret. apply (HQ val); [done | | done | done].
    unfold resolve. rewrite decide_False by done. now rewrite E.
Qed.

Lemma wp_load_sprite_to_at {ImageData} (sprites : gmap Z ImageData) (l : list byte) off
    (put : option ImageData → W → W) s (Q : unit → LoadState W → Prop) :
  remaining (rcd s) = drop off l →
  (∀ id spr s', peek32 l off = Some id → resolve sprites id = Some spr →
                remaining (rcd s') = drop (off + 4) l → world s' = put spr (world s) →
                Q tt s') →
  wp F (load_sprite_to sprites put) s Q.
Proof.
  intros Hrem HQ. unfold load_sprite_to.
  apply wp_bind, (wp_LoadSpriteFromFile_at sprites l off); [done|].
  intros id spr s1 Hid Hres R1 W1. apply wp_modify_world.
  apply (HQ id spr); [done | done | done |]. cbn. now rewrite W1.
Qed.

(** A loop that loads [n] references into the slots of an array: [get] is the
    array in the object that is filled, [put i spr] the assignment to its slot
    [i], and [J] what the assignments keep. *)
Lemma wp_load_sprites {ImageData} (sprites : gmap Z ImageData) (l : list byte)
    (get : W → list (option ImageData)) (put : nat → option ImageData → W → W)
    (J : W → Prop) n off s :
  remaining (rcd s) = drop off l →
  (∀ i spr w, get (put i spr w) = <[i := spr]> (get w)) →
  (∀ i spr w, J w → J (put i spr w)) →
  (n ≤ length (get (world s)))%nat → J (world s) →
  wp F (for_each 0 n (λ i, load_sprite_to sprites (put i))) s (λ _ s',
    remaining (rcd s') = drop (off + 4 * n) l
    ∧ refs_loaded sprites l off n (get (world s'))
    ∧ length (get (world s')) = length (get (world s))
    ∧ J (world s')).
Proof.
  intros Hrem Hget HJ Hlen HJ0.
  apply (wp_for_each F 0 n _ (λ i s1,
    remaining (rcd s1) = drop (off + 4 * i) l
    ∧ refs_loaded sprites l off i (get (world s1))
    ∧ length (get (world s1)) = length (get (world s))
    ∧ J (world s1))).
  - split_and!; [now rewrite Nat.mul_0_r, Nat.add_0_r | intros j Hj; lia | done | done].
  - intros i s1 Hi (R1 & Hrefs & Hlen1 & HJ1).
    apply (wp_load_sprite_to_at sprites l (off + 4 * i)); [done|].
    intros id spr s2 Hid Hres R2 W2. rewrite W2, Hget. split_and!.
    + rewrite R2. f_equal. lia.
    + intros j Hj. destruct (decide (j = i)) as [->|Hne].
      * exists id, spr. split_and!; [done | done |].
        apply list_lookup_insert_eq. lia.
      * destruct (Hrefs j) as (id' & spr' & ? & ? & ?); [lia|].
        exists id', spr'. split_and!; [done | done |].
        now rewrite list_lookup_insert_ne.
    + now rewrite length_insert.
    + now apply HJ.
Qed.
End LoadsReferences.

Section FenceFacts.
Context `{Headers} {ImageData : Type}.
Implicit Types sprites : gmap Z ImageData.

(** What [Fence::Load] requires of its block, and what it loads. *)
Lemma wp_Fence_Load sprites (s : LoadState (@Fence ImageData)) :
  (FENCE_COUNT ≤ length (fence_sprites (world s)))%nat →
  wp False (Fence_Load sprites) s (λ _ s',
    rcd_version (rcd s) = 2
    ∧ rcd_size (rcd s) = 2 + 2 + 4 * Z.of_nat FENCE_COUNT
    ∧ ∃ width type,
        peek16 (remaining (rcd s)) 0 = Some width
        ∧ peek16 (remaining (rcd s)) 2 = Some type
        ∧ type < FENCE_TYPE_COUNT
        ∧ fence_width (world s') = width
        ∧ fence_type (world s') = type
        ∧ refs_loaded sprites (remaining (rcd s)) 4 FENCE_COUNT (fence_sprites (world s'))).
Proof.
  intros Hlen. unfold Fence_Load. apply wp_bind, wp_get_reader.
  case_decide as Hhdr; [apply wp_return_false|].
  apply wp_bind, (wp_GetUInt16_at _ (remaining (rcd s)) 0%nat); [done|].
  intros width s1 Hwidth R1 W1 _.
  apply wp_bind, wp_modify_world.
  apply wp_bind, (wp_GetUInt16_at _ (remaining (rcd s)) 2%nat); [done|].
  intros type s2 Htype R2 W2 _.
  apply wp_bind, wp_modify_world.
  case_decide as Htc; [apply wp_return_false|].
  eapply wp_conseq.
  - apply (wp_load_sprites False sprites (remaining (rcd s)) fence_sprites
             (λ i spr f, mkFence (fence_type f) (fence_width f) (<[i := spr]> (fence_sprites f)))
             (λ f, fence_width f = width ∧ fence_type f = type) FENCE_COUNT 4).
    + done.
    + done.
    + intros i spr w [? ?]. done.
    + cbn. rewrite W2. cbn. now rewrite W1.
    + cbn. rewrite W2. cbn. done.
  - cbv beta. intros u s' (_ & Hrefs & _ & Hw & Ht).
    split_and!; [lia | lia |]. exists width, type. split_and!; try done. lia.
Qed.
End FenceFacts.

Section AnimationSpritesFacts.
Context `{Headers} {ImageData : Type}.
Implicit Types sprites : gmap Z ImageData.

(** What [AnimationSprites::Load] requires of its block, and what it loads. *)
Lemma wp_AnimationSprites_Load sprites (s : LoadState (@AnimationSprites ImageData)) :
  wp False (AnimationSprites_Load sprites) s (λ _ s',
    rcd_version (rcd s) = 3
    ∧ ∃ width pt at_ frame_count,
        peek16 (remaining (rcd s)) 0 = Some width
        ∧ peek8 (remaining (rcd s)) 2 = Some pt
        ∧ peek16 (remaining (rcd s)) 3 = Some at_
        ∧ peek16 (remaining (rcd s)) 5 = Some frame_count
        ∧ In pt [0; 8; 16; 17; 18; 19; 20]
        ∧ ANIM_BEGIN ≤ at_ ≤ ANIM_LAST
        ∧ 1 ≤ frame_count
        ∧ rcd_size (rcd s) = 2 + 1 + 2 + 2 + frame_count * 4
        ∧ ansp_width (world s') = width
        ∧ ansp_person_type (world s') = DecodePersonType pt
        ∧ ansp_person_type (world s') ≠ PERSON_INVALID
        ∧ ansp_anim_type (world s') = at_
        ∧ ansp_frame_count (world s') = frame_count
        ∧ length (ansp_sprites (world s')) = Z.to_nat frame_count
        ∧ refs_loaded sprites (remaining (rcd s)) 7 (Z.to_nat frame_count)
                      (ansp_sprites (world s'))).
Proof.
  unfold AnimationSprites_Load. apply wp_bind, wp_get_reader. cbv zeta.
  case_decide as Hhdr; [apply wp_return_false|].
  apply wp_bind, (wp_GetUInt16_at _ (remaining (rcd s)) 0%nat); [done|].
  intros width s0 Hwidth R0 W0 _.
  apply wp_bind, wp_modify_world.
  apply wp_bind, (wp_GetUInt8_at _ (remaining (rcd s)) 2%nat); [done|].
  intros pt s1 Hpt R1 W1 _.
  apply wp_bind, wp_modify_world. case_decide as Hperson; [apply wp_return_false|].
  apply wp_bind, (wp_GetUInt16_at _ (remaining (rcd s)) 3%nat); [done|].
  intros at_ s2 Hat R2 W2 _. case_decide as Hanim; [apply wp_return_false|].
  apply wp_bind, wp_modify_world.
  apply wp_bind, (wp_GetUInt16_at _ (remaining (rcd s)) 5%nat); [done|].
  intros frame_count s3 Hfc R3 W3 Hfc_range.
  apply wp_bind, wp_modify_world. case_decide as Hsize; [apply wp_return_false|].
  apply wp_bind, wp_modify_world. case_decide as Hzero; [apply wp_return_false|].
  eapply wp_conseq.
  - apply (wp_load_sprites False sprites (remaining (rcd s)) ansp_sprites
             (λ i spr a, mkAnimationSprites (ansp_width a) (ansp_frame_count a)
                           (ansp_person_type a) (ansp_anim_type a)
                           (<[i := spr]> (ansp_sprites a)))
             (λ a, ansp_width a = width ∧ ansp_frame_count a = frame_count
                   ∧ ansp_person_type a = DecodePersonType pt ∧ ansp_anim_type a = at_)
             (Z.to_nat frame_count) 7).
    + done.
    + done.
    + intros i spr w (? & ? & ? & ?). done.
    + cbn. now rewrite length_replicate.
    + cbn. rewrite W3. cbn. rewrite W2. cbn. rewrite W1. cbn. done.
  - cbv beta. cbn [world ansp_sprites]. rewrite length_replicate.
    intros u s' (_ & Hrefs & Hlen & Hw & Hf & Hp & Ha).
    split; [lia|]. exists width, pt, at_, frame_count.
    split_and!; first [done | lia | now apply DecodePersonType_valid | now rewrite Hp].
Qed.
End AnimationSpritesFacts.

(** ** Timed animations *)

Lemma sum_to_S n (l : list Z) d :
  l !! n = Some d → sum_to (S n) l = sum_to n l + d.
Proof.
  unfold sum_to. revert l. induction n as [|n IH]; intros [|x l] E; try discriminate.
  - injection E as ->. cbn. rewrite ?take_0. cbn. lia.
  - cbn in E. specialize (IH l E). cbn. cbn in IH. lia.
Qed.

Lemma sum_to_all n (l : list Z) : (length l ≤ n)%nat → sum_to n l = sum_to (length l) l.
Proof. intros Hn. unfold sum_to. now rewrite !take_ge by lia. Qed.

Lemma sum_to_mono (l : list Z) : Forall (λ d, 0 ≤ d) l →
  ∀ n k, (n ≤ k)%nat → sum_to n l ≤ sum_to k l.
Proof.
  intros Hpos n k Hnk. induction Hnk as [|k Hnk IH]; [lia|].
  destruct (l !! k) as [d|] eqn:E.
  - rewrite (sum_to_S _ _ _ E). rewrite Forall_forall in Hpos.
    specialize (Hpos d (list_elem_of_lookup_2 _ _ _ E)). cbv beta in Hpos. lia.
  - apply lookup_ge_None in E. rewrite (sum_to_all (S k)), (sum_to_all k) in * by lia. lia.
Qed.

Lemma sum_to_0 (l : list Z) : sum_to 0 l = 0.
Proof. unfold sum_to. now rewrite take_0. Qed.

Lemma sum_to_nonneg (l : list Z) n : Forall (λ d, 0 ≤ d) l → 0 ≤ sum_to n l.
Proof. intros Hpos. rewrite <- (sum_to_0 l). apply sum_to_mono; [done | lia]. Qed.

Lemma add_durations_sum (durations : list Z) : ∀ n i total,
  (i + n ≤ length durations)%nat →
  Forall (λ d, 0 ≤ d) durations →
  total = sum_to i durations →
  sum_to (i + n) durations < 2 ^ 31 →
  add_durations n i durations total = Some (sum_to (i + n) durations).
Proof.
  induction n as [|n IH]; intros i total Hlen Hpos -> Hsum.
  - cbn. now rewrite Nat.add_0_r.
  - cbn [add_durations].
    destruct (lookup_lt_is_Some_2 durations i ltac:(lia)) as [d E]. rewrite E.
    pose proof (sum_to_nonneg _ i Hpos) as H0.
    pose proof (sum_to_mono _ Hpos (S i) (i + S n) ltac:(lia)) as H1.
    rewrite (sum_to_S _ _ _ E) in H1.
    assert (0 ≤ d) as Hd.
    { rewrite Forall_forall in Hpos. apply (Hpos d). eapply list_elem_of_lookup_2. exact E. }
    rewrite i32_id by lia. replace (i + S n)%nat with (S i + n)%nat in * by lia.
    apply IH; [lia | done | now rewrite (sum_to_S _ _ _ E) | done].
Qed.

Lemma find_frame_spec (durations : list Z) (t : Z) : ∀ n i time,
  (i + n ≤ length durations)%nat →
  Forall (λ d, 0 ≤ d) durations →
  sum_to (i + n) durations < 2 ^ 31 →
  0 ≤ t ≤ sum_to (i + n) durations →
  time = t - sum_to i durations →
  (i = 0%nat ∨ 0 < time) →
  (0 < n)%nat →
  ∃ r, find_frame n i durations time = Some (Z.of_nat r)
       ∧ (i ≤ r < i + n)%nat
       ∧ t ≤ sum_to (S r) durations
       ∧ ∀ j, (i ≤ j < r)%nat → sum_to (S j) durations < t.
Proof.
  induction n as [|n IH]; intros i time Hlen Hpos Hsum Ht -> Hstart Hn; [lia|].
  cbn [find_frame].
  destruct (lookup_lt_is_Some_2 durations i ltac:(lia)) as [d E]. rewrite E.
  pose proof (sum_to_nonneg _ i Hpos) as H0.
  pose proof (sum_to_mono _ Hpos (S i) (i + S n) ltac:(lia)) as H1.
  pose proof (sum_to_S _ _ _ E) as HS.
  assert (0 ≤ d) as Hd.
  { rewrite Forall_forall in Hpos. apply (Hpos d). eapply list_elem_of_lookup_2. exact E. }
  rewrite i32_id by lia.
  case_decide as Hle.
  - exists i. split; [done|]. split; [lia|]. split; [lia|]. intros j Hj. lia.
  - destruct n as [|n].
    { exfalso. replace (i + 1)%nat with (S i) in * by lia. lia. }
    replace (i + S (S n))%nat with (S i + S n)%nat in * by lia.
    destruct (IH (S i) (t - sum_to i durations - d)) as (r & Hr & Hrange & Hup & Hlow);
      [lia | done | done | done | lia | right; lia | lia |].
    exists r. split; [done|]. split; [lia|]. split; [done|].
    intros j Hj. destruct (decide (j = i)) as [->|]; [lia|]. apply Hlow. lia.
Qed.

(** X5. An animation with as many durations as frames, none of them negative,
    that lasts less than 2^31 ms in all, and a time that is an [int].
    [GetTotalDuration] is the sum of the durations.  [GetFrame] gives no
    frame (-1) when the animation lasts no time at all, or when it is played
    once and the time is before its end, as every negative time is.
    Otherwise, for a time that is not negative, it gives the number of a
    frame of the animation, namely the first frame that ends at or after the
    time taken modulo the total duration.  For a negative time and an
    animation that loops, the remainder that [%] gives is not positive, and
    [GetFrame] gives the frame 0, as long as taking the first duration off
    the remainder stays within [int].  In none of these cases does it come to
    [NOT_REACHED()]. *)
Theorem GetFrame_finds_the_frame {ImageData} (ta : @TimedAnimation ImageData) time loop_around :
  length (tima_durations ta) = Z.to_nat (tima_frames ta) →
  Forall (λ d, 0 ≤ d) (tima_durations ta) →
  sum_to (length (tima_durations ta)) (tima_durations ta) < 2 ^ 31 →
  - 2 ^ 31 ≤ time < 2 ^ 31 →
  let total := sum_to (length (tima_durations ta)) (tima_durations ta) in
  GetTotalDuration ta = Some total
  ∧ (total ≤ 0 ∨ (loop_around = false ∧ time < total) →
     GetFrame time loop_around ta = Some (-1))
  ∧ (0 < total → 0 ≤ time → loop_around = true ∨ total ≤ time →
     ∃ r, GetFrame time loop_around ta = Some (Z.of_nat r)
          ∧ (r < length (tima_durations ta))%nat
          ∧ time mod total ≤ sum_to (S r) (tima_durations ta)
          ∧ ∀ j, (j < r)%nat → sum_to (S j) (tima_durations ta) < time mod total)
  ∧ (0 < total → time < 0 → loop_around = true →
     ∀ d, tima_durations ta !! 0%nat = Some d →
          - 2 ^ 31 ≤ Z.rem time total - d →
          Z.rem time total ≤ 0 ∧ GetFrame time loop_around ta = Some 0).
Proof.
  intros Hlen Hpos Hsum Htime total.
  assert (GetTotalDuration ta = Some total) as Htotal.
  { unfold GetTotalDuration. rewrite <- Hlen.
    apply (add_durations_sum _ (length (tima_durations ta)) 0 0); [lia | done | | done].
    now rewrite sum_to_0. }
  split; [done|]. split_and!.
  - intros Hnone. unfold GetFrame. rewrite Htotal. rewrite decide_True; [done|].
    destruct Hnone as [?|[? ?]]; [left; lia | right; split; [done | lia]].
  - intros Hpos_total Htime0 Hplay. unfold GetFrame. rewrite Htotal.
    rewrite decide_False.
    2:{ intros [?|[? ?]]; [lia|]. destruct Hplay as [?|?]; [congruence | lia]. }
    rewrite Z.rem_mod_nonneg by lia. rewrite <- Hlen.
    pose proof (Z.mod_pos_bound time total Hpos_total) as Hmod.
    destruct (find_frame_spec (tima_durations ta) (time mod total)
                (length (tima_durations ta)) 0 (time mod total))
      as (r & Hr & Hrange & Hup & Hlow).
    + lia.
    + done.
    + done.
    + cbn [Nat.add]. subst total. lia.
    + rewrite sum_to_0. lia.
    + now left.
    + destruct (tima_durations ta); [|cbn; lia]. unfold total, sum_to in Hpos_total.
      cbn in Hpos_total. lia.
    + exists r. split; [done|]. split; [lia|]. split; [done|].
      intros j Hj. apply Hlow. lia.
  - intros Hpos_total Hneg Hloop d Hd Hfits.
    assert (Z.rem time total ≤ 0) as Hrem by (apply Z.rem_nonpos; lia).
    split; [done|]. unfold GetFrame. rewrite Htotal.
    rewrite decide_False by (intros [?|[? ?]]; [lia | congruence]).
    rewrite <- Hlen. destruct (tima_durations ta) as [|d0 durations]; [discriminate|].
    injection Hd as ->. cbn [length find_frame lookup list_lookup].
    apply Forall_cons in Hpos as [Hd _].
    rewrite i32_id by lia. now rewrite decide_True by lia.
Qed.

Lemma GetFrame_finds_the_frame_witness :
  (∃ r, GetFrame 350 true example_timed_animation = Some (Z.of_nat r) ∧ (r < 3)%nat)
  ∧ GetFrame 350 false example_timed_animation = Some (-1)
  ∧ GetFrame (-5) true example_timed_animation = Some 0.
Proof.
  destruct (GetFrame_finds_the_frame example_timed_animation 350 true)
    as (_ & _ & Hloop & _).
  { reflexivity. } { repeat constructor; lia. } { vm_compute. reflexivity. } { lia. }
  destruct (GetFrame_finds_the_frame example_timed_animation 350 false)
    as (_ & Honce & _).
  { reflexivity. } { repeat constructor; lia. } { vm_compute. reflexivity. } { lia. }
  destruct (GetFrame_finds_the_frame example_timed_animation (-5) true)
    as (_ & _ & _ & Hneg).
  { reflexivity. } { repeat constructor; lia. } { vm_compute. reflexivity. } { lia. }
  split_and!.
  - destruct Hloop as (r & Hr & Hlt & _); [vm_compute; reflexivity | lia | now left |].
    exists r. split; [exact Hr | exact Hlt].
  - apply Honce. right. split; [reflexivity | vm_compute; reflexivity].
  - apply (Hneg ltac:(vm_compute; reflexivity) ltac:(lia) eq_refl 100); [reflexivity|].
    vm_compute. discriminate.
Defined.

(** ** Assertions of the sprite manager *)

(** Goals [wp F m s (λ _ _, True)] for a whole handler. *)
Ltac never_faults :=
  repeat first
    [ apply wp_return_false
    | apply wp_load_sprite_to_true
    | apply wp_LoadSpriteFromFile_true
    | apply wp_GetUInt32_true
    | apply wp_GetUInt16_true
    | apply wp_GetUInt8_true
    | apply wp_get_reader; exact I
    | apply wp_modify_world; exact I
    | apply wp_ret; exact I
    | apply wp_for_each_true; intros
    | apply wp_bind_true; [|intros]
    | match goal with
      | |- wp _ (if decide _ then _ else _) _ _ => case_decide
      | |- wp _ (match ?x with _ => _ end) _ _ => destruct x
      end
    | progress cbv zeta
    | progress unfold GetInt16 ].

Section NoFaults.
Context `{Headers} {ImageData : Type}.
Implicit Types sprites : gmap Z ImageData.

Lemma LoadSURF_safe sprites s : wp False (LoadSURF sprites) s (λ _ _, True).
Proof. unfold LoadSURF. never_faults. Qed.
Lemma LoadTSEL_safe sprites s : wp False (LoadTSEL sprites) s (λ _ _, True).
Proof. unfold LoadTSEL. never_faults. Qed.
Lemma LoadPATH_safe sprites s : wp False (LoadPATH sprites) s (λ _ _, True).
Proof. unfold LoadPATH. never_faults. Qed.
Lemma LoadPDEC_safe sprites s : wp False (LoadPDEC sprites) s (λ _ _, True).
Proof. unfold LoadPDEC. never_faults. Qed.
Lemma LoadTCOR_safe sprites s : wp False (LoadTCOR sprites) s (λ _ _, True).
Proof. unfold LoadTCOR. never_faults. Qed.
Lemma LoadFUND_safe sprites s : wp False (LoadFUND sprites) s (λ _ _, True).
Proof. unfold LoadFUND. never_faults. Qed.
Lemma LoadPLAT_safe sprites s : wp False (LoadPLAT sprites) s (λ _ _, True).
Proof. unfold LoadPLAT. never_faults. Qed.
Lemma LoadSUPP_safe sprites s : wp False (LoadSUPP sprites) s (λ _ _, True).
Proof. unfold LoadSUPP. never_faults. Qed.
Lemma LoadBDIR_safe sprites s : wp False (LoadBDIR sprites) s (λ _ _, True).
Proof. unfold LoadBDIR. never_faults. Qed.
Lemma Fence_Load_safe sprites s : wp False (Fence_Load sprites) s (λ _ _, True).
Proof. unfold Fence_Load. never_faults. Qed.
Lemma AnimationSprites_Load_safe sprites s :
  wp False (AnimationSprites_Load sprites) s (λ _ _, True).
Proof. unfold AnimationSprites_Load. never_faults. Qed.
Lemma Animation_Load_safe s : wp False Animation_Load s (λ _ _, True).
Proof. unfold Animation_Load. never_faults. Qed.
Lemma FrameSet_Load_safe sprites s : wp False (FrameSet_Load sprites) s (λ _ _, True).
Proof. unfold FrameSet_Load. never_faults. Qed.
End NoFaults.

Section Assertions.
Context `{Headers} {ImageData TrackPiece Ext : Type}.
Variable LoadImage : RcdFileReader → option ImageData * nat.
Variable TrackPiece_Load : RcdFileReader → gmap Z ImageData → option TrackPiece * nat.
Variable external : string → RcdFileReader → gmap Z ImageData → gmap Z TextData →
                    gmap Z TrackPiece → Ext → bool * nat * Ext.
Implicit Types ls : @LoopState ImageData TrackPiece Ext.

Local Abbreviation Load_block' := (Load_block LoadImage TrackPiece_Load external).

Lemma in_store_no_Abort (h : M (@SpriteStorage ImageData) unit) msg ls ls' :
  (∀ s, wp False h s (λ _ _, True)) → in_store h msg ls ≠ Abort ls'.
Proof.
  intros Hh. unfold in_store.
  specialize (Hh (mkState (ls_rcd ls) (store (ls_manager ls)))). unfold wp in Hh.
  destruct (h _) as [[u| |] st]; done.
Qed.

Lemma load_object_Abort {O} (h : M O unit) (obj : O) msg ls k ls' :
  (∀ s, wp False h s (λ _ _, True)) →
  load_object h obj msg ls k = Abort ls' →
  ∃ u st, h (mkState (ls_rcd ls) obj) = (Ok u, st)
          ∧ k (world st) (with_rcd (rcd st) ls) = Abort ls'.
Proof.
  intros Hh. unfold load_object.
  specialize (Hh (mkState (ls_rcd ls) obj)). unfold wp in Hh.
  destruct (h _) as [[u| |] st]; [|done..]. intros Hk. now exists u, st.
Qed.

Lemma external_block_no_Abort tag msg ls ls' : external_block external tag msg ls ≠ Abort ls'.
Proof.
  unfold external_block. destruct (external _ _ _ _ _ _) as [[ok n] e]. now destruct ok.
Qed.

Lemma skip_block_no_Abort msg ls ls' : skip_block msg ls ≠ Abort ls'.
Proof. unfold skip_block. destruct (SkipBytes _ _) as [[u| |] st]; done. Qed.

Lemma Fence_new_slots : (FENCE_COUNT ≤ length (fence_sprites (@Fence_new _ ImageData)))%nat.
Proof. unfold Fence_new, no_sprites. cbn. now rewrite length_replicate. Qed.

(** X6. The assertions on the way of a block fail for a width only.  When the
    dispatcher stops at an assertion, the block is a FENC or an ANSP block
    that has been loaded and whose tile width is not the width of the sprite
    storage; and each FENC block that loads with such a width stops it there. *)
Theorem assertions_fail_on_width_only filename blk_num ls :
  (∀ lang_name, GetLanguageIndex lang_name < Z.of_nat LANGUAGE_COUNT) →
  0 ≤ rcd_size (ls_rcd ls) < 2 ^ 32 →
  (∀ ls', Load_block' filename blk_num ls = Abort ls' →
     (rcd_name (ls_rcd ls) = "FENC"%string ∨ rcd_name (ls_rcd ls) = "ANSP"%string)
     ∧ ∃ width, peek16 (remaining (ls_rcd ls)) 0 = Some width
                ∧ width ≠ ss_size (store (ls_manager ls)))
  ∧ (∀ u st width,
       rcd_name (ls_rcd ls) = "FENC"%string →
       Fence_Load (ls_sprites ls) (mkState (ls_rcd ls) Fence_new) = (Ok u, st) →
       peek16 (remaining (ls_rcd ls)) 0 = Some width →
       width ≠ ss_size (store (ls_manager ls)) →
       ∃ ls', Load_block' filename blk_num ls = Abort ls').
Proof.
  intros Hlang Hsize. split.
  - intros ls'. unfold Load_block.
    repeat (case_decide;
      [first [ now intros ?%skip_block_no_Abort
             | now intros ?%external_block_no_Abort
             | intros Hin; exfalso; revert Hin; apply in_store_no_Abort; intros s;
               first [ apply LoadSURF_safe | apply LoadTSEL_safe | apply LoadPATH_safe
                     | apply LoadPDEC_safe | apply LoadTCOR_safe | apply LoadFUND_safe
                     | apply LoadPLAT_safe | apply LoadSUPP_safe | apply LoadBDIR_safe ]
             | idtac ] |]).
    all: try (now intros ?%skip_block_no_Abort).
    + (* 8PXL, 32PX *)
      destruct (LoadImage _) as [[imd|] n]; discriminate.
    + (* FENC *)
      intros Hab. apply load_object_Abort in Hab as (u & st & E & Hk);
        [|intros s; apply Fence_Load_safe].
      split; [now left|].
      pose proof (wp_Fence_Load (ls_sprites ls) (mkState (ls_rcd ls) Fence_new)
                    Fence_new_slots) as Hwp.
      apply (wp_Ok _ _ _ _ _ _ Hwp) in E
        as (_ & _ & width & type & Hwidth & _ & Htype & Hw & Ht & _).
      exists width. split; [exact Hwidth|]. intros Heq.
      unfold AddFence in Hk. cbn [ls_manager with_rcd] in Hk.
      rewrite decide_True in Hk; [discriminate|]. split; [congruence | lia].
    + (* ANIM *)
      intros Hab. apply load_object_Abort in Hab as (u & st & E & Hk);
        [|intros s; apply Animation_Load_safe].
      case_decide; discriminate.
    + (* ANSP *)
      intros Hab. apply load_object_Abort in Hab as (u & st & E & Hk);
        [|intros s; apply AnimationSprites_Load_safe].
      split; [now right|].
      pose proof (wp_AnimationSprites_Load (ls_sprites ls)
                    (mkState (ls_rcd ls) AnimationSprites_new)) as Hwp.
      apply (wp_Ok _ _ _ _ _ _ Hwp) in E
        as (_ & width & pt & at_ & fc & Hwidth & _ & _ & _ & _ & _ & _ & _ & Hw & _).
      exists width. split; [exact Hwidth|]. intros Heq.
      case_decide; [discriminate|].
      unfold AddAnimationSprites in Hk. cbn [ls_manager with_rcd] in Hk.
      rewrite decide_True in Hk; [discriminate|]. congruence.
    + (* TEXT *)
      pose proof (wp_TextData_Load False (mkState (ls_rcd ls) tt) (or_intror Hlang) Hsize)
        as Hwp.
      unfold wp in Hwp. destruct (TextData_Load _) as [[txt| |] st]; done.
    + (* FSET *)
      intros Hab. apply load_object_Abort in Hab as (u & st & E & Hk);
        [|intros s; apply FrameSet_Load_safe]. discriminate.
    + (* TIMA *)
      destruct (TimedAnimation_Load _ _ _) as [[u| |] st]; discriminate.
    + (* TRCK *)
      destruct (TrackPiece_Load _ _) as [[tp|] n]; discriminate.
    + (* CARS *)
      destruct (external_block external "GetNewCarType" _ ls) as [ls1| | |] eqn:E1.
      * now intros ?%external_block_no_Abort.
      * discriminate.
      * now apply external_block_no_Abort in E1.
      * discriminate.
  - intros u st width Hname E Hwidth Hne.
    pose proof (wp_Fence_Load (ls_sprites ls) (mkState (ls_rcd ls) Fence_new)
                  Fence_new_slots) as Hwp.
    apply (wp_Ok _ _ _ _ _ _ Hwp) in E as HE.
    destruct HE as (_ & _ & width' & type & Hwidth' & _ & Htype & Hw & Ht & _).
    assert (width' = width) as -> by (cbn in Hwidth'; congruence).
    unfold Load_block. rewrite Hname.
    repeat (rewrite decide_False by (first [discriminate | intros [?|?]; discriminate])).
    rewrite decide_True by reflexivity.
    unfold load_object. rewrite E. unfold AddFence. cbn [ls_manager with_rcd].
    rewrite decide_False; [eauto|]. intros [Heq _]. congruence.
Qed.
End Assertions.

Lemma assertions_fail_on_width_only_witness :
  let ls := example_state (reader_at_payload "FENC" 2 (example_fence_payload 32)) in
  ∃ ls', @Load_block example_headers nat unit unit example_LoadImage example_TrackPiece_Load
           example_external "example.rcd" 1 ls = Abort ls'.
Proof.
  intros ls.
  assert (∃ u st, @Fence_Load example_headers nat (ls_sprites ls)
                    (mkState (ls_rcd ls) (@Fence_new example_headers nat)) = (Ok u, st))
    as (u & st & E) by (vm_compute; eauto).
  destruct (@assertions_fail_on_width_only example_headers nat unit unit example_LoadImage
              example_TrackPiece_Load example_external "example.rcd" 1 ls) as [_ Hfence].
  - intros lang_name. unfold GetLanguageIndex, example_headers, example_language_index.
    repeat case_decide; simpl; lia.
  - vm_compute. split; [discriminate | reflexivity].
  - apply (Hfence u st 32).
    + reflexivity.
    + exact E.
    + vm_compute. reflexivity.
    + vm_compute. discriminate.
Defined.

(** ** Blocks that the dispatcher registers *)

Section Registers.
Context `{Headers} {ImageData TrackPiece Ext : Type}.
Variable LoadImage : RcdFileReader → option ImageData * nat.
Variable TrackPiece_Load : RcdFileReader → gmap Z ImageData → option TrackPiece * nat.
Variable external : string → RcdFileReader → gmap Z ImageData → gmap Z TextData →
                    gmap Z TrackPiece → Ext → bool * nat * Ext.
Implicit Types ls : @LoopState ImageData TrackPiece Ext.

Local Abbreviation Load_block' := (Load_block LoadImage TrackPiece_Load external).

Lemma load_object_Continue {O} (h : M O unit) (obj : O) msg ls k ls' :
  load_object h obj msg ls k = Continue ls' →
  ∃ u st, h (mkState (ls_rcd ls) obj) = (Ok u, st)
          ∧ k (world st) (with_rcd (rcd st) ls) = Continue ls'.
Proof.
  unfold load_object. destruct (h _) as [[u| |] st]; [|discriminate..].
  intros Hk. now exists u, st.
Qed.

Lemma Load_block_FENC filename blk_num ls :
  rcd_name (ls_rcd ls) = "FENC"%string →
  Load_block' filename blk_num ls
  = load_object (Fence_Load (ls_sprites ls)) Fence_new "Fence block loading failed." ls
      (λ block s',
         match AddFence block (store (ls_manager s')) with
         | None => Abort s'
         | Some ss =>
           Continue (with_manager (λ m, AddBlock (FenceBlock block) (with_store (λ _, ss) m)) s')
         end).
Proof. intros E. unfold Load_block. rewrite E. reflexivity. Qed.

(** X7. A FENC block that the dispatcher has loaded: its version is 2 and its
    size that of [FENCE_COUNT] references, its width is the width of the
    sprite storage and its type is below [FENCE_TYPE_COUNT]; the fence is the
    new last block of the sprite manager, [GetFence] gives it for its type,
    with the sprites that the references of the block stand for, and gives
    what it gave before for the other types. *)
Theorem FENC_block_registers_the_fence filename blk_num ls ls' :
  rcd_name (ls_rcd ls) = "FENC"%string →
  Load_block' filename blk_num ls = Continue ls' →
  rcd_version (ls_rcd ls) = 2
  ∧ rcd_size (ls_rcd ls) = 2 + 2 + 4 * Z.of_nat FENCE_COUNT
  ∧ ∃ fnc,
      peek16 (remaining (ls_rcd ls)) 0 = Some (fence_width fnc)
      ∧ peek16 (remaining (ls_rcd ls)) 2 = Some (fence_type fnc)
      ∧ fence_width fnc = ss_size (store (ls_manager ls))
      ∧ 0 ≤ fence_type fnc < FENCE_TYPE_COUNT
      ∧ refs_loaded (ls_sprites ls) (remaining (ls_rcd ls)) 4 FENCE_COUNT (fence_sprites fnc)
      ∧ GetFence (fence_type fnc) (ls_manager ls') = Some (Some fnc)
      ∧ (∀ t, t ≠ fence_type fnc → GetFence t (ls_manager ls') = GetFence t (ls_manager ls))
      ∧ blocks (ls_manager ls') = blocks (ls_manager ls) ++ [FenceBlock fnc].
Proof.
  intros Hname. rewrite Load_block_FENC by done. intros Hload.
  apply load_object_Continue in Hload as (u & st & E & Hk).
  pose proof (wp_Fence_Load (ls_sprites ls) (mkState (ls_rcd ls) Fence_new)
                Fence_new_slots) as Hwp.
  apply (wp_Ok _ _ _ _ _ _ Hwp) in E
    as (Hver & Hsz & width & type & Hwidth & Htype & Hlt & Hw & Ht & Hrefs).
  cbn [rcd world] in *.
  split; [done|]. split; [done|]. exists (world st).
  unfold AddFence in Hk. cbn [ls_manager with_rcd store] in Hk.
  case_decide as Hadd; [|discriminate]. injection Hk as <-.
  destruct Hadd as [Hsize _].
  assert (0 ≤ type) as Hpos.
  { unfold peek16 in Htype. destruct (drop 2 _) as [|b0 [|b1 ?]]; try discriminate.
    injection Htype as <-. apply u16_range. }
  split_and!.
  - now rewrite Hw.
  - now rewrite Ht.
  - done.
  - lia.
  - lia.
  - done.
  - unfold GetFence. rewrite decide_True by lia. cbn. now rewrite lookup_insert_eq.
  - intros t Hne. unfold GetFence. case_decide; [|done]. cbn.
    now rewrite lookup_insert_ne.
  - done.
Qed.
End Registers.

Lemma FENC_block_registers_the_fence_witness :
  let ls := example_state (reader_at_payload "FENC" 2 (example_fence_payload 64)) in
  ∃ ls' fnc,
    @Load_block example_headers nat unit unit example_LoadImage example_TrackPiece_Load
      example_external "example.rcd" 1 ls = Continue ls'
    ∧ @GetFence example_headers nat 1 (ls_manager ls') = Some (Some fnc).
Proof.
  intros ls.
  assert (∃ ls', @Load_block example_headers nat unit unit example_LoadImage
                   example_TrackPiece_Load example_external "example.rcd" 1 ls = Continue ls')
    as (ls' & E) by (vm_compute; eauto).
  destruct (@FENC_block_registers_the_fence example_headers nat unit unit example_LoadImage
              example_TrackPiece_Load example_external "example.rcd" 1 ls ls')
    as (_ & _ & fnc & _ & Htype & _ & _ & _ & Hget & _).
  - reflexivity.
  - exact E.
  - exists ls', fnc. split; [exact E|].
    assert (peek16 (remaining (ls_rcd ls)) 2 = Some 1) as Hone by (vm_compute; reflexivity).
    assert (fence_type fnc = 1) as Ht by congruence.
    now rewrite Ht in Hget.
Defined.

(** ** Surfaces *)

Lemma HasAllSprites_Forall {T} (arr : list (option T)) :
  HasAllSprites arr = true ↔ Forall is_Some arr.
Proof.
  induction arr as [|[x|] arr IH]; cbn.
  - split; [constructor | done].
  - rewrite IH. split.
    + intros Hall. constructor; [now exists x | done].
    + now inversion 1.
  - split; [done|]. inversion 1 as [|? ? [x Hx]]. discriminate.
Qed.

Lemma resolve_is_Some {T} (table : gmap Z T) id spr :
  resolve table id = Some spr → (is_Some spr ↔ id ≠ 0).
Proof.
  unfold resolve. case_decide as Hz.
  - intros [= <-]. split; [intros [x Hx]; discriminate | done].
  - destruct (table !! id) as [x|]; [|discriminate]. intros [= <-]. split; [done | eauto].
Qed.

Section SurfaceFacts.
Context `{Headers} {ImageData : Type}.
Implicit Types s : LoadState (@SpriteStorage ImageData).
Implicit Types sprites : gmap Z ImageData.

Lemma wp_LoadSURF_loads sprites s :
  (∀ t arr, surface (world s) !! t = Some arr → length arr = NUM_SLOPE_SPRITES) →
  wp False (LoadSURF sprites) s (λ _ s',
    ∃ gt type,
      let arr := default SurfaceData_new (surface (world s') !! type) in
      peek16 (remaining (rcd s)) 0 = Some gt
      ∧ In (gt, type) [(16, GTP_GRASS0); (17, GTP_GRASS1); (18, GTP_GRASS2); (19, GTP_GRASS3);
                       (20, GTP_UNDERGROUND); (32, GTP_DESERT); (48, GTP_CURSOR_TEST);
                       (49, GTP_CURSOR_EDGE_TEST)]
      ∧ type ≠ GTP_INVALID ∧ type < GTP_COUNT
      ∧ length arr = NUM_SLOPE_SPRITES
      ∧ refs_loaded sprites (remaining (rcd s)) 6 NUM_SLOPE_SPRITES arr
      ∧ (∀ t, t ≠ type → surface (world s') !! t = surface (world s) !! t)
      ∧ world s' = set_surface (λ _, surface (world s')) (world s)).
Proof.
  intros Hok. unfold LoadSURF. apply wp_bind, wp_get_reader.
  case_decide as Hhdr; [apply wp_return_false|].
  apply wp_bind, (wp_GetUInt16_at _ (remaining (rcd s)) 0%nat); [done|].
  intros gt s1 Hgt R1 W1 _. cbv zeta.
  match goal with |- context [decide (?t = GTP_INVALID)] => set (type := t) end.
  assert (In (gt, type) [(16, GTP_GRASS0); (17, GTP_GRASS1); (18, GTP_GRASS2);
                         (19, GTP_GRASS3); (20, GTP_UNDERGROUND); (32, GTP_DESERT);
                         (48, GTP_CURSOR_TEST); (49, GTP_CURSOR_EDGE_TEST)]
          ∨ type = GTP_INVALID) as Htype.
  { subst type. simpl.
    repeat (case_decide; [subst gt; repeat (rewrite decide_False by lia); auto 10|]).
    now right. }
  clearbody type.
  case_decide as Hinv; [apply wp_return_false|].
  destruct Htype as [Hin|]; [|done].
  apply wp_bind, (wp_GetUInt16_at _ (remaining (rcd s)) 2%nat); [done|].
  intros width s2 _ R2 W2 _.
  apply wp_bind, (wp_GetUInt16_at _ (remaining (rcd s)) 4%nat); [done|].
  intros height s3 _ R3 W3 _.
  case_decide as Hss; [apply wp_return_false|].
  eapply wp_conseq.
  - apply (wp_load_sprites False sprites (remaining (rcd s))
             (λ ss, default SurfaceData_new (surface ss !! type))
             (λ i spr, set_surface (at_key SurfaceData_new type (<[i := spr]>)))
             (λ ss, (∀ t, t ≠ type → surface ss !! t = surface (world s) !! t)
                    ∧ set_surface (λ _, surface (world s)) ss = world s)
             NUM_SLOPE_SPRITES 6).
    + done.
    + intros i spr w. cbn. unfold at_key. now rewrite lookup_insert_eq.
    + intros i spr w [Hother Hrest]. split.
      * intros t Hne. cbn. unfold at_key. rewrite lookup_insert_ne by done. now apply Hother.
      * exact Hrest.
    + rewrite W3, W2, W1. destruct (surface (world s) !! type) as [arr|] eqn:E; cbn.
      * now rewrite (Hok _ _ E).
      * unfold SurfaceData_new, no_sprites. now rewrite length_replicate.
    + rewrite W3, W2, W1. split; [done|]. now destruct (world s).
  - cbv beta. intros u s' (_ & Hrefs & Hlen & Hother & Hrest).
    assert (length (default SurfaceData_new (surface (world s3) !! type)) = NUM_SLOPE_SPRITES)
      as Hlen0.
    { rewrite W3, W2, W1. destruct (surface (world s) !! type) as [arr|] eqn:E; cbn.
      - exact (Hok _ _ E).
      - unfold SurfaceData_new, no_sprites. now rewrite length_replicate. }
    exists gt, type. cbn in Hrefs, Hlen. cbv zeta.
    split_and!; try done; try lia.
    rewrite <- Hrest. now destruct (world s').
Qed.

Lemma refs_all_sprites sprites (l : list byte) off n (arr : list (option ImageData)) :
  length arr = n → refs_loaded sprites l off n arr →
  HasAllSprites arr = true
  ↔ ∀ i id, (i < n)%nat → peek32 l (off + 4 * i) = Some id → id ≠ 0.
Proof.
  intros Hlen Hrefs. rewrite HasAllSprites_Forall, Forall_lookup. split.
  - intros Hall i id Hi Hid. destruct (Hrefs i Hi) as (id' & spr & Hid' & Hres & Hlook).
    assert (id' = id) as -> by congruence.
    apply (resolve_is_Some _ _ _ Hres). exact (Hall i spr Hlook).
  - intros Hids i x Hlook. pose proof (lookup_lt_Some _ _ _ Hlook) as Hi. rewrite Hlen in Hi.
    destruct (Hrefs i Hi) as (id & spr & Hid & Hres & Hlook').
    assert (spr = x) as -> by congruence.
    apply (resolve_is_Some _ _ _ Hres). exact (Hids i id Hi Hid).
Qed.

(** X8. What a SURF block that loads leaves in the sprite storage.  The
    surface of the ground type of the block holds, slot by slot, the sprites
    that the references of the block stand for ([nullptr] for the reference
    0); it has all its sprites ([HasAllSprites]) exactly when no reference is
    0.  The surfaces of the other ground types and the other members of the
    storage are as they were. *)
Theorem LoadSURF_stores_the_sprites sprites s u s' :
  (∀ t arr, surface (world s) !! t = Some arr → length arr = NUM_SLOPE_SPRITES) →
  LoadSURF sprites s = (Ok u, s') →
  ∃ gt type,
    let arr := default SurfaceData_new (surface (world s') !! type) in
    peek16 (remaining (rcd s)) 0 = Some gt
    ∧ In (gt, type) [(16, GTP_GRASS0); (17, GTP_GRASS1); (18, GTP_GRASS2); (19, GTP_GRASS3);
                     (20, GTP_UNDERGROUND); (32, GTP_DESERT); (48, GTP_CURSOR_TEST);
                     (49, GTP_CURSOR_EDGE_TEST)]
    ∧ type < GTP_COUNT
    ∧ length arr = NUM_SLOPE_SPRITES
    ∧ refs_loaded sprites (remaining (rcd s)) 6 NUM_SLOPE_SPRITES arr
    ∧ (HasAllSprites arr = true
       ↔ ∀ i id, (i < NUM_SLOPE_SPRITES)%nat →
                 peek32 (remaining (rcd s)) (6 + 4 * i) = Some id → id ≠ 0)
    ∧ (∀ t, t ≠ type → surface (world s') !! t = surface (world s) !! t)
    ∧ world s' = set_surface (λ _, surface (world s')) (world s).
Proof.
  intros Hok E.
  apply (wp_Ok _ _ _ _ _ _ (wp_LoadSURF_loads sprites s Hok)) in E
    as (gt & type & Hgt & Hin & _ & Hcount & Hlen & Hrefs & Hother & Hrest).
  exists gt, type. cbv zeta. split_and!; try done.
  eapply refs_all_sprites; eassumption.
Qed.
End SurfaceFacts.

Lemma LoadSURF_stores_the_sprites_witness :
  let s := mkState (reader_at_payload "SURF" 6 example_full_surf_payload)
                   (@SpriteStorage_new example_headers nat 64) in
  ∃ s' type, (@LoadSURF example_headers nat {[1 := 7%nat]} s).2 = s'
    ∧ @HasAllSprites nat (default (@SurfaceData_new example_headers nat)
                                  (surface (world s') !! type)) = true.
Proof.
  intros s.
  assert (∃ u s', @LoadSURF example_headers nat {[1 := 7%nat]} s = (Ok u, s'))
    as (u & s' & E) by (vm_compute; eauto).
  destruct (@LoadSURF_stores_the_sprites example_headers nat {[1 := 7%nat]} s u s')
    as (gt & type & _ & _ & _ & _ & _ & Hall & _).
  - intros t arr. vm_compute. discriminate.
  - exact E.
  - exists s', type. split; [now rewrite E|]. apply Hall. intros i id Hi.
    do 23 (destruct i as [|i]; [vm_compute; intros [= <-]; discriminate|]).
    exfalso. cbn in Hi. lia.
Defined.

(** ** The sprite sets of one array *)

Section FlatSets.
Context `{Headers} {ImageData : Type}.
Implicit Types s : LoadState (@SpriteStorage ImageData).
Implicit Types sprites : gmap Z ImageData.

Lemma wp_LoadTSEL_loads sprites s :
  (NUM_SLOPE_SPRITES ≤ length (tile_select (world s)))%nat →
  wp False (LoadTSEL sprites) s (λ _ s',
    rcd_version (rcd s) = 2
    ∧ rcd_size (rcd s) = 2 + 2 + 4 * Z.of_nat NUM_SLOPE_SPRITES
    ∧ refs_loaded sprites (remaining (rcd s)) 4 NUM_SLOPE_SPRITES (tile_select (world s'))
    ∧ world s' = set_tile_select (λ _, tile_select (world s')) (world s)).
Proof.
  intros Hlen. unfold LoadTSEL. apply wp_bind, wp_get_reader.
  case_decide as Hhdr; [apply wp_return_false|].
  apply wp_bind, (wp_GetUInt16_at _ (remaining (rcd s)) 0%nat); [done|].
  intros width s1 _ R1 W1 _.
  apply wp_bind, (wp_GetUInt16_at _ (remaining (rcd s)) 2%nat); [done|].
  intros height s2 _ R2 W2 _. cbv zeta.
  case_decide as Hss; [apply wp_return_false|].
  eapply wp_conseq.
  - apply (wp_load_sprites False sprites (remaining (rcd s)) tile_select
             (λ i spr, set_tile_select (<[i := spr]>))
             (λ ss, set_tile_select (λ _, tile_select (world s)) ss = world s)
             NUM_SLOPE_SPRITES 4); [done | done | done | |].
    + now rewrite W2, W1.
    + rewrite W2, W1. now destruct (world s).
  - cbv beta. intros u s' (_ & Hrefs & _ & Hrest).
    split_and!; [lia | lia | done |]. rewrite <- Hrest. now destruct (world s').
Qed.

Lemma wp_LoadSUPP_loads sprites s :
  (SSP_COUNT ≤ length (support (world s)))%nat →
  wp False (LoadSUPP sprites) s (λ _ s',
    rcd_version (rcd s) = 1
    ∧ rcd_size (rcd s) = 2 + 2 + 2 + Z.of_nat SSP_COUNT * 4
    ∧ peek16 (remaining (rcd s)) 0 = Some 16
    ∧ refs_loaded sprites (remaining (rcd s)) 6 SSP_COUNT (support (world s'))
    ∧ world s' = set_support (λ _, support (world s')) (world s)).
Proof.
  intros Hlen. unfold LoadSUPP. apply wp_bind, wp_get_reader.
  case_decide as Hhdr; [apply wp_return_false|].
  apply wp_bind, (wp_GetUInt16_at _ (remaining (rcd s)) 0%nat); [done|].
  intros type s0 Htype R0 W0 _.
  case_decide as Ht; [apply wp_return_false|].
  apply wp_bind, (wp_GetUInt16_at _ (remaining (rcd s)) 2%nat); [done|].
  intros width s1 _ R1 W1 _.
  apply wp_bind, (wp_GetUInt16_at _ (remaining (rcd s)) 4%nat); [done|].
  intros height s2 _ R2 W2 _. cbv zeta.
  case_decide as Hss; [apply wp_return_false|].
  eapply wp_conseq.
  - apply (wp_load_sprites False sprites (remaining (rcd s)) support
             (λ i spr, set_support (<[i := spr]>))
             (λ ss, set_support (λ _, support (world s)) ss = world s)
             SSP_COUNT 6); [done | done | done | |].
    + now rewrite W2, W1, W0.
    + rewrite W2, W1, W0. now destruct (world s).
  - cbv beta. intros u s' (_ & Hrefs & _ & Hrest).
    split_and!; [lia | lia | | done |].
    + destruct (decide (type = 16)) as [->|]; done.
    + rewrite <- Hrest. now destruct (world s').
Qed.

Lemma wp_LoadBDIR_loads sprites s :
  (4 ≤ length (build_arrows (world s)))%nat →
  wp False (LoadBDIR sprites) s (λ _ s',
    rcd_version (rcd s) = 1
    ∧ rcd_size (rcd s) = 2 + 4 * 4
    ∧ refs_loaded sprites (remaining (rcd s)) 2 4 (build_arrows (world s'))
    ∧ world s' = set_build_arrows (λ _, build_arrows (world s')) (world s)).
Proof.
  intros Hlen. unfold LoadBDIR. apply wp_bind, wp_get_reader.
  case_decide as Hhdr; [apply wp_return_false|].
  apply wp_bind, (wp_GetUInt16_at _ (remaining (rcd s)) 0%nat); [done|].
  intros width s1 _ R1 W1 _. cbv zeta.
  case_decide as Hss; [apply wp_return_false|].
  eapply wp_conseq.
  - apply (wp_load_sprites False sprites (remaining (rcd s)) build_arrows
             (λ i spr, set_build_arrows (<[i := spr]>))
             (λ ss, set_build_arrows (λ _, build_arrows (world s)) ss = world s)
             4 2); [done | done | done | |].
    + now rewrite W1.
    + rewrite W1. now destruct (world s).
  - cbv beta. intros u s' (_ & Hrefs & _ & Hrest).
    split_and!; [lia | lia | done |]. rewrite <- Hrest. now destruct (world s').
Qed.

Lemma wp_LoadFUND_loads sprites s :
  (∀ t arr, foundation (world s) !! t = Some arr → length arr = 6%nat) →
  wp False (LoadFUND sprites) s (λ _ s',
    rcd_version (rcd s) = 1
    ∧ rcd_size (rcd s) = 2 + 2 + 2 + 4 * 6
    ∧ ∃ tp type,
        let arr := default Foundation_new (foundation (world s') !! type) in
        peek16 (remaining (rcd s)) 0 = Some tp
        ∧ In (tp, type) [(16, FDT_GROUND); (32, FDT_WOOD); (48, FDT_BRICK)]
        ∧ type < FDT_COUNT
        ∧ refs_loaded sprites (remaining (rcd s)) 6 6 arr
        ∧ (∀ t, t ≠ type → foundation (world s') !! t = foundation (world s) !! t)
        ∧ world s' = set_foundation (λ _, foundation (world s')) (world s)).
Proof.
  intros Hok. unfold LoadFUND. apply wp_bind, wp_get_reader.
  case_decide as Hhdr; [apply wp_return_false|].
  apply wp_bind, (wp_GetUInt16_at _ (remaining (rcd s)) 0%nat); [done|].
  intros tp s1 Htp R1 W1 _. cbv zeta.
  match goal with |- context [decide (?t = FDT_INVALID)] => set (type := t) end.
  assert (In (tp, type) [(16, FDT_GROUND); (32, FDT_WOOD); (48, FDT_BRICK)]
          ∨ type = FDT_INVALID) as Htype.
  { subst type. simpl.
    repeat (case_decide; [subst tp; repeat (rewrite decide_False by lia); auto 10|]).
    now right. }
  clearbody type.
  case_decide as Hinv; [apply wp_return_false|].
  destruct Htype as [Hin|]; [|done].
  apply wp_bind, (wp_GetUInt16_at _ (remaining (rcd s)) 2%nat); [done|].
  intros width s2 _ R2 W2 _.
  apply wp_bind, (wp_GetUInt16_at _ (remaining (rcd s)) 4%nat); [done|].
  intros height s3 _ R3 W3 _.
  case_decide as Hss; [apply wp_return_false|].
  eapply wp_conseq.
  - apply (wp_load_sprites False sprites (remaining (rcd s))
             (λ ss, default Foundation_new (foundation ss !! type))
             (λ i spr, set_foundation (at_key Foundation_new type (<[i := spr]>)))
             (λ ss, (∀ t, t ≠ type → foundation ss !! t = foundation (world s) !! t)
                    ∧ set_foundation (λ _, foundation (world s)) ss = world s)
             6 6).
    + done.
    + intros i spr w. cbn. unfold at_key. now rewrite lookup_insert_eq.
    + intros i spr w [Hother Hrest]. split.
      * intros t Hne. cbn. unfold at_key. rewrite lookup_insert_ne by done. now apply Hother.
      * exact Hrest.
    + rewrite W3, W2, W1. destruct (foundation (world s) !! type) as [arr|] eqn:E; cbn.
      * now rewrite (Hok _ _ E).
      * done.
    + rewrite W3, W2, W1. split; [done|]. now destruct (world s).
  - cbv beta. intros u s' (_ & Hrefs & _ & Hother & Hrest).
    split_and!; [lia | lia |]. exists tp, type. cbv zeta.
    split_and!; try done; try lia.
    rewrite <- Hrest. now destruct (world s').
Qed.

(** X9. The sprite sets that are one array.  A TSEL, SUPP, BDIR or FUND block
    that loads has the version and the size of its kind (and for SUPP the type
    code 16, for FUND one of the codes 16, 32 and 48 of ground, wood and
    brick); the array of the storage holds, slot by slot, the sprites that
    the references of the block stand for, and the other members of the
    storage are as they were. *)
Theorem flat_sprite_sets_store_the_sprites sprites s u s' :
  ((NUM_SLOPE_SPRITES ≤ length (tile_select (world s)))%nat →
   LoadTSEL sprites s = (Ok u, s') →
   rcd_version (rcd s) = 2
   ∧ rcd_size (rcd s) = 2 + 2 + 4 * Z.of_nat NUM_SLOPE_SPRITES
   ∧ refs_loaded sprites (remaining (rcd s)) 4 NUM_SLOPE_SPRITES (tile_select (world s'))
   ∧ world s' = set_tile_select (λ _, tile_select (world s')) (world s))
  ∧ ((SSP_COUNT ≤ length (support (world s)))%nat →
     LoadSUPP sprites s = (Ok u, s') →
     rcd_version (rcd s) = 1
     ∧ rcd_size (rcd s) = 2 + 2 + 2 + Z.of_nat SSP_COUNT * 4
     ∧ peek16 (remaining (rcd s)) 0 = Some 16
     ∧ refs_loaded sprites (remaining (rcd s)) 6 SSP_COUNT (support (world s'))
     ∧ world s' = set_support (λ _, support (world s')) (world s))
  ∧ ((4 ≤ length (build_arrows (world s)))%nat →
     LoadBDIR sprites s = (Ok u, s') →
     rcd_version (rcd s) = 1
     ∧ rcd_size (rcd s) = 2 + 4 * 4
     ∧ refs_loaded sprites (remaining (rcd s)) 2 4 (build_arrows (world s'))
     ∧ world s' = set_build_arrows (λ _, build_arrows (world s')) (world s))
  ∧ ((∀ t arr, foundation (world s) !! t = Some arr → length arr = 6%nat) →
     LoadFUND sprites s = (Ok u, s') →
     rcd_version (rcd s) = 1
     ∧ rcd_size (rcd s) = 2 + 2 + 2 + 4 * 6
     ∧ ∃ tp type,
         let arr := default Foundation_new (foundation (world s') !! type) in
         peek16 (remaining (rcd s)) 0 = Some tp
         ∧ In (tp, type) [(16, FDT_GROUND); (32, FDT_WOOD); (48, FDT_BRICK)]
         ∧ type < FDT_COUNT
         ∧ refs_loaded sprites (remaining (rcd s)) 6 6 arr
         ∧ (∀ t, t ≠ type → foundation (world s') !! t = foundation (world s) !! t)
         ∧ world s' = set_foundation (λ _, foundation (world s')) (world s)).
Proof.
  split_and!; intros Hshape E.
  - exact (wp_Ok _ _ _ _ _ _ (wp_LoadTSEL_loads sprites s Hshape) E).
  - exact (wp_Ok _ _ _ _ _ _ (wp_LoadSUPP_loads sprites s Hshape) E).
  - exact (wp_Ok _ _ _ _ _ _ (wp_LoadBDIR_loads sprites s Hshape) E).
  - exact (wp_Ok _ _ _ _ _ _ (wp_LoadFUND_loads sprites s Hshape) E).
Qed.
End FlatSets.

Lemma flat_sprite_sets_store_the_sprites_witness :
  let sprites : gmap Z nat := {[1 := 11%nat; 2 := 12%nat; 3 := 13%nat; 4 := 14%nat]} in
  let s := mkState (reader_at_payload "BDIR" 1 example_bdir_payload)
                   (@SpriteStorage_new example_headers nat 64) in
  ∃ s', (@LoadBDIR nat sprites s).2 = s'
        ∧ ∃ id spr, peek32 example_bdir_payload 14 = Some id
                    ∧ resolve sprites id = Some spr
                    ∧ build_arrows (world s') !! 3%nat = Some spr.
Proof.
  intros sprites s.
  assert (∃ u s', @LoadBDIR nat sprites s = (Ok u, s'))
    as (u & s' & E) by (vm_compute; eauto).
  destruct (@flat_sprite_sets_store_the_sprites example_headers nat sprites s u s')
    as (_ & _ & Hbdir & _).
  destruct Hbdir as (_ & _ & Hrefs & _).
  - vm_compute. lia.
  - exact E.
  - exists s'. split; [now rewrite E|]. exact (Hrefs 3%nat ltac:(lia)).
Defined.

(** ** Animation sprites *)

Lemma wp_fails {W A} (m : M W A) (s : LoadState W) (Q : A → LoadState W → Prop) :
  wp False m s Q → (∀ a s', ¬ Q a s') → (m s).1 = Fail.
Proof.
  unfold wp. destruct (m s) as [[a| |] s']; cbn; [|done..].
  intros HQ Hn. now apply Hn in HQ.
Qed.

Section AnimationSpritesFormat.
Context `{Headers} {ImageData : Type}.
Implicit Types sprites : gmap Z ImageData.
Implicit Types s : LoadState (@AnimationSprites ImageData).

(** X10. [AnimationSprites::Load] succeeds only on a block of version 3 with
    a person type code among 0, 8, 16, 17, 18, 19 and 20, an animation type
    from [ANIM_BEGIN] to [ANIM_LAST], at least one frame and the size of its
    frames; the loaded object has the width, the types and the frame count of
    the block, and its sprites are what the references of the block stand
    for.  A block without frames, with another person type code, or with a
    reference to a sprite that is not in the file, fails to load. *)
Theorem AnimationSprites_Load_format sprites s :
  (∀ u s', AnimationSprites_Load sprites s = (Ok u, s') →
     rcd_version (rcd s) = 3
     ∧ ∃ width pt at_ frame_count,
         peek16 (remaining (rcd s)) 0 = Some width
         ∧ peek8 (remaining (rcd s)) 2 = Some pt
         ∧ peek16 (remaining (rcd s)) 3 = Some at_
         ∧ peek16 (remaining (rcd s)) 5 = Some frame_count
         ∧ In pt [0; 8; 16; 17; 18; 19; 20]
         ∧ ANIM_BEGIN ≤ at_ ≤ ANIM_LAST
         ∧ 1 ≤ frame_count
         ∧ rcd_size (rcd s) = 2 + 1 + 2 + 2 + frame_count * 4
         ∧ ansp_width (world s') = width
         ∧ ansp_person_type (world s') = DecodePersonType pt
         ∧ ansp_anim_type (world s') = at_
         ∧ ansp_frame_count (world s') = frame_count
         ∧ length (ansp_sprites (world s')) = Z.to_nat frame_count
         ∧ refs_loaded sprites (remaining (rcd s)) 7 (Z.to_nat frame_count)
                       (ansp_sprites (world s')))
  ∧ (peek16 (remaining (rcd s)) 5 = Some 0 → (AnimationSprites_Load sprites s).1 = Fail)
  ∧ (∀ pt, peek8 (remaining (rcd s)) 2 = Some pt → ¬ In pt [0; 8; 16; 17; 18; 19; 20] →
           (AnimationSprites_Load sprites s).1 = Fail)
  ∧ (∀ frame_count i id,
       peek16 (remaining (rcd s)) 5 = Some frame_count → 0 ≤ Z.of_nat i < frame_count →
       peek32 (remaining (rcd s)) (7 + 4 * i) = Some id → id ≠ 0 → sprites !! id = None →
       (AnimationSprites_Load sprites s).1 = Fail).
Proof.
  pose proof (wp_AnimationSprites_Load sprites s) as Hwp. split_and!.
  - intros u s' E. apply (wp_Ok _ _ _ _ _ _ Hwp) in E
      as (Hver & width & pt & at_ & fc & ? & ? & ? & ? & ? & ? & ? & ? & ? & ? & ? & ? & ? & ? & ?).
    split; [done|]. exists width, pt, at_, fc. split_and!; try done; lia.
  - intros Hzero. apply (wp_fails _ _ _ Hwp).
    intros u s' (_ & width & pt & at_ & fc & _ & _ & _ & Hfc & _ & _ & Hpos & _).
    rewrite Hzero in Hfc. injection Hfc as <-. lia.
  - intros pt Hpt Hn. apply (wp_fails _ _ _ Hwp).
    intros u s' (_ & width & pt' & at_ & fc & _ & Hpt' & _ & _ & Hin & _).
    rewrite Hpt in Hpt'. injection Hpt' as <-. done.
  - intros frame_count i id Hfc Hi Hid Hnz Hmiss. apply (wp_fails _ _ _ Hwp).
    intros u s' (_ & width & pt & at_ & fc & _ & _ & _ & Hfc' & _ & _ & _ & _ & _ & _ & _ & _
                 & _ & _ & Hrefs).
    rewrite Hfc in Hfc'. injection Hfc' as <-.
    destruct (Hrefs i ltac:(lia)) as (id' & spr & Hid' & Hres & _).
    rewrite Hid in Hid'. injection Hid' as <-.
    unfold resolve in Hres. rewrite decide_False in Hres by done. now rewrite Hmiss in Hres.
Qed.
End AnimationSpritesFormat.

Lemma AnimationSprites_Load_format_witness :
  let s := mkState (reader_at_payload "ANSP" 3 (example_ansp_payload [1; 5]))
                   (@AnimationSprites_new example_headers nat) in
  (@AnimationSprites_Load example_headers nat {[1 := 7%nat]} s).1 = Fail.
Proof.
  intros s.
  destruct (@AnimationSprites_Load_format example_headers nat {[1 := 7%nat]} s)
    as (_ & _ & _ & Hmissing).
  apply (Hmissing 2 1%nat 5).
  - vm_compute. reflexivity.
  - lia.
  - vm_compute. reflexivity.
  - discriminate.
  - vm_compute. reflexivity.
Defined.

(** ** Frame sets and timed animations *)

Section RunsRules.
Context {W : Type}.
Implicit Types s : LoadState W.

Lemma runs_bind {A B} (m : M W A) (f : A → M W B) s Q :
  runs m s (λ a s1, runs (f a) s1 Q) → runs (m ≫= f) s Q.
Proof.
  intros (a & s1 & E & b & s2 & E2 & HQ). exists b, s2.
  now rewrite (bind_Ok _ _ _ _ _ E).
Qed.

Lemma runs_ret {A} (a : A) s (Q : A → LoadState W → Prop) : Q a s → runs (mret a) s Q.
Proof. intros HQ. now exists a, s. Qed.

Lemma runs_get_reader s (Q : RcdFileReader → LoadState W → Prop) :
  Q (rcd s) s → runs get_reader s Q.
Proof. intros HQ. now exists (rcd s), s. Qed.

Lemma runs_modify_world (f : W → W) s (Q : unit → LoadState W → Prop) :
  Q tt (mkState (rcd s) (f (world s))) → runs (modify_world f) s Q.
Proof. intros HQ. now eexists tt, _. Qed.

Lemma runs_conseq {A} (m : M W A) s (Q Q' : A → LoadState W → Prop) :
  runs m s Q → (∀ a s', Q a s' → Q' a s') → runs m s Q'.
Proof. intros (a & s' & E & HQ) Himp. exists a, s'. auto. Qed.

(** A number of 32 bit is read when the stream has four bytes left. *)
Lemma runs_GetUInt32 s (Q : Z → LoadState W → Prop) :
  (4 ≤ length (remaining (rcd s)))%nat →
  (∀ v, peek32 (remaining (rcd s)) 0 = Some v → Q v (advance 4 s)) →
  runs GetUInt32 s Q.
Proof.
  intros Hlen HQ.
  destruct (remaining (rcd s)) as [|b0 [|b1 [|b2 [|b3 rest]]]] eqn:E;
    [cbn in Hlen; lia..|].
  eexists _, _. split; [exact (GetUInt32_cons _ _ _ _ _ _ E)|]. now apply HQ.
Qed.

Lemma runs_for_each first count (body : nat → M W unit) (J : nat → LoadState W → Prop) :
  ∀ s, J first s →
  (∀ i s1, (first ≤ i < first + count)%nat → J i s1 →
           runs (body i) s1 (λ _ s2, J (S i) s2)) →
  runs (for_each first count body) s (λ _ s', J (first + count)%nat s').
Proof.
  revert first. induction count as [|count IH]; intros first s Hfirst Hbody.
  - simpl. apply runs_ret. now rewrite Nat.add_0_r.
  - simpl. apply runs_bind. eapply runs_conseq; [apply (Hbody first); [lia | done]|].
    intros u s1 H1. simpl. replace (first + S count)%nat with (S first + count)%nat by lia.
    apply IH; [done|]. intros i s2 Hi. apply Hbody. lia.
Qed.

(** A loop that reads [n] numbers of 32 bit runs when the stream holds them. *)
Lemma runs_load_numbers (put : nat → Z → W → W) n s :
  (4 * n ≤ length (remaining (rcd s)))%nat →
  runs (for_each 0 n (λ i, d ← GetUInt32; modify_world (put i d))) s (λ _ s',
    length (remaining (rcd s')) = (length (remaining (rcd s)) - 4 * n)%nat).
Proof.
  intros Hlen.
  eapply runs_conseq.
  - apply (runs_for_each 0 n _ (λ i s1,
      length (remaining (rcd s1)) = (length (remaining (rcd s)) - 4 * i)%nat)).
    + lia.
    + intros i s1 Hi J1. apply runs_bind, runs_GetUInt32; [lia|]. intros d _.
      apply runs_modify_world. cbn [rcd]. rewrite remaining_advance, length_drop. lia.
  - cbv beta. intros _ s' J'. exact J'.
Qed.
End RunsRules.

Section LoadsNumbers.
Context {W V : Type} (F : Prop).
Implicit Types s : LoadState W.

(** A loop that reads [n] numbers of 32 bit into the slots of an array. *)
Lemma wp_load_numbers (l : list byte) (get : W → list V) (put : nat → Z → W → W)
    (g : Z → V) (J : W → Prop) n off s :
  remaining (rcd s) = drop off l →
  (∀ i d w, get (put i d w) = <[i := g d]> (get w)) →
  (∀ i d w, J w → J (put i d w)) →
  (n ≤ length (get (world s)))%nat → J (world s) →
  wp F (for_each 0 n (λ i, d ← GetUInt32; modify_world (put i d))) s (λ _ s',
    remaining (rcd s') = drop (off + 4 * n) l
    ∧ (∀ i, (i < n)%nat → ∃ d, peek32 l (off + 4 * i) = Some d
                                ∧ get (world s') !! i = Some (g d))
    ∧ length (get (world s')) = length (get (world s))
    ∧ J (world s')).
Proof.
  intros Hrem Hget HJ Hlen HJ0.
  apply (wp_for_each F 0 n _ (λ i s1,
    remaining (rcd s1) = drop (off + 4 * i) l
    ∧ (∀ j, (j < i)%nat → ∃ d, peek32 l (off + 4 * j) = Some d
                                ∧ get (world s1) !! j = Some (g d))
    ∧ length (get (world s1)) = length (get (world s))
    ∧ J (world s1))).
  - split_and!; [now rewrite Nat.mul_0_r, Nat.add_0_r | intros j Hj; lia | done | done].
  - intros i s1 Hi (R1 & Hdone & Hlen1 & HJ1).
    apply wp_bind, (wp_GetUInt32_at _ l (off + 4 * i)); [done|].
    intros d s2 Hd R2 _ W2 _. apply wp_modify_world. cbn [rcd world].
    rewrite W2, Hget. split_and!.
    + rewrite R2. f_equal. lia.
    + intros j Hj. destruct (decide (j = i)) as [->|Hne].
      * exists d. split; [done|]. apply list_lookup_insert_eq. lia.
      * destruct (Hdone j) as (d' & ? & ?); [lia|].
        exists d'. split; [done|]. now rewrite list_lookup_insert_ne.
    + now rewrite length_insert.
    + now apply HJ.
Qed.
End LoadsNumbers.

Section TimedAnimationFacts.
Context `{Headers} {ImageData : Type}.
Implicit Types s : LoadState (@TimedAnimation ImageData).

Lemma wp_TimedAnimation_Load (filename : string)
    (frame_sets : gmap (string * Z) (@FrameSet ImageData)) s :
  wp True (TimedAnimation_Load filename frame_sets) s (λ _ s',
    rcd_version (rcd s) = 1
    ∧ ∃ v, peek32 (remaining (rcd s)) 0 = Some v
        ∧ 0 ≤ i32 v
        ∧ tima_frames (world s') = i32 v
        ∧ length (tima_durations (world s')) = Z.to_nat (i32 v)
        ∧ length (tima_views (world s')) = Z.to_nat (i32 v)
        ∧ ∀ f, (f < Z.to_nat (i32 v))%nat →
            ∃ d id,
              peek32 (remaining (rcd s)) (4 + 4 * f) = Some d
              ∧ tima_durations (world s') !! f = Some (i32 d)
              ∧ peek32 (remaining (rcd s)) (4 + 4 * Z.to_nat (i32 v) + 4 * f) = Some id
              ∧ tima_views (world s') !! f = Some (frame_sets !! (filename, id))).
Proof.
  unfold TimedAnimation_Load. apply wp_bind, wp_get_reader.
  case_decide as Hhdr; [apply wp_return_false|].
  apply wp_bind, (wp_GetUInt32_at _ (remaining (rcd s)) 0); [done|].
  intros v s1 Hv R1 _ W1 _. cbv zeta.
  apply wp_bind, wp_modify_world.
  case_decide as Hsz; [apply wp_return_false|].
  case_decide as Hneg; [exact I|].
  apply wp_bind, wp_modify_world.
  set (n := Z.to_nat (i32 v)).
  apply wp_bind. eapply wp_conseq.
  - apply (wp_load_numbers True (remaining (rcd s)) tima_durations
             (λ f d ta, mkTimedAnimation (tima_frames ta) (<[f := i32 d]> (tima_durations ta))
                                         (tima_views ta))
             i32
             (λ ta, tima_frames ta = i32 v ∧ tima_views ta = replicate n None)
             n 4); [done | done | | |].
    + intros i d w [? ?]. done.
    + cbn. now rewrite length_replicate.
    + done.
  - cbv beta. cbn [world tima_durations]. rewrite length_replicate.
    intros u s2 (R2 & Hdur & Hlen_d & Hfr & Hviews).
    eapply wp_conseq.
    + apply (wp_load_numbers True (remaining (rcd s)) tima_views
               (λ f id ta, mkTimedAnimation (tima_frames ta) (tima_durations ta)
                             (<[f := frame_sets !! (filename, id)]> (tima_views ta)))
               (λ id, frame_sets !! (filename, id))
               (λ ta, tima_frames ta = i32 v ∧ tima_durations ta = tima_durations (world s2))
               n (4 + 4 * n)); [done | done | | |].
      * intros i d w [? ?]. done.
      * rewrite Hviews. now rewrite length_replicate.
      * done.
    + cbv beta. intros u' s' (_ & Hview & Hlen_v & Hfr' & Hdur').
      split; [lia|]. exists v. split_and!; [done | lia | done | | |].
      * now rewrite Hdur'.
      * rewrite Hlen_v, Hviews. apply length_replicate.
      * intros f Hf. destruct (Hdur f Hf) as (d & Hd & Hlook).
        destruct (Hview f Hf) as (id & Hid & Hlook').
        exists d, id. rewrite Hdur'. done.
Qed.

(** A block of version 1 that the file holds, with a frame count that is not
    negative and the size that goes with it, loads. *)
Lemma TimedAnimation_Load_runs (filename : string)
    (frame_sets : gmap (string * Z) (@FrameSet ImageData)) s frames :
  rcd_version (rcd s) = 1 → 0 ≤ frames < 2 ^ 28 →
  rcd_size (rcd s) = 4 + 8 * frames →
  peek32 (remaining (rcd s)) 0 = Some frames →
  4 + 8 * frames ≤ Z.of_nat (length (remaining (rcd s))) →
  ∃ s', TimedAnimation_Load filename frame_sets s = (Ok tt, s').
Proof.
  intros Hver Hframes Hsize Hpeek Hlen.
  assert (runs (TimedAnimation_Load filename frame_sets) s (λ _ _, True))
    as ([] & s' & E & _); [|now exists s'].
  unfold TimedAnimation_Load. apply runs_bind, runs_get_reader.
  rewrite decide_False by lia.
  apply runs_bind, runs_GetUInt32; [lia|]. intros v Hv.
  assert (v = frames) as -> by congruence. cbv zeta.
  rewrite (i32_id frames) by lia.
  apply runs_bind, runs_modify_world.
  rewrite decide_False by (rewrite Hsize; intros Hne; now apply Hne).
  rewrite decide_False by lia.
  apply runs_bind, runs_modify_world.
  apply runs_bind. eapply runs_conseq.
  - apply (runs_load_numbers
             (λ f d ta, mkTimedAnimation (tima_frames ta) (<[f := i32 d]> (tima_durations ta))
                                         (tima_views ta))).
    cbn [rcd]. rewrite remaining_advance, length_drop. lia.
  - cbv beta. cbn [rcd]. rewrite remaining_advance, length_drop. intros _ s2 Hlen2.
    eapply runs_conseq.
    + apply (runs_load_numbers
               (λ f id ta, mkTimedAnimation (tima_frames ta) (tima_durations ta)
                             (<[f := frame_sets !! (filename, id)]> (tima_views ta)))).
      lia.
    + done.
Qed.

(** X11. [TimedAnimation::Load], for every table of the registered frame
    sets.  A timed animation that it has loaded: the block has the version 1;
    the animation has the number of frames that the block starts with, which
    is not negative, as many durations, which are the numbers that follow,
    and as many views; the view of a frame is the frame set that is
    registered for the file under the number of the block that the frame
    refers to, and [nullptr] when none is.  Such a reference does not make
    the load fail: a block of version 1 that the file holds, with a frame
    count below 2^28 and the size 4 + 8 * frames, loads whatever is
    registered.  With a negative frame count that passes the check of the
    size, the allocation of the durations throws and the handler does not
    return. *)
Theorem TimedAnimation_Load_views (filename : string)
    (frame_sets : gmap (string * Z) (@FrameSet ImageData)) s :
  (∀ u s', TimedAnimation_Load filename frame_sets s = (Ok u, s') →
     rcd_version (rcd s) = 1
     ∧ ∃ v, peek32 (remaining (rcd s)) 0 = Some v
         ∧ 0 ≤ tima_frames (world s')
         ∧ tima_frames (world s') = i32 v
         ∧ Z.of_nat (length (tima_durations (world s'))) = tima_frames (world s')
         ∧ Z.of_nat (length (tima_views (world s'))) = tima_frames (world s')
         ∧ ∀ f, (f < Z.to_nat (i32 v))%nat →
             ∃ d id,
               peek32 (remaining (rcd s)) (4 + 4 * f) = Some d
               ∧ tima_durations (world s') !! f = Some (i32 d)
               ∧ peek32 (remaining (rcd s)) (4 + 4 * Z.to_nat (i32 v) + 4 * f) = Some id
               ∧ tima_views (world s') !! f = Some (frame_sets !! (filename, id)))
  ∧ (∀ frames,
       rcd_version (rcd s) = 1 → 0 ≤ frames < 2 ^ 28 →
       rcd_size (rcd s) = 4 + 8 * frames →
       peek32 (remaining (rcd s)) 0 = Some frames →
       4 + 8 * frames ≤ Z.of_nat (length (remaining (rcd s))) →
       ∃ s', TimedAnimation_Load filename frame_sets s = (Ok tt, s'))
  ∧ (∀ v,
       rcd_version (rcd s) = 1 → 4 ≤ rcd_size (rcd s) →
       peek32 (remaining (rcd s)) 0 = Some v →
       i32 (rcd_size (rcd s)) = i32 (4 + 8 * i32 v) → i32 v < 0 →
       (TimedAnimation_Load filename frame_sets s).1 = Fault).
Proof.
  split_and!.
  - intros u s' E.
    destruct (wp_Ok _ _ _ _ _ _ (wp_TimedAnimation_Load filename frame_sets s) E)
      as (Hver & v & Hv & Hpos & Hfr & Hd & Hvw & Hall).
    split; [done|]. exists v. split_and!; [done | lia | done | lia | lia | done].
  - apply TimedAnimation_Load_runs.
  - intros v Hver Hsize Hv Hsz Hneg. unfold TimedAnimation_Load.
    rewrite (bind_Ok get_reader _ s (rcd s) s eq_refl). rewrite decide_False by lia.
    unfold peek32 in Hv. rewrite drop_0 in Hv.
    destruct (remaining (rcd s)) as [|b0 [|b1 [|b2 [|b3 rest]]]] eqn:E; try discriminate.
    injection Hv as Hv. rewrite (bind_Ok _ _ _ _ _ (GetUInt32_cons _ _ _ _ _ _ E)).
    rewrite Hv. cbv zeta.
    rewrite (bind_Ok (modify_world _) _ _ tt _ eq_refl). cbn [rcd advance].
    rewrite decide_False by (intros Hne; now apply Hne).
    now rewrite decide_True.
Qed.
End TimedAnimationFacts.

Lemma TimedAnimation_Load_views_witness :
  let s := mkState (reader_at_payload "TIMA" 1 example_tima_payload)
                   (@TimedAnimation_new nat) in
  ∃ s', @TimedAnimation_Load nat "example.rcd" ∅ s = (Ok tt, s')
        ∧ tima_frames (world s') = 1
        ∧ tima_views (world s') !! 0%nat = Some None.
Proof.
  intros s.
  destruct (@TimedAnimation_Load_views nat "example.rcd" ∅ s) as (Hloaded & Hruns & _).
  destruct (Hruns 1) as [s' E].
  - reflexivity.
  - lia.
  - reflexivity.
  - vm_compute. reflexivity.
  - vm_compute. discriminate.
  - exists s'. split; [exact E|].
    destruct (Hloaded tt s' E) as (_ & v & Hv & _ & Hframes & _ & _ & Hall).
    assert (peek32 (remaining (rcd s)) 0 = Some 1) as Hone by (vm_compute; reflexivity).
    assert (v = 1) as -> by congruence. split; [exact Hframes|].
    destruct (Hall 0%nat) as (d & id & _ & _ & _ & Hview); [vm_compute; lia|].
    rewrite Hview, lookup_empty. reflexivity.
Defined.

Section RegistersFrames.
Context `{Headers} {ImageData TrackPiece Ext : Type}.
Variable LoadImage : RcdFileReader → option ImageData * nat.
Variable TrackPiece_Load : RcdFileReader → gmap Z ImageData → option TrackPiece * nat.
Variable external : string → RcdFileReader → gmap Z ImageData → gmap Z TextData →
                    gmap Z TrackPiece → Ext → bool * nat * Ext.
Implicit Types ls : @LoopState ImageData TrackPiece Ext.

Local Abbreviation Load_block' := (Load_block LoadImage TrackPiece_Load external).

Lemma Load_block_FSET filename blk_num ls :
  rcd_name (ls_rcd ls) = "FSET"%string →
  Load_block' filename blk_num ls
  = load_object (FrameSet_Load (ls_sprites ls)) FrameSet_new "Frame set failed to load." ls
      (λ fset s',
         Continue (with_manager
           (with_store (set_frame_sets (<[(filename, blk_num) := fset]>))) s')).
Proof. intros E. unfold Load_block. rewrite E. reflexivity. Qed.

Lemma Load_block_TIMA filename blk_num ls :
  rcd_name (ls_rcd ls) = "TIMA"%string →
  Load_block' filename blk_num ls
  = let '(res, st) :=
      TimedAnimation_Load filename (frame_sets (store (ls_manager ls)))
        (mkState (ls_rcd ls) TimedAnimation_new) in
    let ls' := with_rcd (rcd st) ls in
    match res with
    | Ok _ =>
      Continue (with_manager
        (with_store (set_timed_animations (<[(filename, blk_num) := world st]>))) ls')
    | Fail => Return (Some "Timed animation failed to load."%string) ls'
    | Fault => Throw ls'
    end.
Proof. intros E. unfold Load_block. rewrite E. reflexivity. Qed.

(** X12. Frame sets and timed animations are registered under the name of
    the file and the number of their block.  After an FSET block that loads,
    [GetFrameSet] gives the loaded frame set for this key and what it gave
    before for the other keys.  After a TIMA block that loads,
    [GetTimedAnimation] gives the loaded animation for this key and what it
    gave before for the others, and the view of each frame of the animation
    is what [GetFrameSet] gave, when the block was read, for the file and the
    number that the frame refers to. *)
Theorem frame_blocks_are_registered filename blk_num ls ls' :
  Load_block' filename blk_num ls = Continue ls' →
  (rcd_name (ls_rcd ls) = "FSET"%string →
     ∃ u st,
       FrameSet_Load (ls_sprites ls) (mkState (ls_rcd ls) FrameSet_new) = (Ok u, st)
       ∧ GetFrameSet (filename, blk_num) (ls_manager ls') = Some (world st)
       ∧ (∀ key, key ≠ (filename, blk_num) →
            GetFrameSet key (ls_manager ls') = GetFrameSet key (ls_manager ls))
       ∧ (∀ key, GetTimedAnimation key (ls_manager ls')
                 = GetTimedAnimation key (ls_manager ls)))
  ∧ (rcd_name (ls_rcd ls) = "TIMA"%string →
     ∃ anim v,
       GetTimedAnimation (filename, blk_num) (ls_manager ls') = Some anim
       ∧ peek32 (remaining (ls_rcd ls)) 0 = Some v
       ∧ tima_frames anim = i32 v
       ∧ (∀ f, (f < Z.to_nat (i32 v))%nat →
            ∃ id, peek32 (remaining (ls_rcd ls)) (4 + 4 * Z.to_nat (i32 v) + 4 * f) = Some id
                  ∧ tima_views anim !! f
                    = Some (GetFrameSet (filename, id) (ls_manager ls)))
       ∧ (∀ key, key ≠ (filename, blk_num) →
            GetTimedAnimation key (ls_manager ls')
            = GetTimedAnimation key (ls_manager ls))
       ∧ (∀ key, GetFrameSet key (ls_manager ls') = GetFrameSet key (ls_manager ls))).
Proof.
  intros Hload. split; intros Hname.
  - rewrite Load_block_FSET in Hload by done.
    apply load_object_Continue in Hload as (u & st & E & Hk). injection Hk as <-.
    exists u, st. split; [done|]. unfold GetFrameSet, GetTimedAnimation. cbn. split_and!.
    + now rewrite lookup_insert_eq.
    + intros key Hne. now rewrite lookup_insert_ne.
    + done.
  - rewrite Load_block_TIMA in Hload by done.
    destruct (TimedAnimation_Load _ _ _) as [[u| |] st] eqn:E; [|discriminate..].
    injection Hload as <-.
    pose proof (wp_Ok _ _ _ _ _ _ (wp_TimedAnimation_Load filename _ _) E)
      as (_ & v & Hv & _ & Hframes & _ & _ & Hviews).
    exists (world st), v. unfold GetFrameSet, GetTimedAnimation. cbn. split_and!.
    + now rewrite lookup_insert_eq.
    + done.
    + done.
    + intros f Hf. destruct (Hviews f Hf) as (d & id & _ & _ & Hid & Hlook). now exists id.
    + intros key Hne. now rewrite lookup_insert_ne.
    + done.
Qed.
End RegistersFrames.

Lemma frame_blocks_are_registered_witness :
  let ls := example_state (reader_at_payload "FSET" 1 example_fset_payload) in
  ∃ ls' fset,
    @Load_block example_headers nat unit unit example_LoadImage example_TrackPiece_Load
      example_external "example.rcd" 1 ls = Continue ls'
    ∧ GetFrameSet ("example.rcd"%string, 1) (ls_manager ls') = Some fset.
Proof.
  intros ls.
  assert (∃ ls', @Load_block example_headers nat unit unit example_LoadImage
                   example_TrackPiece_Load example_external "example.rcd" 1 ls = Continue ls')
    as (ls' & E) by (vm_compute; eauto).
  destruct (@frame_blocks_are_registered example_headers nat unit unit example_LoadImage
              example_TrackPiece_Load example_external "example.rcd" 1 ls ls' E)
    as [Hfset _].
  destruct Hfset as (u & st & _ & Hget & _); [reflexivity|].
  exists ls', (world st). split; [exact E | exact Hget].
Defined.

(** ** The animations of the sprite manager *)

Section Multimap.
Context {V : Type}.
Implicit Types l : list (Z * V).

Lemma mm_insert_sorted e l : keys_sorted l → keys_sorted (mm_insert e l).
Proof.
  induction l as [|x l IH]; cbn; [done|]. intros [Hx Hl]. case_decide as Hlt; cbn.
  - split_and!; [|done..]. constructor; [lia|].
    eapply Forall_impl; [exact Hx|]. cbn. intros y Hy. lia.
  - split; [|now apply IH]. clear IH Hl.
    induction l as [|y l IH]; cbn; [constructor; [lia | done]|].
    inversion Hx as [|? ? Hy Hl]; subst. case_decide; repeat constructor; try lia; try done.
    now apply IH.
Qed.

Lemma filter_key_none (k : Z) l : Forall (λ y, y.1 ≠ k) l → filter (λ x, x.1 = k) l = [].
Proof.
  induction 1 as [|y l Hy Hl IH]; [done|]. rewrite filter_cons_False by done. exact IH.
Qed.

Lemma mm_insert_filter (k : Z) e l :
  keys_sorted l →
  filter (λ x, x.1 = k) (mm_insert e l)
  = filter (λ x, x.1 = k) l ++ filter (λ x, x.1 = k) [e].
Proof.
  induction l as [|x l IH]; cbn [mm_insert keys_sorted]; [done|]. intros [Hx Hl].
  case_decide as Hlt.
  - destruct (decide (e.1 = k)) as [He|He].
    + rewrite !(filter_cons_True _ e) by done. rewrite (filter_key_none k (x :: l)); [done|].
      constructor; [lia|]. eapply Forall_impl; [exact Hx|]. cbn. intros y Hy. lia.
    + rewrite (filter_cons_False _ e) by done.
      rewrite (filter_cons_False _ e []) by done. now rewrite filter_nil, app_nil_r.
  - destruct (decide (x.1 = k)) as [Hk|Hk].
    + rewrite !(filter_cons_True _ x) by done. cbn. now rewrite IH.
    + rewrite !(filter_cons_False _ x) by done. now rewrite IH.
Qed.

Lemma mm_insert_Forall (P : Z * V → Prop) e l :
  P e → Forall P l → Forall P (mm_insert e l).
Proof.
  intros He. induction 1 as [|x l Hx Hl IH]; cbn; [now constructor|].
  case_decide; repeat constructor; done.
Qed.

Lemma mm_elements_snoc l e : mm_elements (l ++ [e]) = mm_insert e (mm_elements l).
Proof. unfold mm_elements. now rewrite foldl_app. Qed.

Lemma mm_elements_sorted l : keys_sorted (mm_elements l).
Proof.
  induction l as [|e l IH] using rev_ind; [done|].
  rewrite mm_elements_snoc. now apply mm_insert_sorted.
Qed.

(** The pairs of a key are in the multimap in the order of their insertion. *)
Lemma mm_elements_filter (k : Z) l :
  filter (λ x, x.1 = k) (mm_elements l) = filter (λ x, x.1 = k) l.
Proof.
  induction l as [|e l IH] using rev_ind; [done|].
  rewrite mm_elements_snoc, mm_insert_filter by apply mm_elements_sorted.
  now rewrite filter_app, IH.
Qed.

Lemma mm_elements_Forall (P : Z * V → Prop) l : Forall P l → Forall P (mm_elements l).
Proof.
  induction l as [|e l IH] using rev_ind; [done|].
  rewrite Forall_app, Forall_singleton. intros [Hl He].
  rewrite mm_elements_snoc. apply mm_insert_Forall; [done | now apply IH].
Qed.

(** From [find(key)] on: the pairs of the key, then pairs of other keys that
    are pairs of the multimap. *)
Lemma mm_find_sorted (k : Z) l :
  keys_sorted l →
  ∃ above, mm_find k l = filter (λ x, x.1 = k) l ++ above
           ∧ Forall (λ y, y.1 ≠ k) above ∧ above ⊆ l.
Proof.
  induction l as [|x l IH]; cbn [mm_find keys_sorted].
  - intros _. now exists [].
  - intros [Hx Hl]. case_decide as Hk.
    + rewrite filter_cons_True by done. clear IH. subst k.
      assert (∃ above, l = filter (λ y, y.1 = x.1) l ++ above
                       ∧ Forall (λ y, y.1 ≠ x.1) above ∧ above ⊆ l)
        as (above & Eq & Hab & Hsub).
      { revert Hx Hl. induction l as [|y l IH]; intros Hx Hl.
        - now exists [].
        - inversion Hx as [|? ? Hy Hx']; subst. destruct Hl as [Hy' Hl].
          destruct (decide (y.1 = x.1)) as [E|E].
          + destruct (IH Hx' Hl) as (above & Eq & Habove & Hsub). exists above.
            rewrite filter_cons_True by done. split_and!; [|done|].
            * cbn. now rewrite <- Eq.
            * intros z Hz. right. now apply Hsub.
          + exists (y :: l). rewrite (filter_key_none _ (y :: l)).
            * split_and!; [done | | done].
              constructor; [done|]. eapply Forall_impl; [exact Hy'|]. cbn. intros z Hz. lia.
            * constructor; [done|]. eapply Forall_impl; [exact Hy'|]. cbn. intros z Hz. lia. }
      exists above. split_and!; [|done|].
      * cbn. now rewrite <- Eq.
      * intros z Hz. right. now apply Hsub.
    + rewrite filter_cons_False by done. destruct (IH Hl) as (above & Eq & Hab & Hsub).
      exists above. split_and!; [done | done |]. intros z Hz. right. now apply Hsub.
Qed.
End Multimap.

Lemma GetAnimation_loop_first (anim_type per_type : Z) (same above : list (Z * Animation)) :
  Forall (λ e, anim_anim_type e.2 = anim_type) same →
  Forall (λ e, anim_anim_type e.2 ≠ anim_type) above →
  GetAnimation_loop anim_type per_type (same ++ above)
  = snd <$> head (filter (λ e, anim_person_type e.2 = per_type) same).
Proof.
  intros Hsame Habove. induction Hsame as [|[k anim] same Ha Hsame IH].
  - destruct Habove as [|[k anim] above Ha _]; [done|]. cbn in *. now rewrite decide_True.
  - cbn [app GetAnimation_loop]. cbn in Ha.
    rewrite decide_False by (intros Hn; now apply Hn).
    case_decide as Hp.
    + now rewrite filter_cons_True by done.
    + rewrite filter_cons_False by done. exact IH.
Qed.

Lemma GetAnimation_first {ImageData} (m : @SpriteManager ImageData) (anim_type per_type : Z) :
  keyed_by_type (sm_animations m) →
  GetAnimation anim_type per_type m = first_animation anim_type per_type (sm_animations m).
Proof.
  intros Hkeys. unfold GetAnimation, first_animation.
  destruct (mm_find_sorted anim_type (mm_elements (sm_animations m))
              (mm_elements_sorted _)) as (above & -> & Habove & Hsub).
  rewrite mm_elements_filter.
  pose proof (mm_elements_Forall _ _ Hkeys) as Hall. rewrite Forall_forall in Hall.
  unfold keyed_by_type in Hkeys.
  rewrite GetAnimation_loop_first.
  - f_equal. f_equal. rewrite list_filter_filter. clear Hall Hsub. revert Hkeys.
    generalize (sm_animations m). intros l Hkeys.
    induction Hkeys as [|e l He Hl IH]; [done|].
    rewrite !filter_cons, IH. cbn beta.
    destruct (decide (anim_person_type e.2 = per_type ∧ e.1 = anim_type)) as [[? ?]|Hn1];
      destruct (decide (anim_anim_type e.2 = anim_type ∧ anim_person_type e.2 = per_type))
        as [[? ?]|Hn2]; try done.
    + exfalso. apply Hn2. split; [congruence | done].
    + exfalso. apply Hn1. split; [done | congruence].
  - apply Forall_forall. intros e He. apply list_elem_of_filter in He as [Hk He].
    rewrite Forall_forall in Hkeys. rewrite <- (Hkeys e He). exact Hk.
  - apply Forall_forall. intros e He. rewrite Forall_forall in Habove.
    rewrite <- (Hall e (Hsub e He)). now apply Habove.
Qed.


(** X13. Of several animations that are registered for one animation type
    and one person type, [GetAnimation] gives the one that was registered
    first: what it gives is registered and has the two types, and no
    animation that was registered before it has them; it gives [nullptr]
    exactly when no animation is registered for the two. *)
Theorem GetAnimation_gives_the_first {ImageData} (m : @SpriteManager ImageData)
    (anim_type per_type : Z) :
  keyed_by_type (sm_animations m) →
  GetAnimation anim_type per_type m = first_animation anim_type per_type (sm_animations m)
  ∧ (∀ anim, GetAnimation anim_type per_type m = Some anim →
       anim_anim_type anim = anim_type ∧ anim_person_type anim = per_type
       ∧ ∃ before after,
           sm_animations m = before ++ (anim_type, anim) :: after
           ∧ Forall (λ e, ¬ (anim_anim_type e.2 = anim_type ∧ anim_person_type e.2 = per_type))
                    before)
  ∧ (GetAnimation anim_type per_type m = None
     ↔ Forall (λ e, ¬ (anim_anim_type e.2 = anim_type ∧ anim_person_type e.2 = per_type))
              (sm_animations m)).
Proof.
  intros Hkeys. rewrite GetAnimation_first by done. split; [done|].
  unfold first_animation, keyed_by_type in *. revert Hkeys.
  generalize (sm_animations m). intros l Hkeys.
  induction Hkeys as [|e l He Hl [IHsome IHnone]]; [split; [done | split; [constructor | done]]|].
  rewrite filter_cons.
  destruct (decide (anim_anim_type e.2 = anim_type ∧ anim_person_type e.2 = per_type))
    as [[Ht Hp]|Hn].
  - split.
    + cbn. intros anim [= <-]. split_and!; [done | done |].
      exists [], l. split; [|constructor]. destruct e as [k a]. cbn in *. congruence.
    + cbn. split; [done|]. intros Hall. inversion Hall as [|? ? Hne _]. now destruct Hne.
  - split.
    + intros anim Hanim. destruct (IHsome anim Hanim) as (Ht & Hp & before & after & -> & Hb).
      split_and!; [done | done |]. exists (e :: before), after. split; [done|].
      now constructor.
    + rewrite IHnone. split; [now constructor | now inversion 1].
Qed.

Lemma GetAnimation_gives_the_first_witness :
  let m := mkSpriteManager (@SpriteStorage_new example_headers nat 64) [] example_animations in
  GetAnimation 1 1 m = Some (mkAnimation 1 1 1 [mkAnimationFrame 300 1 0]).
Proof.
  intros m. destruct (GetAnimation_gives_the_first m 1 1) as [-> _].
  - unfold keyed_by_type. repeat constructor.
  - vm_compute. reflexivity.
Defined.

Lemma wp_GetUInt16_world {W} (F : Prop) (s : LoadState W) (Q : Z → LoadState W → Prop) :
  (∀ v s', world s' = world s → Q v s') → wp F GetUInt16 s Q.
Proof. intros HQ. apply wp_GetUInt16. intros b0 b1 rest s' _ _ Hw. now apply HQ. Qed.

Lemma wp_GetInt16_world {W} (F : Prop) (s : LoadState W) (Q : Z → LoadState W → Prop) :
  (∀ v s', world s' = world s → Q v s') → wp F GetInt16 s Q.
Proof.
  intros HQ. unfold GetInt16. apply wp_bind, wp_GetUInt16_world. intros v s' Hw.
  apply wp_ret. now apply HQ.
Qed.

Section AnimationTypes.
Context `{Headers}.
Implicit Types s : LoadState Animation.

(** The types of an animation that has been loaded. *)
Lemma wp_Animation_Load_types s :
  wp False Animation_Load s (λ _ s',
    ∃ pt at_,
      peek8 (remaining (rcd s)) 0 = Some pt
      ∧ peek16 (remaining (rcd s)) 1 = Some at_
      ∧ anim_person_type (world s') = DecodePersonType pt
      ∧ anim_person_type (world s') ≠ PERSON_INVALID
      ∧ anim_anim_type (world s') = at_
      ∧ ANIM_BEGIN ≤ at_ ≤ ANIM_LAST).
Proof.
  unfold Animation_Load. apply wp_bind, wp_get_reader. cbv zeta.
  case_decide as Hhdr; [apply wp_return_false|].
  apply wp_bind, (wp_GetUInt8_at _ (remaining (rcd s)) 0%nat); [done|].
  intros pt s1 Hpt R1 W1 _.
  apply wp_bind, wp_modify_world. case_decide as Hperson; [apply wp_return_false|].
  apply wp_bind, (wp_GetUInt16_at _ (remaining (rcd s)) 1%nat); [done|].
  intros at_ s2 Hat R2 W2 _. case_decide as Hanim; [apply wp_return_false|].
  apply wp_bind, wp_modify_world.
  apply wp_bind, wp_GetUInt16. intros b0 b1 rest s3 _ _ W3.
  apply wp_bind, wp_modify_world. case_decide as Hsize; [apply wp_return_false|].
  apply wp_bind, wp_modify_world. case_decide as Hzero; [apply wp_return_false|].
  eapply wp_conseq.
  - apply (wp_for_each False 0 _ _
      (λ _ st, anim_person_type (world st) = DecodePersonType pt
               ∧ anim_anim_type (world st) = at_)).
    + cbn. rewrite W3. cbn. rewrite W2. cbn. done.
    + intros i st Hi [Hp Ha].
      apply wp_bind, wp_GetUInt16_world. intros ? st1 V1.
      apply wp_bind, wp_modify_world. case_decide; [apply wp_return_false|].
      apply wp_bind, wp_GetInt16_world. intros ? st2 V2.
      apply wp_bind, wp_modify_world. case_decide; [apply wp_return_false|].
      apply wp_bind, wp_GetInt16_world. intros ? st3 V3.
      apply wp_bind, wp_modify_world. case_decide; [apply wp_return_false|].
      apply wp_ret. cbn. rewrite V3. cbn. rewrite V2. cbn. rewrite V1. cbn. done.
  - cbv beta. intros u s' [Hp Ha]. exists pt, at_.
    split_and!; first [done | lia | now rewrite Hp].
Qed.
End AnimationTypes.

Lemma first_animation_snoc anim_type per_type (l : list (Z * Animation)) e :
  first_animation anim_type per_type (l ++ [e])
  = match first_animation anim_type per_type l with
    | Some a => Some a
    | None => if decide (anim_anim_type e.2 = anim_type ∧ anim_person_type e.2 = per_type)
              then Some e.2 else None
    end.
Proof.
  unfold first_animation. rewrite filter_app.
  destruct (filter _ l) as [|x xs]; [|done].
  rewrite app_nil_l, filter_cons, filter_nil. now case_decide.
Qed.

Section RegistersAnimations.
Context `{Headers} {ImageData TrackPiece Ext : Type}.
Variable LoadImage : RcdFileReader → option ImageData * nat.
Variable TrackPiece_Load : RcdFileReader → gmap Z ImageData → option TrackPiece * nat.
Variable external : string → RcdFileReader → gmap Z ImageData → gmap Z TextData →
                    gmap Z TrackPiece → Ext → bool * nat * Ext.
Implicit Types ls : @LoopState ImageData TrackPiece Ext.

Local Abbreviation Load_block' := (Load_block LoadImage TrackPiece_Load external).

Lemma Load_block_ANIM filename blk_num ls :
  rcd_name (ls_rcd ls) = "ANIM"%string →
  Load_block' filename blk_num ls
  = load_object Animation_Load Animation_new "Animation failed to load." ls
      (λ anim s',
         if decide (anim_person_type anim = PERSON_INVALID ∨ anim_anim_type anim = ANIM_INVALID)
         then Return (Some "Unknown animation."%string) s'
         else
           Continue (with_manager
             (λ m, AddBlock (AnimationBlock anim)
                     (with_store (RemoveAnimations (anim_anim_type anim) (anim_person_type anim))
                        (AddAnimation anim m))) s')).
Proof. intros E. unfold Load_block. rewrite E. reflexivity. Qed.

(** X14. An ANIM block that the dispatcher has loaded.  Its animation is
    registered under its animation type, behind the animations that were
    registered before: [GetAnimation] gives it for its animation type and
    person type only when none was registered for the two, and gives what it
    gave before for every other pair.  The sprite storage loses the animation
    sprites of this animation type and person type and keeps the others; the
    animation is the new last block of the sprite manager. *)
Theorem ANIM_block_registers_the_animation filename blk_num ls ls' :
  rcd_name (ls_rcd ls) = "ANIM"%string →
  keyed_by_type (sm_animations (ls_manager ls)) →
  Load_block' filename blk_num ls = Continue ls' →
  ∃ anim,
    anim_person_type anim ≠ PERSON_INVALID
    ∧ anim_anim_type anim ≠ ANIM_INVALID
    ∧ ANIM_BEGIN ≤ anim_anim_type anim ≤ ANIM_LAST
    ∧ sm_animations (ls_manager ls')
      = sm_animations (ls_manager ls) ++ [(anim_anim_type anim, anim)]
    ∧ keyed_by_type (sm_animations (ls_manager ls'))
    ∧ GetAnimation (anim_anim_type anim) (anim_person_type anim) (ls_manager ls')
      = Some (default anim (GetAnimation (anim_anim_type anim) (anim_person_type anim)
                                         (ls_manager ls)))
    ∧ (∀ anim_type per_type,
         ¬ (anim_type = anim_anim_type anim ∧ per_type = anim_person_type anim) →
         GetAnimation anim_type per_type (ls_manager ls')
         = GetAnimation anim_type per_type (ls_manager ls))
    ∧ (∀ e, e ∈ animations (store (ls_manager ls'))
            ↔ e ∈ animations (store (ls_manager ls))
              ∧ ¬ (ansp_anim_type e.2 = anim_anim_type anim
                   ∧ ansp_person_type e.2 = anim_person_type anim))
    ∧ blocks (ls_manager ls') = blocks (ls_manager ls) ++ [AnimationBlock anim].
Proof.
  intros Hname Hkeys. rewrite Load_block_ANIM by done. intros Hload.
  apply load_object_Continue in Hload as (u & st & E & Hk).
  pose proof (wp_Ok _ _ _ _ _ _ (wp_Animation_Load_types _) E)
    as (pt & at_ & _ & _ & Hp & Hperson & Ha & Hrange).
  case_decide as Hinv; [discriminate|]. injection Hk as <-.
  exists (world st). cbn [ls_manager with_manager with_rcd].
  assert (keyed_by_type (sm_animations (ls_manager ls)
                         ++ [(anim_anim_type (world st), world st)])) as Hkeys'.
  { apply Forall_app. split; [done|]. now constructor. }
  split_and!.
  - done.
  - intros Hn. apply Hinv. now right.
  - lia.
  - lia.
  - done.
  - done.
  - rewrite !GetAnimation_first by done.
    cbn [sm_animations AddBlock AddAnimation with_store].
    rewrite first_animation_snoc.
    destruct (first_animation _ _ (sm_animations (ls_manager ls))); [done|].
    cbn. now rewrite decide_True.
  - intros anim_type per_type Hne. rewrite !GetAnimation_first by done.
    cbn [sm_animations AddBlock AddAnimation with_store].
    rewrite first_animation_snoc.
    destruct (first_animation _ _ (sm_animations (ls_manager ls))); [done|].
    cbn. rewrite decide_False; [done|]. intros [? ?]. apply Hne. done.
  - intros e. cbn. rewrite list_elem_of_filter. tauto.
  - done.
Qed.
End RegistersAnimations.

Lemma ANIM_block_registers_the_animation_witness :
  let ls := example_state (reader_at_payload "ANIM" 4 example_walk_payload) in
  ∃ ls' anim,
    @Load_block example_headers nat unit unit example_LoadImage example_TrackPiece_Load
      example_external "example.rcd" 1 ls = Continue ls'
    ∧ GetAnimation (anim_anim_type anim) (anim_person_type anim) (ls_manager ls') = Some anim.
Proof.
  intros ls.
  assert (∃ ls', @Load_block example_headers nat unit unit example_LoadImage
                   example_TrackPiece_Load example_external "example.rcd" 1 ls = Continue ls')
    as (ls' & E) by (vm_compute; eauto).
  destruct (@ANIM_block_registers_the_animation example_headers nat unit unit
              example_LoadImage example_TrackPiece_Load example_external "example.rcd" 1 ls ls')
    as (anim & _ & _ & _ & _ & _ & Hget & _).
  - reflexivity.
  - constructor.
  - exact E.
  - exists ls', anim. split; [exact E|]. rewrite Hget. f_equal.
Defined.

(** * The sprites of the GUI *)

Section GuiRead.
Context `{GuiHeaders} {ImageData : Type}.
Variable img_width img_height : ImageData → Z.
Implicit Types s : LoadState (@GuiSprites ImageData).
Implicit Types sprites : gmap Z ImageData.

Lemma reads_load_scrollbar_sprites sprites sprdata shaded count :
  ∀ first max_width max_height,
    reads (4 * count)
      (load_scrollbar_sprites img_width img_height sprites sprdata shaded first count
         max_width max_height).
Proof.
  induction count as [|count IH]; intros first max_width max_height; cbn.
  - apply reads_ret.
  - apply (reads_eq (4 + (0 + 4 * count))); [|lia].
    apply reads_bind; [apply reads_LoadSpriteFromFile|]. intros spr.
    apply reads_bind; [apply reads_modify_world|]. intros _.
    destruct spr; apply IH.
Qed.

Lemma wp_LoadGBOR_size sprites s :
  wp True (LoadGBOR sprites) s (λ _ s', took (Z.to_nat (rcd_size (rcd s))) s s').
Proof.
  unfold LoadGBOR. apply wp_bind, wp_get_reader. case_decide; [apply wp_return_false|].
  reads_size.
Qed.

Lemma wp_LoadGCHK_size sprites s :
  wp True (LoadGCHK img_width img_height sprites) s
    (λ _ s', took (Z.to_nat (rcd_size (rcd s))) s s').
Proof.
  unfold LoadGCHK. apply wp_bind, wp_get_reader. case_decide; [apply wp_return_false|].
  reads_size.
Qed.

Lemma wp_LoadGSLI_size sprites s :
  wp True (LoadGSLI sprites) s (λ _ s', took (Z.to_nat (rcd_size (rcd s))) s s').
Proof.
  unfold LoadGSLI. apply wp_bind, wp_get_reader. case_decide; [apply wp_return_false|].
  reads_size.
Qed.

Lemma wp_LoadGSCL_size sprites s :
  wp True (LoadGSCL img_width img_height sprites) s
    (λ _ s', took (Z.to_nat (rcd_size (rcd s))) s s').
Proof.
  unfold LoadGSCL. apply wp_bind, wp_get_reader. case_decide; [apply wp_return_false|].
  eapply wp_reads.
  - do 5 (apply reads_bind; [reads|]; intros ?).
    destruct (scrollbar_of_type _) as [[[sprdata shaded] vertical]|]; [|apply reads_return_false].
    apply reads_bind; [reads|]. intros _.
    apply reads_bind; [apply reads_load_scrollbar_sprites|]. intros [mw mh]. reads.
  - intros ? ? T. eapply took_eq; [exact T | lia].
Qed.

Lemma wp_LoadMENU_size sprites s :
  wp True (LoadMENU sprites) s (λ _ s', took (Z.to_nat (rcd_size (rcd s))) s s').
Proof.
  unfold LoadMENU. apply wp_bind, wp_get_reader. case_decide; [apply wp_return_false|].
  reads_size.
Qed.

(** X15. A handler of the sprites of the GUI that succeeds has read exactly
    the bytes of its block: the payload of the declared size. *)
Theorem gui_handlers_read_their_block sprites :
  reads_block (LoadGBOR sprites)
  ∧ reads_block (LoadGCHK img_width img_height sprites)
  ∧ reads_block (LoadGSLI sprites)
  ∧ reads_block (LoadGSCL img_width img_height sprites)
  ∧ reads_block (LoadMENU sprites).
Proof.
  split_and!; apply reads_block_intro; intros s _.
  - apply wp_LoadGBOR_size.
  - apply wp_LoadGCHK_size.
  - apply wp_LoadGSLI_size.
  - apply wp_LoadGSCL_size.
  - apply wp_LoadMENU_size.
Qed.
End GuiRead.

(** ** The members of the GUI sprites *)

Section GuiMembers.
Context `{GuiHeaders} {ImageData : Type}.
Implicit Types g : @GuiSprites ImageData.

Lemma get_at_border w f g : get_border w (at_border w f g) = f (get_border w g).
Proof. now destruct w. Qed.

Lemma get_at_border_ne w w' f g : w' ≠ w → get_border w' (at_border w f g) = get_border w' g.
Proof. now destruct w, w'. Qed.

Lemma at_at_border w f f' g :
  at_border w f (at_border w f' g) = at_border w (λ b, f (f' b)) g.
Proof. now destruct w. Qed.

Lemma at_get_border w g : at_border w (λ _, get_border w g) g = g.
Proof. now destruct w, g. Qed.

Lemma at_border_frame w g g' :
  (∀ b, at_border w (λ _, b) g' = at_border w (λ _, b) g) →
  g' = at_border w (λ _, get_border w g') g.
Proof. intros Hb. now rewrite <- Hb, at_get_border. Qed.

Lemma arrays_have_length_at_border w b g :
  arrays_have_length g →
  length (border_normal b) = WBS_COUNT → length (border_pressed b) = WBS_COUNT →
  arrays_have_length (at_border w (λ _, b) g).
Proof.
  intros (Hb & Hrest) Hn Hp. split; [|exact Hrest].
  intros w'. destruct (decide (w' = w)) as [->|Hne].
  - now rewrite get_at_border.
  - rewrite get_at_border_ne by done. apply Hb.
Qed.

Lemma get_at_checkable w f g : get_checkable w (at_checkable w f g) = f (get_checkable w g).
Proof. now destruct w. Qed.

Lemma get_at_checkable_ne w w' f g :
  w' ≠ w → get_checkable w' (at_checkable w f g) = get_checkable w' g.
Proof. now destruct w, w'. Qed.

Lemma at_at_checkable w f f' g :
  at_checkable w f (at_checkable w f' g) = at_checkable w (λ c, f (f' c)) g.
Proof. now destruct w. Qed.

Lemma at_get_checkable w g : at_checkable w (λ _, get_checkable w g) g = g.
Proof. now destruct w, g. Qed.

Lemma at_checkable_frame w g g' :
  (∀ c, at_checkable w (λ _, c) g' = at_checkable w (λ _, c) g) →
  g' = at_checkable w (λ _, get_checkable w g') g.
Proof. intros Hc. now rewrite <- Hc, at_get_checkable. Qed.

Lemma arrays_have_length_at_checkable w c g :
  arrays_have_length g → length (check_sprites c) = WCS_COUNT →
  arrays_have_length (at_checkable w (λ _, c) g).
Proof.
  intros (Hb & Hc & Hrest) Hl. split; [exact Hb|]. split; [|exact Hrest].
  intros w'. destruct (decide (w' = w)) as [->|Hne].
  - now rewrite get_at_checkable.
  - rewrite get_at_checkable_ne by done. apply Hc.
Qed.

Lemma get_at_slider w f g : get_slider w (at_slider w f g) = f (get_slider w g).
Proof. now destruct w. Qed.

Lemma get_at_slider_ne w w' f g : w' ≠ w → get_slider w' (at_slider w f g) = get_slider w' g.
Proof. now destruct w, w'. Qed.

Lemma at_at_slider w f f' g :
  at_slider w f (at_slider w f' g) = at_slider w (λ d, f (f' d)) g.
Proof. now destruct w. Qed.

Lemma at_get_slider w g : at_slider w (λ _, get_slider w g) g = g.
Proof. now destruct w, g. Qed.

Lemma at_slider_frame w g g' :
  (∀ d, at_slider w (λ _, d) g' = at_slider w (λ _, d) g) →
  g' = at_slider w (λ _, get_slider w g') g.
Proof. intros Hd. now rewrite <- Hd, at_get_slider. Qed.

Lemma arrays_have_length_at_slider w d g :
  arrays_have_length g →
  length (slider_normal d) = WSS_COUNT → length (slider_shaded d) = WSS_COUNT →
  arrays_have_length (at_slider w (λ _, d) g).
Proof.
  intros (Hb & Hc & Hs & Hrest) Hn Hsh. do 2 (split; [done|]). split; [|exact Hrest].
  intros w'. destruct (decide (w' = w)) as [->|Hne].
  - now rewrite get_at_slider.
  - rewrite get_at_slider_ne by done. apply Hs.
Qed.

Lemma get_at_scrollbar w f g : get_scrollbar w (at_scrollbar w f g) = f (get_scrollbar w g).
Proof. now destruct w. Qed.

Lemma get_at_scrollbar_ne w w' f g :
  w' ≠ w → get_scrollbar w' (at_scrollbar w f g) = get_scrollbar w' g.
Proof. now destruct w, w'. Qed.

Lemma at_at_scrollbar w f f' g :
  at_scrollbar w f (at_scrollbar w f' g) = at_scrollbar w (λ d, f (f' d)) g.
Proof. now destruct w. Qed.

Lemma at_get_scrollbar w g : at_scrollbar w (λ _, get_scrollbar w g) g = g.
Proof. now destruct w, g. Qed.

Lemma at_scrollbar_frame w g g' :
  (∀ d, at_scrollbar w (λ _, d) g' = at_scrollbar w (λ _, d) g) →
  g' = at_scrollbar w (λ _, get_scrollbar w g') g.
Proof. intros Hd. now rewrite <- Hd, at_get_scrollbar. Qed.

Lemma arrays_have_length_at_scrollbar w d g :
  arrays_have_length g →
  length (scroll_normal d) = WLS_COUNT → length (scroll_shaded d) = WLS_COUNT →
  arrays_have_length (at_scrollbar w (λ _, d) g).
Proof.
  intros (Hb & Hc & Hs & Hl) Hn Hsh. do 3 (split; [done|]).
  intros w'. destruct (decide (w' = w)) as [->|Hne].
  - now rewrite get_at_scrollbar.
  - rewrite get_at_scrollbar_ne by done. apply Hl.
Qed.
End GuiMembers.

Section MaxOf.
Context {T : Type} (f : T → Z).
Implicit Types l : list (option T).

Lemma max_of_cons o l :
  max_of f (o :: l) = match o with Some x => Z.max (f x) (max_of f l) | None => max_of f l end.
Proof. done. Qed.

Lemma max_of_nonneg l : 0 ≤ max_of f l.
Proof. induction l as [|[x|] l IH]; rewrite ?max_of_cons; [done | lia | done]. Qed.

Lemma max_of_snoc l o :
  max_of f (l ++ [o])
  = match o with Some x => Z.max (max_of f l) (f x) | None => max_of f l end.
Proof.
  induction l as [|[y|] l IH]; rewrite <- ?app_comm_cons, ?max_of_cons.
  - rewrite app_nil_l, max_of_cons. destruct o; [change (max_of f []) with 0; lia | done].
  - rewrite IH. destruct o; lia.
  - exact IH.
Qed.

Lemma max_of_upper l x : Some x ∈ l → f x ≤ max_of f l.
Proof.
  induction l as [|o l IH]; [now intros ?%elem_of_nil|].
  intros [<-|Hin]%elem_of_cons; rewrite max_of_cons.
  - lia.
  - specialize (IH Hin). destruct o; lia.
Qed.

Lemma max_of_attained l : max_of f l = 0 ∨ ∃ x, Some x ∈ l ∧ max_of f l = f x.
Proof.
  induction l as [|[y|] l IH]; rewrite ?max_of_cons; [now left | |].
  - destruct (Z.max_spec (f y) (max_of f l)) as [[? ->]|[? ->]].
    + destruct IH as [E|(x & Hin & E)]; [left; lia|].
      right. exists x. split; [now apply elem_of_cons; right | done].
    + right. exists y. split; [apply elem_of_cons; now left | done].
  - destruct IH as [E|(x & Hin & E)]; [now left|].
    right. exists x. split; [now apply elem_of_cons; right | done].
Qed.
End MaxOf.

Lemma wp_modify_world_at {W} (F : Prop) (f : W → W) (s : LoadState W)
    (Q : unit → LoadState W → Prop) :
  (∀ s', rcd s' = rcd s → world s' = f (world s) → Q tt s') → wp F (modify_world f) s Q.
Proof. intros HQ. apply wp_modify_world. now apply HQ. Qed.

(** ** What the handlers of the widgets load *)

Section BorderFacts.
Context `{GuiHeaders} {ImageData : Type}.
Implicit Types s : LoadState (@GuiSprites ImageData).
Implicit Types sprites : gmap Z ImageData.

(** The assignment of a number of the file to a member of the border
    [sprdata], before the rest [k] of the handler. *)
Lemma wp_border_number (l : list byte) off (sprdata : BorderMember)
    (set : Z → @BorderSpriteData ImageData → BorderSpriteData) (k : M GuiSprites unit) s
    (Q : unit → LoadState GuiSprites → Prop) :
  remaining (rcd s) = drop off l →
  (∀ v s', peek8 l off = Some v → remaining (rcd s') = drop (off + 1) l →
           get_border sprdata (world s') = set v (get_border sprdata (world s)) →
           (∀ b0, at_border sprdata (λ _, b0) (world s')
                  = at_border sprdata (λ _, b0) (world s)) →
           wp False k s' Q) →
  wp False (v ← GetUInt8; _ ← modify_world (at_border sprdata (set v)); k) s Q.
Proof.
  intros Hrem HQ. apply wp_bind, (wp_GetUInt8_at _ l off); [done|]. intros v s1 Hv R1 W1 _.
  apply wp_bind, wp_modify_world_at. intros s' Hr Hw. apply (HQ v); [done | congruence | |].
  - now rewrite Hw, get_at_border, W1.
  - intros b0. now rewrite Hw, at_at_border, W1.
Qed.

(** What [LoadGBOR] requires of its block, and what it loads. *)
Lemma wp_LoadGBOR_loads sprites s :
  arrays_have_length (world s) →
  wp False (LoadGBOR sprites) s (λ _ s',
    let l := remaining (rcd s) in
    rcd_version (rcd s) = 2
    ∧ rcd_size (rcd s) = 2 + 8 + 4 * Z.of_nat WBS_COUNT
    ∧ ∃ tp sprdata pressed,
        peek16 l 0 = Some tp ∧ border_of_type tp = Some (sprdata, pressed)
        ∧ let b := get_border sprdata (world s') in
          let b0 := get_border sprdata (world s) in
          peek8 l 2 = Some (border_top b) ∧ peek8 l 3 = Some (border_left b)
          ∧ peek8 l 4 = Some (border_right b) ∧ peek8 l 5 = Some (border_bottom b)
          ∧ peek8 l 6 = Some (min_width b) ∧ peek8 l 7 = Some (min_height b)
          ∧ peek8 l 8 = Some (hor_stepsize b) ∧ peek8 l 9 = Some (vert_stepsize b)
          ∧ refs_loaded sprites l 10 WBS_COUNT
              (if pressed then border_pressed b else border_normal b)
          ∧ (if pressed then border_normal b = border_normal b0
             else border_pressed b = border_pressed b0)
          ∧ world s' = at_border sprdata (λ _, b) (world s)
          ∧ arrays_have_length (world s')).
Proof.
  intros Hlen. unfold LoadGBOR. apply wp_bind, wp_get_reader.
  case_decide as Hhdr; [apply wp_return_false|].
  set (l := remaining (rcd s)).
  apply wp_bind, (wp_GetUInt16_at _ l 0%nat); [done|]. intros tp s0 Htp R0 W0 _.
  destruct (border_of_type tp) as [[sprdata pressed]|] eqn:Etp; [|apply wp_return_false].
  set (b0 := get_border sprdata (world s)).
  apply (wp_border_number l 2); [done|]. intros v1 s1 Hv1 R1 G1 A1.
  rewrite W0 in G1. fold b0 in G1. cbn in G1.
  apply (wp_border_number l 3); [done|]. intros v2 s2 Hv2 R2 G2 A2.
  rewrite G1 in G2. cbn in G2.
  apply (wp_border_number l 4); [done|]. intros v3 s3 Hv3 R3 G3 A3.
  rewrite G2 in G3. cbn in G3.
  apply (wp_border_number l 5); [done|]. intros v4 s4 Hv4 R4 G4 A4.
  rewrite G3 in G4. cbn in G4.
  apply (wp_border_number l 6); [done|]. intros v5 s5 Hv5 R5 G5 A5.
  rewrite G4 in G5. cbn in G5.
  apply (wp_border_number l 7); [done|]. intros v6 s6 Hv6 R6 G6 A6.
  rewrite G5 in G6. cbn in G6.
  apply (wp_border_number l 8); [done|]. intros v7 s7 Hv7 R7 G7 A7.
  rewrite G6 in G7. cbn in G7.
  apply (wp_border_number l 9); [done|]. intros v8 s8 Hv8 R8 G8 A8.
  rewrite G7 in G8. cbn in G8.
  assert (A : ∀ b, at_border sprdata (λ _, b) (world s8)
                   = at_border sprdata (λ _, b) (world s)).
  { intros b. now rewrite A8, A7, A6, A5, A4, A3, A2, A1, W0. }
  clear G1 G2 G3 G4 G5 G6 G7 A1 A2 A3 A4 A5 A6 A7 A8 R1 R2 R3 R4 R5 R6 R7 W0 R0.
  destruct (proj1 Hlen sprdata) as [Hn0 Hp0]. fold b0 in Hn0, Hp0.
  assert (Hend : ∀ s', (∀ b, at_border sprdata (λ _, b) (world s')
                            = at_border sprdata (λ _, b) (world s)) →
            length (border_normal (get_border sprdata (world s'))) = WBS_COUNT →
            length (border_pressed (get_border sprdata (world s'))) = WBS_COUNT →
            world s' = at_border sprdata (λ _, get_border sprdata (world s')) (world s)
            ∧ arrays_have_length (world s')).
  { intros s' A' Hn Hp. pose proof (at_border_frame _ _ _ A') as E. split; [exact E|].
    rewrite E. now apply arrays_have_length_at_border. }
  destruct pressed; cbn [negb].
  - eapply wp_conseq.
    + apply (wp_load_sprites False sprites l
               (λ g, border_pressed (get_border sprdata g))
               (λ i spr, at_border sprdata (set_border_pressed (<[i := spr]>)))
               (λ g, (∀ b, at_border sprdata (λ _, b) g = at_border sprdata (λ _, b) (world s))
                     ∧ set_border_pressed (λ _, []) (get_border sprdata g)
                       = mkBorderSpriteData v1 v2 v3 v4 v5 v6 v7 v8 (border_normal b0) [])
               WBS_COUNT 10); [done | | | |].
      * intros i spr g. now rewrite get_at_border.
      * intros i spr g [Hg1 Hg2]. split.
        -- intros b. now rewrite at_at_border.
        -- now rewrite get_at_border.
      * rewrite G8. cbn. lia.
      * split; [done|]. now rewrite G8.
    + cbv beta. intros u s' (_ & Hrefs & Hl & Hg1 & Hg2).
      rewrite G8 in Hl. cbn in Hl.
      destruct (get_border sprdata (world s')) as [t1 t2 t3 t4 t5 t6 t7 t8 nn pp] eqn:Eb.
      cbn in Hg2, Hl, Hrefs. injection Hg2 as -> -> -> -> -> -> -> -> ->.
      destruct (Hend s' Hg1) as [E1 E2]; [rewrite Eb; cbn; lia..|].
      split_and!; [lia | lia |]. exists tp, sprdata, true. rewrite Eb in E1 |- *. cbn.
      split_and!; done.
  - eapply wp_conseq.
    + apply (wp_load_sprites False sprites l
               (λ g, border_normal (get_border sprdata g))
               (λ i spr, at_border sprdata (set_border_normal (<[i := spr]>)))
               (λ g, (∀ b, at_border sprdata (λ _, b) g = at_border sprdata (λ _, b) (world s))
                     ∧ set_border_normal (λ _, []) (get_border sprdata g)
                       = mkBorderSpriteData v1 v2 v3 v4 v5 v6 v7 v8 [] (border_pressed b0))
               WBS_COUNT 10); [done | | | |].
      * intros i spr g. now rewrite get_at_border.
      * intros i spr g [Hg1 Hg2]. split.
        -- intros b. now rewrite at_at_border.
        -- now rewrite get_at_border.
      * rewrite G8. cbn. lia.
      * split; [done|]. now rewrite G8.
    + cbv beta. intros u s' (_ & Hrefs & Hl & Hg1 & Hg2).
      rewrite G8 in Hl. cbn in Hl.
      destruct (get_border sprdata (world s')) as [t1 t2 t3 t4 t5 t6 t7 t8 nn pp] eqn:Eb.
      cbn in Hg2, Hl, Hrefs. injection Hg2 as -> -> -> -> -> -> -> -> ->.
      destruct (Hend s' Hg1) as [E1 E2]; [rewrite Eb; cbn; lia..|].
      split_and!; [lia | lia |]. exists tp, sprdata, false. rewrite Eb in E1 |- *. cbn.
      split_and!; done.
Qed.
End BorderFacts.

Section CheckableFacts.
Context `{GuiHeaders} {ImageData : Type}.
Variable img_width img_height : ImageData → Z.
Implicit Types s : LoadState (@GuiSprites ImageData).
Implicit Types sprites : gmap Z ImageData.

(** What [LoadGCHK] requires of its block, and what it loads. *)
Lemma wp_LoadGCHK_loads sprites s :
  arrays_have_length (world s) →
  wp False (LoadGCHK img_width img_height sprites) s (λ _ s',
    let l := remaining (rcd s) in
    rcd_version (rcd s) = 1
    ∧ rcd_size (rcd s) = 2 + 4 * Z.of_nat WCS_COUNT
    ∧ ∃ tp sprdata,
        peek16 l 0 = Some tp ∧ checkable_of_type tp = Some sprdata
        ∧ let c := get_checkable sprdata (world s') in
          refs_loaded sprites l 2 WCS_COUNT (check_sprites c)
          ∧ check_width c = max_of img_width (check_sprites c)
          ∧ check_height c = max_of img_height (check_sprites c)
          ∧ world s' = at_checkable sprdata (λ _, c) (world s)
          ∧ arrays_have_length (world s')).
Proof.
  intros Hlen. unfold LoadGCHK. apply wp_bind, wp_get_reader.
  case_decide as Hhdr; [apply wp_return_false|].
  set (l := remaining (rcd s)).
  apply wp_bind, (wp_GetUInt16_at _ l 0%nat); [done|]. intros tp s0 Htp R0 W0 _.
  destruct (checkable_of_type tp) as [sprdata|] eqn:Etp; [|apply wp_return_false].
  apply wp_bind, wp_modify_world_at. intros s1 R1 W1.
  pose (c_of := λ s : LoadState (@GuiSprites ImageData), get_checkable sprdata (world s)).
  eapply wp_conseq.
  - apply (wp_for_each False 0 WCS_COUNT _ (λ i s2,
      remaining (rcd s2) = drop (2 + 4 * i) l
      ∧ refs_loaded sprites l 2 i (check_sprites (c_of s2))
      ∧ length (check_sprites (c_of s2)) = WCS_COUNT
      ∧ check_width (c_of s2) = max_of img_width (take i (check_sprites (c_of s2)))
      ∧ check_height (c_of s2) = max_of img_height (take i (check_sprites (c_of s2)))
      ∧ ∀ c, at_checkable sprdata (λ _, c) (world s2)
             = at_checkable sprdata (λ _, c) (world s))).
    + unfold c_of. rewrite W1, get_at_checkable, W0. cbn.
      split_and!; [now rewrite R1, R0 | intros j Hj; lia | apply Hlen | done | done |].
      intros c. now rewrite at_at_checkable.
    + intros i s2 Hi (R2 & Hrefs & Hl & Hw & Hh & Hfr).
      apply wp_bind, (wp_LoadSpriteFromFile_at _ sprites l (2 + 4 * i)); [done|].
      intros id spr s3 Hid Hres R3 W3.
      apply wp_bind, wp_modify_world_at. intros s4 R4 W4.
      assert (Hc4 : c_of s4 = mkCheckableWidgetSpriteData (check_width (c_of s2))
                                (check_height (c_of s2))
                                (<[i := spr]> (check_sprites (c_of s2)))).
      { unfold c_of. now rewrite W4, get_at_checkable, W3. }
      assert (Htake : take (S i) (<[i := spr]> (check_sprites (c_of s2)))
                      = take i (check_sprites (c_of s2)) ++ [spr]).
      { rewrite (take_S_r _ _ spr) by (apply list_lookup_insert_eq; lia).
        now rewrite take_insert_ge by lia. }
      assert (Hrefs4 : refs_loaded sprites l 2 (S i) (<[i := spr]> (check_sprites (c_of s2)))).
      { intros j Hj. destruct (decide (j = i)) as [->|Hne].
        - exists id, spr. split_and!; [done | done |]. apply list_lookup_insert_eq. lia.
        - destruct (Hrefs j) as (id' & spr' & ? & ? & ?); [lia|].
          exists id', spr'. split_and!; [done | done |]. now rewrite list_lookup_insert_ne. }
      destruct spr as [img|].
      * apply wp_modify_world_at. intros s5 R5 W5.
        assert (Hc5 : c_of s5 = mkCheckableWidgetSpriteData
                                  (Z.max (check_width (c_of s2)) (img_width img))
                                  (Z.max (check_height (c_of s2)) (img_height img))
                                  (<[i := Some img]> (check_sprites (c_of s2)))).
        { unfold c_of at 1. rewrite W5, get_at_checkable. fold (c_of s4). now rewrite Hc4. }
        rewrite Hc5. cbn [check_width check_height check_sprites].
        rewrite Htake, !max_of_snoc, length_insert.
        split_and!; [rewrite R5, R4, R3; f_equal; lia | done | done | congruence | congruence |].
        intros c. now rewrite W5, at_at_checkable, W4, at_at_checkable, W3.
      * apply wp_ret. rewrite Hc4. cbn [check_width check_height check_sprites].
        rewrite Htake, !max_of_snoc, length_insert.
        split_and!; [rewrite R4, R3; f_equal; lia | done | done | done | done |].
        intros c. now rewrite W4, at_at_checkable, W3.
  - cbv beta. intros u s' (_ & Hrefs & Hl & Hw & Hh & Hfr). unfold c_of in *.
    rewrite take_ge in Hw, Hh by lia.
    split_and!; [lia | lia |]. exists tp, sprdata. cbv zeta.
    pose proof (at_checkable_frame _ _ _ Hfr) as E.
    split_and!; [done | done | done | done | done | exact E |].
    rewrite E. now apply arrays_have_length_at_checkable.
Qed.
End CheckableFacts.

Section SliderFacts.
Context `{GuiHeaders} {ImageData : Type}.
Implicit Types s : LoadState (@GuiSprites ImageData).
Implicit Types sprites : gmap Z ImageData.

(** What [LoadGSLI] requires of its block, and what it loads. *)
Lemma wp_LoadGSLI_loads sprites s :
  arrays_have_length (world s) →
  wp False (LoadGSLI sprites) s (λ _ s',
    let l := remaining (rcd s) in
    rcd_version (rcd s) = 1
    ∧ rcd_size (rcd s) = 3 + 2 + 4 * Z.of_nat WSS_COUNT
    ∧ ∃ tp sprdata shaded,
        peek16 l 3 = Some tp ∧ slider_of_type tp = Some (sprdata, shaded)
        ∧ let d := get_slider sprdata (world s') in
          let d0 := get_slider sprdata (world s) in
          peek8 l 0 = Some (min_bar_length d) ∧ peek8 l 1 = Some (slider_stepsize d)
          ∧ peek8 l 2 = Some (slider_height d)
          ∧ refs_loaded sprites l 5 WSS_COUNT
              (if shaded then slider_shaded d else slider_normal d)
          ∧ (if shaded then slider_normal d = slider_normal d0
             else slider_shaded d = slider_shaded d0)
          ∧ world s' = at_slider sprdata (λ _, d) (world s)
          ∧ arrays_have_length (world s')).
Proof.
  intros Hlen. unfold LoadGSLI. apply wp_bind, wp_get_reader.
  case_decide as Hhdr; [apply wp_return_false|].
  set (l := remaining (rcd s)).
  apply wp_bind, (wp_GetUInt8_at _ l 0%nat); [done|]. intros v1 s1 Hv1 R1 W1 _.
  apply wp_bind, (wp_GetUInt8_at _ l 1%nat); [done|]. intros v2 s2 Hv2 R2 W2 _.
  apply wp_bind, (wp_GetUInt8_at _ l 2%nat); [done|]. intros v3 s3 Hv3 R3 W3 _.
  apply wp_bind, (wp_GetUInt16_at _ l 3%nat); [done|]. intros tp s4 Htp R4 W4 _.
  destruct (slider_of_type tp) as [[sprdata shaded]|] eqn:Etp; [|apply wp_return_false].
  apply wp_bind, wp_modify_world_at. intros s5 R5 W5.
  set (d0 := get_slider sprdata (world s)).
  assert (G5 : get_slider sprdata (world s5)
               = mkSliderSpriteData v1 v2 v3 (slider_normal d0) (slider_shaded d0)).
  { now rewrite W5, get_at_slider, W4, W3, W2, W1. }
  assert (A : ∀ d, at_slider sprdata (λ _, d) (world s5)
                   = at_slider sprdata (λ _, d) (world s)).
  { intros d. now rewrite W5, at_at_slider, W4, W3, W2, W1. }
  assert (R : remaining (rcd s5) = drop 5 l) by now rewrite R5, R4.
  destruct (proj1 (proj2 (proj2 Hlen)) sprdata) as [Hn0 Hs0]. fold d0 in Hn0, Hs0.
  assert (Hend : ∀ s', (∀ d, at_slider sprdata (λ _, d) (world s')
                            = at_slider sprdata (λ _, d) (world s)) →
            length (slider_normal (get_slider sprdata (world s'))) = WSS_COUNT →
            length (slider_shaded (get_slider sprdata (world s'))) = WSS_COUNT →
            world s' = at_slider sprdata (λ _, get_slider sprdata (world s')) (world s)
            ∧ arrays_have_length (world s')).
  { intros s' A' Hn Hp. pose proof (at_slider_frame _ _ _ A') as E. split; [exact E|].
    rewrite E. now apply arrays_have_length_at_slider. }
  clear W1 W2 W3 W4 W5 R1 R2 R3 R4 R5.
  destruct shaded.
  - eapply wp_conseq.
    + apply (wp_load_sprites False sprites l
               (λ g, slider_shaded (get_slider sprdata g))
               (λ i spr, at_slider sprdata (λ d,
                  mkSliderSpriteData (min_bar_length d) (slider_stepsize d) (slider_height d)
                    (slider_normal d) (<[i := spr]> (slider_shaded d))))
               (λ g, (∀ d, at_slider sprdata (λ _, d) g = at_slider sprdata (λ _, d) (world s))
                     ∧ ∃ arr, get_slider sprdata g
                              = mkSliderSpriteData v1 v2 v3 (slider_normal d0) arr)
               WSS_COUNT 5); [done | | | |].
      * intros i spr g. now rewrite get_at_slider.
      * intros i spr g [Hg1 [arr Hg2]]. split.
        -- intros d. now rewrite at_at_slider.
        -- rewrite get_at_slider, Hg2. now eexists.
      * rewrite G5. cbn. lia.
      * split; [done|]. rewrite G5. now eexists.
    + cbv beta. intros u s' (_ & Hrefs & Hl & Hg1 & arr & Hg2).
      rewrite G5 in Hl. rewrite Hg2 in Hl, Hrefs. cbn in Hl, Hrefs.
      destruct (Hend s' Hg1) as [E1 E2]; [rewrite Hg2; cbn; lia..|].
      split_and!; [lia | lia |]. exists tp, sprdata, true. rewrite Hg2 in E1 |- *. cbn.
      split_and!; done.
  - eapply wp_conseq.
    + apply (wp_load_sprites False sprites l
               (λ g, slider_normal (get_slider sprdata g))
               (λ i spr, at_slider sprdata (λ d,
                  mkSliderSpriteData (min_bar_length d) (slider_stepsize d) (slider_height d)
                    (<[i := spr]> (slider_normal d)) (slider_shaded d)))
               (λ g, (∀ d, at_slider sprdata (λ _, d) g = at_slider sprdata (λ _, d) (world s))
                     ∧ ∃ arr, get_slider sprdata g
                              = mkSliderSpriteData v1 v2 v3 arr (slider_shaded d0))
               WSS_COUNT 5); [done | | | |].
      * intros i spr g. now rewrite get_at_slider.
      * intros i spr g [Hg1 [arr Hg2]]. split.
        -- intros d. now rewrite at_at_slider.
        -- rewrite get_at_slider, Hg2. now eexists.
      * rewrite G5. cbn. lia.
      * split; [done|]. rewrite G5. now eexists.
    + cbv beta. intros u s' (_ & Hrefs & Hl & Hg1 & arr & Hg2).
      rewrite G5 in Hl. rewrite Hg2 in Hl, Hrefs. cbn in Hl, Hrefs.
      destruct (Hend s' Hg1) as [E1 E2]; [rewrite Hg2; cbn; lia..|].
      split_and!; [lia | lia |]. exists tp, sprdata, false. rewrite Hg2 in E1 |- *. cbn.
      split_and!; done.
Qed.
End SliderFacts.

Section ScrollbarFacts.
Context `{GuiHeaders} {ImageData : Type}.
Variable img_width img_height : ImageData → Z.
Implicit Types s : LoadState (@GuiSprites ImageData).
Implicit Types sprites : gmap Z ImageData.

Lemma scroll_array_set shaded f (d : @ScrollbarSpriteData ImageData) :
  scroll_array shaded (set_scroll_array shaded f d) = f (scroll_array shaded d).
Proof. now destruct shaded. Qed.

Lemma set_scroll_array_set shaded f f' (d : @ScrollbarSpriteData ImageData) :
  set_scroll_array shaded f (set_scroll_array shaded f' d)
  = set_scroll_array shaded (λ a, f (f' a)) d.
Proof. now destruct shaded. Qed.

(** The loop of [LoadGSCL]: [first] sprites are loaded, and [max_width] and
    [max_height] are the largest width and height among them. *)
Lemma wp_load_scrollbar_sprites sprites (l : list byte) off sprdata shaded s0 count :
  ∀ first max_width max_height s,
    let arr s := scroll_array shaded (get_scrollbar sprdata (world s)) in
    let I i mw mh s :=
      remaining (rcd s) = drop (off + 4 * i) l
      ∧ refs_loaded sprites l off i (arr s)
      ∧ length (arr s) = WLS_COUNT
      ∧ mw = max_of img_width (take i (arr s))
      ∧ mh = max_of img_height (take i (arr s))
      ∧ set_scroll_array shaded (λ _, []) (get_scrollbar sprdata (world s))
        = set_scroll_array shaded (λ _, []) (get_scrollbar sprdata (world s0))
      ∧ ∀ d, at_scrollbar sprdata (λ _, d) (world s)
             = at_scrollbar sprdata (λ _, d) (world s0) in
    (first + count ≤ WLS_COUNT)%nat →
    I first max_width max_height s →
    wp False (load_scrollbar_sprites img_width img_height sprites sprdata shaded first count
                max_width max_height) s
      (λ r s', I (first + count)%nat r.1 r.2 s').
Proof.
  induction count as [|count IH]; intros first mw mh s arr I Hle HI.
  - cbn [load_scrollbar_sprites]. apply wp_ret. cbn [fst snd]. now rewrite Nat.add_0_r.
  - cbn [load_scrollbar_sprites]. destruct HI as (R & Hrefs & Hl & Hw & Hh & Hrest & Hfr).
    apply wp_bind, (wp_LoadSpriteFromFile_at _ sprites l (off + 4 * first)); [done|].
    intros id spr s1 Hid Hres R1 W1.
    apply wp_bind, wp_modify_world_at. intros s2 R2 W2.
    change (world s2 = at_scrollbar sprdata (set_scroll_array shaded (<[first := spr]>))
                         (world s1)) in W2.
    assert (Harr : arr s2 = <[first := spr]> (arr s)).
    { unfold arr. now rewrite W2, get_at_scrollbar, scroll_array_set, W1. }
    assert (Htake : take (S first) (arr s2) = take first (arr s) ++ [spr]).
    { rewrite Harr. rewrite (take_S_r _ _ spr) by (apply list_lookup_insert_eq; lia).
      now rewrite take_insert_ge by lia. }
    assert (HI2 : ∀ mw' mh',
              mw' = match spr with Some img => Z.max mw (img_width img) | None => mw end →
              mh' = match spr with Some img => Z.max mh (img_height img) | None => mh end →
              I (S first) mw' mh' s2).
    { intros mw' mh' -> ->. unfold I. fold (arr s2). rewrite Htake, !max_of_snoc.
      split_and!.
      - rewrite R2, R1. f_equal. lia.
      - rewrite Harr. intros j Hj. destruct (decide (j = first)) as [->|Hne].
        + exists id, spr. split_and!; [done | done |]. apply list_lookup_insert_eq. lia.
        + destruct (Hrefs j) as (id' & spr' & ? & ? & ?); [lia|].
          exists id', spr'. split_and!; [done | done |]. now rewrite list_lookup_insert_ne.
      - now rewrite Harr, length_insert.
      - destruct spr; congruence.
      - destruct spr; congruence.
      - now rewrite W2, get_at_scrollbar, set_scroll_array_set, W1.
      - intros d. now rewrite W2, at_at_scrollbar, W1. }
    replace (first + S count)%nat with (S first + count)%nat by lia.
    destruct spr as [img|]; apply IH; try lia; now apply HI2.
Qed.

(** What [LoadGSCL] requires of its block, and what it loads. *)
Lemma wp_LoadGSCL_loads sprites s :
  arrays_have_length (world s) →
  wp False (LoadGSCL img_width img_height sprites) s (λ _ s',
    let l := remaining (rcd s) in
    rcd_version (rcd s) = 1
    ∧ rcd_size (rcd s) = 4 + 2 + 4 * Z.of_nat WLS_COUNT
    ∧ ∃ tp sprdata shaded vertical,
        peek16 l 4 = Some tp ∧ scrollbar_of_type tp = Some (sprdata, shaded, vertical)
        ∧ let d := get_scrollbar sprdata (world s') in
          let d0 := get_scrollbar sprdata (world s) in
          peek8 l 0 = Some (min_length_all d) ∧ peek8 l 1 = Some (stepsize_bar d)
          ∧ peek8 l 2 = Some (min_length_slider d) ∧ peek8 l 3 = Some (stepsize_slider d)
          ∧ refs_loaded sprites l 6 WLS_COUNT (scroll_array shaded d)
          ∧ scroll_array (negb shaded) d = scroll_array (negb shaded) d0
          ∧ scroll_height d
            = max_of (if vertical then img_width else img_height) (scroll_array shaded d)
          ∧ world s' = at_scrollbar sprdata (λ _, d) (world s)
          ∧ arrays_have_length (world s')).
Proof.
  intros Hlen. unfold LoadGSCL. apply wp_bind, wp_get_reader.
  case_decide as Hhdr; [apply wp_return_false|].
  set (l := remaining (rcd s)).
  apply wp_bind, (wp_GetUInt8_at _ l 0%nat); [done|]. intros v1 s1 Hv1 R1 W1 _.
  apply wp_bind, (wp_GetUInt8_at _ l 1%nat); [done|]. intros v2 s2 Hv2 R2 W2 _.
  apply wp_bind, (wp_GetUInt8_at _ l 2%nat); [done|]. intros v3 s3 Hv3 R3 W3 _.
  apply wp_bind, (wp_GetUInt8_at _ l 3%nat); [done|]. intros v4 s4 Hv4 R4 W4 _.
  apply wp_bind, (wp_GetUInt16_at _ l 4%nat); [done|]. intros tp s5 Htp R5 W5 _.
  destruct (scrollbar_of_type tp) as [[[sprdata shaded] vertical]|] eqn:Etp;
    [|apply wp_return_false].
  apply wp_bind, wp_modify_world_at. intros s6 R6 W6.
  set (d0 := get_scrollbar sprdata (world s)).
  assert (G6 : get_scrollbar sprdata (world s6)
               = mkScrollbarSpriteData v1 v3 v2 v4 (scroll_height d0)
                   (scroll_normal d0) (scroll_shaded d0)).
  { now rewrite W6, get_at_scrollbar, W5, W4, W3, W2, W1. }
  assert (A : ∀ d, at_scrollbar sprdata (λ _, d) (world s6)
                   = at_scrollbar sprdata (λ _, d) (world s)).
  { intros d. now rewrite W6, at_at_scrollbar, W5, W4, W3, W2, W1. }
  assert (R : remaining (rcd s6) = drop (6 + 4 * 0) l) by now rewrite R6, R5.
  destruct (proj2 (proj2 (proj2 Hlen)) sprdata) as [Hn0 Hs0]. fold d0 in Hn0, Hs0.
  clear W1 W2 W3 W4 W5 W6 R1 R2 R3 R4 R5 R6.
  apply wp_bind. eapply wp_conseq.
  - apply (wp_load_scrollbar_sprites sprites l 6 sprdata shaded s6 WLS_COUNT 0 0 0 s6); [lia|].
    split_and!; [done | intros j Hj; lia | | done | done | done | done].
    rewrite G6. now destruct shaded.
  - cbv beta zeta. intros [mw mh] s7 (_ & Hrefs & Hl & Hw & Hh & Hrest & Hfr).
    cbn [fst snd] in Hw, Hh. rewrite Nat.add_0_l in Hrefs, Hw, Hh.
    rewrite take_ge in Hw, Hh by lia.
    apply wp_modify_world_at. intros s8 R8 W8.
    set (d7 := get_scrollbar sprdata (world s7)) in *.
    assert (G8 : get_scrollbar sprdata (world s8)
                 = mkScrollbarSpriteData (min_length_all d7) (min_length_slider d7)
                     (stepsize_bar d7) (stepsize_slider d7) (if vertical then mw else mh)
                     (scroll_normal d7) (scroll_shaded d7)).
    { now rewrite W8, get_at_scrollbar. }
    assert (A8 : ∀ d, at_scrollbar sprdata (λ _, d) (world s8)
                      = at_scrollbar sprdata (λ _, d) (world s)).
    { intros d. now rewrite W8, at_at_scrollbar, Hfr. }
    pose proof (at_scrollbar_frame _ _ _ A8) as E.
    rewrite G6 in Hrest.
    split_and!; [lia | lia |]. exists tp, sprdata, shaded, vertical. cbv zeta.
    rewrite G8 in E |- *. cbn [min_length_all stepsize_bar min_length_slider stepsize_slider
                               scroll_height].
    assert (Hd7 : min_length_all d7 = v1 ∧ min_length_slider d7 = v3 ∧ stepsize_bar d7 = v2
                  ∧ stepsize_slider d7 = v4
                  ∧ scroll_array (negb shaded) d7 = scroll_array (negb shaded) d0).
    { destruct d7, shaded; cbn in Hrest |- *; injection Hrest; intros; subst; done. }
    destruct Hd7 as (E1 & E2 & E3 & E4 & Hother). rewrite E1, E2, E3, E4 in E |- *.
    split_and!; [done | done | done | done | done | done | | | | exact E |].
    + now destruct shaded.
    + now destruct shaded.
    + rewrite Hw, Hh. now destruct shaded, vertical.
    + rewrite E. apply arrays_have_length_at_scrollbar; [done | |]; cbn.
      * destruct shaded; cbn in Hl, Hother; congruence.
      * destruct shaded; cbn in Hl, Hother; congruence.
Qed.
End ScrollbarFacts.

(** ** What a handler keeps, whatever its outcome *)

Section Keeps.
Context {W : Type} (P : W → Prop).

Lemma keeps_ret {A} (a : A) : keeps P (mret a : M W A).
Proof. now intros s. Qed.

Lemma keeps_return_false {A} : keeps P (return_false : M W A).
Proof. now intros s. Qed.

Lemma keeps_get_reader : keeps P (get_reader : M W RcdFileReader).
Proof. now intros s. Qed.

Lemma keeps_modify_world (f : W → W) : (∀ w, P w → P (f w)) → keeps P (modify_world f).
Proof. intros Hf s Hs. now apply Hf. Qed.

Lemma keeps_bind {A B} (m : M W A) (f : A → M W B) :
  keeps P m → (∀ a, keeps P (f a)) → keeps P (m ≫= f).
Proof.
  intros Hm Hf s Hs. specialize (Hm s Hs). unfold mbind, M_bind.
  destruct (m s) as [[a| |] s1]; [|done..]. now apply Hf.
Qed.

Lemma keeps_GetUInt8 : keeps P (GetUInt8 : M W Z).
Proof. intros s Hs. unfold GetUInt8. now destruct (_ !! _). Qed.

Lemma keeps_GetUInt16 : keeps P (GetUInt16 : M W Z).
Proof.
  unfold GetUInt16. apply keeps_bind; [apply keeps_GetUInt8|]. intros lo.
  apply keeps_bind; [apply keeps_GetUInt8|]. intros hi. apply keeps_ret.
Qed.

Lemma keeps_GetUInt32 : keeps P (GetUInt32 : M W Z).
Proof.
  unfold GetUInt32. apply keeps_bind; [apply keeps_GetUInt16|]. intros lo.
  apply keeps_bind; [apply keeps_GetUInt16|]. intros hi. apply keeps_ret.
Qed.

Lemma keeps_LoadSpriteFromFile {ImageData} (sprites : gmap Z ImageData) :
  keeps P (LoadSpriteFromFile sprites : M W _).
Proof.
  unfold LoadSpriteFromFile. apply keeps_bind; [apply keeps_GetUInt32|]. intros val.
  case_decide; [apply keeps_ret|].
  destruct (sprites !! val); [apply keeps_ret | apply keeps_return_false].
Qed.

Lemma keeps_load_sprite_to {ImageData} (sprites : gmap Z ImageData)
    (put : option ImageData → W → W) :
  (∀ spr w, P w → P (put spr w)) → keeps P (load_sprite_to sprites put).
Proof.
  intros Hput. unfold load_sprite_to.
  apply keeps_bind; [apply keeps_LoadSpriteFromFile|]. intros spr.
  apply keeps_modify_world, Hput.
Qed.

Lemma keeps_for_each (body : nat → M W unit) count :
  (∀ i, keeps P (body i)) → ∀ first, keeps P (for_each first count body).
Proof.
  intros Hbody. induction count as [|count IH]; intros first; cbn.
  - apply keeps_ret.
  - apply keeps_bind; [apply Hbody|]. intros _. apply IH.
Qed.

(** What a handler keeps after its first steps, which do not change the
    object. *)
Lemma keeps_after {A B} (m : M W A) (f : A → M W B) (Q : W → W → Prop) s :
  (∀ P', keeps P' m) → Q (world s) (world s) →
  (∀ a, keeps (Q (world s)) (f a)) → Q (world s) (world ((m ≫= f) s).2).
Proof.
  intros Hm Hs Hf. pose proof (Hm (eq (world s)) s eq_refl) as E.
  pose proof (Hm (Q (world s)) s Hs) as Hq. unfold mbind, M_bind.
  destruct (m s) as [[a| |] s1]; [|done..]. now apply Hf.
Qed.
End Keeps.

(** Goals [keeps P m], for a [P] that the assignments of [m] keep by
    [at_at_border] and the like. *)
Ltac keeps tac :=
  repeat first
    [ apply keeps_ret
    | apply keeps_return_false
    | apply keeps_get_reader
    | apply keeps_GetUInt8
    | apply keeps_GetUInt16
    | apply keeps_GetUInt32
    | apply keeps_LoadSpriteFromFile
    | apply keeps_load_sprite_to; [intros ? ? ?; tac]
    | apply keeps_modify_world; [intros ? ?; tac]
    | apply keeps_for_each; intros ?
    | apply keeps_bind; [|intros ?]
    | match goal with
      | |- keeps _ (if decide _ then _ else _) => case_decide
      | |- keeps _ (match ?x with _ => _ end) => destruct x
      end ].

Section MenuFacts.
Context `{GuiHeaders} {ImageData : Type}.
Implicit Types s : LoadState (@GuiSprites ImageData).
Implicit Types sprites : gmap Z ImageData.
Implicit Types g : @GuiSprites ImageData.

Lemma set_mainmenu_set a b c d e f h a' b' c' d' e' f' h' g :
  set_mainmenu a b c d e f h (set_mainmenu a' b' c' d' e' f' h' g)
  = set_mainmenu (λ x, a (a' x)) (λ x, b (b' x)) (λ x, c (c' x)) (λ x, d (d' x))
      (λ x, e (e' x)) (λ x, f (f' x)) (λ x, h (h' x)) g.
Proof. done. Qed.

(** What [LoadMENU] requires of its block, and what it loads. *)
Lemma wp_LoadMENU_loads sprites s :
  wp False (LoadMENU sprites) s (λ _ s',
    let l := remaining (rcd s) in
    let g := world s' in
    rcd_version (rcd s) = 1
    ∧ rcd_size (rcd s) = 28
    ∧ peek32 l 0 = Some (mainmenu_splash_duration g)
    ∧ ref_at sprites l 4 (mainmenu_logo g)
    ∧ ref_at sprites l 8 (mainmenu_splash g)
    ∧ ref_at sprites l 12 (mainmenu_new g)
    ∧ ref_at sprites l 16 (mainmenu_load g)
    ∧ ref_at sprites l 20 (mainmenu_settings g)
    ∧ ref_at sprites l 24 (mainmenu_quit g)
    ∧ g = set_mainmenu (λ _, mainmenu_splash_duration g) (λ _, mainmenu_logo g)
            (λ _, mainmenu_splash g) (λ _, mainmenu_new g) (λ _, mainmenu_load g)
            (λ _, mainmenu_settings g) (λ _, mainmenu_quit g) (world s)).
Proof.
  unfold LoadMENU. apply wp_bind, wp_get_reader.
  case_decide as Hhdr; [apply wp_return_false|].
  set (l := remaining (rcd s)).
  apply wp_bind, (wp_GetUInt32_at _ l 0%nat); [done|]. intros v0 s0 Hv0 R0 _ W0 _.
  apply wp_bind, wp_modify_world_at. intros s1 R1 W1.
  rewrite W0 in W1. rewrite <- R1 in R0. clear R1 W0.
  apply wp_bind, (wp_load_sprite_to_at _ sprites l 4); [done|].
  intros i1 p1 s2 Hi1 Hp1 R2 W2. rewrite W1, set_mainmenu_set in W2.
  apply wp_bind, (wp_load_sprite_to_at _ sprites l 8); [done|].
  intros i2 p2 s3 Hi2 Hp2 R3 W3. rewrite W2, set_mainmenu_set in W3.
  apply wp_bind, (wp_load_sprite_to_at _ sprites l 12); [done|].
  intros i3 p3 s4 Hi3 Hp3 R4 W4. rewrite W3, set_mainmenu_set in W4.
  apply wp_bind, (wp_load_sprite_to_at _ sprites l 16); [done|].
  intros i4 p4 s5 Hi4 Hp4 R5 W5. rewrite W4, set_mainmenu_set in W5.
  apply wp_bind, (wp_load_sprite_to_at _ sprites l 20); [done|].
  intros i5 p5 s6 Hi5 Hp5 R6 W6. rewrite W5, set_mainmenu_set in W6.
  apply (wp_load_sprite_to_at _ sprites l 24); [done|].
  intros i6 p6 s7 Hi6 Hp6 R7 W7. rewrite W6, set_mainmenu_set in W7.
  cbv zeta. rewrite W7. cbn.
  split_and!; [lia | lia | done | by eexists.. | done].
Qed.
End MenuFacts.

(** ** The blocks of the widgets *)

Lemma border_of_type_range tp x :
  border_of_type tp = Some x → 1 ≤ tp ≤ 9.
Proof.
  destruct tp as [|p|p]; [done| |done].
  do 4 (destruct p as [p|p|]; try done); cbn; intros _; lia.
Qed.

Lemma checkable_of_type_cases tp x : checkable_of_type tp = Some x → tp = 96 ∨ tp = 112.
Proof.
  destruct tp as [|p|p]; [done| |done].
  do 7 (destruct p as [p|p|]; try done); cbn; intros _; lia.
Qed.

Lemma slider_of_type_cases tp x :
  slider_of_type tp = Some x → tp = 128 ∨ tp = 129 ∨ tp = 144 ∨ tp = 145.
Proof.
  destruct tp as [|p|p]; [done| |done].
  do 8 (destruct p as [p|p|]; try done); cbn; intros _; lia.
Qed.

Lemma scrollbar_of_type_cases tp x :
  scrollbar_of_type tp = Some x → tp = 160 ∨ tp = 161 ∨ tp = 176 ∨ tp = 177.
Proof.
  destruct tp as [|p|p]; [done| |done].
  do 8 (destruct p as [p|p|]; try done); cbn; intros _; lia.
Qed.

Lemma max_of_nonzero {T} (f : T → Z) (l : list (option T)) :
  (∀ x, 0 ≤ f x) → max_of f l ≠ 0 ↔ ∃ x, Some x ∈ l ∧ f x ≠ 0.
Proof.
  intros Hf. split.
  - intros Hm. destruct (max_of_attained f l) as [E|(x & Hin & E)]; [done|].
    exists x. split; [done | congruence].
  - intros (x & Hin & Hx). pose proof (max_of_upper f l x Hin). specialize (Hf x). lia.
Qed.

Lemma peek_nonzero (o : option Z) v : o = Some v → o ≠ Some 0 ↔ v ≠ 0.
Proof. intros ->. split; [congruence | intros Hv [= E]; done]. Qed.

Section GuiBlocks.
Context `{GuiHeaders} {ImageData : Type}.
Variable img_width img_height : ImageData → Z.
Implicit Types s : LoadState (@GuiSprites ImageData).
Implicit Types sprites : gmap Z ImageData.

(** X16. [LoadGBOR] succeeds only on a block of version 2 and of 10 bytes and
    a reference for each sprite of a border, with a widget type from 1 to 9.
    The type selects the border and which of its two arrays is loaded; the
    eight numbers of the border are the bytes 2 to 9 of the block, the array
    holds what the references stand for, the other array of the border and
    all other members of the GUI sprites are as before.  The border counts
    as loaded exactly when the bytes of its minimal width and height are not
    0.  A block of another widget type fails. *)
Theorem LoadGBOR_fills_the_border sprites s :
  arrays_have_length (world s) →
  let l := remaining (rcd s) in
  (∀ u s', LoadGBOR sprites s = (Ok u, s') →
     rcd_version (rcd s) = 2
     ∧ rcd_size (rcd s) = 2 + 8 + 4 * Z.of_nat WBS_COUNT
     ∧ ∃ tp sprdata pressed,
         peek16 l 0 = Some tp ∧ 1 ≤ tp ≤ 9 ∧ border_of_type tp = Some (sprdata, pressed)
         ∧ let b := get_border sprdata (world s') in
           let b0 := get_border sprdata (world s) in
           peek8 l 2 = Some (border_top b) ∧ peek8 l 3 = Some (border_left b)
           ∧ peek8 l 4 = Some (border_right b) ∧ peek8 l 5 = Some (border_bottom b)
           ∧ peek8 l 6 = Some (min_width b) ∧ peek8 l 7 = Some (min_height b)
           ∧ peek8 l 8 = Some (hor_stepsize b) ∧ peek8 l 9 = Some (vert_stepsize b)
           ∧ refs_loaded sprites l 10 WBS_COUNT
               (if pressed then border_pressed b else border_normal b)
           ∧ (if pressed then border_normal b = border_normal b0
              else border_pressed b = border_pressed b0)
           ∧ world s' = at_border sprdata (λ _, b) (world s)
           ∧ arrays_have_length (world s')
           ∧ (BorderSpriteData_IsLoaded b = true
              ↔ peek8 l 6 ≠ Some 0 ∧ peek8 l 7 ≠ Some 0))
  ∧ (∀ tp, peek16 l 0 = Some tp → ¬ 1 ≤ tp ≤ 9 → (LoadGBOR sprites s).1 = Fail).
Proof.
  intros Hlen l. subst l. pose proof (wp_LoadGBOR_loads sprites s Hlen) as Hwp. split.
  - intros u s' E. apply (wp_Ok _ _ _ _ _ _ Hwp) in E
      as (Hver & Hsize & tp & sprdata & pressed & Htp & Etp & H2 & H3 & H4 & H5 & H6 & H7
          & H8 & H9 & Hrefs & Hother & Hw & Hl).
    split_and!; [done..|]. exists tp, sprdata, pressed. cbv zeta.
    split_and!; try done; try (eapply border_of_type_range; exact Etp).
    unfold BorderSpriteData_IsLoaded.
    rewrite andb_true_iff, !bool_decide_eq_true.
    now rewrite (peek_nonzero _ _ H6), (peek_nonzero _ _ H7).
  - intros tp Htp Hn. apply (wp_fails _ _ _ Hwp).
    intros u s' (_ & _ & tp' & sprdata & pressed & Htp' & Etp & _).
    rewrite Htp in Htp'. injection Htp' as <-.
    now apply border_of_type_range in Etp.
Qed.

(** X17. [LoadGCHK] succeeds only on a block of version 1 with the widget
    type 96, of the checkbox, or 112, of the radio button, and a reference for
    each sprite.  The sprites of the widget are what the references stand
    for, its width and height are the largest width and height of its
    sprites, 0 when all references are 0, and all other members of the GUI
    sprites are as before.  So the widget counts as loaded exactly when one
    of its sprites has a width and one has a height that is not 0.  A block of
    another widget type fails. *)
Theorem LoadGCHK_sizes_the_widget sprites s :
  arrays_have_length (world s) →
  (∀ img, 0 ≤ img_width img ∧ 0 ≤ img_height img) →
  let l := remaining (rcd s) in
  (∀ u s', LoadGCHK img_width img_height sprites s = (Ok u, s') →
     rcd_version (rcd s) = 1
     ∧ rcd_size (rcd s) = 2 + 4 * Z.of_nat WCS_COUNT
     ∧ ∃ tp sprdata,
         peek16 l 0 = Some tp ∧ (tp = 96 ∨ tp = 112) ∧ checkable_of_type tp = Some sprdata
         ∧ let c := get_checkable sprdata (world s') in
           refs_loaded sprites l 2 WCS_COUNT (check_sprites c)
           ∧ check_width c = max_of img_width (check_sprites c)
           ∧ check_height c = max_of img_height (check_sprites c)
           ∧ (∀ img, Some img ∈ check_sprites c →
                     img_width img ≤ check_width c ∧ img_height img ≤ check_height c)
           ∧ world s' = at_checkable sprdata (λ _, c) (world s)
           ∧ arrays_have_length (world s')
           ∧ (CheckableWidgetSpriteData_IsLoaded c = true
              ↔ (∃ img, Some img ∈ check_sprites c ∧ img_width img ≠ 0)
                ∧ (∃ img, Some img ∈ check_sprites c ∧ img_height img ≠ 0)))
  ∧ (∀ tp, peek16 l 0 = Some tp → tp ≠ 96 → tp ≠ 112 →
           (LoadGCHK img_width img_height sprites s).1 = Fail).
Proof.
  intros Hlen Hpos l. subst l.
  pose proof (wp_LoadGCHK_loads img_width img_height sprites s Hlen) as Hwp.
  split.
  - intros u s' E. apply (wp_Ok _ _ _ _ _ _ Hwp) in E
      as (Hver & Hsize & tp & sprdata & Htp & Etp & Hrefs & Hwd & Hht & Hw & Hl).
    split_and!; [done..|]. exists tp, sprdata. cbv zeta.
    split_and!; try done; try (eapply checkable_of_type_cases; exact Etp).
    + intros img Hin. rewrite Hwd, Hht. split; now apply max_of_upper.
    + unfold CheckableWidgetSpriteData_IsLoaded.
      rewrite andb_true_iff, !bool_decide_eq_true, Hwd, Hht.
      rewrite !max_of_nonzero; [done | apply Hpos..].
  - intros tp Htp H96 H112. apply (wp_fails _ _ _ Hwp).
    intros u s' (_ & _ & tp' & sprdata & Htp' & Etp & _).
    rewrite Htp in Htp'. injection Htp' as <-.
    apply checkable_of_type_cases in Etp. lia.
Qed.

(** X18. [LoadGSLI] succeeds only on a block of version 1 and of 5 bytes and a
    reference for each sprite of a slider, with the widget type 128 or 129,
    of the horizontal slider, or 144 or 145, of the vertical one; the odd
    types load the shaded sprites.  The minimal length, the step size and the
    height of the slider are the bytes 0 to 2 of the block, also when it
    loads the shaded sprites; the other array of the slider and all other
    members of the GUI sprites are as before.  A block of another widget type
    fails. *)
Theorem LoadGSLI_fills_the_slider sprites s :
  arrays_have_length (world s) →
  let l := remaining (rcd s) in
  (∀ u s', LoadGSLI sprites s = (Ok u, s') →
     rcd_version (rcd s) = 1
     ∧ rcd_size (rcd s) = 3 + 2 + 4 * Z.of_nat WSS_COUNT
     ∧ ∃ tp sprdata shaded,
         peek16 l 3 = Some tp ∧ slider_of_type tp = Some (sprdata, shaded)
         ∧ (sprdata = HorSlider ↔ tp = 128 ∨ tp = 129)
         ∧ (sprdata = VertSlider ↔ tp = 144 ∨ tp = 145)
         ∧ (shaded = true ↔ tp = 129 ∨ tp = 145)
         ∧ let d := get_slider sprdata (world s') in
           let d0 := get_slider sprdata (world s) in
           peek8 l 0 = Some (min_bar_length d) ∧ peek8 l 1 = Some (slider_stepsize d)
           ∧ peek8 l 2 = Some (slider_height d)
           ∧ refs_loaded sprites l 5 WSS_COUNT
               (if shaded then slider_shaded d else slider_normal d)
           ∧ (if shaded then slider_normal d = slider_normal d0
              else slider_shaded d = slider_shaded d0)
           ∧ world s' = at_slider sprdata (λ _, d) (world s)
           ∧ arrays_have_length (world s')
           ∧ (SliderSpriteData_IsLoaded d = true
              ↔ peek8 l 0 ≠ Some 0 ∧ peek8 l 2 ≠ Some 0))
  ∧ (∀ tp, peek16 l 3 = Some tp → ¬ In tp [128; 129; 144; 145] →
           (LoadGSLI sprites s).1 = Fail).
Proof.
  intros Hlen l. subst l. pose proof (wp_LoadGSLI_loads sprites s Hlen) as Hwp. split.
  - intros u s' E. apply (wp_Ok _ _ _ _ _ _ Hwp) in E
      as (Hver & Hsize & tp & sprdata & shaded & Htp & Etp & H0 & H1 & H2 & Hrefs & Hother
          & Hw & Hl).
    split_and!; [done..|]. exists tp, sprdata, shaded. cbv zeta.
    assert (Hcases := slider_of_type_cases _ _ Etp).
    split_and!; try done.
    + destruct Hcases as [-> | [-> | [-> | ->]]]; injection Etp as <- <-; split; (done || lia).
    + destruct Hcases as [-> | [-> | [-> | ->]]]; injection Etp as <- <-; split; (done || lia).
    + destruct Hcases as [-> | [-> | [-> | ->]]]; injection Etp as <- <-; split; (done || lia).
    + unfold SliderSpriteData_IsLoaded.
      rewrite andb_true_iff, !bool_decide_eq_true.
      now rewrite (peek_nonzero _ _ H0), (peek_nonzero _ _ H2).
  - intros tp Htp Hn. apply (wp_fails _ _ _ Hwp).
    intros u s' (_ & _ & tp' & sprdata & shaded & Htp' & Etp & _).
    rewrite Htp in Htp'. injection Htp' as <-.
    apply slider_of_type_cases in Etp. apply Hn. cbn. lia.
Qed.

(** X19. [LoadGSCL] succeeds only on a block of version 1 and of 6 bytes and a
    reference for each sprite of a scrollbar, with the widget type 160 or
    161, of the horizontal scrollbar, or 176 or 177, of the vertical one; the
    odd types load the shaded sprites.  The four numbers of the scrollbar are
    the bytes 0 to 3 of the block.  Its height is taken from the sprites that
    the block loads: the largest width of them for the vertical scrollbar,
    the largest height for the horizontal one, 0 when all references are 0.
    The scrollbar counts as loaded exactly when byte 0 is not 0 and one of
    these sprites has such a width or height that is not 0. *)
Theorem LoadGSCL_sizes_the_scrollbar sprites s :
  arrays_have_length (world s) →
  (∀ img, 0 ≤ img_width img ∧ 0 ≤ img_height img) →
  let l := remaining (rcd s) in
  (∀ u s', LoadGSCL img_width img_height sprites s = (Ok u, s') →
     rcd_version (rcd s) = 1
     ∧ rcd_size (rcd s) = 4 + 2 + 4 * Z.of_nat WLS_COUNT
     ∧ ∃ tp sprdata shaded vertical,
         peek16 l 4 = Some tp ∧ scrollbar_of_type tp = Some (sprdata, shaded, vertical)
         ∧ (sprdata = VertScroll ↔ tp = 176 ∨ tp = 177)
         ∧ (shaded = true ↔ tp = 161 ∨ tp = 177)
         ∧ (vertical = true ↔ sprdata = VertScroll)
         ∧ let d := get_scrollbar sprdata (world s') in
           let d0 := get_scrollbar sprdata (world s) in
           let size := if vertical then img_width else img_height in
           peek8 l 0 = Some (min_length_all d) ∧ peek8 l 1 = Some (stepsize_bar d)
           ∧ peek8 l 2 = Some (min_length_slider d) ∧ peek8 l 3 = Some (stepsize_slider d)
           ∧ refs_loaded sprites l 6 WLS_COUNT (scroll_array shaded d)
           ∧ scroll_array (negb shaded) d = scroll_array (negb shaded) d0
           ∧ scroll_height d = max_of size (scroll_array shaded d)
           ∧ (∀ img, Some img ∈ scroll_array shaded d → size img ≤ scroll_height d)
           ∧ world s' = at_scrollbar sprdata (λ _, d) (world s)
           ∧ arrays_have_length (world s')
           ∧ (ScrollbarSpriteData_IsLoaded d = true
              ↔ peek8 l 0 ≠ Some 0
                ∧ ∃ img, Some img ∈ scroll_array shaded d ∧ size img ≠ 0))
  ∧ (∀ tp, peek16 l 4 = Some tp → ¬ In tp [160; 161; 176; 177] →
           (LoadGSCL img_width img_height sprites s).1 = Fail).
Proof.
  intros Hlen Hpos l. subst l.
  pose proof (wp_LoadGSCL_loads img_width img_height sprites s Hlen) as Hwp.
  split.
  - intros u s' E. apply (wp_Ok _ _ _ _ _ _ Hwp) in E
      as (Hver & Hsize & tp & sprdata & shaded & vertical & Htp & Etp & H0 & H1 & H2 & H3
          & Hrefs & Hother & Hht & Hw & Hl).
    split_and!; [done..|]. exists tp, sprdata, shaded, vertical. cbv zeta.
    assert (Hcases := scrollbar_of_type_cases _ _ Etp).
    split_and!; try done.
    + destruct Hcases as [-> | [-> | [-> | ->]]]; injection Etp as <- <- <-; split; (done || lia).
    + destruct Hcases as [-> | [-> | [-> | ->]]]; injection Etp as <- <- <-; split; (done || lia).
    + destruct Hcases as [-> | [-> | [-> | ->]]]; injection Etp as <- <- <-; split; done.
    + intros img Hin. rewrite Hht. now apply max_of_upper.
    + unfold ScrollbarSpriteData_IsLoaded.
      rewrite andb_true_iff, !bool_decide_eq_true, Hht, (peek_nonzero _ _ H0).
      rewrite max_of_nonzero; [done|]. intros img. destruct vertical; apply Hpos.
  - intros tp Htp Hn. apply (wp_fails _ _ _ Hwp).
    intros u s' (_ & _ & tp' & sprdata & shaded & vertical & Htp' & Etp & _).
    rewrite Htp in Htp'. injection Htp' as <-.
    apply scrollbar_of_type_cases in Etp. apply Hn. cbn. lia.
Qed.

(** X20. [LoadMENU] succeeds only on a block of version 1 and of 28 bytes:
    the duration of the splash screen and the references to the six sprites
    of the main menu, in the order logo, splash, new, load, settings and
    quit.  The members of the main menu hold them afterwards, and all other
    members of the GUI sprites are as before.  A reference to a sprite that
    the file has not loaded makes the block fail. *)
Theorem LoadMENU_fills_the_menu sprites s :
  let l := remaining (rcd s) in
  (∀ u s', LoadMENU sprites s = (Ok u, s') →
     let g := world s' in
     rcd_version (rcd s) = 1
     ∧ rcd_size (rcd s) = 28
     ∧ peek32 l 0 = Some (mainmenu_splash_duration g)
     ∧ ref_at sprites l 4 (mainmenu_logo g)
     ∧ ref_at sprites l 8 (mainmenu_splash g)
     ∧ ref_at sprites l 12 (mainmenu_new g)
     ∧ ref_at sprites l 16 (mainmenu_load g)
     ∧ ref_at sprites l 20 (mainmenu_settings g)
     ∧ ref_at sprites l 24 (mainmenu_quit g)
     ∧ g = set_mainmenu (λ _, mainmenu_splash_duration g) (λ _, mainmenu_logo g)
             (λ _, mainmenu_splash g) (λ _, mainmenu_new g) (λ _, mainmenu_load g)
             (λ _, mainmenu_settings g) (λ _, mainmenu_quit g) (world s))
  ∧ (∀ k id, (k < 6)%nat → peek32 l (4 + 4 * k) = Some id → id ≠ 0 →
             sprites !! id = None →
             (LoadMENU sprites s).1 = Fail).
Proof.
  intros l. subst l. pose proof (wp_LoadMENU_loads sprites s) as Hwp. split.
  - intros u s' E. now apply (wp_Ok _ _ _ _ _ _ Hwp) in E.
  - intros k id Hk Hid Hnz Hmiss. apply (wp_fails _ _ _ Hwp).
    intros u s' (_ & _ & _ & R1 & R2 & R3 & R4 & R5 & R6 & _).
    assert (Hno : ∀ spr, ¬ ref_at sprites (remaining (rcd s)) (4 + 4 * k) spr).
    { intros spr (id' & Hid' & Hres). rewrite Hid in Hid'. injection Hid' as <-.
      unfold resolve in Hres. rewrite decide_False in Hres by done. now rewrite Hmiss in Hres. }
    do 6 (destruct k as [|k]; [eapply Hno; eassumption|]). lia.
Qed.
End GuiBlocks.

Section AfterReading.
Context {W : Type}.

(** A handler whose first step [m] does not change the object. *)
Lemma after_reading {A B} (m : M W A) (f : A → M W B) (R : W → Prop) s :
  (∀ P, keeps P m) → R (world s) →
  (∀ a s1, world s1 = world s → R (world (f a s1).2)) →
  R (world ((m ≫= f) s).2).
Proof.
  intros Hm Hs Hf. pose proof (Hm (eq (world s)) s eq_refl) as E.
  unfold mbind, M_bind. destruct (m s) as [[a| |] s1]; cbn in E |- *; [|now rewrite <- E..].
  now apply Hf.
Qed.
End AfterReading.

Section GuiFrame.
Context `{GuiHeaders} {ImageData : Type}.
Variable img_width img_height : ImageData → Z.
Implicit Types s : LoadState (@GuiSprites ImageData).
Implicit Types sprites : gmap Z ImageData.

Lemma keeps_load_scrollbar_sprites (P : @GuiSprites ImageData → Prop) sprites sprdata shaded
    count :
  (∀ f g, P g → P (at_scrollbar sprdata f g)) →
  ∀ first mw mh,
    keeps P (load_scrollbar_sprites img_width img_height sprites sprdata shaded first count
               mw mh).
Proof.
  intros HP. induction count as [|count IH]; intros first mw mh; cbn.
  - apply keeps_ret.
  - apply keeps_bind; [apply keeps_LoadSpriteFromFile|]. intros spr.
    apply keeps_bind; [apply keeps_modify_world; intros g; apply HP|]. intros _.
    destruct spr; apply IH.
Qed.

Lemma LoadGBOR_frame sprites s :
  ∃ w, ∀ b, at_border w (λ _, b) (world (LoadGBOR sprites s).2)
            = at_border w (λ _, b) (world s).
Proof.
  unfold LoadGBOR.
  apply (after_reading get_reader _ (λ g, ∃ w, ∀ b, at_border w (λ _, b) g = _));
    [intros P; apply keeps_get_reader | now exists Titlebar |].
  intros r s0 W0. case_decide; [exists Titlebar; now rewrite <- W0|].
  apply (after_reading GetUInt16 _ (λ g, ∃ w, ∀ b, at_border w (λ _, b) g = _));
    [intros P; apply keeps_GetUInt16 | exists Titlebar; now rewrite <- W0 |].
  intros tp s1 W1. destruct (border_of_type tp) as [[sprdata pressed]|];
    [|exists Titlebar; cbn; now rewrite W1, W0].
  exists sprdata. intros b.
  match goal with
  | |- context [world (?m s1).2] =>
    assert (Hk : keeps (λ g, at_border sprdata (λ _, b) g
                             = at_border sprdata (λ _, b) (world s)) m)
  end.
  { keeps ltac:(now rewrite at_at_border). }
  apply Hk. now rewrite W1, W0.
Qed.

Lemma LoadGCHK_frame sprites s :
  ∃ w, ∀ c, at_checkable w (λ _, c) (world (LoadGCHK img_width img_height sprites s).2)
            = at_checkable w (λ _, c) (world s).
Proof.
  unfold LoadGCHK.
  apply (after_reading get_reader _ (λ g, ∃ w, ∀ c, at_checkable w (λ _, c) g = _));
    [intros P; apply keeps_get_reader | now exists Checkbox |].
  intros r s0 W0. case_decide; [exists Checkbox; now rewrite <- W0|].
  apply (after_reading GetUInt16 _ (λ g, ∃ w, ∀ c, at_checkable w (λ _, c) g = _));
    [intros P; apply keeps_GetUInt16 | exists Checkbox; now rewrite <- W0 |].
  intros tp s1 W1. destruct (checkable_of_type tp) as [sprdata|];
    [|exists Checkbox; cbn; now rewrite W1, W0].
  exists sprdata. intros c.
  match goal with
  | |- context [world (?m s1).2] =>
    assert (Hk : keeps (λ g, at_checkable sprdata (λ _, c) g
                             = at_checkable sprdata (λ _, c) (world s)) m)
  end.
  { keeps ltac:(now rewrite at_at_checkable). }
  apply Hk. now rewrite W1, W0.
Qed.

Lemma LoadGSLI_frame sprites s :
  ∃ w, ∀ d, at_slider w (λ _, d) (world (LoadGSLI sprites s).2)
            = at_slider w (λ _, d) (world s).
Proof.
  unfold LoadGSLI.
  apply (after_reading get_reader _ (λ g, ∃ w, ∀ d, at_slider w (λ _, d) g = _));
    [intros P; apply keeps_get_reader | now exists HorSlider |].
  intros r s0 W0. case_decide; [exists HorSlider; now rewrite <- W0|].
  apply (after_reading GetUInt8 _ (λ g, ∃ w, ∀ d, at_slider w (λ _, d) g = _));
    [intros P; apply keeps_GetUInt8 | exists HorSlider; now rewrite <- W0 |].
  intros v1 s1 W1.
  apply (after_reading GetUInt8 _ (λ g, ∃ w, ∀ d, at_slider w (λ _, d) g = _));
    [intros P; apply keeps_GetUInt8 | exists HorSlider; now rewrite W1, W0 |].
  intros v2 s2 W2.
  apply (after_reading GetUInt8 _ (λ g, ∃ w, ∀ d, at_slider w (λ _, d) g = _));
    [intros P; apply keeps_GetUInt8 | exists HorSlider; now rewrite W2, W1, W0 |].
  intros v3 s3 W3.
  apply (after_reading GetUInt16 _ (λ g, ∃ w, ∀ d, at_slider w (λ _, d) g = _));
    [intros P; apply keeps_GetUInt16 | exists HorSlider; now rewrite W3, W2, W1, W0 |].
  intros tp s4 W4. destruct (slider_of_type tp) as [[sprdata shaded]|];
    [|exists HorSlider; cbn; now rewrite W4, W3, W2, W1, W0].
  exists sprdata. intros d.
  match goal with
  | |- context [world (?m s4).2] =>
    assert (Hk : keeps (λ g, at_slider sprdata (λ _, d) g
                             = at_slider sprdata (λ _, d) (world s)) m)
  end.
  { keeps ltac:(now rewrite at_at_slider). }
  apply Hk. now rewrite W4, W3, W2, W1, W0.
Qed.

Lemma LoadGSCL_frame sprites s :
  ∃ w, ∀ d, at_scrollbar w (λ _, d) (world (LoadGSCL img_width img_height sprites s).2)
            = at_scrollbar w (λ _, d) (world s).
Proof.
  unfold LoadGSCL.
  apply (after_reading get_reader _ (λ g, ∃ w, ∀ d, at_scrollbar w (λ _, d) g = _));
    [intros P; apply keeps_get_reader | now exists HorScroll |].
  intros r s0 W0. case_decide; [exists HorScroll; now rewrite <- W0|].
  apply (after_reading GetUInt8 _ (λ g, ∃ w, ∀ d, at_scrollbar w (λ _, d) g = _));
    [intros P; apply keeps_GetUInt8 | exists HorScroll; now rewrite <- W0 |].
  intros v1 s1 W1.
  apply (after_reading GetUInt8 _ (λ g, ∃ w, ∀ d, at_scrollbar w (λ _, d) g = _));
    [intros P; apply keeps_GetUInt8 | exists HorScroll; now rewrite W1, W0 |].
  intros v2 s2 W2.
  apply (after_reading GetUInt8 _ (λ g, ∃ w, ∀ d, at_scrollbar w (λ _, d) g = _));
    [intros P; apply keeps_GetUInt8 | exists HorScroll; now rewrite W2, W1, W0 |].
  intros v3 s3 W3.
  apply (after_reading GetUInt8 _ (λ g, ∃ w, ∀ d, at_scrollbar w (λ _, d) g = _));
    [intros P; apply keeps_GetUInt8 | exists HorScroll; now rewrite W3, W2, W1, W0 |].
  intros v4 s4 W4.
  apply (after_reading GetUInt16 _ (λ g, ∃ w, ∀ d, at_scrollbar w (λ _, d) g = _));
    [intros P; apply keeps_GetUInt16 | exists HorScroll; now rewrite W4, W3, W2, W1, W0 |].
  intros tp s5 W5. destruct (scrollbar_of_type tp) as [[[sprdata shaded] vertical]|];
    [|exists HorScroll; cbn; now rewrite W5, W4, W3, W2, W1, W0].
  exists sprdata. intros d.
  match goal with
  | |- context [world (?m s5).2] =>
    assert (Hk : keeps (λ g, at_scrollbar sprdata (λ _, d) g
                             = at_scrollbar sprdata (λ _, d) (world s)) m)
  end.
  { apply keeps_bind; [keeps ltac:(now rewrite at_at_scrollbar)|]. intros _.
    apply keeps_bind.
    - apply keeps_load_scrollbar_sprites. intros f g Hg. now rewrite at_at_scrollbar.
    - intros [mw mh]. keeps ltac:(now rewrite at_at_scrollbar). }
  apply Hk. now rewrite W5, W4, W3, W2, W1, W0.
Qed.

Lemma LoadMENU_frame sprites s :
  let others := set_mainmenu (λ _, 0) (λ _, None) (λ _, None) (λ _, None) (λ _, None)
                  (λ _, None) (λ _, None) in
  others (world (LoadMENU sprites s).2) = others (world s).
Proof.
  intros others.
  assert (Hk : keeps (λ g, others g = others (world s)) (LoadMENU sprites)).
  { unfold LoadMENU. keeps ltac:(done). }
  now apply Hk.
Qed.

(** X21. Whether it succeeds or fails, a block of a widget changes at most
    one member of the GUI sprites: a GBOR block one border, a GCHK block one
    checkable widget, a GSLI block one slider, a GSCL block one scrollbar,
    and a MENU block the members of the main menu.  None of them sets the
    sprite of the close button; without it the GUI has no sufficient
    graphics, whatever these blocks load. *)
Theorem widget_block_changes_one_member sprites s :
  (∃ w, ∀ b, at_border w (λ _, b) (world (LoadGBOR sprites s).2)
             = at_border w (λ _, b) (world s))
  ∧ (∃ w, ∀ c, at_checkable w (λ _, c) (world (LoadGCHK img_width img_height sprites s).2)
               = at_checkable w (λ _, c) (world s))
  ∧ (∃ w, ∀ d, at_slider w (λ _, d) (world (LoadGSLI sprites s).2)
               = at_slider w (λ _, d) (world s))
  ∧ (∃ w, ∀ d, at_scrollbar w (λ _, d) (world (LoadGSCL img_width img_height sprites s).2)
               = at_scrollbar w (λ _, d) (world s))
  ∧ (let others := set_mainmenu (λ _, 0) (λ _, None) (λ _, None) (λ _, None) (λ _, None)
                      (λ _, None) (λ _, None) in
     others (world (LoadMENU sprites s).2) = others (world s))
  ∧ (close_sprite (world s) = None →
     ∀ s', In s' [(LoadGBOR sprites s).2; (LoadGCHK img_width img_height sprites s).2;
                  (LoadGSLI sprites s).2; (LoadGSCL img_width img_height sprites s).2;
                  (LoadMENU sprites s).2] →
           HasSufficientGraphics (world s') = false).
Proof.
  pose proof (LoadGBOR_frame sprites s) as [w1 H1].
  pose proof (LoadGCHK_frame sprites s) as [w2 H2].
  pose proof (LoadGSLI_frame sprites s) as [w3 H3].
  pose proof (LoadGSCL_frame sprites s) as [w4 H4].
  pose proof (LoadMENU_frame sprites s) as H5.
  split_and!; [by eexists.. | done |].
  intros Hnone s' Hin.
  assert (Hclose : close_sprite (world s') = None); [|unfold HasSufficientGraphics;
    rewrite Hclose; apply andb_false_r].
  rewrite <- Hnone. cbn in Hin. destruct Hin as [<-|[<-|[<-|[<-|[<-|[]]]]]].
  - exact (f_equal close_sprite (H1 (get_border w1 (world s)))).
  - exact (f_equal close_sprite (H2 (get_checkable w2 (world s)))).
  - exact (f_equal close_sprite (H3 (get_slider w3 (world s)))).
  - exact (f_equal close_sprite (H4 (get_scrollbar w4 (world s)))).
  - exact (f_equal close_sprite H5).
Qed.
End GuiFrame.

Lemma example_gui_sprites_lengths :
  @arrays_have_length example_gui_headers nat example_gui_sprites.
Proof. split_and!; intros w; destruct w; done. Qed.

Lemma example_sizes_nonneg img : 0 ≤ example_width img ∧ 0 ≤ example_height img.
Proof. unfold example_width, example_height. lia. Qed.

Lemma gui_handlers_read_their_block_witness :
  let s := mkState (reader_at_payload "MENU" 1 example_menu_payload) example_gui_sprites in
  ∃ payload, remaining (rcd s) = payload ++ [] ∧ Z.of_nat (length payload) = 28.
Proof.
  intros s.
  assert (∃ u s', @LoadMENU nat example_sprites s = (Ok u, s') ∧ remaining (rcd s') = [])
    as (u & s' & E & Hrest) by (vm_compute; eauto).
  destruct (@gui_handlers_read_their_block example_gui_headers nat example_width
              example_height example_sprites) as (_ & _ & _ & _ & Hmenu).
  destruct (Hmenu s u s') as (payload & Hp & Hl).
  - vm_compute. split; [discriminate | reflexivity].
  - exact E.
  - exists payload. rewrite Hrest in Hp. split; [exact Hp | exact Hl].
Defined.

Lemma LoadGBOR_fills_the_border_witness :
  let s := mkState (reader_at_payload "GBOR" 2 example_gbor_payload) example_gui_sprites in
  ∃ s', @LoadGBOR example_gui_headers nat example_sprites s = (Ok tt, s')
        ∧ min_width (button (world s')) = 10
        ∧ border_pressed (button (world s')) !! 0%nat = Some (Some 7%nat)
        ∧ BorderSpriteData_IsLoaded (button (world s')) = true.
Proof.
  intros s.
  assert (∃ s', @LoadGBOR example_gui_headers nat example_sprites s = (Ok tt, s'))
    as [s' E] by (vm_compute; eauto).
  exists s'. split; [exact E|].
  destruct (@LoadGBOR_fills_the_border example_gui_headers nat example_sprites s
              example_gui_sprites_lengths) as [Hok _].
  destruct (Hok tt s' E) as (_ & _ & tp & sprdata & pressed & Htp & _ & Etp & _ & _ & _ & _
                             & H6 & H7 & _ & _ & Hrefs & _ & _ & _ & Hloaded).
  assert (tp = 8) as ->.
  { assert (peek16 (remaining (rcd s)) 0 = Some 8) by (vm_compute; reflexivity). congruence. }
  injection Etp as <- <-. cbn [get_border] in *.
  assert (H6' : peek8 (remaining (rcd s)) 6 = Some 10) by (vm_compute; reflexivity).
  assert (H7' : peek8 (remaining (rcd s)) 7 = Some 12) by (vm_compute; reflexivity).
  split_and!.
  - congruence.
  - destruct (Hrefs 0%nat) as (id & spr & Hid & Hres & Hspr); [vm_compute; lia|].
    assert (Hid' : peek32 (remaining (rcd s)) (10 + 4 * 0) = Some 1) by (vm_compute; reflexivity).
    rewrite Hid' in Hid. injection Hid as <-.
    assert (Hres' : resolve example_sprites 1 = Some (Some 7%nat)) by (vm_compute; reflexivity).
    congruence.
  - apply Hloaded. rewrite H6', H7'. split; discriminate.
Defined.

Lemma LoadGCHK_sizes_the_widget_witness :
  let s := mkState (reader_at_payload "GCHK" 1 example_gchk_payload) example_gui_sprites in
  ∃ s', @LoadGCHK example_gui_headers nat example_width example_height example_sprites s
        = (Ok tt, s')
        ∧ check_width (checkbox (world s'))
          = max_of example_width (check_sprites (checkbox (world s')))
        ∧ CheckableWidgetSpriteData_IsLoaded (checkbox (world s')) = true.
Proof.
  intros s.
  assert (∃ s', @LoadGCHK example_gui_headers nat example_width example_height
                  example_sprites s = (Ok tt, s'))
    as [s' E] by (vm_compute; eauto).
  exists s'. split; [exact E|].
  destruct (@LoadGCHK_sizes_the_widget example_gui_headers nat example_width example_height
              example_sprites s example_gui_sprites_lengths example_sizes_nonneg) as [Hok _].
  destruct (Hok tt s' E) as (_ & _ & tp & sprdata & Htp & _ & Etp & Hrefs & Hwd & _ & _ & _
                             & _ & Hloaded).
  assert (tp = 96) as ->.
  { assert (peek16 (remaining (rcd s)) 0 = Some 96) by (vm_compute; reflexivity). congruence. }
  injection Etp as <-. cbn [get_checkable] in *.
  split; [exact Hwd|]. apply Hloaded.
  destruct (Hrefs 0%nat) as (id & spr & Hid & Hres & Hspr); [vm_compute; lia|].
  assert (Hid' : peek32 (remaining (rcd s)) (2 + 4 * 0) = Some 1) by (vm_compute; reflexivity).
  rewrite Hid' in Hid. injection Hid as <-.
  assert (Hres' : resolve example_sprites 1 = Some (Some 7%nat)) by (vm_compute; reflexivity).
  rewrite Hres' in Hres. injection Hres as <-. apply list_elem_of_lookup_2 in Hspr.
  split; exists 7%nat; (split; [exact Hspr | discriminate]).
Defined.

Lemma LoadGSLI_fills_the_slider_witness :
  let s := mkState (reader_at_payload "GSLI" 1 example_gsli_payload) example_gui_sprites in
  ∃ s', @LoadGSLI example_gui_headers nat example_sprites s = (Ok tt, s')
        ∧ slider_height (vert_slider (world s')) = 8
        ∧ slider_normal (vert_slider (world s')) = slider_normal (vert_slider (world s)).
Proof.
  intros s.
  assert (∃ s', @LoadGSLI example_gui_headers nat example_sprites s = (Ok tt, s'))
    as [s' E] by (vm_compute; eauto).
  exists s'. split; [exact E|].
  destruct (@LoadGSLI_fills_the_slider example_gui_headers nat example_sprites s
              example_gui_sprites_lengths) as [Hok _].
  destruct (Hok tt s' E) as (_ & _ & tp & sprdata & shaded & Htp & Etp & _ & _ & _ & _ & _
                             & H2 & _ & Hother & _).
  assert (tp = 145) as ->.
  { assert (peek16 (remaining (rcd s)) 3 = Some 145) by (vm_compute; reflexivity). congruence. }
  injection Etp as <- <-. cbn [get_slider] in *.
  assert (H2' : peek8 (remaining (rcd s)) 2 = Some 8) by (vm_compute; reflexivity).
  split; [congruence | exact Hother].
Defined.

Lemma LoadGSCL_sizes_the_scrollbar_witness :
  let s := mkState (reader_at_payload "GSCL" 1 example_gscl_payload) example_gui_sprites in
  ∃ s', @LoadGSCL example_gui_headers nat example_width example_height example_sprites s
        = (Ok tt, s')
        ∧ scroll_height (vert_scroll (world s'))
          = max_of example_width (scroll_normal (vert_scroll (world s')))
        ∧ ScrollbarSpriteData_IsLoaded (vert_scroll (world s')) = true.
Proof.
  intros s.
  assert (∃ s', @LoadGSCL example_gui_headers nat example_width example_height
                  example_sprites s = (Ok tt, s'))
    as [s' E] by (vm_compute; eauto).
  exists s'. split; [exact E|].
  destruct (@LoadGSCL_sizes_the_scrollbar example_gui_headers nat example_width example_height
              example_sprites s example_gui_sprites_lengths example_sizes_nonneg) as [Hok _].
  destruct (Hok tt s' E) as (_ & _ & tp & sprdata & shaded & vertical & Htp & Etp & _ & _ & _
                             & H0 & _ & _ & _ & Hrefs & _ & Hht & _ & _ & _ & Hloaded).
  assert (tp = 176) as ->.
  { assert (peek16 (remaining (rcd s)) 4 = Some 176) by (vm_compute; reflexivity). congruence. }
  injection Etp as <- <- <-. cbn [get_scrollbar scroll_array] in *.
  split; [exact Hht|]. apply Hloaded.
  assert (H0' : peek8 (remaining (rcd s)) 0 = Some 30) by (vm_compute; reflexivity).
  split; [rewrite H0'; discriminate|].
  destruct (Hrefs 1%nat) as (id & spr & Hid & Hres & Hspr); [vm_compute; lia|].
  assert (Hid' : peek32 (remaining (rcd s)) (6 + 4 * 1) = Some 2) by (vm_compute; reflexivity).
  rewrite Hid' in Hid. injection Hid as <-.
  assert (Hres' : resolve example_sprites 2 = Some (Some 9%nat)) by (vm_compute; reflexivity).
  rewrite Hres' in Hres. injection Hres as <-. apply list_elem_of_lookup_2 in Hspr.
  exists 9%nat. split; [exact Hspr | discriminate].
Defined.

Lemma LoadMENU_fills_the_menu_witness :
  let s := mkState (reader_at_payload "MENU" 1 example_menu_payload) example_gui_sprites in
  ∃ s', @LoadMENU nat example_sprites s = (Ok tt, s')
        ∧ mainmenu_splash_duration (world s') = 3000
        ∧ ref_at example_sprites (remaining (rcd s)) 8 (mainmenu_splash (world s')).
Proof.
  intros s.
  assert (∃ s', @LoadMENU nat example_sprites s = (Ok tt, s'))
    as [s' E] by (vm_compute; eauto).
  exists s'. split; [exact E|].
  destruct (@LoadMENU_fills_the_menu nat example_sprites s) as [Hok _].
  destruct (Hok tt s' E) as (_ & _ & Hd & _ & Hsplash & _).
  assert (Hd' : peek32 (remaining (rcd s)) 0 = Some 3000) by (vm_compute; reflexivity).
  split; [congruence | exact Hsplash].
Defined.

Lemma widget_block_changes_one_member_witness :
  let s := mkState (reader_at_payload "GCHK" 1 example_gchk_payload) example_gui_sprites in
  HasSufficientGraphics
    (world (@LoadGCHK example_gui_headers nat example_width example_height
              example_sprites s).2) = false.
Proof.
  intros s.
  destruct (@widget_block_changes_one_member example_gui_headers nat example_width
              example_height example_sprites s) as (_ & _ & _ & _ & _ & Hclose).
  apply Hclose; [reflexivity|]. cbn. auto.
Defined.

(** ** The counts of the path decoration *)

Lemma count_sprites_leading {T} n (l : list (option T)) :
  (count_sprites n l ≤ n)%nat
  ∧ (∀ j, (j < count_sprites n l)%nat → ∃ img, l !! j = Some (Some img))
  ∧ ((count_sprites n l < n)%nat → ∀ img, l !! count_sprites n l ≠ Some (Some img)).
Proof.
  revert l. induction n as [|n IH]; intros l; [cbn; split_and!; [lia | lia | lia]|].
  destruct l as [|[x|] l]; cbn; [split_and!; [lia | lia | done] | | split_and!; [lia | lia | done]].
  destruct (IH l) as (Hle & Hbelow & Hat). split_and!.
  - lia.
  - intros [|j] Hj; cbn; [by eexists|]. apply Hbelow. lia.
  - intros Hlt. apply Hat. lia.
Qed.

Lemma wp_keeps {W A} (P : W → Prop) (m : M W A) s :
  keeps P m → P (world s) → wp True m s (λ _ s', P (world s')).
Proof.
  intros Hk Hs. specialize (Hk s Hs). unfold wp. now destruct (m s) as [[a| |] s'].
Qed.

Section PathDecorationCounts.
Context `{Headers} {ImageData : Type}.
Implicit Types s : LoadState (@SpriteStorage ImageData).
Implicit Types sprites : gmap Z ImageData.
Implicit Types pd : @PathDecoration ImageData.

(** The loop of [LoadPDEC] that sets the counts of the litter on ramps. *)
Lemma wp_ramp_litter_counts s :
  length (ramp_litter_count (path_decoration (world s))) = EDGE_COUNT →
  wp True (for_each EDGE_BEGIN (EDGE_COUNT - EDGE_BEGIN) (λ edge,
             modify_world (set_path_decoration (λ pd,
               set_ramp_litter_count
                 (<[edge := count_sprites 4 (default [] (ramp_litter pd !! edge))]>) pd)))) s
    (λ _ s',
       let pd := path_decoration (world s) in
       let pd' := path_decoration (world s') in
       set_ramp_litter_count (λ _, []) pd' = set_ramp_litter_count (λ _, []) pd
       ∧ ∀ edge, (EDGE_BEGIN ≤ edge < EDGE_COUNT)%nat →
           ramp_litter_count pd' !! edge
           = Some (count_sprites 4 (default [] (ramp_litter pd' !! edge)))).
Proof.
  intros Hlen.
  destruct (decide (EDGE_BEGIN ≤ EDGE_COUNT)%nat) as [Hle|Hgt].
  2: { replace (EDGE_COUNT - EDGE_BEGIN)%nat with 0%nat by lia. apply wp_ret. cbv zeta.
       split; [done | intros edge Hedge; lia]. }
  eapply wp_conseq.
  - apply (wp_for_each True EDGE_BEGIN (EDGE_COUNT - EDGE_BEGIN) _ (λ i s1,
      let pd := path_decoration (world s) in
      let pd1 := path_decoration (world s1) in
      set_ramp_litter_count (λ _, []) pd1 = set_ramp_litter_count (λ _, []) pd
      ∧ length (ramp_litter_count pd1) = EDGE_COUNT
      ∧ ∀ edge, (EDGE_BEGIN ≤ edge < i)%nat →
          ramp_litter_count pd1 !! edge
          = Some (count_sprites 4 (default [] (ramp_litter pd1 !! edge))))).
    + cbv zeta. split_and!; [done | done | intros edge Hedge; lia].
    + intros i s1 Hi (Hsame & Hl & Hcounts). apply wp_modify_world. cbn [world].
      cbv zeta in *.
      destruct (path_decoration (world s1)) as [a1 a2 a3 a4 a5 a6 a7 fl rl fv rv flc fvc rlc rvc]
        eqn:E1.
      destruct (world s1) as [z1 z2 z3 z4 pd1 z6 z7 z8 z9 z10 z11 z12 z13 z14]. cbn in E1.
      subst pd1. cbn in *. split_and!.
      * exact Hsame.
      * now rewrite length_insert.
      * intros edge Hedge. destruct (decide (edge = i)) as [->|Hne].
        -- apply list_lookup_insert_eq. lia.
        -- rewrite list_lookup_insert_ne by done. apply Hcounts. lia.
  - cbv beta zeta. intros u s' (Hsame & _ & Hcounts). split; [done|].
    intros edge Hedge. apply Hcounts. lia.
Qed.

Lemma wp_ramp_vomit_counts s :
  length (ramp_vomit_count (path_decoration (world s))) = EDGE_COUNT →
  wp True (for_each EDGE_BEGIN (EDGE_COUNT - EDGE_BEGIN) (λ edge,
             modify_world (set_path_decoration (λ pd,
               set_ramp_vomit_count
                 (<[edge := count_sprites 4 (default [] (ramp_vomit pd !! edge))]>) pd)))) s
    (λ _ s',
       let pd := path_decoration (world s) in
       let pd' := path_decoration (world s') in
       set_ramp_vomit_count (λ _, []) pd' = set_ramp_vomit_count (λ _, []) pd
       ∧ ∀ edge, (EDGE_BEGIN ≤ edge < EDGE_COUNT)%nat →
           ramp_vomit_count pd' !! edge
           = Some (count_sprites 4 (default [] (ramp_vomit pd' !! edge)))).
Proof.
  intros Hlen.
  destruct (decide (EDGE_BEGIN ≤ EDGE_COUNT)%nat) as [Hle|Hgt].
  2: { replace (EDGE_COUNT - EDGE_BEGIN)%nat with 0%nat by lia. apply wp_ret. cbv zeta.
       split; [done | intros edge Hedge; lia]. }
  eapply wp_conseq.
  - apply (wp_for_each True EDGE_BEGIN (EDGE_COUNT - EDGE_BEGIN) _ (λ i s1,
      let pd := path_decoration (world s) in
      let pd1 := path_decoration (world s1) in
      set_ramp_vomit_count (λ _, []) pd1 = set_ramp_vomit_count (λ _, []) pd
      ∧ length (ramp_vomit_count pd1) = EDGE_COUNT
      ∧ ∀ edge, (EDGE_BEGIN ≤ edge < i)%nat →
          ramp_vomit_count pd1 !! edge
          = Some (count_sprites 4 (default [] (ramp_vomit pd1 !! edge))))).
    + cbv zeta. split_and!; [done | done | intros edge Hedge; lia].
    + intros i s1 Hi (Hsame & Hl & Hcounts). apply wp_modify_world. cbn [world].
      cbv zeta in *.
      destruct (path_decoration (world s1)) as [a1 a2 a3 a4 a5 a6 a7 fl rl fv rv flc fvc rlc rvc]
        eqn:E1.
      destruct (world s1) as [z1 z2 z3 z4 pd1 z6 z7 z8 z9 z10 z11 z12 z13 z14]. cbn in E1.
      subst pd1. cbn in *. split_and!.
      * exact Hsame.
      * now rewrite length_insert.
      * intros edge Hedge. destruct (decide (edge = i)) as [->|Hne].
        -- apply list_lookup_insert_eq. lia.
        -- rewrite list_lookup_insert_ne by done. apply Hcounts. lia.
  - cbv beta zeta. intros u s' (Hsame & _ & Hcounts). split; [done|].
    intros edge Hedge. apply Hcounts. lia.
Qed.

(** The counts that [LoadPDEC] sets after it has loaded the sprites. *)
Lemma wp_LoadPDEC_counts sprites s :
  length (ramp_litter_count (path_decoration (world s))) = EDGE_COUNT →
  length (ramp_vomit_count (path_decoration (world s))) = EDGE_COUNT →
  wp True (LoadPDEC sprites) s (λ _ s',
    let pd := path_decoration (world s') in
    flat_litter_count pd = count_sprites 4 (flat_litter pd)
    ∧ flat_vomit_count pd = count_sprites 4 (flat_vomit pd)
    ∧ ∀ edge, (EDGE_BEGIN ≤ edge < EDGE_COUNT)%nat →
        ramp_litter_count pd !! edge
        = Some (count_sprites 4 (default [] (ramp_litter pd !! edge)))
        ∧ ramp_vomit_count pd !! edge
          = Some (count_sprites 4 (default [] (ramp_vomit pd !! edge)))).
Proof.
  intros Hl0 Hv0. unfold LoadPDEC. apply wp_bind, wp_get_reader.
  case_decide as Hhdr; [apply wp_return_false|].
  apply wp_bind, wp_GetUInt16_world. intros width s0 W0. cbv zeta.
  case_decide as Hss; [apply wp_return_false|].
  set (P := λ ss : @SpriteStorage ImageData,
         length (ramp_litter_count (path_decoration ss)) = EDGE_COUNT
         ∧ length (ramp_vomit_count (path_decoration ss)) = EDGE_COUNT).
  assert (P (world s0)) as H0 by (now rewrite W0).
  clear W0 Hl0 Hv0.
  do 11 (apply wp_bind; eapply wp_conseq;
         [apply (wp_keeps P); [keeps ltac:(assumption) | eassumption]
         | cbv beta; let s1 := fresh "s" in let H1 := fresh "H" in
           intros _ s1 H1; clear H0; rename H1 into H0 ]).
  destruct H0 as [Hl Hv].
  apply wp_bind, wp_modify_world_at. intros s12 _ W12.
  apply wp_bind. eapply wp_conseq; [apply wp_ramp_litter_counts; now rewrite W12|].
  cbv beta zeta. intros _ s13 [E13 Hlitter].
  apply wp_bind, wp_modify_world_at. intros s14 _ W14.
  eapply wp_conseq.
  { apply wp_ramp_vomit_counts. rewrite W14. cbn.
    apply (f_equal ramp_vomit_count) in E13. cbn in E13. rewrite E13, W12. exact Hv. }
  cbv beta zeta. intros _ s15 [E15 Hvomit].
  rewrite W14 in E15. rewrite W12 in E13. clear W12 W14 Hl Hv.
  cbn [path_decoration set_path_decoration] in E13, E15.
  destruct (path_decoration (world s11))
    as [a1 a2 a3 a4 a5 a6 a7 fl rl fv rv flc fvc rlc rvc].
  destruct (path_decoration (world s13))
    as [b1 b2 b3 b4 b5 b6 b7 fl' rl' fv' rv' flc' fvc' rlc' rvc'].
  destruct (path_decoration (world s15))
    as [c1 c2 c3 c4 c5 c6 c7 fl'' rl'' fv'' rv'' flc'' fvc'' rlc'' rvc''].
  cbn [set_flat_litter_count set_flat_vomit_count set_ramp_litter_count set_ramp_vomit_count
       litterbin overflow_bin demolished_bin lamp_post demolished_lamp bench demolished_bench
       flat_litter ramp_litter flat_vomit ramp_vomit flat_litter_count flat_vomit_count
       ramp_litter_count ramp_vomit_count] in *.
  injection E13 as -> -> -> -> -> -> -> -> -> -> -> -> -> ->.
  injection E15 as -> -> -> -> -> -> -> -> -> -> -> -> -> ->.
  split_and!; [done | done |]. intros edge Hedge. split; [now apply Hlitter | now apply Hvomit].
Qed.

(** X22. After a PDEC block has loaded, each count of the path decoration is
    the number of sprites at the start of its array: the count of the litter
    and of the vomit on flat paths, and for every edge of a tile the count of
    the litter and of the vomit on ramps.  A count is at most 4, the slots
    below it hold a sprite, and a count below 4 is the first slot without
    one. *)
Theorem LoadPDEC_counts_the_sprites sprites s u s' :
  length (ramp_litter_count (path_decoration (world s))) = EDGE_COUNT →
  length (ramp_vomit_count (path_decoration (world s))) = EDGE_COUNT →
  LoadPDEC sprites s = (Ok u, s') →
  let pd := path_decoration (world s') in
  leading_sprites (flat_litter_count pd) (flat_litter pd)
  ∧ leading_sprites (flat_vomit_count pd) (flat_vomit pd)
  ∧ ∀ edge, (EDGE_BEGIN ≤ edge < EDGE_COUNT)%nat →
      (∃ c, ramp_litter_count pd !! edge = Some c
            ∧ leading_sprites c (default [] (ramp_litter pd !! edge)))
      ∧ (∃ c, ramp_vomit_count pd !! edge = Some c
              ∧ leading_sprites c (default [] (ramp_vomit pd !! edge))).
Proof.
  intros Hl Hv E.
  apply (wp_Ok _ _ _ _ _ _ (wp_LoadPDEC_counts sprites s Hl Hv)) in E as (Hfl & Hfv & Hramps).
  cbv zeta. rewrite Hfl, Hfv. split_and!; [apply count_sprites_leading..|].
  intros edge Hedge. destruct (Hramps edge Hedge) as [Hrl Hrv].
  split; eexists; (split; [eassumption | apply count_sprites_leading]).
Qed.
End PathDecorationCounts.

Lemma LoadPDEC_counts_the_sprites_witness :
  let s := mkState (reader_at_payload "PDEC" 1 example_pdec_payload)
                   (@SpriteStorage_new example_headers nat 64) in
  ∃ s', @LoadPDEC example_headers nat {[1 := 7%nat; 2 := 9%nat]} s = (Ok tt, s')
        ∧ @leading_sprites nat 2 (flat_litter (path_decoration (world s')))
        ∧ @leading_sprites nat 1 (default [] (ramp_vomit (path_decoration (world s')) !! 1%nat)).
Proof.
  intros s.
  assert (∃ s', @LoadPDEC example_headers nat {[1 := 7%nat; 2 := 9%nat]} s = (Ok tt, s')
                ∧ flat_litter_count (path_decoration (world s')) = 2%nat
                ∧ ramp_vomit_count (path_decoration (world s')) !! 1%nat = Some 1%nat)
    as (s' & E & Hflat & Hramp) by (vm_compute; eauto).
  exists s'. split; [exact E|].
  destruct (@LoadPDEC_counts_the_sprites example_headers nat {[1 := 7%nat; 2 := 9%nat]} s tt s')
    as (Hfl & _ & Hramps); [reflexivity | reflexivity | exact E |].
  split.
  - rewrite <- Hflat. exact Hfl.
  - destruct (Hramps 1%nat) as [_ (c & Hc & Hlead)]; [vm_compute; lia|].
    rewrite Hramp in Hc. injection Hc as <-. exact Hlead.
Defined.

(** ** The views of a frame set *)

Section FrameSetViews.
Context {ImageData : Type}.
Implicit Types s : LoadState (@FrameSet ImageData).
Implicit Types sprites : gmap Z ImageData.

(** What [FrameSet::Load] requires of a block for tiles of 64 pixels, and
    what it loads. *)
Lemma wp_FrameSet_Load_views sprites s :
  0 ≤ rcd_size (rcd s) < 2 ^ 32 →
  length (fset_sprites (world s)) = 4%nat →
  peek16 (remaining (rcd s)) 0 = Some 64 →
  wp False (FrameSet_Load sprites) s (λ _ s',
    let l := remaining (rcd s) in
    rcd_version (rcd s) = 1
    ∧ ∃ wx wy,
        peek8 l 2 = Some wx ∧ peek8 l 3 = Some wy
        ∧ rcd_size (rcd s) = 4 + 16 * wx * wy
        ∧ fset_width (world s') = 64 ∧ width_x (world s') = wx ∧ width_y (world s') = wy
        ∧ ∀ i, (i < 4)%nat →
            ∃ view, fset_sprites (world s') !! i = Some view
                    ∧ length view = Z.to_nat (wx * wy)
                    ∧ cells_loaded sprites l (4 + 4 * (i * Z.to_nat (wx * wy)))
                        (Z.to_nat (wx * wy)) view).
Proof.
  intros Hsize Hlen H64. unfold FrameSet_Load. apply wp_bind, wp_get_reader.
  case_decide as Hhdr; [apply wp_return_false|].
  set (l := remaining (rcd s)) in *.
  apply wp_bind, (wp_GetUInt16_at _ l 0%nat); [done|]. intros width s0 Hwidth R0 W0 _.
  assert (width = 64) as -> by congruence. clear Hwidth.
  apply wp_bind, (wp_GetUInt8_at _ l 2%nat); [done|]. intros wx s1 Hwx R1 W1 Hwxr.
  apply wp_bind, (wp_GetUInt8_at _ l 3%nat); [done|]. intros wy s2 Hwy R2 W2 Hwyr.
  apply wp_bind, wp_modify_world_at. intros s3 R3 W3.
  case_decide as Hsz; [apply wp_return_false|].
  assert (rcd_size (rcd s) = 4 + 16 * wx * wy) as Hsz'.
  { apply i32_eq_small; [done | nia |].
    destruct (decide (i32 (rcd_size (rcd s)) = 4 + 16 * wx * wy)); done. }
  set (nx := Z.to_nat wx). set (ny := Z.to_nat wy). set (n := Z.to_nat (wx * wy)).
  assert (Hn : n = (nx * ny)%nat) by (subst n nx ny; apply Z2Nat.inj_mul; lia).
  pose (hdr := λ st : LoadState (@FrameSet ImageData),
          fset_width (world st) = 64 ∧ width_x (world st) = wx ∧ width_y (world st) = wy
          ∧ length (fset_sprites (world st)) = 4%nat).
  pose (done_ := λ (i : nat) (st : LoadState (@FrameSet ImageData)),
          ∀ i', (i' < i)%nat →
            ∃ view, fset_sprites (world st) !! i' = Some view ∧ length view = n
                    ∧ cells_loaded sprites l (4 + 4 * (i' * n)) n view).
  pose (J := λ (i k : nat) (st : LoadState (@FrameSet ImageData)),
          remaining (rcd st) = drop (4 + 4 * (i * n + k)) l ∧ hdr st ∧ done_ i st
          ∧ ∃ view, fset_sprites (world st) !! i = Some view ∧ length view = n
                    ∧ cells_loaded sprites l (4 + 4 * (i * n)) k view).
  eapply wp_conseq.
  - apply (wp_for_each False 0 4 _ (λ i st,
      remaining (rcd st) = drop (4 + 4 * (i * n)) l ∧ hdr st ∧ done_ i st)).
    + split_and!.
      * rewrite R3, R2. done.
      * unfold hdr. rewrite W3. cbn [world fset_sprites fset_width width_x width_y].
        rewrite W2, W1, W0. done.
      * intros i' Hi'. lia.
    + intros i s4 Hi (R4 & Hhdr4 & Hdone4).
      apply wp_bind, wp_modify_world_at. intros s5 R5 W5.
      assert (J5 : J i 0%nat s5).
      { destruct Hhdr4 as (Hw & Hx & Hy & Hl4). unfold J, hdr, done_. rewrite W5.
        cbn [world fset_sprites fset_width width_x width_y]. split_and!.
        - rewrite R5, R4. f_equal. lia.
        - done.
        - done.
        - done.
        - now rewrite length_insert.
        - intros i' Hi'. destruct (Hdone4 i' Hi') as (view & Hv & Hvl & Hrefs).
          exists view. split_and!; [|done..]. rewrite list_lookup_insert_ne by lia. done.
        - exists (replicate n Unassigned). split_and!.
          + apply list_lookup_insert_eq. lia.
          + apply length_replicate.
          + intros j Hj. lia. }
      clear R5 W5 R4 Hhdr4 Hdone4.
      eapply wp_conseq.
      * apply (wp_for_each False 0 nx _ (λ x st, J i (x * ny)%nat st)); [exact J5|].
        intros x s6 Hx J6. eapply wp_conseq.
        -- apply (wp_for_each False 0 ny _ (λ y st, J i (x * ny + y)%nat st)).
           ++ now rewrite Nat.add_0_r.
           ++ intros y s7 Hy (R7 & Hhdr7 & Hdone7 & view & Hv & Hvl & Hrefs).
              assert (Hk : (x * ny + y < n)%nat) by nia.
              apply wp_bind,
                (wp_LoadSpriteFromFile_at _ sprites l (4 + 4 * (i * n + (x * ny + y))));
                [done|].
              intros id spr s8 Hid Hres R8 W8.
              rewrite decide_False by (intros ?; done).
              apply wp_modify_world_at. intros s9 R9 W9.
              destruct Hhdr7 as (Hw & Hx7 & Hy7 & Hl7).
              assert (Hrows : fset_sprites (world s9)
                              = <[i := <[(x * ny + y)%nat := Assigned spr]> view]>
                                  (fset_sprites (world s7))).
              { rewrite W9. cbn [world fset_sprites]. rewrite W8. unfold set_cell.
                now rewrite Hv. }
              assert (fset_width (world s9) = 64 ∧ width_x (world s9) = wx
                      ∧ width_y (world s9) = wy) as (Hw9 & Hx9 & Hy9).
              { rewrite W9. cbn [world fset_width width_x width_y]. now rewrite W8. }
              unfold J, hdr, done_. rewrite Hrows, Hw9, Hx9, Hy9. split_and!.
              ** rewrite R9, R8. f_equal. lia.
              ** done.
              ** done.
              ** done.
              ** now rewrite length_insert.
              ** intros i' Hi'. destruct (Hdone7 i' Hi') as (view' & Hv' & Hvl' & Hrefs').
                 exists view'. split_and!; [|done..]. rewrite list_lookup_insert_ne by lia. done.
              ** exists (<[(x * ny + y)%nat := Assigned spr]> view). split_and!.
                 --- apply list_lookup_insert_eq. lia.
                 --- now rewrite length_insert.
                 --- intros j Hj. destruct (decide (j = (x * ny + y)%nat)) as [->|Hne].
                     +++ exists id, spr. split_and!; [|done|].
                         *** rewrite <- Hid. f_equal. lia.
                         *** apply list_lookup_insert_eq. lia.
                     +++ destruct (Hrefs j) as (id' & spr' & ? & ? & ?); [lia|].
                         exists id', spr'. split_and!; [done | done |].
                         now rewrite list_lookup_insert_ne.
        -- cbv beta. intros _ s7 J7. replace (S x * ny)%nat with (x * ny + (0 + ny))%nat by lia.
           exact J7.
      * cbv beta. intros _ s6 (R6 & Hhdr6 & Hdone6 & view & Hv & Hvl & Hrefs).
        split_and!.
        -- rewrite R6. f_equal. lia.
        -- done.
        -- intros i' Hi'. destruct (decide (i' = i)) as [->|Hne].
           ++ exists view. split_and!; [done | done |]. rewrite Nat.add_0_l, <- Hn in Hrefs. done.
           ++ apply Hdone6. lia.
  - cbv beta. intros _ s' (_ & (Hw & Hx & Hy & Hl') & Hdone).
    split; [destruct (decide (rcd_version (rcd s) = 1)); [done | exfalso; apply Hhdr; now left]|].
    exists wx, wy. split_and!; done.
Qed.
End FrameSetViews.

Section FrameSetCells.
Context {ImageData : Type}.
Implicit Types s : LoadState (@FrameSet ImageData).
Implicit Types sprites : gmap Z ImageData.

(** X23. [FrameSet::Load] on a block for tiles of 64 pixels: it succeeds only
    when the version is 1 and the size is 4 + 16 * width_x * width_y, and then
    each of the four views has width_x * width_y sprites, which are what the
    references of the block stand for, in the order of the block: the sprite
    of the tile (x, y) of the view i is the cell x * width_y + y of the view
    and the reference number (i * width_x + x) * width_y + y.  No cell is left
    without a value. *)
Theorem FrameSet_Load_fills_the_views sprites s u s' :
  0 ≤ rcd_size (rcd s) < 2 ^ 32 →
  length (fset_sprites (world s)) = 4%nat →
  peek16 (remaining (rcd s)) 0 = Some 64 →
  FrameSet_Load sprites s = (Ok u, s') →
  let l := remaining (rcd s) in
  rcd_version (rcd s) = 1
  ∧ ∃ wx wy,
      peek8 l 2 = Some wx ∧ peek8 l 3 = Some wy
      ∧ rcd_size (rcd s) = 4 + 16 * wx * wy
      ∧ fset_width (world s') = 64 ∧ width_x (world s') = wx ∧ width_y (world s') = wy
      ∧ ∀ i x y, (i < 4)%nat → 0 ≤ x < wx → 0 ≤ y < wy →
          ∃ view spr,
            fset_sprites (world s') !! i = Some view
            ∧ length view = Z.to_nat (wx * wy)
            ∧ view !! Z.to_nat (x * wy + y) = Some (Assigned spr)
            ∧ ref_at sprites l (4 + 4 * Z.to_nat ((Z.of_nat i * wx + x) * wy + y)) spr.
Proof.
  intros Hsize Hlen H64 E.
  apply (wp_Ok _ _ _ _ _ _ (wp_FrameSet_Load_views sprites s Hsize Hlen H64)) in E
    as (Hver & wx & wy & Hwx & Hwy & Hsz & Hw & Hx & Hy & Hviews).
  split; [done|]. exists wx, wy. split_and!; [done..|].
  intros i x y Hi Hxr Hyr. destruct (Hviews i Hi) as (view & Hv & Hvl & Hrefs).
  destruct (Hrefs (Z.to_nat (x * wy + y))) as (id & spr & Hid & Hres & Hspr); [nia|].
  exists view, spr. split_and!; [done | done | done |]. exists id. split; [|done].
  rewrite <- Hid. f_equal.
  replace ((Z.of_nat i * wx + x) * wy + y) with (Z.of_nat i * (wx * wy) + (x * wy + y)) by lia.
  rewrite Z2Nat.inj_add, Z2Nat.inj_mul, Nat2Z.id by nia. lia.
Qed.
End FrameSetCells.

Lemma FrameSet_Load_fills_the_views_witness :
  let s := mkState (reader_at_payload "FSET" 1 example_views_payload) (@FrameSet_new nat) in
  ∃ s' view, @FrameSet_Load nat {[1 := 7%nat; 2 := 9%nat]} s = (Ok tt, s')
             ∧ fset_sprites (world s') !! 0%nat = Some view
             ∧ view !! 1%nat = Some (Assigned (Some 9%nat)).
Proof.
  intros s.
  assert (∃ s', @FrameSet_Load nat {[1 := 7%nat; 2 := 9%nat]} s = (Ok tt, s'))
    as [s' E] by (vm_compute; eauto).
  destruct (@FrameSet_Load_fills_the_views nat {[1 := 7%nat; 2 := 9%nat]} s tt s')
    as (_ & wx & wy & Hwx & Hwy & _ & _ & _ & _ & Hcells).
  - vm_compute. split; [discriminate | reflexivity].
  - reflexivity.
  - vm_compute. reflexivity.
  - exact E.
  - assert (wx = 2) as ->.
    { assert (peek8 (remaining (rcd s)) 2 = Some 2) by (vm_compute; reflexivity). congruence. }
    assert (wy = 1) as ->.
    { assert (peek8 (remaining (rcd s)) 3 = Some 1) by (vm_compute; reflexivity). congruence. }
    destruct (Hcells 0%nat 1 0) as (view & spr & Hv & _ & Hspr & id & Hid & Hres); [lia..|].
    exists s', view. split_and!; [exact E | exact Hv |].
    assert (Hid' : peek32 (remaining (rcd s)) (4 + 4 * Z.to_nat ((Z.of_nat 0 * 2 + 1) * 1 + 0))
                   = Some 2) by (vm_compute; reflexivity).
    rewrite Hid' in Hid. injection Hid as <-.
    assert (Hres' : resolve ({[1 := 7%nat; 2 := 9%nat]} : gmap Z nat) 2 = Some (Some 9%nat))
      by (vm_compute; reflexivity).
    rewrite Hres' in Hres. injection Hres as <-. exact Hspr.
Defined.

(** A block for tiles of another width loads too, and no cell of its views
    is assigned. *)
Lemma FrameSet_Load_other_width :
  let s := mkState (reader_at_payload "FSET" 1 example_views_payload_32) (@FrameSet_new nat) in
  ∃ s', @FrameSet_Load nat {[1 := 7%nat; 2 := 9%nat]} s = (Ok tt, s')
        ∧ fset_sprites (world s') = replicate 4 [Unassigned; Unassigned].
Proof. intros s. vm_compute. eexists. split; reflexivity. Qed.

(** ** The sprite sets of several arrays *)

Section LoadsRows.
Context {W ImageData : Type} (F : Prop).
Implicit Types s : LoadState W.

(** Two loops that load [nrows] times [ncols] references into the rows of an
    array of arrays: [get] is the array in the object that is filled, [put f]
    its assignment, and [J] what the assignments keep. *)
Lemma wp_load_rows (sprites : gmap Z ImageData) (l : list byte)
    (get : W → list (list (option ImageData)))
    (put : (list (list (option ImageData)) → list (list (option ImageData))) → W → W)
    (J : W → Prop) nrows ncols off s :
  remaining (rcd s) = drop off l →
  (∀ f w, get (put f w) = f (get w)) →
  (∀ f w, J w → J (put f w)) →
  length (get (world s)) = nrows →
  Forall (λ row, length row = ncols) (get (world s)) →
  J (world s) →
  wp F (for_each 0 nrows (λ v,
          for_each 0 ncols (λ j, load_sprite_to sprites (λ spr, put (set_cell v j spr))))) s
    (λ _ s',
       remaining (rcd s') = drop (off + 4 * (nrows * ncols)) l
       ∧ (∀ v, (v < nrows)%nat →
            ∃ row, get (world s') !! v = Some row ∧ length row = ncols
                   ∧ refs_loaded sprites l (off + 4 * (v * ncols)) ncols row)
       ∧ J (world s')).
Proof.
  intros Hrem Hget HJ Hrows Hcols HJ0.
  eapply wp_conseq.
  - apply (wp_for_each F 0 nrows _ (λ v s1,
      remaining (rcd s1) = drop (off + 4 * (v * ncols)) l
      ∧ length (get (world s1)) = nrows
      ∧ Forall (λ row, length row = ncols) (get (world s1))
      ∧ (∀ v', (v' < v)%nat →
           ∃ row, get (world s1) !! v' = Some row
                  ∧ refs_loaded sprites l (off + 4 * (v' * ncols)) ncols row)
      ∧ J (world s1))).
    + split_and!; [now rewrite Nat.mul_0_l, Nat.mul_0_r, Nat.add_0_r | done | done | | done].
      intros v' Hv'. lia.
    + intros v s1 Hv (R1 & Hl1 & Hc1 & Hdone & HJ1).
      destruct (lookup_lt_is_Some_2 (get (world s1)) v) as [row0 Hrow0]; [lia|].
      eapply wp_conseq.
      * apply (wp_load_sprites F sprites l
                 (λ w, default [] (get w !! v))
                 (λ j spr, put (set_cell v j spr))
                 (λ w, length (get w) = nrows
                       ∧ Forall (λ row, length row = ncols) (get w)
                       ∧ (∀ v', v' ≠ v → get w !! v' = get (world s1) !! v')
                       ∧ J w)
                 ncols (off + 4 * (v * ncols))).
        -- exact R1.
        -- intros j spr w. rewrite Hget. unfold set_cell.
           destruct (get w !! v) as [row|] eqn:E; cbn.
           ++ rewrite list_lookup_insert_eq; [done|]. now apply lookup_lt_Some in E.
           ++ now rewrite E.
        -- intros j spr w (Hlw & Hcw & Hother & HJw).
           split_and!; [| | | now apply HJ]; rewrite ?Hget; unfold set_cell;
             destruct (get w !! v) as [row|] eqn:E; try done.
           ++ now rewrite length_insert.
           ++ apply Forall_insert; [done|]. rewrite length_insert.
              exact (proj1 (Forall_lookup _ _) Hcw _ _ E).
           ++ intros v' Hne. rewrite list_lookup_insert_ne by done. now apply Hother.
        -- rewrite Hrow0. cbn. rewrite (proj1 (Forall_lookup _ _) Hc1 _ _ Hrow0). done.
        -- done.
      * cbv beta. intros _ s2 (R2 & Hrefs & Hlen2 & Hl2 & Hc2 & Hother & HJ2).
        split_and!; [| done | done | | done].
        -- rewrite R2. f_equal. lia.
        -- intros v' Hv'. destruct (decide (v' = v)) as [->|Hne].
           ++ destruct (lookup_lt_is_Some_2 (get (world s2)) v) as [row Hrow]; [lia|].
              exists row. split; [done|]. now rewrite Hrow in Hrefs.
           ++ rewrite Hother by done. apply Hdone. lia.
  - cbv beta. intros _ s' (R' & Hl' & Hc' & Hdone & HJ'). split_and!; [done | | done].
    intros v Hv. destruct (Hdone v Hv) as (row & Hrow & Hrefs). exists row.
    split_and!; [done | | done]. exact (proj1 (Forall_lookup _ _) Hc' _ _ Hrow).
Qed.
End LoadsRows.

Section SetsOfSeveralArrays.
Context `{Headers} {ImageData : Type}.
Implicit Types s : LoadState (@SpriteStorage ImageData).
Implicit Types sprites : gmap Z ImageData.

Lemma wp_LoadPATH_loads sprites s :
  (∀ t p, path_sprites (world s) !! t = Some p → length (path_sprites_of p) = PATH_COUNT) →
  wp False (LoadPATH sprites) s (λ _ s',
    ∃ type pt,
      let path := default Path_new (path_sprites (world s') !! pt) in
      peek16 (remaining (rcd s)) 0 = Some type
      ∧ path_type_of_code (Z.land type 0x7FFF) = Some pt
      ∧ refs_loaded sprites (remaining (rcd s)) 6 PATH_COUNT (path_sprites_of path)
      ∧ (∀ t, t ≠ pt → path_sprites (world s') !! t = path_sprites (world s) !! t)
      ∧ world s' = set_path_sprites (λ _, path_sprites (world s')) (world s)).
Proof.
  intros Hok. unfold LoadPATH. apply wp_bind, wp_get_reader.
  case_decide as Hhdr; [apply wp_return_false|].
  apply wp_bind, (wp_GetUInt16_at _ (remaining (rcd s)) 0%nat); [done|].
  intros type s1 Htype R1 W1 _.
  destruct (path_type_of_code (Z.land type 32767)) as [pt|] eqn:Ept; [|apply wp_return_false].
  apply wp_bind, (wp_GetUInt16_at _ (remaining (rcd s)) 2%nat); [done|].
  intros width s2 _ R2 W2 _.
  apply wp_bind, (wp_GetUInt16_at _ (remaining (rcd s)) 4%nat); [done|].
  intros height s3 _ R3 W3 _. cbv zeta.
  case_decide as Hss; [apply wp_return_false|].
  apply wp_bind. eapply wp_conseq.
  - apply (wp_load_sprites False sprites (remaining (rcd s))
             (λ ss, path_sprites_of (default Path_new (path_sprites ss !! pt)))
             (λ i spr, set_path_sprites
                (at_key Path_new pt
                   (λ path, mkPath (path_status path) (<[i := spr]> (path_sprites_of path)))))
             (λ ss, (∀ t, t ≠ pt → path_sprites ss !! t = path_sprites (world s) !! t)
                    ∧ set_path_sprites (λ _, path_sprites (world s)) ss = world s)
             PATH_COUNT 6).
    + done.
    + intros i spr w. cbn. unfold at_key. now rewrite lookup_insert_eq.
    + intros i spr w [Hother Hrest]. split.
      * intros t Hne. cbn. unfold at_key. rewrite lookup_insert_ne by done. now apply Hother.
      * exact Hrest.
    + rewrite W3, W2, W1. destruct (path_sprites (world s) !! pt) as [p|] eqn:E.
      * cbn [default id]. now rewrite (Hok _ _ E).
      * cbn [default id]. unfold Path_new, no_sprites. cbn [path_sprites_of].
        now rewrite length_replicate.
    + rewrite W3, W2, W1. split; [done|]. now destruct (world s).
  - cbv beta. intros _ s4 (_ & Hrefs & _ & Hother & Hrest).
    apply wp_modify_world. cbn [world]. exists type, pt. cbv zeta.
    split_and!; [done | done | | |].
    + cbn. unfold at_key. rewrite lookup_insert_eq. cbn. exact Hrefs.
    + intros t Hne. cbn. unfold at_key. rewrite lookup_insert_ne by done. now apply Hother.
    + rewrite <- Hrest. now destruct (world s4).
Qed.

Lemma wp_LoadTCOR_loads sprites s :
  length (tile_corners (world s)) = VOR_NUM_ORIENT →
  Forall (λ row, length row = NUM_SLOPE_SPRITES) (tile_corners (world s)) →
  wp False (LoadTCOR sprites) s (λ _ s',
    rcd_version (rcd s) = 2
    ∧ rcd_size (rcd s) = 2 + 2 + 4 * Z.of_nat VOR_NUM_ORIENT * Z.of_nat NUM_SLOPE_SPRITES
    ∧ (∀ v, (v < VOR_NUM_ORIENT)%nat →
         ∃ row, tile_corners (world s') !! v = Some row
                ∧ length row = NUM_SLOPE_SPRITES
                ∧ refs_loaded sprites (remaining (rcd s)) (4 + 4 * (v * NUM_SLOPE_SPRITES))
                    NUM_SLOPE_SPRITES row)
    ∧ world s' = set_tile_corners (λ _, tile_corners (world s')) (world s)).
Proof.
  intros Hrows Hcols. unfold LoadTCOR. apply wp_bind, wp_get_reader.
  case_decide as Hhdr; [apply wp_return_false|].
  apply wp_bind, (wp_GetUInt16_at _ (remaining (rcd s)) 0%nat); [done|].
  intros width s1 _ R1 W1 _.
  apply wp_bind, (wp_GetUInt16_at _ (remaining (rcd s)) 2%nat); [done|].
  intros height s2 _ R2 W2 _. cbv zeta.
  case_decide as Hss; [apply wp_return_false|].
  eapply wp_conseq.
  - apply (wp_load_rows False sprites (remaining (rcd s)) tile_corners set_tile_corners
             (λ ss, set_tile_corners (λ _, tile_corners (world s)) ss = world s)
             VOR_NUM_ORIENT NUM_SLOPE_SPRITES 4); [done | done | done | | |].
    + now rewrite W2, W1.
    + now rewrite W2, W1.
    + rewrite W2, W1. now destruct (world s).
  - cbv beta. intros _ s' (_ & Hdone & Hrest).
    split_and!; [lia | lia | done |]. rewrite <- Hrest. now destruct (world s').
Qed.

Local Ltac plat_simpl :=
  unfold set_platform; cbn [world platform plat_flat plat_ramp plat_right_ramp plat_left_ramp].
Local Ltac plat_simpl_in H :=
  unfold set_platform in H;
  cbn [world platform plat_flat plat_ramp plat_right_ramp plat_left_ramp] in H.

Lemma wp_LoadPLAT_loads sprites s :
  (2 ≤ length (plat_flat (platform (world s))))%nat →
  (4 ≤ length (plat_ramp (platform (world s))))%nat →
  (4 ≤ length (plat_right_ramp (platform (world s))))%nat →
  (4 ≤ length (plat_left_ramp (platform (world s))))%nat →
  wp False (LoadPLAT sprites) s (λ _ s',
    let l := remaining (rcd s) in
    let p := platform (world s') in
    rcd_version (rcd s) = 2
    ∧ rcd_size (rcd s) = 62
    ∧ peek16 l 4 = Some 16
    ∧ refs_loaded sprites l 6 2 (plat_flat p)
    ∧ refs_loaded sprites l 14 4 (plat_ramp p)
    ∧ refs_loaded sprites l 30 4 (plat_right_ramp p)
    ∧ refs_loaded sprites l 46 4 (plat_left_ramp p)
    ∧ world s' = set_platform (λ _, p) (world s)).
Proof.
  intros Hf Hr Hrr Hlr. unfold LoadPLAT. apply wp_bind, wp_get_reader.
  case_decide as Hhdr; [apply wp_return_false|].
  set (l := remaining (rcd s)).
  apply wp_bind, (wp_GetUInt16_at _ l 0%nat); [done|]. intros width s1 _ R1 W1 _.
  apply wp_bind, (wp_GetUInt16_at _ l 2%nat); [done|]. intros height s2 _ R2 W2 _.
  apply wp_bind, (wp_GetUInt16_at _ l 4%nat); [done|]. intros type s3 Htype R3 W3 _.
  case_decide as Ht; [apply wp_return_false|]. cbv zeta.
  case_decide as Hss; [apply wp_return_false|].
  assert (type = 16) as -> by (destruct (decide (type = 16)); done).
  rewrite W2, W1 in W3. clear W1 W2 R1 R2.
  destruct (world s) as [z1 z2 z3 z4 z5 z6 z7 [fl rp rr lr] z9 z10 z11 z12 z13 z14] eqn:Ew.
  plat_simpl_in Hf. plat_simpl_in Hr. plat_simpl_in Hrr. plat_simpl_in Hlr.
  apply wp_bind, (wp_load_sprite_to_at _ sprites l 6); [done|].
  intros i1 p1 s4 Hi1 Hp1 R4 W4. rewrite W3 in W4.
  plat_simpl_in W4.
  apply wp_bind, (wp_load_sprite_to_at _ sprites l 10); [done|].
  intros i2 p2 s5 Hi2 Hp2 R5 W5. rewrite W4 in W5.
  plat_simpl_in W5.
  assert (Hflat : refs_loaded sprites l 6 2 (plat_flat (platform (world s5)))).
  { rewrite W5. cbn [platform plat_flat]. intros [|[|j]] Hj; [| |lia].
    - exists i1, p1. split_and!; [done | done |].
      rewrite list_lookup_insert_ne by done. apply list_lookup_insert_eq. lia.
    - exists i2, p2. split_and!; [done | done |].
      apply list_lookup_insert_eq. rewrite length_insert. lia. }
  apply wp_bind. eapply wp_conseq.
  { apply (wp_load_sprites False sprites l (λ ss, plat_ramp (platform ss))
             (λ i spr, set_platform (λ p, mkPlatform (plat_flat p) (<[i := spr]> (plat_ramp p))
                                            (plat_right_ramp p) (plat_left_ramp p)))
             (λ ss, set_platform (λ p, mkPlatform (plat_flat p) [] (plat_right_ramp p)
                                         (plat_left_ramp p)) ss
                    = set_platform (λ p, mkPlatform (plat_flat p) [] (plat_right_ramp p)
                                           (plat_left_ramp p)) (world s5))
             4 14); [done | done | done | |done].
    rewrite W5. plat_simpl. lia. }
  cbv beta. intros _ s6 (R6 & Hramp & _ & E6).
  apply wp_bind. eapply wp_conseq.
  { apply (wp_load_sprites False sprites l (λ ss, plat_right_ramp (platform ss))
             (λ i spr, set_platform (λ p, mkPlatform (plat_flat p) (plat_ramp p)
                                            (<[i := spr]> (plat_right_ramp p)) (plat_left_ramp p)))
             (λ ss, set_platform (λ p, mkPlatform (plat_flat p) (plat_ramp p) []
                                         (plat_left_ramp p)) ss
                    = set_platform (λ p, mkPlatform (plat_flat p) (plat_ramp p) []
                                           (plat_left_ramp p)) (world s6))
             4 30); [done | done | done | |done].
    apply (f_equal (λ ss, plat_right_ramp (platform ss))) in E6.
    plat_simpl_in E6.
    rewrite E6, W5. plat_simpl. lia. }
  cbv beta. intros _ s7 (R7 & Hright & _ & E7).
  eapply wp_conseq.
  { apply (wp_load_sprites False sprites l (λ ss, plat_left_ramp (platform ss))
             (λ i spr, set_platform (λ p, mkPlatform (plat_flat p) (plat_ramp p)
                                            (plat_right_ramp p) (<[i := spr]> (plat_left_ramp p))))
             (λ ss, set_platform (λ p, mkPlatform (plat_flat p) (plat_ramp p)
                                         (plat_right_ramp p) []) ss
                    = set_platform (λ p, mkPlatform (plat_flat p) (plat_ramp p)
                                           (plat_right_ramp p) []) (world s7))
             4 46); [done | done | done | |done].
    apply (f_equal (λ ss, plat_left_ramp (platform ss))) in E7.
    plat_simpl_in E7.
    apply (f_equal (λ ss, plat_left_ramp (platform ss))) in E6.
    plat_simpl_in E6.
    rewrite E7, E6, W5. plat_simpl. lia. }
  cbv beta zeta. intros _ s8 (_ & Hleft & _ & E8).
  destruct (world s5) as [y1 y2 y3 y4 y5 y6 y7 [fl5 rp5 rr5 lr5] y9 y10 y11 y12 y13 y14].
  injection W5 as -> -> -> -> -> -> -> -> -> -> -> -> -> -> -> -> ->.
  clear W3 W4.
  destruct (world s6) as [a1 a2 a3 a4 a5 a6 a7 [fl6 rp6 rr6 lr6] a9 a10 a11 a12 a13 a14].
  destruct (world s7) as [b1 b2 b3 b4 b5 b6 b7 [fl7 rp7 rr7 lr7] b9 b10 b11 b12 b13 b14].
  destruct (world s8) as [c1 c2 c3 c4 c5 c6 c7 [fl8 rp8 rr8 lr8] c9 c10 c11 c12 c13 c14].
  cbn [platform set_platform plat_flat plat_ramp plat_right_ramp plat_left_ramp] in *.
  injection E6 as -> -> -> -> -> -> -> -> -> -> -> -> -> -> -> ->.
  injection E7 as -> -> -> -> -> -> -> -> -> -> -> -> -> -> -> ->.
  injection E8 as -> -> -> -> -> -> -> -> -> -> -> -> -> -> -> ->.
  split_and!; [lia | lia | done | done | done | done | done | done].
Qed.
End SetsOfSeveralArrays.

Section SeveralArrays.
Context `{Headers} {ImageData : Type}.
Implicit Types s : LoadState (@SpriteStorage ImageData).
Implicit Types sprites : gmap Z ImageData.

(** X24. The sprite sets of several arrays.  When a PATH block loads, the
    sprites of the path of its type are what the references of the block
    stand for, and the paths of the other types are as before.  When a TCOR
    block loads, the row of every orientation holds the sprites of its part of
    the block, orientation after orientation.  When a PLAT block loads, its
    type code is 16 and the two flat sprites and the four sprites of each of
    the three kinds of ramps are the 14 references of the block in this
    order.  In each case the other members of the storage are as they
    were. *)
Theorem sprite_sets_of_several_arrays sprites s u s' :
  ((∀ t p, path_sprites (world s) !! t = Some p → length (path_sprites_of p) = PATH_COUNT) →
   LoadPATH sprites s = (Ok u, s') →
   ∃ type pt,
     let path := default Path_new (path_sprites (world s') !! pt) in
     peek16 (remaining (rcd s)) 0 = Some type
     ∧ path_type_of_code (Z.land type 0x7FFF) = Some pt
     ∧ refs_loaded sprites (remaining (rcd s)) 6 PATH_COUNT (path_sprites_of path)
     ∧ (∀ t, t ≠ pt → path_sprites (world s') !! t = path_sprites (world s) !! t)
     ∧ world s' = set_path_sprites (λ _, path_sprites (world s')) (world s))
  ∧ (length (tile_corners (world s)) = VOR_NUM_ORIENT →
     Forall (λ row, length row = NUM_SLOPE_SPRITES) (tile_corners (world s)) →
     LoadTCOR sprites s = (Ok u, s') →
     rcd_version (rcd s) = 2
     ∧ rcd_size (rcd s) = 2 + 2 + 4 * Z.of_nat VOR_NUM_ORIENT * Z.of_nat NUM_SLOPE_SPRITES
     ∧ (∀ v, (v < VOR_NUM_ORIENT)%nat →
          ∃ row, tile_corners (world s') !! v = Some row
                 ∧ length row = NUM_SLOPE_SPRITES
                 ∧ refs_loaded sprites (remaining (rcd s)) (4 + 4 * (v * NUM_SLOPE_SPRITES))
                     NUM_SLOPE_SPRITES row)
     ∧ world s' = set_tile_corners (λ _, tile_corners (world s')) (world s))
  ∧ ((2 ≤ length (plat_flat (platform (world s))))%nat →
     (4 ≤ length (plat_ramp (platform (world s))))%nat →
     (4 ≤ length (plat_right_ramp (platform (world s))))%nat →
     (4 ≤ length (plat_left_ramp (platform (world s))))%nat →
     LoadPLAT sprites s = (Ok u, s') →
     let l := remaining (rcd s) in
     let p := platform (world s') in
     rcd_version (rcd s) = 2
     ∧ rcd_size (rcd s) = 62
     ∧ peek16 l 4 = Some 16
     ∧ refs_loaded sprites l 6 2 (plat_flat p)
     ∧ refs_loaded sprites l 14 4 (plat_ramp p)
     ∧ refs_loaded sprites l 30 4 (plat_right_ramp p)
     ∧ refs_loaded sprites l 46 4 (plat_left_ramp p)
     ∧ world s' = set_platform (λ _, p) (world s)).
Proof.
  split_and!.
  - intros Hshape E. exact (wp_Ok _ _ _ _ _ _ (wp_LoadPATH_loads sprites s Hshape) E).
  - intros Hrows Hcols E.
    exact (wp_Ok _ _ _ _ _ _ (wp_LoadTCOR_loads sprites s Hrows Hcols) E).
  - intros Hf Hr Hrr Hlr E.
    exact (wp_Ok _ _ _ _ _ _ (wp_LoadPLAT_loads sprites s Hf Hr Hrr Hlr) E).
Qed.
End SeveralArrays.

Lemma sprite_sets_of_several_arrays_witness :
  let s := mkState (reader_at_payload "PLAT" 2 example_plat_payload)
                   (@SpriteStorage_new example_headers nat 64) in
  ∃ s', @LoadPLAT nat {[1 := 7%nat; 2 := 9%nat]} s = (Ok tt, s')
        ∧ plat_flat (platform (world s')) !! 1%nat = Some (Some 7%nat)
        ∧ plat_left_ramp (platform (world s')) !! 0%nat = Some (Some 9%nat).
Proof.
  intros s.
  assert (∃ s', @LoadPLAT nat {[1 := 7%nat; 2 := 9%nat]} s = (Ok tt, s'))
    as [s' E] by (vm_compute; eauto).
  exists s'. split; [exact E|].
  destruct (@sprite_sets_of_several_arrays example_headers nat {[1 := 7%nat; 2 := 9%nat]}
              s tt s') as (_ & _ & Hplat).
  destruct Hplat as (_ & _ & _ & Hflat & _ & _ & Hleft & _);
    [vm_compute; lia.. | exact E |].
  assert (Hres1 : resolve ({[1 := 7%nat; 2 := 9%nat]} : gmap Z nat) 1 = Some (Some 7%nat))
    by (vm_compute; reflexivity).
  assert (Hres2 : resolve ({[1 := 7%nat; 2 := 9%nat]} : gmap Z nat) 2 = Some (Some 9%nat))
    by (vm_compute; reflexivity).
  split.
  - destruct (Hflat 1%nat) as (id & spr & Hid & Hres & Hspr); [lia|].
    assert (Hid' : peek32 (remaining (rcd s)) (6 + 4 * 1) = Some 1) by (vm_compute; reflexivity).
    rewrite Hid' in Hid. injection Hid as <-. congruence.
  - destruct (Hleft 0%nat) as (id & spr & Hid & Hres & Hspr); [lia|].
    assert (Hid' : peek32 (remaining (rcd s)) (46 + 4 * 0) = Some 2) by (vm_compute; reflexivity).
    rewrite Hid' in Hid. injection Hid as <-. congruence.
Defined.

(** ** The pointers of a text block *)

Lemma wp_always {W A} (m : M W A) (s : LoadState W) : wp True m s (λ _ _, True).
Proof. unfold wp. now destruct (m s) as [[a| |] s']. Qed.

Section TextPointers.
Implicit Types buffer text : list byte.

Lemma take_drop_agree (l l' : list byte) (k p n : nat) :
  take k l = take k l' → (p + n ≤ k)%nat → (k ≤ length l)%nat → (k ≤ length l')%nat →
  take n (drop p l) = take n (drop p l').
Proof.
  intros E Hle Hl Hl'.
  rewrite <- (take_drop k l), <- (take_drop k l'), E.
  rewrite !drop_app_le by (rewrite length_take; lia).
  rewrite !take_app_le; [done | |]; rewrite length_drop, length_take; lia.
Qed.

Lemma text_in_written buffer used text p :
  0 ≤ used → used + Z.of_nat (length text) ≤ Z.of_nat (length buffer) →
  text_in buffer used p →
  text_in (take (Z.to_nat used) buffer ++ text ++ drop (Z.to_nat used + length text) buffer)
          (used + Z.of_nat (length text)) p.
Proof.
  intros Hused Hroom (Hp & t & Ht & Hle & Htake). split; [done|].
  exists t. split_and!; [done | lia |].
  etrans; [|exact Htake].
  apply (take_drop_agree _ _ (Z.to_nat used)); [| lia | | lia].
  - rewrite take_app_length'; [done|]. rewrite length_take. lia.
  - rewrite !length_app, length_take, length_drop. lia.
Qed.

Lemma text_in_new buffer used text :
  0 ≤ used → used + Z.of_nat (length text) ≤ Z.of_nat (length buffer) →
  utf8_text text →
  text_in (take (Z.to_nat used) buffer ++ text ++ drop (Z.to_nat used + length text) buffer)
          (used + Z.of_nat (length text)) used.
Proof.
  intros Hused Hroom Ht. split; [done|]. exists text. split_and!; [done | lia |].
  rewrite drop_app_length'; [|rewrite length_take; lia].
  now rewrite take_app_length.
Qed.

Lemma pointers_ok_written buffer used text ts :
  0 ≤ used → used + Z.of_nat (length text) ≤ Z.of_nat (length buffer) →
  pointers_ok buffer used ts →
  pointers_ok (take (Z.to_nat used) buffer ++ text ++ drop (Z.to_nat used + length text) buffer)
              (used + Z.of_nat (length text)) ts.
Proof.
  intros Hused Hroom [Hname Hlangs].
  split; intros p Hp; apply text_in_written; auto.
Qed.

Lemma text_in_take buffer used p :
  0 ≤ used ≤ Z.of_nat (length buffer) →
  text_in buffer used p → text_at (take (Z.to_nat used) buffer) p.
Proof.
  intros Hused (Hp & t & Ht & Hle & Htake). split; [done|]. exists t.
  rewrite length_take. split_and!; [done | lia |].
  etrans; [|exact Htake].
  apply (take_drop_agree _ _ (Z.to_nat used)); [| lia | | lia].
  - now rewrite take_take, Nat.min_id.
  - rewrite length_take. lia.
Qed.
End TextPointers.

Section TextDataPointers.
Context `{Headers} {W : Type}.
Implicit Types s : LoadState W.
Implicit Types l : TextLocals.

Lemma texts_ok_write_language named l i ts lang_idx text :
  texts_ok named l → tl_strings l !! i = Some ts → utf8_text text →
  tl_used_size l + Z.of_nat (length text) ≤ 64 * 1024 →
  ∀ len used_strings,
    texts_ok named
      (mkTextLocals
         (take (Z.to_nat (tl_used_size l)) (tl_buffer l) ++ text
          ++ drop (Z.to_nat (tl_used_size l) + length text) (tl_buffer l))
         (tl_used_size l + Z.of_nat (length text)) len
         (<[i := mkTextString (ts_name ts)
                   (<[lang_idx := Some (tl_used_size l)]> (ts_languages ts))]> (tl_strings l))
         used_strings).
Proof.
  intros (Hused & Hbuf & Hptrs & Hnames) Hts Htext Hroom len used_strings.
  unfold texts_ok. cbn [tl_buffer tl_used_size tl_strings].
  rewrite length_write by lia. split_and!; [lia | lia | done | |].
  - apply Forall_insert.
    + eapply Forall_impl; [exact Hptrs|]. intros ts' Hts'. apply pointers_ok_written; [lia..|done].
    + destruct (proj1 (Forall_lookup _ _) Hptrs _ _ Hts) as [Hname Hlangs].
      split; cbn [ts_name ts_languages].
      * intros p Hp. apply text_in_written; [lia | lia |]. now apply Hname.
      * intros p [j Hj]%list_elem_of_lookup_1.
        destruct (decide (j = lang_idx)) as [->|Hne].
        -- assert (lang_idx < length (ts_languages ts))%nat as Hlt.
           { apply lookup_lt_Some in Hj. now rewrite length_insert in Hj. }
           rewrite list_lookup_insert_eq in Hj by done. injection Hj as <-.
           apply text_in_new; [lia | lia | done].
        -- rewrite list_lookup_insert_ne in Hj by done.
           apply text_in_written; [lia | lia |]. apply Hlangs.
           now apply list_elem_of_lookup_2 in Hj.
  - intros j ts' Hj Hts'. destruct (decide (j = i)) as [->|Hne].
    + assert (i < length (tl_strings l))%nat as Hlt by now apply lookup_lt_Some in Hts.
      rewrite list_lookup_insert_eq in Hts' by done. injection Hts' as <-.
      cbn [ts_name]. now apply (Hnames i).
    + rewrite list_lookup_insert_ne in Hts' by done. now apply (Hnames j).
Qed.

Lemma texts_ok_write_name l i ts text :
  texts_ok (Z.of_nat i) l → tl_strings l !! i = Some ts → utf8_text text →
  tl_used_size l + Z.of_nat (length text) ≤ 64 * 1024 →
  ∀ len used_strings,
    texts_ok (Z.of_nat i + 1)
      (mkTextLocals
         (take (Z.to_nat (tl_used_size l)) (tl_buffer l) ++ text
          ++ drop (Z.to_nat (tl_used_size l) + length text) (tl_buffer l))
         (tl_used_size l + Z.of_nat (length text)) len
         (<[i := mkTextString (Some (tl_used_size l)) (ts_languages ts)]> (tl_strings l))
         used_strings).
Proof.
  intros (Hused & Hbuf & Hptrs & Hnames) Hts Htext Hroom len used_strings.
  assert (i < length (tl_strings l))%nat as Hlt by now apply lookup_lt_Some in Hts.
  unfold texts_ok. cbn [tl_buffer tl_used_size tl_strings].
  rewrite length_write by lia. split_and!; [lia | lia | done | |].
  - apply Forall_insert.
    + eapply Forall_impl; [exact Hptrs|]. intros ts' Hts'. apply pointers_ok_written; [lia..|done].
    + destruct (proj1 (Forall_lookup _ _) Hptrs _ _ Hts) as [Hname Hlangs].
      split; cbn [ts_name ts_languages].
      * intros p [= <-]. apply text_in_new; [lia | lia | done].
      * intros p Hp. apply text_in_written; [lia | lia |]. now apply Hlangs.
  - intros j ts' Hj Hts'. destruct (decide (j = i)) as [->|Hne].
    + rewrite list_lookup_insert_eq in Hts' by done. now injection Hts' as <-.
    + rewrite list_lookup_insert_ne in Hts' by done. apply (Hnames j); [lia | done].
Qed.

Lemma texts_ok_locals named l len used_strings :
  texts_ok named l →
  texts_ok named (mkTextLocals (tl_buffer l) (tl_used_size l) len (tl_strings l) used_strings).
Proof. done. Qed.

(** The inner loop keeps the pointers good. *)
Lemma wp_load_translations_texts named fuel : ∀ trs l s,
  texts_ok named l →
  wp True (load_translations fuel trs l) s (λ l' _,
    texts_ok named l' ∧ tl_used_strings l' = tl_used_strings l).
Proof.
  assert (∀ trs l s, texts_ok named l →
            wp True (_ ← assert_that (trs = 0); mret l) s (λ l' _,
              texts_ok named l' ∧ tl_used_strings l' = tl_used_strings l)) as Hend.
  { intros trs l s Hl. apply wp_bind. unfold assert_that. case_decide; [|exact I].
    apply wp_ret, wp_ret. done. }
  induction fuel as [|fuel IH]; intros trs l s Hl; cbn [load_translations];
    (case_decide as Hpos; [|now apply Hend]); [exact I|].
  case_decide as Hl3; [apply wp_return_false|].
  apply wp_bind, wp_GetUInt16. intros b0 b1 r0 s0 _ _ _.
  apply wp_bind, wp_GetUInt8. intros b2 r1 s1 _ _ _.
  pose proof (u16_range b0 b1) as Htr. pose proof (byte_val_range b2) as Hlang.
  set (tr_length := Z.lor (byte_val b0) (Z.shiftl (byte_val b1) 8)) in *.
  cbv zeta.
  case_decide as Hfit; [apply wp_return_false|].
  case_decide as Hspace; [apply wp_return_false|].
  apply wp_bind. eapply wp_conseq; [apply wp_always|]. intros [lang_buffer used] s2 _.
  apply wp_bind. case_decide as Hidx.
  - apply wp_bind. unfold set_language.
    destruct (tl_strings l !! Z.to_nat (tl_used_strings l)) as [ts|] eqn:Ets; [|exact I].
    case_decide as Hin; [|exact I]. apply wp_ret.
    pose proof Hl as (Hused & Hbuf & _).
    apply wp_bind, wp_ReadUtf8Text; [lia | lia | lia |].
    intros text s3 _ Hlen Htext Hroom. apply wp_ret.
    eapply wp_conseq; [apply IH | cbv beta; intros l' s4 [Hl' Hus']; now split].
    rewrite <- Hlen.
    apply (texts_ok_write_language named l _ ts); [done | done | done | lia].
  - apply wp_bind. eapply wp_conseq; [apply wp_always|]. intros [lb u] s3 _.
    apply wp_ret.
    eapply wp_conseq; [apply IH | cbv beta; intros l' s4 [Hl' Hus']; now split].
    now apply texts_ok_locals.
Qed.

(** The outer loop keeps the pointers good, and gives every string a name. *)
Lemma wp_load_strings_texts fuel : ∀ l s,
  0 ≤ tl_used_strings l → texts_ok (tl_used_strings l) l →
  wp True (load_strings fuel l) s (λ l' _,
    0 ≤ tl_used_strings l' ∧ texts_ok (tl_used_strings l') l').
Proof.
  assert (∀ l s, 0 ≤ tl_used_strings l → texts_ok (tl_used_strings l) l →
            wp True (_ ← assert_that (tl_length l = 0); mret l) s (λ l' _,
              0 ≤ tl_used_strings l' ∧ texts_ok (tl_used_strings l') l')) as Hend.
  { intros l s Hus Hl. apply wp_bind. unfold assert_that. case_decide; [|exact I].
    apply wp_ret, wp_ret. done. }
  induction fuel as [|fuel IH]; intros l s Hus Hl; cbn [load_strings];
    (case_decide as Hpos; [|now apply Hend]); [exact I|].
  case_decide as Hmax; [apply wp_return_false|].
  case_decide as Hl3; [apply wp_return_false|].
  apply wp_bind, wp_GetUInt16. intros b0 b1 r0 s0 _ _ _.
  apply wp_bind, wp_GetUInt8. intros b2 r1 s1 _ _ _.
  pose proof (byte_val_range b2) as Hident.
  case_decide as Hfit; [apply wp_return_false|]. cbv zeta.
  case_decide as Hspace; [apply wp_return_false|].
  apply wp_bind. unfold set_name.
  destruct (tl_strings l !! Z.to_nat (tl_used_strings l)) as [ts|] eqn:Ets; [|exact I].
  case_decide as Hin; [|exact I]. apply wp_ret.
  pose proof Hl as (Hused & Hbuf & _).
  apply wp_bind, wp_ReadUtf8Text; [lia | lia | lia |].
  intros text s2 _ Hlen Htext Hroom. cbv zeta.
  apply wp_bind. eapply wp_conseq.
  - apply (wp_load_translations_texts (tl_used_strings l + 1)). rewrite <- Hlen.
    rewrite <- (Z2Nat.id (tl_used_strings l)) at 1 by done.
    apply (texts_ok_write_name l _ ts); [| done | done | lia].
    now rewrite Z2Nat.id.
  - cbv beta. intros l' s3 [Hl' Hus']. cbn [tl_used_strings] in Hus'.
    apply IH; cbn [tl_used_strings]; [lia|]. rewrite Hus'. now apply texts_ok_locals.
Qed.

(** X25. The pointers of a TEXT block that has loaded.  Every string of the
    loaded [TextData] has a name, and its name and each of its translations
    that is not [nullptr] point into the text data of the block, at a text:
    well-formed UTF-8 that ends with a NUL within the text data. *)
Theorem TextData_Load_pointers (s : LoadState W) td s' :
  TextData_Load s = (Ok td, s') →
  Forall (λ ts, (∃ p, ts_name ts = Some p ∧ text_at (text_data td) p)
                ∧ ∀ p, Some p ∈ ts_languages ts → text_at (text_data td) p)
         (td_strings td).
Proof.
  intros E.
  assert (wp True TextData_Load s (λ td _,
            Forall (λ ts, (∃ p, ts_name ts = Some p ∧ text_at (text_data td) p)
                          ∧ ∀ p, Some p ∈ ts_languages ts → text_at (text_data td) p)
                   (td_strings td))) as Hwp; [|exact (wp_Ok _ _ _ _ _ _ Hwp E)].
  unfold TextData_Load. apply wp_bind, wp_get_reader. cbv zeta.
  case_decide as Hver; [apply wp_return_false|].
  apply wp_bind. eapply wp_conseq.
  - apply wp_load_strings_texts; cbn [tl_used_strings]; [done|].
    unfold texts_ok. cbn [tl_buffer tl_used_size tl_strings].
    rewrite length_replicate. split_and!; [done | done | done | |].
    + apply Forall_replicate. split; [done|]. unfold empty_TextString. cbn [ts_languages].
      intros p [[=] _]%elem_of_replicate.
    + intros i ts Hi. lia.
  - cbv beta. intros l s1 (Hus & Hused & Hbuf & Hptrs & Hnames). apply wp_ret.
    cbn [td_strings text_data]. apply Forall_lookup. intros i ts Hts.
    apply lookup_take_Some in Hts as [Hts Hi].
    destruct (proj1 (Forall_lookup _ _) Hptrs _ _ Hts) as [Hname Hlangs].
    destruct (Hnames i ts ltac:(lia) Hts) as [p Hp]. split.
    + exists p. split; [done|]. apply text_in_take; [lia|]. now apply Hname.
    + intros q Hq. apply text_in_take; [lia|]. now apply Hlangs.
Qed.
End TextDataPointers.

Lemma TextData_Load_pointers_witness :
  let s := mkState (reader_at_payload "TEXT" 2 example_text_payload) tt in
  ∃ td s', @TextData_Load example_headers unit s = (Ok td, s')
           ∧ length (td_strings td) = 1%nat
           ∧ Forall (λ ts, (∃ p, ts_name ts = Some p ∧ text_at (text_data td) p)
                           ∧ ∀ p, Some p ∈ ts_languages ts → text_at (text_data td) p)
                    (td_strings td).
Proof.
  intros s.
  assert (∃ td s', @TextData_Load example_headers unit s = (Ok td, s')
                   ∧ length (td_strings td) = 1%nat) as (td & s' & E & Hone)
    by (vm_compute; eauto).
  exists td, s'. split_and!; [exact E | exact Hone |].
  exact (@TextData_Load_pointers example_headers unit s td s' E).
Defined.

(** ** What a failing block leaves of the sprite storage *)

Section InPlaceFrame.
Context `{Headers} {ImageData : Type}.
Implicit Types s : LoadState (@SpriteStorage ImageData).
Implicit Types sprites : gmap Z ImageData.
Implicit Types ss : @SpriteStorage ImageData.

Lemma at_key_lookup_ne {T} (dflt : T) k f (m : gmap Z T) j :
  j ≠ k → at_key dflt k f m !! j = m !! j.
Proof. intros Hne. unfold at_key. now rewrite lookup_insert_ne. Qed.

(** Whatever its outcome, a handler changes the one sprite set that it
    fills. *)
Lemma in_place_handler_frame tag sprites s :
  tag ∈ in_place_tags →
  other_members tag (world (in_place_handler tag sprites s).2) = other_members tag (world s).
Proof.
  intros Hin. unfold in_place_tags in Hin. rewrite !elem_of_cons in Hin.
  assert (∀ (m : M (@SpriteStorage ImageData) unit),
            keeps (λ ss, other_members tag ss = other_members tag (world s)) m →
            other_members tag (world (m s).2) = other_members tag (world s)) as Hkeeps
    by (intros m Hm; now apply Hm).
  destruct Hin as [E|[E|[E|[E|[E|[E|[E|[E|[E|E]]]]]]]]];
    [..|now apply elem_of_nil in E]; subst tag;
    unfold in_place_handler; cbn [decide]; apply Hkeeps;
    unfold LoadSURF, LoadTSEL, LoadPATH, LoadPDEC, LoadTCOR, LoadFUND, LoadPLAT, LoadSUPP,
      LoadBDIR; cbv zeta; keeps ltac:(done).
Qed.

Lemma one_object_differs_refl ss : one_object_differs ss ss.
Proof. now exists 0. Qed.

Lemma keeps_same_objects (m : M (@SpriteStorage ImageData) unit) s :
  keeps (λ ss, surface ss = surface (world s) ∧ path_sprites ss = path_sprites (world s)
               ∧ foundation ss = foundation (world s)) m →
  one_object_differs (world s) (world (m s).2).
Proof.
  intros Hm. destruct (Hm s) as (E1 & E2 & E3); [done|].
  exists 0. intros k _. now rewrite E1, E2, E3.
Qed.

(** Whatever its outcome, [LoadSURF] changes the surface of one ground type,
    [LoadPATH] the path of one path type and [LoadFUND] the foundation of one
    type; the other handlers change none of these. *)
Lemma in_place_handler_object tag sprites s :
  tag ∈ in_place_tags →
  one_object_differs (world s) (world (in_place_handler tag sprites s).2).
Proof.
  intros Hin. unfold in_place_tags in Hin. rewrite !elem_of_cons in Hin.
  destruct Hin as [E|[E|[E|[E|[E|[E|[E|[E|[E|E]]]]]]]]];
    [..|now apply elem_of_nil in E]; subst tag; unfold in_place_handler; cbn [decide].
  - (* SURF *)
    unfold LoadSURF.
    apply (after_reading get_reader _ (one_object_differs (world s)));
      [intros P; apply keeps_get_reader | apply one_object_differs_refl |].
    intros r s0 W0. case_decide; [cbn; rewrite W0; apply one_object_differs_refl|].
    rewrite <- W0.
    apply (after_reading GetUInt16 _ (one_object_differs (world s0)));
      [intros P; apply keeps_GetUInt16 | apply one_object_differs_refl |].
    intros gt s1 W1. cbv zeta.
    match goal with
    | |- context [if decide (?t = GTP_INVALID) then _ else _] => set (type := t)
    end.
    exists type. intros k Hk.
    match goal with
    | |- context [world (?m s1).2] =>
      assert (Hkeep : keeps (λ ss, surface ss !! k = surface (world s0) !! k
                                   ∧ path_sprites ss !! k = path_sprites (world s0) !! k
                                   ∧ foundation ss !! k = foundation (world s0) !! k) m)
    end.
    { keeps ltac:(cbn [surface path_sprites foundation set_surface];
                  rewrite ?at_key_lookup_ne by done; done). }
    apply Hkeep. now rewrite W1.
  - apply keeps_same_objects. unfold LoadTSEL. keeps ltac:(done).
  - (* PATH *)
    unfold LoadPATH.
    apply (after_reading get_reader _ (one_object_differs (world s)));
      [intros P; apply keeps_get_reader | apply one_object_differs_refl |].
    intros r s0 W0. case_decide; [cbn; rewrite W0; apply one_object_differs_refl|].
    rewrite <- W0.
    apply (after_reading GetUInt16 _ (one_object_differs (world s0)));
      [intros P; apply keeps_GetUInt16 | apply one_object_differs_refl |].
    intros type s1 W1.
    destruct (path_type_of_code _) as [pt|];
      [|cbn; rewrite W1; apply one_object_differs_refl].
    exists pt. intros k Hk.
    match goal with
    | |- context [world (?m s1).2] =>
      assert (Hkeep : keeps (λ ss, surface ss !! k = surface (world s0) !! k
                                   ∧ path_sprites ss !! k = path_sprites (world s0) !! k
                                   ∧ foundation ss !! k = foundation (world s0) !! k) m)
    end.
    { keeps ltac:(cbn [surface path_sprites foundation set_path_sprites];
                  rewrite ?at_key_lookup_ne by done; done). }
    apply Hkeep. now rewrite W1.
  - apply keeps_same_objects. unfold LoadPDEC. cbv zeta. keeps ltac:(done).
  - apply keeps_same_objects. unfold LoadTCOR. keeps ltac:(done).
  - (* FUND *)
    unfold LoadFUND.
    apply (after_reading get_reader _ (one_object_differs (world s)));
      [intros P; apply keeps_get_reader | apply one_object_differs_refl |].
    intros r s0 W0. case_decide; [cbn; rewrite W0; apply one_object_differs_refl|].
    rewrite <- W0.
    apply (after_reading GetUInt16 _ (one_object_differs (world s0)));
      [intros P; apply keeps_GetUInt16 | apply one_object_differs_refl |].
    intros tp s1 W1. cbv zeta.
    match goal with
    | |- context [if decide (?t = FDT_INVALID) then _ else _] => set (type := t)
    end.
    exists type. intros k Hk.
    match goal with
    | |- context [world (?m s1).2] =>
      assert (Hkeep : keeps (λ ss, surface ss !! k = surface (world s0) !! k
                                   ∧ path_sprites ss !! k = path_sprites (world s0) !! k
                                   ∧ foundation ss !! k = foundation (world s0) !! k) m)
    end.
    { keeps ltac:(cbn [surface path_sprites foundation set_foundation];
                  rewrite ?at_key_lookup_ne by done; done). }
    apply Hkeep. now rewrite W1.
  - apply keeps_same_objects. unfold LoadPLAT. cbv zeta. keeps ltac:(done).
  - apply keeps_same_objects. unfold LoadSUPP. keeps ltac:(done).
  - apply keeps_same_objects. unfold LoadBDIR. keeps ltac:(done).
Qed.
End InPlaceFrame.

Section FailedLoad.
Context `{Headers} {ImageData TrackPiece Ext : Type}.
Variable LoadImage : RcdFileReader → option ImageData * nat.
Variable TrackPiece_Load : RcdFileReader → gmap Z ImageData → option TrackPiece * nat.
Variable external : string → RcdFileReader → gmap Z ImageData → gmap Z TextData →
                    gmap Z TrackPiece → Ext → bool * nat * Ext.
Implicit Types ls : @LoopState ImageData TrackPiece Ext.

Local Abbreviation Load_block' := (Load_block LoadImage TrackPiece_Load external).
Local Abbreviation Load_loop' := (Load_loop LoadImage TrackPiece_Load external).

Lemma skip_block_Return msg ls m ls' :
  skip_block msg ls = Return m ls' → ls_manager ls' = ls_manager ls.
Proof.
  destruct (skip_block_cases msg ls) as [[_ ->]|[_ ->]]; [discriminate | now intros [= <- <-]].
Qed.

Lemma external_block_Return tag msg ls m ls' :
  external_block external tag msg ls = Return m ls' → ls_manager ls' = ls_manager ls.
Proof.
  unfold external_block. destruct (external _ _ _ _ _ _) as [[ok n] e].
  destruct ok; [discriminate | now intros [= <- <-]].
Qed.

Lemma external_block_Continue tag msg ls ls' :
  external_block external tag msg ls = Continue ls' → ls_manager ls' = ls_manager ls.
Proof.
  unfold external_block. destruct (external _ _ _ _ _ _) as [[ok n] e].
  destruct ok; [now intros [= <-] | discriminate].
Qed.

(** A block that fails and is none of the sprite sets leaves the sprite
    manager as it was. *)
Lemma other_block_Return filename blk_num ls m ls' :
  rcd_name (ls_rcd ls) ∉ in_place_tags →
  Load_block' filename blk_num ls = Return m ls' →
  ls_manager ls' = ls_manager ls.
Proof.
  intros Hout. unfold in_place_tags in Hout. rewrite !not_elem_of_cons in Hout.
  destruct Hout as (? & ? & ? & ? & ? & ? & ? & ? & ? & _).
  unfold Load_block.
  repeat (case_decide;
    [first [ done
           | apply skip_block_Return
           | apply external_block_Return
           | idtac ] |]).
  all: try apply skip_block_Return.
  - (* 8PXL, 32PX *)
    destruct (LoadImage _) as [[imd|] n]; [discriminate | now intros [= <- <-]].
  - (* FENC *)
    intros Hl. apply load_object_Return in Hl as [[r ->]|(o & r & Hk)]; [done|].
    destruct (AddFence _ _); discriminate.
  - (* ANIM *)
    intros Hl. apply load_object_Return in Hl as [[r ->]|(o & r & Hk)]; [done|].
    case_decide; [now injection Hk as <- <- | discriminate].
  - (* ANSP *)
    intros Hl. apply load_object_Return in Hl as [[r ->]|(o & r & Hk)]; [done|].
    case_decide; [now injection Hk as <- <-|].
    destruct (AddAnimationSprites _ _); discriminate.
  - (* TEXT *)
    destruct (TextData_Load _) as [[txt| |] st]; [discriminate | | discriminate].
    now intros [= <- <-].
  - (* FSET *)
    intros Hl. apply load_object_Return in Hl as [[r ->]|(o & r & Hk)]; [done|].
    discriminate.
  - (* TIMA *)
    destruct (TimedAnimation_Load _ _ _) as [[u| |] st]; [discriminate | | discriminate].
    now intros [= <- <-].
  - (* TRCK *)
    destruct (TrackPiece_Load _ _) as [[tp|] n]; [discriminate | now intros [= <- <-]].
  - (* CARS *)
    destruct (external_block external "GetNewCarType" _ ls) as [ls1| | |] eqn:E1.
    + intros E2. apply external_block_Return in E2. apply external_block_Continue in E1.
      congruence.
    + intros [= <- <-]. now apply external_block_Return in E1.
    + discriminate.
    + discriminate.
  - (* a block of an unknown kind *)
    intros Hskip. apply skip_block_Return in Hskip. exact Hskip.
Qed.

(** A sprite set that fails: the storage is what its handler has left. *)
Lemma in_place_block_store filename blk_num ls m ls' :
  rcd_name (ls_rcd ls) ∈ in_place_tags →
  Load_block' filename blk_num ls = Return m ls' →
  ∃ st, in_place_handler (rcd_name (ls_rcd ls)) (ls_sprites ls)
          (mkState (ls_rcd ls) (store (ls_manager ls))) = (Fail, st)
        ∧ store (ls_manager ls') = world st.
Proof.
  intros Hin. unfold in_place_tags in Hin. rewrite !elem_of_cons in Hin.
  destruct Hin as [E|[E|[E|[E|[E|[E|[E|[E|[E|E]]]]]]]]];
    [..|now apply elem_of_nil in E]; unfold Load_block; rewrite E;
    repeat (rewrite decide_False by (first [discriminate | intros [?|?]; discriminate]));
    rewrite decide_True by reflexivity;
    unfold in_store, in_place_handler;
    repeat (rewrite decide_False by discriminate);
    rewrite ?decide_True by reflexivity;
    match goal with |- context [let '(_, _) := ?x in _] => destruct x as [[u| |] st] end;
    try discriminate; intros [= <- <-]; now exists st.
Qed.

(** C5, as the code has it.  When the loop returns an error message, it has
    loaded the blocks before the failing one, one after the other, and the
    failing block has started from what they installed; nothing is taken
    back.  A failing block that is none of the sprite sets leaves the sprite
    manager as it was before the block: nothing of it is published there;
    and when it is loaded into an object of its own (INFO, 8PXL, 32PX, FENC,
    ANIM, ANSP, TEXT, FSET, TIMA, TRCK) or is of an unknown kind, the other
    registries are as they were too.  A failing block whose handler fills the
    sprite storage in place (SURF, TSEL, PATH, PDEC, TCOR, FUND, PLAT, SUPP,
    BDIR) leaves the list of blocks, the animations and the other registries
    as they were, and every member of the sprite storage other than the
    sprite set that its handler fills; of the surfaces, paths and foundations
    it leaves those of all types but one.  The sprite set itself is as the
    failing handler has left it: what the handler stored before it failed is
    published. *)
Theorem failed_load_keeps_earlier_blocks filename fuel : ∀ blk_num ls msg ls_end,
  Load_loop' fuel filename blk_num ls = Some (Returned (Some msg) ls_end) →
  ∃ blk_num' ls' r,
    blocks_loaded LoadImage TrackPiece_Load external filename blk_num ls blk_num' ls'
    ∧ ReadBlockHeader (ls_rcd ls') = Some r
    ∧ Load_block' filename blk_num' (with_rcd r ls') = Return (Some msg) ls_end
    ∧ (rcd_name r ∉ in_place_tags → ls_manager ls_end = ls_manager ls')
    ∧ (rcd_name r ∈ detached_tags ∨ rcd_name r ∉ recognized_tags →
       ls_manager ls_end = ls_manager ls' ∧ ls_ext ls_end = ls_ext ls')
    ∧ (rcd_name r ∈ in_place_tags →
       blocks (ls_manager ls_end) = blocks (ls_manager ls')
       ∧ sm_animations (ls_manager ls_end) = sm_animations (ls_manager ls')
       ∧ ls_ext ls_end = ls_ext ls'
       ∧ other_members (rcd_name r) (store (ls_manager ls_end))
         = other_members (rcd_name r) (store (ls_manager ls'))
       ∧ one_object_differs (store (ls_manager ls')) (store (ls_manager ls_end))
       ∧ ∃ st,
           in_place_handler (rcd_name r) (ls_sprites ls')
             (mkState r (store (ls_manager ls'))) = (Fail, st)
           ∧ store (ls_manager ls_end) = world st).
Proof.
  induction fuel as [|fuel IH]; intros blk_num ls msg ls_end; [discriminate|].
  cbn [Load_loop]. destruct (ReadBlockHeader (ls_rcd ls)) as [r|] eqn:Hr; [|discriminate].
  destruct (Load_block' filename blk_num (with_rcd r ls)) as [ls1|m ls1|ls1|ls1] eqn:Hblock.
  - intros Hloop. apply IH in Hloop as (b' & ls' & r' & Hloaded & Hr' & Hfail & Hrest).
    exists b', ls', r'. split; [|done]. eapply loaded_next; eassumption.
  - intros [= -> ->]. exists blk_num, ls, r.
    split_and!; [constructor | done | done | | |].
    + intros Hname. exact (other_block_Return _ _ (with_rcd r ls) _ _ Hname Hblock).
    + intros Hname.
      exact (detached_block_Return _ _ _ _ _ (with_rcd r ls) _ _ Hname Hblock).
    + intros Hname.
      destruct (in_place_block_Return _ _ _ _ _ (with_rcd r ls) _ _ Hname Hblock)
        as (Hblocks & Hanims & Hext).
      destruct (in_place_block_store _ _ (with_rcd r ls) _ _ Hname Hblock) as (st & Est & Hst).
      cbn [ls_rcd ls_sprites ls_manager with_rcd] in Est.
      split_and!; [done | done | done | | | now exists st].
      * rewrite Hst.
        pose proof (in_place_handler_frame (rcd_name r) (ls_sprites ls)
                      (mkState r (store (ls_manager ls))) Hname) as Hframe.
        now rewrite Est in Hframe.
      * rewrite Hst.
        pose proof (in_place_handler_object (rcd_name r) (ls_sprites ls)
                      (mkState r (store (ls_manager ls))) Hname) as Hobj.
        now rewrite Est in Hobj.
  - discriminate.
  - discriminate.
Qed.
End FailedLoad.

Lemma failed_load_keeps_earlier_blocks_witness :
  ∃ ls_end blk_num' ls' r,
    example_Load example_bad_surf_file
    = Some (Returned (Some "Surface block loading failed."%string) ls_end)
    ∧ @blocks_loaded example_headers nat unit unit
        example_LoadImage example_TrackPiece_Load example_external "example.rcd" 1
        (example_state (mkReader example_bad_surf_file 8 "" 0 0)) blk_num' ls'
    ∧ ReadBlockHeader (ls_rcd ls') = Some r
    ∧ @Load_block example_headers nat unit unit example_LoadImage example_TrackPiece_Load
        example_external "example.rcd" blk_num' (with_rcd r ls')
      = Return (Some "Surface block loading failed."%string) ls_end
    ∧ (rcd_name r = "SURF"%string →
       tile_select (store (ls_manager ls_end)) = tile_select (store (ls_manager ls'))).
Proof.
  assert (∃ ls_end, example_Load example_bad_surf_file
                    = Some (Returned (Some "Surface block loading failed."%string) ls_end))
    as [ls_end Hload] by (vm_compute; eauto).
  pose proof Hload as Hloop.
  destruct (@failed_load_keeps_earlier_blocks example_headers nat unit unit
              example_LoadImage example_TrackPiece_Load example_external
              "example.rcd"%string (S (length example_bad_surf_file)) 1
              (example_state (mkReader example_bad_surf_file 8 "" 0 0))
              "Surface block loading failed."%string ls_end Hloop)
    as (b' & ls' & r & Hloaded & Hr & Hfail & _ & _ & Hplace).
  exists ls_end, b', ls', r.
  split_and!; [exact Hload | exact Hloaded | exact Hr | exact Hfail |].
  intros Hname. destruct Hplace as (_ & _ & _ & Hothers & _).
  - rewrite Hname. unfold in_place_tags. rewrite !elem_of_cons. now left.
  - rewrite Hname in Hothers. exact (f_equal tile_select Hothers).
Defined.
